(* ===== verification/_CoqProject ===== *)
-Q . S2P
Prelude.v
Fs.v
Interfaces.v
Protocol.v
Serde.v
Crypto.v
History.v
Pairing.v
Session.v
SessionTyping.v
Registry.v
Config.v
RateLimit.v
Mailbox.v
Outbox.v
OutboxRace.v
Room.v
PairingRelay.v
Connection.v
Server.v
PairingClient.v
Backoff.v
EndToEnd.v
Dispatcher.v
Ffi.v
Main.v
Regex.v
Filter.v
Pasteboard.v
MacApp.v
MacCore.v
CopyPaste.v
Android.v
AndroidCore.v
AndroidUi.v
AndroidGateway.v
AndroidScreens.v
PhonePaste.v
SimClient.v
