(* ===== verification/Prelude.v ===== *)
(** * ClipSync: a verification development

    ClipSync copies clipboard items between two paired devices through a
    relay that cannot read them.  The library of the devices is
    [src/crates/core], the relay [src/crates/server], the applications over the
    library [src/macos] and [src/android].

    ** Parts and how they interact

    A device has an identity (crypto.rs) and pairs with one other device
    (pairing.rs): the offerer shows a QR code, the claimer scans it, the relay
    exchanges their public bundles (the relay's pairing.rs), and both users
    compare a short authentication string.  A paired device joins its room
    with a signature over the relay's challenge (pairing_client.rs,
    connection.rs), then exchanges sealed clips (session.rs) which it records
    (history.rs).  The platform shells drive all this through one handle and
    its dispatcher (ffi.rs).  The relay keeps which identities form a room
    (registry.rs), one actor per room (room.rs), the latest undelivered clip
    of each (mailbox.rs), and limits (config.rs, ratelimit.rs); server.rs
    admits connections.  The macOS application polls the pasteboard
    (PasteboardMonitor.swift), filters what may leave (SensitiveContentFilter
    .swift), and calls the handle through one serial queue (CoreService.swift,
    AppModel.swift); the Android application does the same from a service
    (ClipSyncApp.kt, ClipboardPayload.kt).  A smoke client (sim_client.rs)
    drives two devices through a deployed relay.

    ** Files

    - [Prelude]: results, bytes, strings, machine integers, list lemmas.
    - [Fs]: the file system with failing calls, crashes and power losses; the
      [io] monad and its weakest precondition with a crash condition, [wpc].
    - [Interfaces]: the third-party crates as classes with their laws, and
      toy instances on which the witnesses run.
    - [Protocol], [Crypto], [History], [Pairing], [Session]: the files of the
      core crate with the same names.  [Serde]: the JSON codec of frames from
      the attributes protocol.rs declares.
    - [Registry], [Config], [RateLimit], [Mailbox], [Connection], [Server]:
      the files of the server crate with the same names.  [Outbox] and [Room]
      are the two halves of room.rs, [PairingRelay] is the relay's pairing.rs.
      [OutboxRace]: the calls of an outbox split at each atomic operation.
    - [PairingClient]: pairing_client.rs.  [Backoff]: the delays between its
      attempts and those of the Android application, in double precision.  [EndToEnd]: client and relay
      composed.  [Dispatcher] and [Ffi]: the two halves of ffi.rs.
    - [SessionTyping]: the types of the session's state over its runs.
    - [Main]: main.rs, the relay's binary.  [SimClient]: the smoke client, over
      two devices and against the relay.
    - [Regex]: regular expressions with a verified search; it models no file
      and is what [Filter] uses to say which texts the built-in rules find.
    - [Filter], [Pasteboard], [MacApp], [MacCore]: the macOS application, its
      filter and notifier, its clipboard, AppModel and SettingsStore, and
      CoreService over [Ffi].
    - [CopyPaste]: two macOS applications, their cores and the relay composed.
    - [Android], [AndroidCore]: capture, image stores and clipboard of the
      Android application, and the life of its core over two threads.
      [AndroidUi]: all of ClipSyncApp.kt, as programs over the state it shows,
      interleaved operation by operation.  [AndroidGateway]: CoreGateway.kt
      over [Ffi].  [AndroidScreens]: the thumbnails, the QR scanner and the
      activity that reads the clipboard.  [PhonePaste]: a device, the relay
      and the Android application composed.

    A definition has the name of the function it translates, with the type in
    front where several files use one name ([registry_persist]).  Pure
    functions are functions; [&mut self] is the new state next to the result;
    an error is a value of [result]; a call that reaches the disk is in [io];
    a panic is an explicit outcome.  What is shared between tasks is a
    transition system that interleaves them at the points where the source
    can be preempted: [device_step] (one device over restarts),
    [mailbox_step], the steps of the rooms, of the pairing relay and of the
    connections, [system_step] (the whole relay), [race_step] (the callers
    of one outbox, one atomic operation at a time), [handle_step] (the critical
    sections of the handle), [app_step] (the macOS application with the calls
    that are outstanding), [ex_step] (its serial queue and the tasks that
    carry the completions), [android_step] (two threads of the Android
    application), [ui_do] (every thread of it, one read or write of the
    shown state at a time), [scan_step] (the camera, the scanner's listeners and
    the view).  [system_step] takes a call of an outbox or of a room's inbox
    as one step; [OutboxRace] shows what that leaves out: a call may also be
    refused while another call gives its bytes back.  Other applications may change the pasteboard between any two
    calls that look at it ([pb_script]).  Clocks, random draws, dials and the outcomes of
    the network are arguments.

    ** What the theorems show

    - Sessions: sequence numbers are never reused, a callback fires at most
      once for a clip, an accepted clip stays in the history or pending and a
      restart replays it, under any failing call, crash or power loss, for a
      device that has one session open at a time; the session's state and every
      document on its disk stay within their types.
    - Durable state: history, identity, pairing record, registry and mailbox
      snapshots are replaced atomically; reopening finds the last or the next
      state.  The persistent registry refines the one in memory.
    - Pairing: both sides end with the same room and the same authentication
      string; codes are used once; a claim gives each side the other's bundle
      or neither side anything; rotation replaces the whole identity.
    - The relay: only members of a room act in it, and only by signing a
      challenge of their own connection; connections, queues, bytes and
      attempts stay within their limits; a joining member gets the pending
      clip or the live one and none is lost in between; the latest clip of a
      room is kept until its time to live has passed, and the recorded sizes
      are those of the snapshots and within the quota; senders that race for
      an outbox never exceed its bounds.
    - The protocol: codecs round-trip down to their fields, the order check is its table, the
      client only sends frames that are legal where it sends them, and waits
      between attempts within a fifth of the time its doubling prescribes.
    - Composition: an honest join is admitted, and a clip sealed by one
      device opens at the other as it was sent.  A text copied on one Mac is
      on the pasteboard of the other, and is not sent back; a clip sent by any
      device is on the phone's clipboard.
    - The handle: the authentication string shown belongs to the channel a
      confirmation gets; an answered send was sealed under its number; a
      failing host loses no clip.
    - The applications: what the macOS application sends is a copy of the user
      that the filter allowed, the filter blocks exactly the texts its rules
      describe, a mailbox clip never overwrites a copy made since the
      disconnection, the calls to the core run in order, are each answered
      once and come to an end; the Android application answers every send
      once, saves an image to the gallery with all its bytes and inserts none it
      finds there, shows only what the core said, asks
      the core only for what its user asked for, and writes the clipboard only
      for a live clip or an item the user chose, in every interleaving of its
      threads; a confirmation succeeds only for the code of the device's own
      channel.
    - The smoke client: a pass means that each clip arrived once, in order and
      unchanged, and the probe of the join limit passes exactly when the relay
      has counted one to four joins.
    - Defects: the theorems whose comment says so, or whose names end in
      [wedges], [sticks], [is_lost], [send_lost], [missed], [dropped],
      [drops_rooms], [panics], [reuses_sequence], [never_applied],
      [hides_connected], [hides_disconnection], [keeps_loading],
      [after_dispose], [overwritten], [sent_twice], [empties_pasteboard],
      [overtaken_by_retry], [loses_image] or [file_stays], exhibit runs in which the source does not
      do what it means to.

    ** Bounds and fuel

    Integers of the source keep their width where it matters: [u64] sequence
    numbers and generations are checked, the [u32] counters wrap or saturate
    as written.  Recursion is structural.  The loops that retry for ever
    ([reconnect], the read loop, the publication worker) are one iteration, or
    run over the list of what the environment will do, so a theorem about them
    holds for lists of any length; [reconnect] is [None] while its list is not
    enough.  The smoke client's theorem is for images of any sizes, since its
    two images are too large to evaluate.  The hundred attempts of [stop_active] are the source's own bound.
    The fuel of [sample_loop] is 32: a 32-bit size is halved at most thirty
    times, and the theorem shows that the loop ends within it; that of
    [blank_in] is the length of the text, of which each round removes a part.

    ** Not modelled

    - Third-party code: the JSON machinery of serde, base64, the cryptographic primitives, UUID text,
      TLS, websockets, axum and the tokio scheduler.  The first group are
      classes; the scheduler is the interleaving of the transition systems.
    - TLS roots and websocket limits of pairing_client.rs; the router, the bind and the accept loop of
      server.rs; the HTTP request of the health check.
    - Log lines, [Debug] texts, test hooks and test-only methods.
    - Secrecy against an attacker who computes: the AEAD, signature and
      key-agreement classes state functional laws, and what the theorems say
      of the relay is about what it does, not what it could learn.
    - The platforms: NSPasteboard, ImageIO, BitmapFactory, NSRegularExpression,
      Foundation, content resolvers, the camera and notification centres are
      classes or arguments; views, activities, services and login items are
      left out.
    - The binding generator and the generated bindings, deployment files and
      scripts. *)

From stdpp Require Export base tactics gmap strings list fin_maps pretty relations.
From Stdlib Require Export ZArith Lia.
From Stdlib Require Import Strings.Byte.

Set Default Goal Selector "!".

Declare Scope clip_scope.
Delimit Scope clip_scope with clip.

(** ** Results: Rust's [Result<T, E>] *)

Inductive result (A E : Type) :=
| Ok (a : A)
| Err (e : E).
Arguments Ok {A E} a.
Arguments Err {A E} e.

(** Rust's [?] on a pure [Result]. *)
Definition rbind {A B E} (m : result A E) (k : A -> result B E) : result B E :=
  match m with Ok a => k a | Err e => Err e end.

Notation "x '←?' m ; k" := (rbind m (fun x => k))
  (at level 20, m at level 100, k at level 200, only parsing) : clip_scope.

Definition is_ok {A E} (r : result A E) : bool :=
  match r with Ok _ => true | Err _ => false end.

(** [Result::ok]. *)
Definition ok {A E} (r : result A E) : option A :=
  match r with Ok a => Some a | Err _ => None end.

(** [Result::map_err]. *)
Definition map_err {A E F} (f : E -> F) (r : result A E) : result A F :=
  match r with Ok a => Ok a | Err e => Err (f e) end.

(** [Option::ok_or]. *)
Definition ok_or {A E} (o : option A) (e : E) : result A E :=
  match o with Some a => Ok a | None => Err e end.

(** ** Bytes and strings

    A Rust [u8] is a [Byte.byte]; a Rust [String] or [&str] is the Rocq
    [string] of its UTF-8 bytes, so that [len] counts bytes as in Rust. *)

Abbreviation byte := Byte.byte.
Abbreviation bytes := (list byte).

Definition bval (b : byte) : Z := Z.of_N (Byte.to_N b).

#[global] Instance byte_eq_decision : EqDecision byte := Byte.byte_eq_dec.

#[global] Program Instance byte_countable : Countable byte :=
  inj_countable Byte.to_N Byte.of_N _.
Next Obligation. intros b. apply Byte.of_to_N. Qed.

Definition as_bytes (s : string) : bytes := String.list_byte_of_string s.
Definition str_of_bytes (b : bytes) : string := String.string_of_list_byte b.

(** [u8::is_ascii_digit], [is_ascii_uppercase], [is_ascii_hexdigit]. *)
Definition in_range (lo hi : Z) (b : byte) : bool := (lo <=? bval b)%Z && (bval b <=? hi)%Z.
Definition is_ascii_digit (b : byte) : bool := in_range 48 57 b.
Definition is_ascii_uppercase (b : byte) : bool := in_range 65 90 b.
Definition is_ascii_hexdigit (b : byte) : bool :=
  is_ascii_digit b || in_range 97 102 b || in_range 65 70 b.

(** [byte.is_ascii_digit() || (b'a'..=b'f').contains(&byte)], the test every
    identifier of the protocol goes through. *)
Definition is_lower_hex (b : byte) : bool := is_ascii_digit b || in_range 97 102 b.
Definition lower_hex (n : nat) (s : string) : bool :=
  bool_decide (String.length s = n) && forallb is_lower_hex (as_bytes s).

(** Lexicographic order of byte slices, Rust's [Ord] on [[u8]] and on [str]. *)
Fixpoint bytes_leb (a b : bytes) : bool :=
  match a, b with
  | [], _ => true
  | _ :: _, [] => false
  | x :: a, y :: b =>
      if (bval x <? bval y)%Z then true
      else if (bval y <? bval x)%Z then false
      else bytes_leb a b
  end.

Definition str_leb (s t : string) : bool := bytes_leb (as_bytes s) (as_bytes t).

(** [str::strip_prefix] and [str::strip_suffix]. *)
Fixpoint strip_prefix (prefix s : bytes) : option bytes :=
  match prefix, s with
  | [], s => Some s
  | p :: prefix, c :: s => if bool_decide (p = c) then strip_prefix prefix s else None
  | _ :: _, [] => None
  end.

Definition strip_suffix (suffix s : bytes) : option bytes :=
  reverse <$> strip_prefix (reverse suffix) (reverse s).

(** ** Machine integers, kept as [Z] with their bounds *)

Definition u32_max : Z := 2 ^ 32 - 1.
Definition u64_max : Z := 2 ^ 64 - 1.
Definition i64_max : Z := 2 ^ 63 - 1.
Definition i64_min : Z := - 2 ^ 63.

Definition i64_range (z : Z) : Prop := (i64_min <= z <= i64_max)%Z.

(** [u64::checked_add], [u64::saturating_add], [i64::saturating_sub], [u32::try_from],
    [i64::try_from(_).unwrap_or(i64::MAX)] on a non-negative value. *)
Definition checked_add_u64 (a b : Z) : option Z :=
  if (a + b <=? u64_max)%Z then Some (a + b)%Z else None.
Definition saturating_add_u64 (a b : Z) : Z := Z.min (a + b) u64_max.
Definition saturating_sub_i64 (a b : Z) : Z := Z.max i64_min (Z.min (a - b) i64_max).
Definition clamp_i64 (z : Z) : Z := if (z <=? i64_max)%Z then z else i64_max.

(** ** Bounded rings: [v.push(x)] followed by [v.drain(..v.len() - cap)] when too long *)

Definition keep_last {A} (cap : nat) (l : list A) : list A := drop (length l - cap) l.
Definition push_ring {A} (cap : nat) (l : list A) (x : A) : list A := keep_last cap (l ++ [x]).

(** ** Automation shared by the components *)

Create HintDb clip.

(** Case analysis on the boolean tests of a translated function. *)
Ltac case_bool :=
  match goal with
  | |- context [if ?b then _ else _] =>
      match type of b with bool => destruct b eqn:? end
  | H : context [if ?b then _ else _] |- _ =>
      match type of b with bool => destruct b eqn:? end
  end.

(** Turn boolean hypotheses into propositions. *)
Ltac bool_to_prop :=
  repeat match goal with
  | H : (_ && _) = true |- _ => apply andb_true_iff in H; destruct H
  | H : (_ || _) = false |- _ => apply orb_false_iff in H; destruct H
  | H : negb _ = true |- _ => apply negb_true_iff in H
  | H : negb _ = false |- _ => apply negb_false_iff in H
  | H : bool_decide _ = true |- _ => apply bool_decide_eq_true in H
  | H : bool_decide _ = false |- _ => apply bool_decide_eq_false in H
  | H : (_ <=? _)%Z = true |- _ => apply Z.leb_le in H
  | H : (_ <=? _)%Z = false |- _ => apply Z.leb_gt in H
  | H : (_ <? _)%Z = true |- _ => apply Z.ltb_lt in H
  | H : (_ <? _)%Z = false |- _ => apply Z.ltb_ge in H
  end.

(** ** Lemmas on results *)

Lemma rbind_Ok {A B E} (m : result A E) (k : A -> result B E) b :
  rbind m k = Ok b <-> exists a, m = Ok a /\ k a = Ok b.
Proof. destruct m; simpl; naive_solver. Qed.

Lemma rbind_unit_Ok {E} (m k : result unit E) :
  rbind m (fun _ => k) = Ok tt <-> m = Ok tt /\ k = Ok tt.
Proof. destruct m as [[]|]; simpl; naive_solver. Qed.

Lemma is_ok_unit {E} (m : result unit E) : is_ok m = true <-> m = Ok tt.
Proof. destruct m as [[]|]; simpl; naive_solver. Qed.

(** ** Lemmas on bytes and strings *)

Lemma bval_range b : (0 <= bval b < 256)%Z.
Proof. unfold bval. pose proof (Byte.to_N_bounded b). lia. Qed.

Lemma bval_inj a b : bval a = bval b -> a = b.
Proof.
  unfold bval. intros H. apply N2Z.inj in H.
  pose proof (Byte.of_to_N a) as Ha. pose proof (Byte.of_to_N b) as Hb. congruence.
Qed.

Lemma as_bytes_str (b : bytes) : as_bytes (str_of_bytes b) = b.
Proof. apply String.list_byte_of_string_of_list_byte. Qed.

Lemma str_as_bytes s : str_of_bytes (as_bytes s) = s.
Proof. apply String.string_of_list_byte_of_string. Qed.

#[global] Instance as_bytes_inj : Inj eq eq as_bytes.
Proof. intros s t H. by rewrite <-(str_as_bytes s), H, str_as_bytes. Qed.

Lemma length_as_bytes s : length (as_bytes s) = String.length s.
Proof.
  unfold as_bytes, String.list_byte_of_string. rewrite length_map.
  induction s as [|c s IH]; simpl; [done|]. by rewrite IH.
Qed.

Lemma as_bytes_app s t : as_bytes (s +:+ t) = as_bytes s ++ as_bytes t.
Proof.
  unfold as_bytes, String.list_byte_of_string. rewrite <-List.map_app. f_equal.
  induction s as [|c s IH]; simpl; [done|]. by rewrite IH.
Qed.

(** A text without the separator is recovered from what its first, or last,
    separator cuts off. *)
Lemma sep_prefix_inj (sep : byte) (a b r s : bytes) :
  sep ∉ a -> sep ∉ b -> a ++ sep :: r = b ++ sep :: s -> a = b /\ r = s.
Proof.
  revert b; induction a as [|x a IH]; intros [|y b] Ha Hb; cbn [app].
  - by intros [= ->].
  - intros [= <- _]. set_solver.
  - intros [= -> _]. set_solver.
  - intros [= <- H]. apply IH in H as [-> ->]; [done|set_solver..].
Qed.

Lemma sep_suffix_inj (sep : byte) (a b r s : bytes) :
  sep ∉ r -> sep ∉ s -> a ++ sep :: r = b ++ sep :: s -> a = b /\ r = s.
Proof.
  intros Hr Hs H%(f_equal reverse). rewrite !reverse_app, !reverse_cons, <-!app_assoc in H.
  apply sep_prefix_inj in H as [H1%(inj reverse) H2%(inj reverse)];
    [done|by rewrite elem_of_reverse..].
Qed.

Lemma strip_prefix_Some prefix s rest :
  strip_prefix prefix s = Some rest <-> s = prefix ++ rest.
Proof.
  revert s; induction prefix as [|p prefix IH]; intros [|c s]; simpl.
  - split; congruence.
  - split; congruence.
  - done.
  - case_bool_decide as Hc; [rewrite IH; subst; naive_solver|naive_solver].
Qed.

Lemma strip_suffix_Some suffix s rest :
  strip_suffix suffix s = Some rest <-> s = rest ++ suffix.
Proof.
  unfold strip_suffix. rewrite fmap_Some. setoid_rewrite strip_prefix_Some. split.
  - intros (x & H & ->). by rewrite <-(reverse_involutive s), H, reverse_app, reverse_involutive.
  - intros ->. exists (reverse rest). by rewrite reverse_app, reverse_involutive.
Qed.

Lemma bytes_leb_refl a : bytes_leb a a = true.
Proof. induction a as [|x a IH]; simpl; [done|]. by rewrite Z.ltb_irrefl. Qed.

Lemma bytes_leb_total a b : bytes_leb a b = true \/ bytes_leb b a = true.
Proof.
  revert b; induction a as [|x a IH]; intros [|y b]; simpl; auto.
  destruct (bval x <? bval y)%Z eqn:?, (bval y <? bval x)%Z eqn:?; auto.
Qed.

Lemma bytes_leb_antisym a b : bytes_leb a b = true -> bytes_leb b a = true -> a = b.
Proof.
  revert b; induction a as [|x a IH]; intros [|y b]; simpl; try done.
  destruct (bval x <? bval y)%Z eqn:Hxy, (bval y <? bval x)%Z eqn:Hyx; bool_to_prop; try done; try lia.
  intros H1 H2. f_equal; [apply bval_inj; lia | auto].
Qed.

Lemma str_leb_total s t : str_leb s t = true \/ str_leb t s = true.
Proof. apply bytes_leb_total. Qed.

Lemma str_leb_antisym s t : str_leb s t = true -> str_leb t s = true -> s = t.
Proof. intros H1 H2. apply as_bytes_inj. by apply bytes_leb_antisym. Qed.

Lemma lower_hex_spec n s :
  lower_hex n s = true <->
  String.length s = n /\ Forall (fun b => is_lower_hex b = true) (as_bytes s).
Proof.
  unfold lower_hex. rewrite andb_true_iff, bool_decide_eq_true, forallb_forall.
  rewrite Forall_forall. setoid_rewrite list_elem_of_In. done.
Qed.

(** A lowercase hex character is neither NUL nor a colon, the two separators the
    program joins identifiers with. *)
Lemma is_lower_hex_not_sep b :
  is_lower_hex b = true -> b <> "000"%byte /\ b <> ":"%byte.
Proof. intros H. split; intros ->; vm_compute in H; discriminate. Qed.

(** ** Lemmas on machine integers *)

Lemma checked_add_u64_Some a b c :
  checked_add_u64 a b = Some c <-> c = (a + b)%Z /\ (a + b <= u64_max)%Z.
Proof. unfold checked_add_u64. case_bool; bool_to_prop; split; intros; [simplify_eq; auto| naive_solver | done | lia]. Qed.

Lemma saturating_sub_i64_exact a b :
  i64_range (a - b) -> saturating_sub_i64 a b = (a - b)%Z.
Proof. unfold i64_range, saturating_sub_i64. lia. Qed.

(** ** Lemmas on rings *)

Section rings.
Context {A : Type}.
Implicit Types (l : list A) (x : A).

Lemma length_keep_last cap l : length (keep_last cap l) = min cap (length l).
Proof. unfold keep_last. rewrite length_drop. lia. Qed.

Lemma keep_last_id cap l : length l <= cap -> keep_last cap l = l.
Proof. intros H. unfold keep_last. by replace (length l - cap) with 0 by lia. Qed.

Lemma keep_last_suffix cap l : exists pre, l = pre ++ keep_last cap l.
Proof. exists (take (length l - cap) l). unfold keep_last. by rewrite take_drop. Qed.

Lemma elem_of_keep_last cap l x : x ∈ keep_last cap l -> x ∈ l.
Proof. destruct (keep_last_suffix cap l) as [pre Heq]. rewrite Heq at 2. set_solver. Qed.

Lemma length_push_ring cap l x : length (push_ring cap l x) <= cap.
Proof. unfold push_ring. rewrite length_keep_last. lia. Qed.

Lemma elem_of_push_ring cap l x y : y ∈ push_ring cap l x -> y ∈ l \/ y = x.
Proof. intros H%elem_of_keep_last. set_solver. Qed.

Lemma push_ring_last cap l x : 0 < cap -> x ∈ push_ring cap l x.
Proof.
  intros H. unfold push_ring, keep_last. rewrite length_app; simpl.
  rewrite drop_app_le by lia. set_solver.
Qed.

(** The ring is the old ring, possibly short of its oldest entries, then the new one. *)
Lemma push_ring_keep_last cap l x :
  0 < cap -> push_ring cap l x = keep_last (cap - 1) l ++ [x].
Proof.
  intros H. unfold push_ring, keep_last. rewrite length_app; simpl.
  rewrite drop_app_le by lia. f_equal. f_equal. lia.
Qed.

Lemma NoDup_keep_last cap l : NoDup l -> NoDup (keep_last cap l).
Proof.
  intros H. destruct (keep_last_suffix cap l) as [pre Heq].
  rewrite Heq in H. by apply NoDup_app in H as (?&?&?).
Qed.
End rings.

#[export] Hint Resolve length_push_ring push_ring_last bytes_leb_refl : clip.
