(* ===== verification/Fs.v ===== *)
(** * The file system the program persists to, with faults and crashes

    The relay and the clients persist every durable document with the same
    discipline (temporary file, [write_all], [sync_all], [rename], directory
    [sync_all]; [registry.rs], [mailbox.rs], [session.rs], [pairing.rs],
    [crypto.rs], [history.rs]).  This file models the calls of [std::fs] those
    functions make: a disk whose directory entries may be ahead of what is on
    stable storage, an environment that may make any call fail or crash the
    process at it, and what a restart can find afterwards.  Reasoning about
    the translated functions is by a weakest precondition with a crash
    condition ([wpc]); its rules quantify over every possible fault. *)

From S2P Require Import Prelude.

Set Default Goal Selector "!".

(** ** Disks *)

(** [io::ErrorKind], as far as the program inspects or creates it. *)
Inductive io_error :=
| NotFound | AlreadyExists | InvalidInput | InvalidData | QuotaExceeded | OtherError.

#[global] Instance io_error_eq_decision : EqDecision io_error.
Proof. solve_decision. Defined.

(** A file is named by its directory and its name in it. *)
Record path := Path { p_dir : string; p_name : string }.

#[global] Instance path_eq_decision : EqDecision path.
Proof. solve_decision. Defined.
#[global] Program Instance path_countable : Countable path :=
  inj_countable (fun p => (p_dir p, p_name p)) (fun '(d, n) => Some (Path d n)) _.
Next Obligation. by intros []. Qed.

(** [f_synced]: the data reached stable storage ([File::sync_all]). *)
Record file := File { f_data : bytes; f_synced : bool }.

#[global] Instance file_eq_decision : EqDecision file.
Proof. solve_decision. Defined.

(** [live] is what the running system sees, [durable] the directory entries
    that reached stable storage. *)
Record disk := Disk { live : gmap path file; durable : gmap path file }.

(** What a restart can find.  After a process crash the system still holds
    its caches: nothing changes.  After a power loss every directory entry is
    either the one seen last or the one on stable storage, and the data of a
    file that was not synced is arbitrary. *)
Definition survives (before after : option file) : Prop :=
  match before, after with
  | None, None => True
  | Some f, Some f' => f_synced f' = true /\ (f_synced f = true -> f_data f' = f_data f)
  | _, _ => False
  end.

Inductive restart : disk -> disk -> Prop :=
| restart_process d : restart d d
| restart_power d m :
    (forall p, survives (live d !! p) (m !! p) \/ survives (durable d !! p) (m !! p)) ->
    restart d (Disk m m).

(** ** Worlds and the I/O monad

    [w_faults] is the environment's plan, one entry per file-system call;
    [w_uuid] the supply [Uuid::new_v4] draws from; [w_trace] the externally
    visible events of the component, which a crash does not undo. *)

Inductive fault :=
| NoFault
| FailWith (e : io_error) (partial : nat)
| CrashNow (partial : nat).

Record world (T : Type) := World {
  w_disk : disk;
  w_faults : list fault;
  w_uuid : nat -> string;
  w_next : nat;
  w_trace : list T
}.
Arguments World {T} _ _ _ _ _.
Arguments w_disk {T} _.
Arguments w_faults {T} _.
Arguments w_uuid {T} _.
Arguments w_next {T} _.
Arguments w_trace {T} _.

Inductive outcome (A : Type) := Done (a : A) | Crashed.
Arguments Done {A} a.
Arguments Crashed {A}.

Definition io (T A : Type) : Type := world T -> outcome A * world T.

#[global] Instance io_ret T : MRet (io T) := fun A a w => (Done a, w).
#[global] Instance io_bind T : MBind (io T) := fun A B k m w =>
  match m w with
  | (Done a, w') => k a w'
  | (Crashed, w') => (Crashed, w')
  end.

(** Rust's [?] inside a function that does I/O; [f] is the [From] conversion
    of the error. *)
Definition try_io {T A B E F} (f : E -> F) (m : io T (result A E))
    (k : A -> io T (result B F)) : io T (result B F) :=
  r ← m; match r with Ok a => k a | Err e => mret (Err (f e)) end.

Notation "x ←! m ; k" := (try_io id m (fun x => k))
  (at level 20, m at level 100, k at level 200, only parsing).
Notation "x ←! m @ f ; k" := (try_io f m (fun x => k))
  (at level 20, m at level 100, f at level 90, k at level 200, only parsing).

(** [.map_err(conv)] on the result of a call. *)
Definition lift_err {T A E F} (conv : E -> F) (m : io T (result A E)) : io T (result A F) :=
  r ← m; mret (map_err conv r).

Definition set_disk {T} (d : disk) (w : world T) : world T :=
  World d (w_faults w) (w_uuid w) (w_next w) (w_trace w).
Definition set_faults {T} (fs : list fault) (w : world T) : world T :=
  World (w_disk w) fs (w_uuid w) (w_next w) (w_trace w).

Definition pop_fault {T} (w : world T) : fault * world T :=
  match w_faults w with
  | [] => (NoFault, w)
  | f :: fs => (f, set_faults fs w)
  end.

(** A file that exists is never reported missing. *)
Definition env_error (e : io_error) : io_error :=
  match e with NotFound => OtherError | e => e end.

(** One file-system call: [good] is its effect when the environment lets it
    through, [failed n] and [crashed n] what it may leave behind otherwise. *)
Definition fs_call {T A} (good : disk -> result A io_error * disk)
    (failed crashed : nat -> disk -> disk) : io T (result A io_error) := fun w =>
  let '(f, w) := pop_fault w in
  match f with
  | NoFault => let '(r, d) := good (w_disk w) in (Done r, set_disk d w)
  | FailWith e n => (Done (Err (env_error e)), set_disk (failed n (w_disk w)) w)
  | CrashNow n => (Crashed, set_disk (crashed n (w_disk w)) w)
  end.

(** A call that fails without effect, and that a crash cuts either before or
    after its effect. *)
Definition atomic_call {T A} (good : disk -> result A io_error * disk) : io T (result A io_error) :=
  fs_call good (fun _ d => d) (fun n d => match n with O => d | S _ => snd (good d) end).

Definition emit {T} (e : T) : io T unit := fun w =>
  (Done tt, World (w_disk w) (w_faults w) (w_uuid w) (w_next w) (w_trace w ++ [e])).

(** [Uuid::new_v4]. *)
Definition new_v4 {T} : io T string := fun w =>
  (Done (w_uuid w (w_next w)),
   World (w_disk w) (w_faults w) (w_uuid w) (S (w_next w)) (w_trace w)).

(** ** The calls of [std::fs] *)

Definition set_live (m : gmap path file) (d : disk) : disk := Disk m (durable d).

(** [fs::create_dir_all]: directories are implicit in the names. *)
Definition create_dir_all {T} : io T (result unit io_error) :=
  atomic_call (fun d => (Ok tt, d)).

(** [OpenOptions::new().write(true).create_new(true).open(p)]. *)
Definition open_create_new {T} (p : path) : io T (result unit io_error) :=
  atomic_call (fun d =>
    match live d !! p with
    | Some _ => (Err AlreadyExists, d)
    | None => (Ok tt, set_live (<[p := File [] false]> (live d)) d)
    end).

(** [OpenOptions::new().write(true).create(true).truncate(true).open(p)], [File::create]. *)
Definition open_truncate {T} (p : path) : io T (result unit io_error) :=
  atomic_call (fun d => (Ok tt, set_live (<[p := File [] false]> (live d)) d)).

Definition append_data (p : path) (data : bytes) (d : disk) : disk :=
  match live d !! p with
  | Some f => set_live (<[p := File (f_data f ++ data) false]> (live d)) d
  | None => d
  end.

(** [Write::write_all]: a failed or interrupted call leaves a prefix. *)
Definition write_all {T} (p : path) (data : bytes) : io T (result unit io_error) :=
  fs_call (fun d => (Ok tt, append_data p data d))
    (fun n => append_data p (take n data)) (fun n => append_data p (take n data)).

(** [File::sync_all] on an open file. *)
Definition sync_file {T} (p : path) : io T (result unit io_error) :=
  atomic_call (fun d =>
    match live d !! p with
    | Some f => (Ok tt, set_live (<[p := File (f_data f) true]> (live d)) d)
    | None => (Ok tt, d)
    end).

(** [fs::rename]. *)
Definition rename {T} (p q : path) : io T (result unit io_error) :=
  atomic_call (fun d =>
    match live d !! p with
    | Some f => (Ok tt, set_live (<[q := f]> (delete p (live d))) d)
    | None => (Err NotFound, d)
    end).

(** [File::open(dir)] and [sync_all] on it: the entries of the directory
    become durable as they are. *)
Definition open_dir {T} : io T (result unit io_error) := atomic_call (fun d => (Ok tt, d)).

Definition in_dir (dir : string) (p : path) : Prop := p_dir p = dir.
#[global] Instance in_dir_dec dir p : Decision (in_dir dir p) := decide (p_dir p = dir).

Definition sync_entries (dir : string) (d : disk) : disk :=
  Disk (live d)
    (filter (fun kv => in_dir dir kv.1) (live d) ∪
     filter (fun kv => ~ in_dir dir kv.1) (durable d)).

Definition sync_dir {T} (dir : string) : io T (result unit io_error) :=
  atomic_call (fun d => (Ok tt, sync_entries dir d)).

(** [fs::read]. *)
Definition read {T} (p : path) : io T (result bytes io_error) :=
  atomic_call (fun d =>
    match live d !! p with
    | Some f => (Ok (f_data f), d)
    | None => (Err NotFound, d)
    end).

(** [fs::remove_file]. *)
Definition remove_file {T} (p : path) : io T (result unit io_error) :=
  atomic_call (fun d =>
    match live d !! p with
    | Some _ => (Ok tt, set_live (delete p (live d)) d)
    | None => (Err NotFound, d)
    end).

(** [fs::read_dir], the names in no particular order. *)
Definition read_dir {T} (dir : string) : io T (result (list string) io_error) :=
  atomic_call (fun d =>
    (Ok (p_name <$> (filter (in_dir dir) (elements (dom (live d))))), d)).

(** [Path::exists]: any failure reads as absence. *)
Definition exists_path {T} (p : path) : io T bool :=
  r ← atomic_call (fun d => (Ok (bool_decide (is_Some (live d !! p))), d));
  mret (match r with Ok b => b | Err _ => false end).

(** The three calls every atomic replacement shares: [write_all], [sync_all], [rename]. *)
Definition write_sync_rename {T} (temp target : path) (data : bytes) : io T (result unit io_error) :=
  _ ←! write_all temp data;
  _ ←! sync_file temp;
  rename temp target.

(** The drop guard [PendingFile] / [PendingIdentityFile]: the temporary file is
    created exclusively, and removed again when [body] returns an error before
    [commit].  A crash runs no destructor. *)
Definition with_pending {T E} (conv : io_error -> E) (temp : path)
    (body : io T (result unit E)) : io T (result unit E) :=
  _ ←! open_create_new temp @ conv;
  r ← body;
  match r with
  | Ok _ => mret (Ok tt)
  | Err e => _ ← remove_file temp; mret (Err e)
  end.

(** [File::open(dir)?.sync_all()?]. *)
Definition open_sync_dir {T} (dir : string) : io T (result unit io_error) :=
  _ ←! open_dir; sync_dir dir.

(** ** Weakest preconditions with a crash condition *)

Definition wpc {T A} (m : io T A) (Q : A -> world T -> Prop) (C : world T -> Prop)
    (w : world T) : Prop :=
  match m w with
  | (Done a, w') => Q a w'
  | (Crashed, w') => C w'
  end.

(** [w'] is [w] after some call that left the disk at [d]. *)
Definition moved {T} (w : world T) (d : disk) (w' : world T) : Prop :=
  w_disk w' = d /\ w_uuid w' = w_uuid w /\ w_next w' = w_next w /\ w_trace w' = w_trace w.

(** What a function that owns the paths of [touch] guarantees of the others:
    the running system sees them unchanged, and at most their directory entry
    became durable. *)
Definition preserves (touch : path -> Prop) (d d' : disk) : Prop :=
  forall q, ~ touch q ->
    live d' !! q = live d !! q /\
    (durable d' !! q = durable d !! q \/ durable d' !! q = live d !! q).

(** Every content a restart may find at [p] is synced and satisfies [P]
    ([None]: no such file). *)
Definition contents (o : option file) : option bytes := f_data <$> o.
Definition synced (o : option file) : Prop :=
  match o with Some f => f_synced f = true | None => True end.
Definition stable (P : option bytes -> Prop) (p : path) (d : disk) : Prop :=
  (synced (live d !! p) /\ P (contents (live d !! p))) /\
  (synced (durable d !! p) /\ P (contents (durable d !! p))).

(** ** Rules of [wpc] *)

Section wpc_rules.
Context {T : Type}.
Implicit Types (w : world T) (d : disk).

Lemma wpc_ret {A} (a : A) (Q : A -> world T -> Prop) C w : Q a w -> wpc (mret a) Q C w.
Proof. done. Qed.

Lemma wpc_bind {A B} (m : io T A) (k : A -> io T B) Q C w :
  wpc m (fun a w' => wpc (k a) Q C w') C w -> wpc (m ≫= k) Q C w.
Proof. unfold wpc, mbind, io_bind. by destruct (m w) as [[]?]. Qed.

Lemma wpc_mono {A} (m : io T A) (Q Q' : A -> world T -> Prop) (C C' : world T -> Prop) w :
  wpc m Q C w -> (forall a w', Q a w' -> Q' a w') -> (forall w', C w' -> C' w') ->
  wpc m Q' C' w.
Proof. unfold wpc. destruct (m w) as [[]?]; auto. Qed.

Lemma wpc_try {A B E F} (f : E -> F) (m : io T (result A E)) (k : A -> io T (result B F)) Q C w :
  wpc m (fun r w' => match r with Ok a => wpc (k a) Q C w' | Err e => Q (Err (f e)) w' end) C w ->
  wpc (try_io f m k) Q C w.
Proof.
  intros H. unfold try_io. apply wpc_bind. eapply wpc_mono; [exact H| |done].
  intros [] w'; simpl; [done|]. intros ?. by apply wpc_ret.
Qed.

Lemma wpc_lift_err {A E F} (conv : E -> F) (m : io T (result A E)) Q C w :
  wpc m (fun r w' => Q (map_err conv r) w') C w -> wpc (lift_err conv m) Q C w.
Proof. intros H. apply wpc_bind. eapply wpc_mono; [exact H| |done]. intros r w' HQ. exact HQ. Qed.

Lemma wpc_fs_call {A} good failed crashed (Q : result A io_error -> world T -> Prop) C w :
  (forall w' r d, good (w_disk w) = (r, d) -> moved w d w' -> Q r w') ->
  (forall w' e n, e <> NotFound -> moved w (failed n (w_disk w)) w' -> Q (Err e) w') ->
  (forall w' n, moved w (crashed n (w_disk w)) w' -> C w') ->
  wpc (fs_call good failed crashed) Q C w.
Proof.
  intros HQ HE HC. unfold wpc, fs_call, pop_fault.
  destruct (w_faults w) as [|[|e n|n] fs]; simpl.
  - destruct (good (w_disk w)) eqn:Hg. eapply HQ; [done|]. by repeat split.
  - destruct (good (w_disk w)) eqn:Hg. eapply HQ; [done|]. by repeat split.
  - eapply HE; [by destruct e|]. by repeat split.
  - eapply HC. by repeat split.
Qed.

Lemma wpc_atomic_call {A} good (Q : result A io_error -> world T -> Prop) C w :
  (forall w' r d, good (w_disk w) = (r, d) -> moved w d w' -> Q r w' /\ C w') ->
  (forall w' e, e <> NotFound -> moved w (w_disk w) w' -> Q (Err e) w' /\ C w') ->
  wpc (atomic_call good) Q C w.
Proof.
  intros HQ HE. apply wpc_fs_call.
  - intros w' r d Hg Hm. by eapply HQ.
  - intros w' e n He Hm. by eapply HE.
  - intros w' [|n] Hm.
    + by eapply (HE w' OtherError).
    + destruct (good (w_disk w)) as [r d] eqn:Hg. by eapply (HQ w' r d).
Qed.

Lemma wpc_emit (e : T) (Q : unit -> world T -> Prop) C w :
  Q tt (World (w_disk w) (w_faults w) (w_uuid w) (w_next w) (w_trace w ++ [e])) ->
  wpc (emit e) Q C w.
Proof. done. Qed.

Lemma wpc_new_v4 (Q : string -> world T -> Prop) C w :
  Q (w_uuid w (w_next w))
    (World (w_disk w) (w_faults w) (w_uuid w) (S (w_next w)) (w_trace w)) ->
  wpc new_v4 Q C w.
Proof. done. Qed.

Lemma wpc_read p w :
  wpc (read p)
    (fun r w' => moved w (w_disk w) w' /\
      match r with
      | Ok b => contents (live (w_disk w) !! p) = Some b
      | Err NotFound => live (w_disk w) !! p = None
      | Err _ => True
      end)
    (moved w (w_disk w)) w.
Proof.
  apply wpc_atomic_call.
  - intros w' r d Hg Hm. destruct (live (w_disk w) !! p) eqn:Hp; simplify_eq; eauto.
  - intros w' e He Hm. by destruct e.
Qed.

Lemma wpc_conj {A} (m : io T A) (Q1 Q2 : A -> world T -> Prop) (C1 C2 : world T -> Prop) w :
  wpc m Q1 C1 w -> wpc m Q2 C2 w ->
  wpc m (fun a w' => Q1 a w' /\ Q2 a w') (fun w' => C1 w' /\ C2 w') w.
Proof. unfold wpc. destruct (m w) as [[]?]; auto. Qed.
End wpc_rules.

(** ** Disks: preservation and stability *)

Lemma preserves_refl touch d : preserves touch d d.
Proof. intros q _. auto. Qed.

Lemma preserves_trans touch d1 d2 d3 :
  preserves touch d1 d2 -> preserves touch d2 d3 -> preserves touch d1 d3.
Proof.
  intros H12 H23 q Hq. destruct (H12 q Hq) as [Hl1 Hd1], (H23 q Hq) as [Hl2 Hd2].
  rewrite Hl2, Hl1. split; [done|]. destruct Hd2 as [-> | ->]; [done|]. rewrite Hl1. auto.
Qed.

Lemma preserves_weaken (touch touch' : path -> Prop) d d' :
  (forall q, touch q -> touch' q) -> preserves touch d d' -> preserves touch' d d'.
Proof. intros Hsub H q Hq. apply H. auto. Qed.

Lemma preserves_stable touch d d' P q :
  preserves touch d d' -> ~ touch q -> stable P q d -> stable P q d'.
Proof.
  intros H Hq [Hl Hd]. destruct (H q Hq) as [Hl' Hd']. split; rewrite ?Hl'; [done|].
  by destruct Hd' as [-> | ->].
Qed.

Lemma stable_mono (P Q : option bytes -> Prop) p d :
  (forall o, P o -> Q o) -> stable P p d -> stable Q p d.
Proof. unfold stable. naive_solver. Qed.

Lemma survives_stable (P : option bytes -> Prop) o o' :
  survives o o' -> synced o -> P (contents o) -> synced o' /\ P (contents o').
Proof.
  destruct o as [f|], o' as [f'|]; simpl; try done.
  intros [Hs Hd] Hsy HP. split; [done|]. unfold contents in *; simpl in *. by rewrite Hd.
Qed.

(** A restart, after a process crash or a power loss, finds a stable file as
    it was promised. *)
Lemma restart_stable P p d d' : restart d d' -> stable P p d -> stable P p d'.
Proof.
  intros [|d0 m Hm]; [done|]. intros [[Hls Hlp] [Hds Hdp]].
  assert (synced (m !! p) /\ P (contents (m !! p))) as Hp.
  { destruct (Hm p); by eapply survives_stable. }
  by split.
Qed.

Lemma lookup_sync_entries dir d q :
  live (sync_entries dir d) = live d /\
  durable (sync_entries dir d) !! q =
    if decide (p_dir q = dir) then live d !! q else durable d !! q.
Proof.
  split; [done|]. unfold sync_entries; simpl. rewrite lookup_union, !map_lookup_filter.
  unfold in_dir. destruct (live d !! q), (durable d !! q), (decide (p_dir q = dir));
    by simplify_option_eq.
Qed.

Lemma sync_entries_preserves touch dir d : preserves touch d (sync_entries dir d).
Proof.
  intros q _. destruct (lookup_sync_entries dir d q) as [-> ->].
  split; [done|]. case_decide; auto.
Qed.

Lemma set_live_insert_preserves (touch : path -> Prop) p f d :
  touch p -> preserves touch d (set_live (<[p := f]> (live d)) d).
Proof.
  intros Hp q Hq. simpl. split; [|auto]. apply lookup_insert_ne. congruence.
Qed.

Lemma set_live_delete_preserves (touch : path -> Prop) p d :
  touch p -> preserves touch d (set_live (delete p (live d)) d).
Proof.
  intros Hp q Hq. simpl. split; [|auto]. apply lookup_delete_ne. congruence.
Qed.

Lemma append_data_preserves (touch : path -> Prop) p data d :
  touch p -> preserves touch d (append_data p data d).
Proof.
  intros Hp. unfold append_data. destruct (live d !! p); [|apply preserves_refl].
  by apply set_live_insert_preserves.
Qed.

Lemma rename_preserves (touch : path -> Prop) p q f d :
  touch p -> touch q -> preserves touch d (set_live (<[q := f]> (delete p (live d))) d).
Proof.
  intros Hp Hq r Hr. simpl. split; [|auto].
  rewrite lookup_insert_ne, lookup_delete_ne by congruence. done.
Qed.

#[export] Hint Resolve preserves_refl sync_entries_preserves set_live_insert_preserves
  set_live_delete_preserves append_data_preserves rename_preserves : clip.

(** ** Atomic replacement

    [replaced]: the target is as before, or is the complete new content;
    [committed]: it is the new content, on stable storage. *)

Definition new_file (data : bytes) : option file := Some (File data true).

Definition same_slot (p : path) (d d' : disk) : Prop :=
  live d' !! p = live d !! p /\ durable d' !! p = durable d !! p.
Definition seen (p : path) (data : bytes) (d d' : disk) : Prop :=
  live d' !! p = new_file data /\ durable d' !! p = durable d !! p.
Definition committed (p : path) (data : bytes) (d' : disk) : Prop :=
  live d' !! p = new_file data /\ durable d' !! p = new_file data.
Definition replaced (p : path) (data : bytes) (d d' : disk) : Prop :=
  same_slot p d d' \/ seen p data d d' \/ committed p data d'.

(** The externally visible part of the world did not move. *)
Definition quiet {T} (w w' : world T) : Prop :=
  w_uuid w' = w_uuid w /\ w_trace w' = w_trace w.

Definition two (p q : path) : path -> Prop := fun r => r = p \/ r = q.

Lemma moved_quiet {T} (w : world T) d w' : moved w d w' -> quiet w w'.
Proof. intros (_&?&_&?). by split. Qed.

Lemma moved_trans {T} (w1 w2 w3 : world T) d d' :
  moved w1 d w2 -> moved w2 d' w3 -> moved w1 d' w3.
Proof. intros (?&?&?&?) (?&?&?&?). split_and!; congruence. Qed.

Lemma quiet_refl {T} (w : world T) : quiet w w.
Proof. by split. Qed.

Lemma quiet_trans {T} (w1 w2 w3 : world T) : quiet w1 w2 -> quiet w2 w3 -> quiet w1 w3.
Proof. intros [] []. split; congruence. Qed.

#[export] Hint Resolve moved_quiet quiet_refl : clip.

Lemma replaced_stable P p data d d' :
  stable P p d -> P (Some data) -> replaced p data d d' -> stable P p d'.
Proof.
  unfold stable. intros [Hl Hd] HP [[-> ->]|[[-> ->]|[-> ->]]]; split; done.
Qed.

Lemma committed_stable p data d' : committed p data d' -> stable (eq (Some data)) p d'.
Proof. unfold stable. by intros [-> ->]. Qed.

Section replace.
Context {T : Type}.
Implicit Types (w : world T).
Variables (temp p : path) (data : bytes).
Hypothesis Htp : temp <> p.

(** While the temporary file is being filled: nothing else moved. *)
Definition filling (w0 w : world T) : Prop :=
  quiet w0 w /\ preserves (two temp p) (w_disk w0) (w_disk w) /\
  same_slot p (w_disk w0) (w_disk w).

Lemma filling_refl w : filling w w.
Proof. repeat split; auto with clip. Qed.

Lemma filling_insert w0 w d f w' :
  filling w0 w -> d = set_live (<[temp := f]> (live (w_disk w))) (w_disk w) ->
  moved w d w' -> filling w0 w'.
Proof.
  intros (Hq & Hp & Hs) -> Hm. pose proof (moved_quiet _ _ _ Hm). destruct Hm as (Hd & _).
  unfold filling. rewrite Hd. split_and!.
  - by eapply quiet_trans.
  - eapply preserves_trans; [done|]. apply set_live_insert_preserves. by left.
  - destruct Hs as [Hl Hdu]. unfold same_slot; simpl.
    by rewrite lookup_insert_ne, Hl, Hdu.
Qed.

Lemma filling_same w0 w w' : filling w0 w -> moved w (w_disk w) w' -> filling w0 w'.
Proof.
  intros (Hq & Hp & Hs) Hm. pose proof (moved_quiet _ _ _ Hm). destruct Hm as (Hd & _).
  unfold filling. rewrite Hd. split_and!; [by eapply quiet_trans|done|done].
Qed.

Lemma filling_append w0 w x w' f :
  filling w0 w -> live (w_disk w) !! temp = Some f ->
  moved w (append_data temp x (w_disk w)) w' -> filling w0 w'.
Proof.
  intros HF Hf Hm. eapply filling_insert; [done| |done]. unfold append_data. by rewrite Hf.
Qed.

Lemma wpc_write_temp w0 w f :
  filling w0 w -> live (w_disk w) !! temp = Some f ->
  wpc (write_all temp data)
    (fun r w' => filling w0 w' /\
       (r = Ok tt -> live (w_disk w') !! temp = Some (File (f_data f ++ data) false)))
    (filling w0) w.
Proof.
  intros HF Hf. apply wpc_fs_call.
  - intros w' r d [= <- <-] Hm. split; [by eapply filling_append|]. intros _.
    destruct Hm as (-> & _). unfold append_data. rewrite Hf. simpl. by rewrite lookup_insert_eq.
  - intros w' e n He Hm. split; [by eapply filling_append|done].
  - intros w' n Hm. by eapply filling_append.
Qed.

Lemma wpc_sync_temp w0 w f :
  filling w0 w -> live (w_disk w) !! temp = Some f ->
  wpc (sync_file temp)
    (fun r w' => filling w0 w' /\
       (r = Ok tt -> live (w_disk w') !! temp = Some (File (f_data f) true)))
    (filling w0) w.
Proof.
  intros HF Hf. apply wpc_atomic_call.
  - intros w' r d Hg Hm. rewrite Hf in Hg. simplify_eq.
    assert (filling w0 w') by (by eapply filling_insert).
    split; [split; [done|]|done]. intros _. destruct Hm as (-> & _). simpl.
    by rewrite lookup_insert_eq.
  - intros w' e He Hm. assert (filling w0 w') by (by eapply filling_same). done.
Qed.

(** The crash condition of every replacement. *)
Definition torn (w0 w : world T) : Prop :=
  quiet w0 w /\ preserves (two temp p) (w_disk w0) (w_disk w) /\
  replaced p data (w_disk w0) (w_disk w).

Lemma filling_torn w0 w : filling w0 w -> torn w0 w.
Proof. intros (?&?&?). unfold torn, replaced. auto. Qed.

Lemma wpc_rename_temp w0 w :
  filling w0 w -> live (w_disk w) !! temp = Some (File data true) ->
  wpc (rename temp p)
    (fun r w' => quiet w0 w' /\ preserves (two temp p) (w_disk w0) (w_disk w') /\
      match r with
      | Ok _ => seen p data (w_disk w0) (w_disk w')
      | Err _ => same_slot p (w_disk w0) (w_disk w')
      end)
    (torn w0) w.
Proof.
  intros HF Hf. apply wpc_atomic_call.
  - intros w' r d Hg Hm. rewrite Hf in Hg. simplify_eq.
    destruct HF as (Hq & Hp & _ & Hdu).
    assert (quiet w0 w') by (eapply quiet_trans; eauto with clip).
    assert (preserves (two temp p) (w_disk w0) (w_disk w')) as Hp'.
    { destruct Hm as (-> & _). eapply preserves_trans; [done|].
      apply rename_preserves; [by left|by right]. }
    assert (seen p data (w_disk w0) (w_disk w')) as Hs.
    { destruct Hm as (-> & _). split; simpl; [by rewrite lookup_insert_eq|done]. }
    unfold torn, replaced. auto 6.
  - intros w' e He Hm. assert (filling w0 w') as HF' by (by eapply filling_same).
    split; [exact HF' | by apply filling_torn].
Qed.

Lemma wpc_write_sync_rename w0 w :
  filling w0 w -> live (w_disk w) !! temp = Some (File [] false) ->
  wpc (write_sync_rename temp p data)
    (fun r w' => quiet w0 w' /\ preserves (two temp p) (w_disk w0) (w_disk w') /\
      match r with
      | Ok _ => seen p data (w_disk w0) (w_disk w')
      | Err _ => same_slot p (w_disk w0) (w_disk w')
      end)
    (torn w0) w.
Proof.
  intros HF Hf. unfold write_sync_rename. apply wpc_try.
  eapply wpc_mono; [by eapply wpc_write_temp| |by apply filling_torn].
  intros [[]|e] w1 [HF1 Hf1]; [|exact HF1]. specialize (Hf1 eq_refl). apply wpc_try.
  eapply wpc_mono; [by eapply wpc_sync_temp| |by apply filling_torn].
  intros [[]|e] w2 [HF2 Hf2]; [|exact HF2]. specialize (Hf2 eq_refl). simpl in Hf2.
  by apply wpc_rename_temp.
Qed.

(** [open_create_new] and [open_truncate] start the filling. *)
Lemma wpc_open_create_new w :
  wpc (open_create_new temp)
    (fun r w' => filling w w' /\
       (r = Ok tt -> live (w_disk w') !! temp = Some (File [] false)))
    (filling w) w.
Proof.
  pose proof (filling_refl w) as HF. apply wpc_atomic_call.
  - intros w' r d Hg Hm. destruct (live (w_disk w) !! temp) eqn:Hf; simplify_eq.
    + assert (filling w w') by (by eapply filling_same). done.
    + assert (filling w w') by (by eapply filling_insert). split; [split; [done|]|done].
      intros _. destruct Hm as (-> & _). simpl. by rewrite lookup_insert_eq.
  - intros w' e He Hm. assert (filling w w') by (by eapply filling_same). done.
Qed.

Lemma wpc_open_truncate w :
  wpc (open_truncate temp)
    (fun r w' => filling w w' /\
       (r = Ok tt -> live (w_disk w') !! temp = Some (File [] false)))
    (filling w) w.
Proof.
  pose proof (filling_refl w) as HF. apply wpc_atomic_call.
  - intros w' r d [= <- <-] Hm. assert (filling w w') by (by eapply filling_insert).
    split; [split; [done|]|done].
    intros _. destruct Hm as (-> & _). simpl. by rewrite lookup_insert_eq.
  - intros w' e He Hm. assert (filling w w') by (by eapply filling_same). done.
Qed.

(** Removing the temporary file never touches the target. *)
Lemma wpc_remove_temp w0 w :
  filling w0 w -> wpc (remove_file temp) (fun _ w' => filling w0 w') (filling w0) w.
Proof.
  intros HF. apply wpc_atomic_call.
  - intros w' r d Hg Hm.
    assert (filling w0 w'); [|done].
    destruct (live (w_disk w) !! temp); simplify_eq; [|by eapply filling_same].
    destruct HF as (Hq & Hp & Hl & Hdu).
    unfold filling. split_and!.
    + eapply quiet_trans; eauto with clip.
    + destruct Hm as (-> & _). eapply preserves_trans; [done|].
      apply set_live_delete_preserves. by left.
    + destruct Hm as (-> & _). split; simpl; [|done]. by rewrite lookup_delete_ne.
  - intros w' e He Hm. assert (filling w0 w') by (by eapply filling_same). done.
Qed.

(** What the body of a pending-file block owes. *)
Definition fills {E} (w0 : world T) (body : io T (result unit E)) : Prop :=
  forall w, filling w0 w -> live (w_disk w) !! temp = Some (File [] false) ->
  wpc body
    (fun r w' => quiet w0 w' /\ preserves (two temp p) (w_disk w0) (w_disk w') /\
      match r with
      | Ok _ => seen p data (w_disk w0) (w_disk w')
      | Err _ => same_slot p (w_disk w0) (w_disk w')
      end)
    (torn w0) w.

Lemma fills_write_sync_rename {E} (conv : io_error -> E) w0 :
  fills w0 (lift_err conv (write_sync_rename temp p data)).
Proof.
  intros w HF Hf. apply wpc_lift_err.
  eapply wpc_mono; [eapply wpc_write_sync_rename; eauto| |done]. by intros [] w'.
Qed.

Lemma fills_fail {E} (e : E) w0 : fills w0 (mret (Err e)).
Proof. intros w (?&?&?) Hf. by apply wpc_ret. Qed.

Lemma wpc_with_pending {E} (conv : io_error -> E) body w :
  fills w body ->
  wpc (with_pending conv temp body)
    (fun r w' => quiet w w' /\ preserves (two temp p) (w_disk w) (w_disk w') /\
      match r with
      | Ok _ => seen p data (w_disk w) (w_disk w')
      | Err _ => same_slot p (w_disk w) (w_disk w')
      end)
    (torn w) w.
Proof.
  intros Hbody. unfold with_pending. apply wpc_try.
  eapply wpc_mono; [apply wpc_open_create_new| |by apply filling_torn].
  intros [[]|e] w1 [HF1 Hf1]; [|exact HF1]. apply wpc_bind.
  eapply wpc_mono; [by apply Hbody; auto| |done].
  intros [[]|e] w2 Hw2; [exact Hw2|]. apply wpc_bind.
  eapply wpc_mono; [by apply wpc_remove_temp| |by apply filling_torn].
  intros ? w3 HF3. exact HF3.
Qed.

(** A body that fails before writing leaves the target alone. *)
Lemma wpc_pending_fail {E} (conv : io_error -> E) (e : E) w :
  wpc (with_pending conv temp (mret (Err e)))
    (fun r w' => r <> Ok tt /\ filling w w') (filling w) w.
Proof.
  unfold with_pending. apply wpc_try.
  eapply wpc_mono; [apply wpc_open_create_new| |done].
  intros [[]|e'] w1 [HF1 _]; [|by split]. apply wpc_bind, wpc_ret, wpc_bind.
  eapply wpc_mono; [by apply wpc_remove_temp| |done]. by intros ? w2 HF2.
Qed.

(** Making the directory durable completes a replacement. *)
Lemma wpc_finish w0 w :
  quiet w0 w -> preserves (two temp p) (w_disk w0) (w_disk w) ->
  seen p data (w_disk w0) (w_disk w) ->
  wpc (open_sync_dir (p_dir p))
    (fun r w' => torn w0 w' /\ (r = Ok tt -> committed p data (w_disk w')))
    (torn w0) w.
Proof.
  intros Hq Hp Hs.
  assert (forall w', moved w (w_disk w) w' -> torn w0 w') as Hsame.
  { intros w' Hm. split_and!; [eapply quiet_trans; eauto with clip|..];
      destruct Hm as (-> & _); [done|]. right. by left. }
  unfold open_sync_dir. apply wpc_try, wpc_atomic_call.
  2: { intros w' e He Hm. split; [split|]; [by apply Hsame|done|by apply Hsame]. }
  intros w1 r d [= <- <-] Hm1. split; [|by apply Hsame]. apply wpc_atomic_call.
  - intros w' r d [= <- <-] Hm.
    assert (committed p data (w_disk w')) as Hc.
    { destruct Hm as (-> & _), Hm1 as (-> & _).
      destruct (lookup_sync_entries (p_dir p) (w_disk w) p) as [Hl Hd].
      destruct Hs as [Hs _]. split; [by rewrite Hl|].
      rewrite Hd. by rewrite decide_True. }
    assert (torn w0 w'); [|done]. split_and!.
    + eapply quiet_trans; [|by eapply moved_quiet]. eapply quiet_trans; eauto with clip.
    + destruct Hm as (-> & _), Hm1 as (-> & _). eapply preserves_trans; eauto with clip.
    + right. by right.
  - intros w' e He Hm. assert (torn w0 w'); [|done]. apply Hsame.
    destruct Hm as (?&?&?&?), Hm1 as (?&?&?&?). split_and!; congruence.
Qed.

(** The replacement of [session.rs], [pairing.rs] and [crypto.rs]: on success
    the new content is on stable storage; on an error or a crash the target is
    the old or the complete new content. *)
Lemma wpc_pending_replace {E} (conv : io_error -> E) body w :
  fills w body ->
  wpc (try_io id (with_pending conv temp body)
        (fun _ => lift_err conv (open_sync_dir (p_dir p))))
    (fun r w' => torn w w' /\ (r = Ok tt -> committed p data (w_disk w')))
    (torn w) w.
Proof.
  intros Hbody. apply wpc_try. eapply wpc_mono; [by apply wpc_with_pending| |done].
  intros [[]|e] w1 (Hq & Hp & Hs).
  - apply wpc_lift_err. eapply wpc_mono; [by apply wpc_finish| |done].
    intros [[]|] w2 [Ht Hc]; split; simpl; auto. done.
  - split; [|done]. unfold torn, replaced. auto.
Qed.

(** The replacement of [registry.rs] and [mailbox.rs]: a fixed temporary name,
    truncated first, and no clean-up. *)
Lemma wpc_truncate_replace w :
  wpc (try_io id (open_truncate temp) (fun _ =>
        try_io id (write_sync_rename temp p data) (fun _ => open_sync_dir (p_dir p))))
    (fun r w' => torn w w' /\ (r = Ok tt -> committed p data (w_disk w')))
    (torn w) w.
Proof.
  apply wpc_try. eapply wpc_mono; [apply wpc_open_truncate| |by apply filling_torn].
  intros [[]|e] w1 [HF1 Hf1]; [|split; [by apply filling_torn|done]]. apply wpc_try.
  eapply wpc_mono; [eapply wpc_write_sync_rename; eauto| |done].
  intros [[]|e] w2 (Hq & Hp & Hs); [by apply wpc_finish|].
  split; [|done]. unfold torn, replaced. auto.
Qed.

(** The replacement of [history.rs]: the directory is not synced, so success
    promises the new content to the running system only.  Each call has its
    own error conversion. *)
Lemma wpc_create_replace {E} (c1 c2 c3 c4 : io_error -> E) w :
  wpc (try_io c1 (open_truncate temp) (fun _ =>
       try_io c2 (write_all temp data) (fun _ =>
       try_io c3 (sync_file temp) (fun _ => lift_err c4 (rename temp p)))))
    (fun r w' => quiet w w' /\ preserves (two temp p) (w_disk w) (w_disk w') /\
       match r with
       | Ok _ => seen p data (w_disk w) (w_disk w')
       | Err _ => same_slot p (w_disk w) (w_disk w')
       end)
    (torn w) w.
Proof.
  apply wpc_try. eapply wpc_mono; [apply wpc_open_truncate| |by apply filling_torn].
  intros [[]|e] w1 [HF1 Hf1]; [|exact HF1]. specialize (Hf1 eq_refl). apply wpc_try.
  eapply wpc_mono; [by eapply wpc_write_temp| |by apply filling_torn].
  intros [[]|e] w2 [HF2 Hf2]; [|exact HF2]. specialize (Hf2 eq_refl). apply wpc_try.
  eapply wpc_mono; [by eapply wpc_sync_temp| |by apply filling_torn].
  intros [[]|e] w3 [HF3 Hf3]; [|exact HF3]. specialize (Hf3 eq_refl). apply wpc_lift_err.
  eapply wpc_mono; [by apply wpc_rename_temp| |done]. by intros [] w4.
Qed.
End replace.

(** ** Functions that stay inside the paths they own *)

Definition within {T} (touch : path -> Prop) (w w' : world T) : Prop :=
  quiet w w' /\ preserves touch (w_disk w) (w_disk w').

Section within.
Context {T : Type}.
Implicit Types (w : world T) (touch : path -> Prop).

Lemma within_refl touch w : within touch w w.
Proof. split; auto with clip. Qed.

Lemma within_trans touch w1 w2 w3 : within touch w1 w2 -> within touch w2 w3 -> within touch w1 w3.
Proof. intros [] []. split; [by eapply quiet_trans|by eapply preserves_trans]. Qed.

Lemma within_weaken (touch touch' : path -> Prop) w w' :
  (forall q, touch q -> touch' q) -> within touch w w' -> within touch' w w'.
Proof. intros Hsub [Hq Hp]. split; [done|by eapply preserves_weaken]. Qed.

Lemma moved_within touch w d w' :
  moved w d w' -> preserves touch (w_disk w) d -> within touch w w'.
Proof. intros Hm Hp. split; [eauto with clip|]. by destruct Hm as (-> & _). Qed.

Lemma torn_within touch temp p data w w' :
  touch temp -> touch p -> torn temp p data w w' -> within touch w w'.
Proof.
  intros Ht Hp (Hq & Hpr & _). split; [done|]. eapply preserves_weaken; [|done].
  by intros q [-> | ->].
Qed.

Lemma wpc_within_atomic {A} touch good w :
  preserves touch (w_disk w) (snd (good (w_disk w))) ->
  wpc (atomic_call good : io T (result A io_error)) (fun _ => within touch w) (within touch w) w.
Proof.
  intros Hp. apply wpc_atomic_call.
  - intros w' r d Hg Hm. rewrite Hg in Hp. simpl in Hp.
    assert (within touch w w') by (by eapply moved_within). done.
  - intros w' e He Hm. assert (within touch w w') by (eapply moved_within; eauto with clip). done.
Qed.

Lemma wpc_remove_file touch p w :
  touch p -> wpc (remove_file p) (fun _ => within touch w) (within touch w) w.
Proof.
  intros Hp. apply wpc_within_atomic. destruct (live (w_disk w) !! p); simpl; auto with clip.
Qed.

Lemma wpc_remove_file_gone p w :
  wpc (remove_file p)
    (fun r w' => within (eq p) w w' /\
       match r with
       | Ok _ | Err NotFound => live (w_disk w') !! p = None
       | Err _ => True
       end)
    (within (eq p) w) w.
Proof.
  apply wpc_atomic_call.
  - intros w' r d Hg Hm. assert (within (eq p) w w') as Hw.
    { eapply moved_within; [done|].
      destruct (live (w_disk w) !! p); simplify_eq; auto with clip. }
    split; [split; [done|]|done]. destruct Hm as (-> & _).
    destruct (live (w_disk w) !! p) eqn:Hp; simplify_eq; simpl; [by rewrite lookup_delete_eq|done].
  - intros w' e He Hm. assert (within (eq p) w w') by (eapply moved_within; eauto with clip).
    by destruct e.
Qed.

Lemma wpc_read_dir dir w :
  wpc (read_dir dir)
    (fun r w' => moved w (w_disk w) w' /\
       forall names, r = Ok names ->
       forall name, name ∈ names <-> is_Some (live (w_disk w) !! Path dir name))
    (moved w (w_disk w)) w.
Proof.
  apply wpc_atomic_call.
  - intros w' r d [= <- <-] Hm. split; [split; [done|]|done]. intros names [= <-] name.
    rewrite list_elem_of_fmap. setoid_rewrite list_elem_of_filter. setoid_rewrite elem_of_elements.
    setoid_rewrite elem_of_dom. unfold in_dir. split.
    + by intros ([d' n] & -> & <- & Hs).
    + intros Hs. by exists (Path dir name).
  - intros w' e He Hm. done.
Qed.
End within.

#[export] Hint Resolve within_refl : clip.

(** [m] never leaves [touch], whatever fails and wherever it crashes. *)
Definition inside {T A} (touch : path -> Prop) (m : io T A) : Prop :=
  forall w, wpc m (fun _ => within touch w) (within touch w) w.

Section inside.
Context {T : Type} (touch : path -> Prop).

Lemma inside_ret {A} (a : A) : inside (T := T) touch (mret a).
Proof. intros w. apply wpc_ret, within_refl. Qed.

Lemma inside_bind {A B} (m : io T A) (k : A -> io T B) :
  inside touch m -> (forall a, inside touch (k a)) -> inside touch (m ≫= k).
Proof.
  intros Hm Hk w. apply wpc_bind. eapply wpc_mono; [apply Hm| |done].
  intros a w1 H1. eapply wpc_mono; [apply Hk|..]; intros; by apply (within_trans _ _ w1).
Qed.

(** The same with a fact [R] about what [m] returns. *)
Lemma inside_bind_post {A B} (R : A -> Prop) (m : io T A) (k : A -> io T B) :
  (forall w, wpc m (fun a w' => R a /\ within touch w w') (within touch w) w) ->
  (forall a, R a -> inside touch (k a)) -> inside touch (m ≫= k).
Proof.
  intros Hm Hk w. apply wpc_bind. eapply wpc_mono; [apply Hm| |done].
  intros a w1 [Ha H1]. eapply wpc_mono; [by apply Hk|..]; intros; by apply (within_trans _ _ w1).
Qed.

Lemma inside_try {A B E F} (f : E -> F) (m : io T (result A E)) (k : A -> io T (result B F)) :
  inside touch m -> (forall a, inside touch (k a)) -> inside touch (try_io f m k).
Proof. intros Hm Hk. apply inside_bind; [done|]. intros []; auto using inside_ret. Qed.

Lemma inside_lift_err {A E F} (conv : E -> F) (m : io T (result A E)) :
  inside touch m -> inside touch (lift_err conv m).
Proof. intros Hm. apply inside_bind; [done|]. intros. apply inside_ret. Qed.

Lemma inside_atomic {A} (good : disk -> result A io_error * disk) :
  (forall d, preserves touch d (snd (good d))) -> inside (T := T) touch (atomic_call good).
Proof. intros Hg w. by apply wpc_within_atomic. Qed.

Lemma inside_new_v4 : inside (T := T) touch new_v4.
Proof. intros w. apply wpc_new_v4. split; [by split|apply preserves_refl]. Qed.

Lemma inside_open_create_new p : touch p -> inside (T := T) touch (open_create_new p).
Proof. intros Hp. apply inside_atomic. intros d. destruct (live d !! p); simpl; auto with clip. Qed.

Lemma inside_open_truncate p : touch p -> inside (T := T) touch (open_truncate p).
Proof. intros Hp. apply inside_atomic. intros d. simpl. auto with clip. Qed.

Lemma inside_write_all p data : touch p -> inside (T := T) touch (write_all p data).
Proof.
  intros Hp w. apply wpc_fs_call.
  - intros w' r d [= <- <-] Hm. eapply moved_within; eauto with clip.
  - intros w' e n He Hm. eapply moved_within; eauto with clip.
  - intros w' n Hm. eapply moved_within; eauto with clip.
Qed.

Lemma inside_sync_file p : touch p -> inside (T := T) touch (sync_file p).
Proof. intros Hp. apply inside_atomic. intros d. destruct (live d !! p); simpl; auto with clip. Qed.

Lemma inside_rename p q : touch p -> touch q -> inside (T := T) touch (rename p q).
Proof. intros Hp Hq. apply inside_atomic. intros d. destruct (live d !! p); simpl; auto with clip. Qed.

Lemma inside_remove_file p : touch p -> inside (T := T) touch (remove_file p).
Proof. intros Hp w. by apply wpc_remove_file. Qed.

Lemma inside_read p : inside (T := T) touch (read p).
Proof. apply inside_atomic. intros d. destruct (live d !! p); simpl; auto with clip. Qed.

Lemma inside_read_dir dir : inside (T := T) touch (read_dir dir).
Proof. apply inside_atomic. intros d. simpl. auto with clip. Qed.

Lemma inside_create_dir_all : inside (T := T) touch create_dir_all.
Proof. apply inside_atomic. intros d. simpl. auto with clip. Qed.

Lemma inside_open_sync_dir dir : inside (T := T) touch (open_sync_dir dir).
Proof.
  apply inside_try; [apply inside_atomic|intros _; apply inside_atomic];
    intros d; simpl; auto with clip.
Qed.
End inside.

(** Every value [m] may return satisfies [R]. *)
Definition returns {T A} (R : A -> Prop) (m : io T A) : Prop :=
  forall w, wpc m (fun a _ => R a) (fun _ => True) w.

Lemma returns_ret {T A} (R : A -> Prop) (a : A) : R a -> returns (T := T) R (mret a).
Proof. by intros Ha w. Qed.

Lemma returns_mono {T A} (R Q : A -> Prop) (m : io T A) :
  returns R m -> (forall a, R a -> Q a) -> returns Q m.
Proof. intros Hm H w. eapply wpc_mono; [apply Hm| |done]. simpl. auto. Qed.

Lemma returns_bind {T A B} (R : B -> Prop) (m : io T A) (k : A -> io T B) :
  (forall a, returns R (k a)) -> returns R (m ≫= k).
Proof.
  intros Hk w. apply wpc_bind. unfold wpc. destruct (m w) as [[a|] w1]; [apply Hk|done].
Qed.

Lemma returns_bind_post {T A B} (R : A -> Prop) (Q : B -> Prop) (m : io T A) (k : A -> io T B) :
  returns R m -> (forall a, R a -> returns Q (k a)) -> returns Q (m ≫= k).
Proof.
  intros Hm Hk w. apply wpc_bind. specialize (Hm w). unfold wpc in *.
  destruct (m w) as [[a|] w1]; [by apply Hk|done].
Qed.

Lemma wpc_returns {T A} (R : A -> Prop) (m : io T A) Q C w :
  returns R m -> wpc m Q C w -> wpc m (fun a w' => R a /\ Q a w') C w.
Proof. intros Hr H. specialize (Hr w). unfold wpc in *. destruct (m w) as [[a|] w1]; auto. Qed.

Create HintDb inside.
#[export] Hint Resolve inside_ret inside_bind inside_try inside_lift_err inside_new_v4
  inside_open_create_new inside_open_truncate inside_write_all inside_sync_file inside_rename
  inside_remove_file inside_read inside_read_dir inside_create_dir_all inside_open_sync_dir : inside.
