(* ===== verification/Interfaces.v ===== *)
(** * Third-party code the program calls, as interfaces

    The crates [serde_json], [base64], [sha2], [ed25519-dalek],
    [x25519-dalek], [hkdf], [chacha20poly1305] and [uuid] are not part of the
    repository.  Each is a type class: its operations are parameters of the
    translated functions, its laws the documented behaviour those functions
    rely on.  [String::from_utf8] belongs to the standard library and is
    translated.  The instances at the end show that the laws can be met; the
    witnesses of the theorems run on them. *)

From S2P Require Import Prelude.

Set Default Goal Selector "!".
From Stdlib Require Import Strings.Byte.

(** [serde_json]: [to_vec] (compact), [to_vec_pretty] and [from_slice] at one
    type.  Errors are the text of [serde_json::Error].  A parser skips trailing
    whitespace, and the compact printer emits no raw newline. *)
Class Json (A : Type) := {
  to_vec : A -> result bytes string;
  to_vec_pretty : A -> result bytes string;
  from_slice : bytes -> result A string;
  json_compact : forall a b, to_vec a = Ok b -> from_slice b = Ok a;
  json_pretty : forall a b, to_vec_pretty a = Ok b -> from_slice b = Ok a;
  json_pretty_line : forall a b,
    to_vec_pretty a = Ok b -> from_slice (b ++ ["010"%byte]) = Ok a;
  json_one_line : forall a b, to_vec a = Ok b -> ("010"%byte ∉ b) /\ b <> []
}.

(** [base64]'s [STANDARD] engine; the error is the text of [DecodeError]. *)
Class Base64 := {
  b64_encode : bytes -> string;
  b64_decode : string -> result bytes string;
  b64_roundtrip : forall b, b64_decode (b64_encode b) = Ok b
}.

(** [Sha256::digest]. *)
Class Sha256 := {
  sha256 : bytes -> bytes;
  length_sha256 : forall b, length (sha256 b) = 32
}.

(** [ed25519-dalek]: public key of a secret, signing, [VerifyingKey::from_bytes],
    [verify_strict]; an honest signature verifies. *)
Class Ed25519 := {
  ed_public : bytes -> bytes;
  ed_sign : bytes -> bytes -> bytes;
  ed_key_ok : bytes -> bool;
  ed_verify_strict : bytes -> bytes -> bytes -> bool;
  length_ed_public : forall sk, length (ed_public sk) = 32;
  length_ed_sign : forall sk m, length (ed_sign sk m) = 64;
  ed_honest_key : forall sk, ed_key_ok (ed_public sk) = true;
  ed_honest_sig : forall sk m, ed_verify_strict (ed_public sk) m (ed_sign sk m) = true
}.

(** [x25519-dalek] and [Hkdf::<Sha256>]; the exchange is symmetric. *)
Class X25519 := {
  x_public : bytes -> bytes;
  x_dh : bytes -> bytes -> bytes;
  x_contributory : bytes -> bool;
  hkdf_expand : bytes -> bytes -> option bytes;
  length_x_public : forall sk, length (x_public sk) = 32;
  x_dh_comm : forall a b, x_dh a (x_public b) = x_dh b (x_public a)
}.

(** [XChaCha20Poly1305]: [encrypt] may refuse an input length, [decrypt] inverts it. *)
Class Aead := {
  aead_encrypt : bytes -> bytes -> bytes -> bytes -> option bytes;
  aead_decrypt : bytes -> bytes -> bytes -> bytes -> option bytes;
  aead_correct : forall k n ad m c,
    aead_encrypt k n ad m = Some c -> aead_decrypt k n ad c = Some m
}.

(** [uuid]: a [Uuid] is kept as its canonical text ([to_string]). *)
Class UuidText := {
  uuid_parse : string -> option string;
  uuid_canonical : forall s u, uuid_parse s = Some u -> uuid_parse u = Some u
}.

(** ** [String::from_utf8] *)

Definition is_cont (b : byte) : bool := in_range 128 191 b.

Fixpoint utf8_valid (l : bytes) : bool :=
  match l with
  | [] => true
  | b0 :: l1 =>
      if in_range 0 127 b0 then utf8_valid l1
      else if in_range 194 223 b0 then
        match l1 with b1 :: l2 => is_cont b1 && utf8_valid l2 | _ => false end
      else if in_range 224 239 b0 then
        match l1 with
        | b1 :: b2 :: l3 =>
            (if (bval b0 =? 224)%Z then in_range 160 191 b1
             else if (bval b0 =? 237)%Z then in_range 128 159 b1
             else is_cont b1) && is_cont b2 && utf8_valid l3
        | _ => false
        end
      else if in_range 240 244 b0 then
        match l1 with
        | b1 :: b2 :: b3 :: l4 =>
            (if (bval b0 =? 240)%Z then in_range 144 191 b1
             else if (bval b0 =? 244)%Z then in_range 128 143 b1
             else is_cont b1) && is_cont b2 && is_cont b3 && utf8_valid l4
        | _ => false
        end
      else false
  end.

Definition from_utf8 (b : bytes) : option string :=
  if utf8_valid b then Some (str_of_bytes b) else None.

(** Every Rust [String] is valid UTF-8. *)
Definition str_ok (s : string) : Prop := utf8_valid (as_bytes s) = true.

Lemma from_utf8_as_bytes s : str_ok s -> from_utf8 (as_bytes s) = Some s.
Proof. unfold from_utf8, str_ok. intros ->. by rewrite str_as_bytes. Qed.

(** ** Instances *)

Module Toy.

(** A [Json] instance for any countable type: the bits of its code,
    spelled with two letters. *)
Fixpoint pos_bytes (p : positive) : bytes :=
  match p with
  | xH => ["1"%byte]
  | xO p => "o"%byte :: pos_bytes p
  | xI p => "i"%byte :: pos_bytes p
  end.

Fixpoint bytes_pos (b : bytes) : option positive :=
  match b with
  | "1"%byte :: _ => Some xH
  | "o"%byte :: b => xO <$> bytes_pos b
  | "i"%byte :: b => xI <$> bytes_pos b
  | _ => None
  end.

Lemma bytes_pos_bytes p b : bytes_pos (pos_bytes p ++ b) = Some p.
Proof. induction p as [p IH|p IH|]; simpl; [by rewrite IH|by rewrite IH|done]. Qed.

Lemma pos_bytes_one_line p : ("010"%byte ∉ pos_bytes p) /\ pos_bytes p <> [].
Proof. induction p as [p [IH _]|p [IH _]|]; simpl; split; set_solver. Qed.

Definition toy_to_vec {A} `{Countable A} (a : A) : result bytes string :=
  Ok (pos_bytes (encode a)).
Definition toy_from_slice {A} `{Countable A} (b : bytes) : result A string :=
  ok_or (bytes_pos b ≫= decode) "malformed".

Lemma toy_from_to {A} `{Countable A} (a : A) b : toy_from_slice (pos_bytes (encode a) ++ b) = Ok a.
Proof. unfold toy_from_slice. rewrite bytes_pos_bytes. simpl. by rewrite decode_encode. Qed.

Program Definition toy_json A `{Countable A} : Json A := {|
  to_vec := toy_to_vec; to_vec_pretty := toy_to_vec; from_slice := toy_from_slice |}.
Next Obligation. intros A ?? a b [= <-]. rewrite <-(app_nil_r (pos_bytes _)). apply toy_from_to. Qed.
Next Obligation. intros A ?? a b [= <-]. rewrite <-(app_nil_r (pos_bytes _)). apply toy_from_to. Qed.
Next Obligation. intros A ?? a b [= <-]. apply toy_from_to. Qed.
Next Obligation. intros A ?? a b [= <-]. apply pos_bytes_one_line. Qed.

Program Definition toy_base64 : Base64 := {|
  b64_encode := str_of_bytes; b64_decode := fun s => Ok (as_bytes s) |}.
Next Obligation. intros b. exact (f_equal Ok (as_bytes_str b)). Qed.

(** The first [n] bytes of a padded input. *)
Definition pad (n : nat) (b : bytes) : bytes := take n (b ++ replicate n "000"%byte).

Lemma length_pad n b : length (pad n b) = n.
Proof. unfold pad. rewrite length_take, length_app, length_replicate. lia. Qed.

Program Definition toy_sha256 : Sha256 := {| sha256 := pad 32 |}.
Next Obligation. intros. apply length_pad. Qed.

Program Definition toy_ed25519 : Ed25519 := {|
  ed_public := pad 32;
  ed_sign := fun sk m => pad 64 (pad 32 sk ++ rev m);
  ed_key_ok := fun _ => true;
  ed_verify_strict := fun pk m s => bool_decide (s = pad 64 (pk ++ rev m)) |}.
Next Obligation. intros. apply length_pad. Qed.
Next Obligation. intros. apply length_pad. Qed.
Next Obligation. done. Qed.
Next Obligation. intros. by apply bool_decide_eq_true. Qed.

(** The smaller of the two keys first: a symmetric "exchange". *)
Definition toy_dh (a b : bytes) : bytes :=
  let a := pad 32 a in if bytes_leb a b then pad 32 (take 16 a ++ b) else pad 32 (take 16 b ++ a).

Program Definition toy_x25519 : X25519 := {|
  x_public := pad 32; x_dh := toy_dh; x_contributory := fun _ => true;
  hkdf_expand := fun shared info => Some (pad 32 (rev info ++ shared)) |}.
Next Obligation. intros. apply length_pad. Qed.
Next Obligation.
  intros a b. unfold toy_dh. destruct (bytes_leb (pad 32 a) (pad 32 b)) eqn:Hab,
    (bytes_leb (pad 32 b) (pad 32 a)) eqn:Hba; try done.
  - by rewrite (bytes_leb_antisym _ _ Hab Hba).
  - destruct (bytes_leb_total (pad 32 a) (pad 32 b)); congruence.
Qed.

(** Key and associated data in the clear, checked on opening. *)
Definition toy_tag (k n ad : bytes) : bytes := pad 32 k ++ pad 24 n ++ pad 200 ad.

Program Definition toy_aead : Aead := {|
  aead_encrypt := fun k n ad m => Some (toy_tag k n ad ++ m);
  aead_decrypt := fun k n ad c =>
    if bool_decide (take (length (toy_tag k n ad)) c = toy_tag k n ad)
    then Some (drop (length (toy_tag k n ad)) c) else None |}.
Next Obligation.
  intros k n ad m c [= <-]. rewrite bool_decide_eq_true_2 by apply take_app_length.
  by rewrite drop_app_length.
Qed.

(** Accepts every text as its own canonical form. *)
Program Definition toy_uuid : UuidText := {| uuid_parse := Some |}.
Next Obligation. by intros s u [= <-]. Qed.

End Toy.
