(* ===== verification/Protocol.v ===== *)
(** * The shared wire protocol ([crates/core/src/protocol.rs])

    Frames and envelopes, their validators and bounded codecs, and the
    connection-order validator with its transition table.  The JSON codec of
    frames is a parameter here and built in [Serde]. *)

From S2P Require Import Prelude Interfaces.
From Stdlib Require Import Strings.Byte.

Set Default Goal Selector "!".
#[local] Open Scope clip_scope.

Definition PROTOCOL_VERSION : Z := 1.
Definition MAX_FRAME_BYTES : Z := 24 * 1024 * 1024.
Definition MAX_MESSAGE_BYTES : Z := 24 * 1024 * 1024.
Definition PUBLIC_KEY_LENGTH : nat := 32.
Definition BUNDLE_BYTES_LENGTH : nat := PUBLIC_KEY_LENGTH * 2.

(** ** Data *)

Record PubBundle := { sign_pk : bytes; dh_pk : bytes }.

#[global] Instance PubBundle_eq_decision : EqDecision PubBundle.
Proof. solve_decision. Defined.

(** The two fields are [[u8; 32]] arrays. *)
Definition bundle_ok (b : PubBundle) : Prop :=
  length (sign_pk b) = PUBLIC_KEY_LENGTH /\ length (dh_pk b) = PUBLIC_KEY_LENGTH.

Record PubBundleJson := { sign_pk_b64 : string; dh_pk_b64 : string }.

Inductive Frame :=
| Hello (device_id : string) (pub_bundle : PubBundle) (version : Z)
| HelloOk (server_version : Z) (nonce_b64 : string)
| PairOffer (code : string) (pub_bundle : PubBundle)
| PairOfferOk
| PairClaim (code : string) (pub_bundle : PubBundle)
| PairPeer (peer_pub_bundle : PubBundle)
| Join (room_id device_id : string) (pub_bundle : PubBundle) (sig_b64 : string)
| JoinOk
| Clip (room_id ciphertext_b64 origin_device : string) (mailbox : bool)
| MailboxEmpty
| ErrorFrame (code message : string).

#[global] Instance Frame_eq_decision : EqDecision Frame.
Proof. solve_decision. Defined.

Inductive ContentKind := KText | KImage.

#[global] Instance ContentKind_eq_decision : EqDecision ContentKind.
Proof. solve_decision. Defined.

Record Envelope := {
  v : Z; kind : ContentKind; item_id : string; env_seq : Z; env_ts_ms : Z; content_b64 : string
}.

#[global] Instance Envelope_eq_decision : EqDecision Envelope.
Proof. solve_decision. Defined.

Inductive ConnectionState :=
| Connected | AwaitingHelloOk | Ready | AwaitingPairOfferOk | AwaitingPairPeer
| ReadyToJoin | AwaitingJoinOk | Bootstrap | Live | Closed.

#[global] Instance ConnectionState_eq_decision : EqDecision ConnectionState.
Proof. solve_decision. Defined.

Inductive ProtocolError :=
| BadFrame (message : string)
| Oversize (size limit : Z)
| VersionMismatch (received supported : Z).

#[global] Instance ProtocolError_eq_decision : EqDecision ProtocolError.
Proof. solve_decision. Defined.

(** The [Display] text of the variants [to_error_frame] prints. *)
Definition oversize_text (size limit : Z) : string :=
  "payload is " +:+ pretty size +:+ " bytes; limit is " +:+ pretty limit +:+ " bytes".
Definition version_text (received supported : Z) : string :=
  "unsupported protocol version " +:+ pretty received +:+ "; expected " +:+ pretty supported.

Definition to_error_frame (e : ProtocolError) : Frame :=
  match e with
  | BadFrame message => ErrorFrame "bad_frame" message
  | Oversize size limit => ErrorFrame "bad_frame" (oversize_text size limit)
  | VersionMismatch received supported =>
      ErrorFrame "version_mismatch" (version_text received supported)
  end.

Definition bundle_bytes (b : PubBundle) : bytes := sign_pk b ++ dh_pk b.

(** ** Validators *)

Definition validate_lower_hex (value : string) (len : nat) (name : string) : result unit ProtocolError :=
  if lower_hex len value then Ok tt
  else Err (BadFrame (name +:+ " must be " +:+ pretty len +:+ " lowercase hex characters")).

Definition validate_device_id (device_id : string) := validate_lower_hex device_id 16 "device_id".
Definition validate_room_id (room_id : string) := validate_lower_hex room_id 32 "room_id".

Definition validate_version (version : Z) : result unit ProtocolError :=
  if (version =? PROTOCOL_VERSION)%Z then Ok tt
  else Err (VersionMismatch version PROTOCOL_VERSION).

Definition byte_at (l : bytes) (i : nat) (c : byte) : bool := bool_decide (l !! i = Some c).

Definition is_uuid_v4 (value : string) : bool :=
  let l := as_bytes value in
  bool_decide (length l = 36)
  && byte_at l 8 "-"%byte && byte_at l 13 "-"%byte && byte_at l 14 "4"%byte
  && byte_at l 18 "-"%byte && byte_at l 23 "-"%byte
  && match l !! 19 with
     | Some b => bool_decide (b ∈ ["8"; "9"; "a"; "b"; "A"; "B"]%byte)
     | None => false
     end
  && forallb (fun ib => bool_decide (ib.1 ∈ [8; 13; 18; 23]) || is_ascii_hexdigit ib.2)
       (zip (seq 0 (length l)) l).

Definition ensure_size (size limit : Z) : result unit ProtocolError :=
  if (size <=? limit)%Z then Ok tt else Err (Oversize size limit).

Definition bad_json (error : string) : ProtocolError := BadFrame ("invalid JSON: " +:+ error).

Section codecs.
Context {B64 : Base64}.

Definition validate_base64 (name value : string) : result unit ProtocolError :=
  match b64_decode value with
  | Err error => Err (BadFrame (name +:+ " must be padded STANDARD base64: " +:+ error))
  | Ok decoded =>
      if bool_decide (b64_encode decoded = value) then Ok tt
      else Err (BadFrame (name +:+ " must be canonical padded STANDARD base64"))
  end.

Definition validate_frame (f : Frame) : result unit ProtocolError :=
  match f with
  | Hello device_id _ version => _ ←? validate_device_id device_id; validate_version version
  | HelloOk server_version nonce_b64 =>
      _ ←? validate_version server_version; validate_base64 "nonce_b64" nonce_b64
  | PairOffer _ _ | PairOfferOk | PairClaim _ _ | PairPeer _ | JoinOk | MailboxEmpty
  | ErrorFrame _ _ => Ok tt
  | Join room_id device_id _ sig_b64 =>
      _ ←? validate_room_id room_id; _ ←? validate_device_id device_id;
      validate_base64 "sig_b64" sig_b64
  | Clip room_id ciphertext_b64 _ _ =>
      _ ←? validate_room_id room_id; validate_base64 "ciphertext_b64" ciphertext_b64
  end.

Definition validate_envelope (e : Envelope) : result unit ProtocolError :=
  _ ←? validate_version (v e);
  if negb (is_uuid_v4 (item_id e)) then Err (BadFrame "item_id must be a UUID v4")
  else validate_base64 "content_b64" (content_b64 e).

(** *** Custom (de)serialization of public keys *)

Definition decode_public_key (value : string) : result bytes string :=
  decoded ←? b64_decode value;
  if negb (bool_decide (b64_encode decoded = value))
  then Err "public key must use canonical padded STANDARD base64"
  else if bool_decide (length decoded = PUBLIC_KEY_LENGTH) then Ok decoded
  else Err ("public key must decode to " +:+ pretty PUBLIC_KEY_LENGTH +:+ " bytes, got "
            +:+ pretty (length decoded)).

Definition bundle_serialize (b : PubBundle) : PubBundleJson :=
  {| sign_pk_b64 := b64_encode (sign_pk b); dh_pk_b64 := b64_encode (dh_pk b) |}.

Definition bundle_deserialize (encoded : PubBundleJson) : result PubBundle string :=
  sign_pk ←? decode_public_key (sign_pk_b64 encoded);
  dh_pk ←? decode_public_key (dh_pk_b64 encoded);
  Ok {| sign_pk := sign_pk; dh_pk := dh_pk |}.

(** *** Bounded codecs *)

Definition encode_json {A} {JA : Json A} (value : A) (limit : Z) : result bytes ProtocolError :=
  encoded ←? map_err bad_json (to_vec_pretty value);
  let encoded := encoded ++ ["010"%byte] in
  _ ←? ensure_size (Z.of_nat (length encoded)) limit;
  Ok encoded.

Context {JF : Json Frame} {JE : Json Envelope}.

Definition encode_frame (f : Frame) : result bytes ProtocolError :=
  _ ←? validate_frame f; encode_json f MAX_FRAME_BYTES.

Definition decode_frame (encoded : bytes) : result Frame ProtocolError :=
  _ ←? ensure_size (Z.of_nat (length encoded)) MAX_FRAME_BYTES;
  frame ←? map_err bad_json (from_slice encoded);
  _ ←? validate_frame frame;
  Ok frame.

Definition encode_envelope (e : Envelope) : result bytes ProtocolError :=
  _ ←? validate_envelope e; encode_json e MAX_MESSAGE_BYTES.

Definition decode_envelope (encoded : bytes) : result Envelope ProtocolError :=
  _ ←? ensure_size (Z.of_nat (length encoded)) MAX_MESSAGE_BYTES;
  envelope ←? map_err bad_json (from_slice encoded);
  _ ←? validate_envelope envelope;
  Ok envelope.
End codecs.

(** ** The connection-order validator *)

Definition type_name (f : Frame) : string :=
  match f with
  | Hello _ _ _ => "hello" | HelloOk _ _ => "hello_ok" | PairOffer _ _ => "pair_offer"
  | PairOfferOk => "pair_offer_ok" | PairClaim _ _ => "pair_claim" | PairPeer _ => "pair_peer"
  | Join _ _ _ _ => "join" | JoinOk => "join_ok" | Clip _ _ _ _ => "clip"
  | MailboxEmpty => "mailbox_empty" | ErrorFrame _ _ => "error"
  end.

Definition state_index (s : ConnectionState) : nat :=
  match s with
  | Connected => 0 | AwaitingHelloOk => 1 | Ready => 2 | AwaitingPairOfferOk => 3
  | AwaitingPairPeer => 4 | ReadyToJoin => 5 | AwaitingJoinOk => 6 | Bootstrap => 7
  | Live => 8 | Closed => 9
  end.

(** [{state:?}]. *)
Definition state_debug (s : ConnectionState) : string :=
  match s with
  | Connected => "Connected" | AwaitingHelloOk => "AwaitingHelloOk" | Ready => "Ready"
  | AwaitingPairOfferOk => "AwaitingPairOfferOk" | AwaitingPairPeer => "AwaitingPairPeer"
  | ReadyToJoin => "ReadyToJoin" | AwaitingJoinOk => "AwaitingJoinOk"
  | Bootstrap => "Bootstrap" | Live => "Live" | Closed => "Closed"
  end.

Inductive FrameEvent :=
| EvHello | EvHelloOk | EvPairOffer | EvPairOfferOk | EvPairClaim | EvPairPeer
| EvJoin | EvJoinOk | EvMailboxClip | EvLiveClip | EvMailboxEmpty | EvError.

Definition from_frame (f : Frame) : FrameEvent :=
  match f with
  | Hello _ _ _ => EvHello | HelloOk _ _ => EvHelloOk | PairOffer _ _ => EvPairOffer
  | PairOfferOk => EvPairOfferOk | PairClaim _ _ => EvPairClaim | PairPeer _ => EvPairPeer
  | Join _ _ _ _ => EvJoin | JoinOk => EvJoinOk
  | Clip _ _ _ true => EvMailboxClip | Clip _ _ _ false => EvLiveClip
  | MailboxEmpty => EvMailboxEmpty | ErrorFrame _ _ => EvError
  end.

Definition event_index (e : FrameEvent) : nat :=
  match e with
  | EvHello => 0 | EvHelloOk => 1 | EvPairOffer => 2 | EvPairOfferOk => 3
  | EvPairClaim => 4 | EvPairPeer => 5 | EvJoin => 6 | EvJoinOk => 7
  | EvMailboxClip => 8 | EvLiveClip => 9 | EvMailboxEmpty => 10 | EvError => 11
  end.

Abbreviation transition_table := (list (list (option ConnectionState))).

(** [transitions[s][e] = Some(next)]. *)
Definition set_transition (s : ConnectionState) (e : FrameEvent) (next : ConnectionState)
    (t : transition_table) : transition_table :=
  alter (fun row => <[event_index e := Some next]> row) (state_index s) t.

Definition build_transitions : transition_table :=
  let t := replicate 10 (replicate 12 None) in
  let t := set_transition Connected EvHello AwaitingHelloOk t in
  let t := set_transition AwaitingHelloOk EvHelloOk Ready t in
  let t := set_transition Ready EvPairOffer AwaitingPairOfferOk t in
  let t := set_transition Ready EvPairClaim AwaitingPairPeer t in
  let t := set_transition Ready EvJoin AwaitingJoinOk t in
  let t := set_transition AwaitingPairOfferOk EvPairOfferOk AwaitingPairPeer t in
  let t := set_transition AwaitingPairPeer EvPairPeer ReadyToJoin t in
  let t := set_transition ReadyToJoin EvJoin AwaitingJoinOk t in
  let t := set_transition AwaitingJoinOk EvJoinOk Bootstrap t in
  let t := set_transition Bootstrap EvMailboxClip Live t in
  let t := set_transition Bootstrap EvMailboxEmpty Live t in
  let t := set_transition Live EvLiveClip Live t in
  foldl (fun t active_state =>
           alter (fun row => <[event_index EvError := Some Closed]> row) active_state t)
    t (seq 0 (state_index Closed)).

Definition TRANSITIONS : transition_table := build_transitions.

(** [TRANSITIONS[i][j]] (both indices are always in range). *)
Definition transition (s : ConnectionState) (e : FrameEvent) : option ConnectionState :=
  default None (row ← TRANSITIONS !! state_index s; row !! event_index e).

Definition validate_frame_order {B64 : Base64} (state : ConnectionState) (f : Frame) :
    result ConnectionState ProtocolError :=
  _ ←? validate_frame f;
  match transition state (from_frame f) with
  | Some next_state => Ok next_state
  | None => Err (BadFrame ("frame " +:+ type_name f +:+ " is illegal in state " +:+ state_debug state))
  end.

(** ** Specifications *)

(** The state table of the module documentation, row by row. *)
Inductive legal : ConnectionState -> FrameEvent -> ConnectionState -> Prop :=
| legal_hello : legal Connected EvHello AwaitingHelloOk
| legal_hello_ok : legal AwaitingHelloOk EvHelloOk Ready
| legal_offer : legal Ready EvPairOffer AwaitingPairOfferOk
| legal_offer_ok : legal AwaitingPairOfferOk EvPairOfferOk AwaitingPairPeer
| legal_claim : legal Ready EvPairClaim AwaitingPairPeer
| legal_peer : legal AwaitingPairPeer EvPairPeer ReadyToJoin
| legal_join s : s = Ready \/ s = ReadyToJoin -> legal s EvJoin AwaitingJoinOk
| legal_join_ok : legal AwaitingJoinOk EvJoinOk Bootstrap
| legal_bootstrap e : e = EvMailboxClip \/ e = EvMailboxEmpty -> legal Bootstrap e Live
| legal_clip : legal Live EvLiveClip Live
| legal_error s : s <> Closed -> legal s EvError Closed.

(** Field-level well-formedness, independent of the validators' order. *)
Definition canonical_b64 {B64 : Base64} (s : string) : Prop := exists b, s = b64_encode b.

Definition frame_wf {B64 : Base64} (f : Frame) : Prop :=
  match f with
  | Hello device_id _ version => lower_hex 16 device_id = true /\ version = PROTOCOL_VERSION
  | HelloOk version nonce => version = PROTOCOL_VERSION /\ canonical_b64 nonce
  | Join room_id device_id _ sig =>
      lower_hex 32 room_id = true /\ lower_hex 16 device_id = true /\ canonical_b64 sig
  | Clip room_id ciphertext _ _ => lower_hex 32 room_id = true /\ canonical_b64 ciphertext
  | _ => True
  end.

Definition envelope_wf {B64 : Base64} (e : Envelope) : Prop :=
  v e = PROTOCOL_VERSION /\ is_uuid_v4 (item_id e) = true /\ canonical_b64 (content_b64 e).

(** A whole connection: the frames exchanged, in order. *)
Fixpoint run_order {B64 : Base64} (s : ConnectionState) (fs : list Frame) :
    result ConnectionState ProtocolError :=
  match fs with
  | [] => Ok s
  | f :: fs => s' ←? validate_frame_order s f; run_order s' fs
  end.

(** What may precede each open state, as a sequence of events. *)
Definition pairing_script (p : list FrameEvent) : Prop :=
  p = [EvPairOffer; EvPairOfferOk; EvPairPeer] \/ p = [EvPairClaim; EvPairPeer].
Definition maybe_paired (p : list FrameEvent) : Prop := p = [] \/ pairing_script p.

Definition script (s : ConnectionState) (es : list FrameEvent) : Prop :=
  let H := [EvHello; EvHelloOk] in
  match s with
  | Connected => es = []
  | AwaitingHelloOk => es = [EvHello]
  | Ready => es = H
  | AwaitingPairOfferOk => es = H ++ [EvPairOffer]
  | AwaitingPairPeer => es = H ++ [EvPairOffer; EvPairOfferOk] \/ es = H ++ [EvPairClaim]
  | ReadyToJoin => exists p, pairing_script p /\ es = H ++ p
  | AwaitingJoinOk => exists p, maybe_paired p /\ es = H ++ p ++ [EvJoin]
  | Bootstrap => exists p, maybe_paired p /\ es = H ++ p ++ [EvJoin; EvJoinOk]
  | Live => exists p b lives, maybe_paired p /\ (b = EvMailboxClip \/ b = EvMailboxEmpty) /\
      Forall (eq EvLiveClip) lives /\ es = H ++ p ++ [EvJoin; EvJoinOk; b] ++ lives
  | Closed => True
  end.

(** ** Validators accept exactly the well-formed values *)

Section validators.
Context {B64 : Base64}.

Lemma validate_base64_Ok name s : validate_base64 name s = Ok tt <-> canonical_b64 s.
Proof.
  unfold validate_base64, canonical_b64. split.
  - destruct (b64_decode s) as [b|]; [|done]. case_bool_decide; [|done]. eauto.
  - intros [b ->]. rewrite b64_roundtrip. by rewrite bool_decide_eq_true_2.
Qed.

Lemma validate_lower_hex_Ok s n name : validate_lower_hex s n name = Ok tt <-> lower_hex n s = true.
Proof. unfold validate_lower_hex. by destruct (lower_hex n s). Qed.

Lemma validate_version_Ok z : validate_version z = Ok tt <-> z = PROTOCOL_VERSION.
Proof. unfold validate_version. destruct (Z.eqb_spec z PROTOCOL_VERSION); naive_solver. Qed.

Lemma ensure_size_Ok size limit : ensure_size size limit = Ok tt <-> (size <= limit)%Z.
Proof. unfold ensure_size. case_bool; bool_to_prop; split; (done || lia). Qed.

#[local] Create Rewrite HintDb validators.
#[local] Hint Rewrite @rbind_unit_Ok validate_base64_Ok validate_lower_hex_Ok
  validate_version_Ok ensure_size_Ok : validators.

Lemma validate_frame_Ok f : validate_frame f = Ok tt <-> frame_wf f.
Proof.
  destruct f; simpl; unfold validate_device_id, validate_room_id;
    autorewrite with validators; naive_solver.
Qed.

Lemma validate_envelope_Ok e : validate_envelope e = Ok tt <-> envelope_wf e.
Proof.
  unfold validate_envelope, envelope_wf. autorewrite with validators.
  destruct (is_uuid_v4 (item_id e)); simpl; autorewrite with validators; naive_solver.
Qed.

Lemma transition_legal s e s' : transition s e = Some s' <-> legal s e s'.
Proof.
  split.
  - destruct s, e; vm_compute; intros [= <-]; constructor; auto.
  - intros [| | | | | |s0 [->| ->]| |e0 [->| ->]| |s0 Hs]; try reflexivity.
    by destruct s0.
Qed.

Lemma validate_frame_order_Ok s f s' :
  validate_frame_order s f = Ok s' <-> frame_wf f /\ legal s (from_frame f) s'.
Proof.
  unfold validate_frame_order. rewrite rbind_Ok, <-validate_frame_Ok, <-transition_legal.
  split.
  - intros ([] & -> & Ht). destruct (transition s (from_frame f)); naive_solver.
  - intros [Hv Ht]. exists tt. by rewrite Ht.
Qed.

Lemma run_order_snoc s fs f s' :
  run_order s (fs ++ [f]) = Ok s' <->
  exists s1, run_order s fs = Ok s1 /\ validate_frame_order s1 f = Ok s'.
Proof.
  revert s; induction fs as [|g fs IH]; intros s; simpl; rewrite rbind_Ok.
  - split; [intros (? & ? & Heq)|intros (? & Heq & ?)]; simplify_eq; eauto.
  - setoid_rewrite IH. setoid_rewrite (rbind_Ok (validate_frame_order s g)). split.
    + intros (s1 & ? & s2 & ? & ?); eauto.
    + intros (s2 & (s1 & ? & ?) & ?); eauto.
Qed.

Lemma script_step s es e s' : script s es -> legal s e s' -> script s' (es ++ [e]).
Proof.
  intros Hs Hl. destruct Hl as [| | | | | |s0 [-> | ->]| |e0 He| |]; simpl in Hs |- *.
  - by subst.
  - by subst.
  - by subst.
  - left. by subst.
  - right. by subst.
  - destruct Hs as [-> | ->]; eexists; (split; [|reflexivity]); [by left|by right].
  - subst. exists []. split; [by left|done].
  - destruct Hs as (p & Hp & ->). exists p. split; [by right|]. by rewrite <-?app_assoc.
  - destruct Hs as (p & Hp & ->). exists p. split; [done|]. simpl. by rewrite <-?app_assoc.
  - destruct Hs as (p & Hp & ->). exists p, e0, []. split_and!; [done|done|constructor|].
    simpl. by rewrite <-?app_assoc.
  - destruct Hs as (p & b & l & Hp & Hb & Hl & ->). exists p, b, (l ++ [EvLiveClip]).
    split_and!; [done|done| |by simpl; rewrite <-?app_assoc].
    apply Forall_app. auto.
  - done.
Qed.
End validators.

(** ** Paths through the table *)

Fixpoint ev_path (s : ConnectionState) (es : list FrameEvent) (s' : ConnectionState) : Prop :=
  match es with
  | [] => s = s'
  | e :: es => exists s1, legal s e s1 /\ ev_path s1 es s'
  end.

Lemma ev_path_app s es1 es2 s' :
  ev_path s (es1 ++ es2) s' <-> exists s1, ev_path s es1 s1 /\ ev_path s1 es2 s'.
Proof.
  revert s; induction es1 as [|e es1 IH]; intros s; simpl; [naive_solver|].
  setoid_rewrite IH. naive_solver.
Qed.

Lemma ev_path_lives lives : Forall (eq EvLiveClip) lives -> ev_path Live lives Live.
Proof. induction 1 as [|e l <- _ IH]; simpl; eauto using legal. Qed.

Lemma script_Live_path es : script Live es -> ev_path Connected es Live.
Proof.
  intros (p & b & lives & Hp & Hb & Hl%ev_path_lives & ->).
  assert (exists s, (s = Ready \/ s = ReadyToJoin) /\ ev_path Ready p s) as (s & Hs & Hps).
  { destruct Hp as [-> | [-> | ->]]; simpl.
    - eauto.
    - exists ReadyToJoin. eauto 10 using legal.
    - exists ReadyToJoin. eauto 10 using legal. }
  apply (ev_path_app _ [EvHello; EvHelloOk]). exists Ready.
  split; [simpl; eauto using legal|].
  apply ev_path_app. exists s. split; [done|].
  apply (ev_path_app _ [EvJoin; EvJoinOk; b]). exists Live. split; [|done].
  simpl. eauto 10 using legal.
Qed.

Section runs.
Context {B64 : Base64}.

Lemma run_order_path s fs s' :
  run_order s fs = Ok s' <-> Forall frame_wf fs /\ ev_path s (from_frame <$> fs) s'.
Proof.
  revert s; induction fs as [|f fs IH]; intros s; simpl.
  - split; [intros [= <-]; auto|]. by intros [_ ->].
  - rewrite rbind_Ok. setoid_rewrite validate_frame_order_Ok. setoid_rewrite IH.
    rewrite Forall_cons. naive_solver.
Qed.

Lemma run_order_script fs s : run_order Connected fs = Ok s -> script s (from_frame <$> fs).
Proof.
  revert s; induction fs as [|f fs IH] using rev_ind; intros s.
  - simpl. intros [= <-]. done.
  - rewrite run_order_snoc, fmap_app. intros (s1 & H1%IH & [_ H2]%validate_frame_order_Ok).
    by eapply script_step.
Qed.

Lemma legal_from_Closed e s : ~ legal Closed e s.
Proof. intros H. inversion H; naive_solver. Qed.

Lemma legal_error_inv s s' : legal s EvError s' -> s <> Closed /\ s' = Closed.
Proof. intros H. inversion H; naive_solver. Qed.

Lemma decode_frame_Ok {JF : Json Frame} b f :
  decode_frame b = Ok f <->
  (Z.of_nat (length b) <= MAX_FRAME_BYTES)%Z /\ from_slice b = Ok f /\ frame_wf f.
Proof.
  unfold decode_frame. rewrite <-ensure_size_Ok, <-validate_frame_Ok.
  destruct (ensure_size _ _) as [[]|]; simpl; [|naive_solver].
  destruct (from_slice b) as [g|]; simpl; [|naive_solver].
  destruct (validate_frame g) as [[]|] eqn:Hg; simpl; split.
  - by intros [= ->].
  - by intros (_ & [= ->] & _).
  - done.
  - intros (_ & [= ->] & ?). congruence.
Qed.

Lemma encode_json_Ok {A} {JA : Json A} (a : A) limit b :
  encode_json a limit = Ok b <->
  exists e, to_vec_pretty a = Ok e /\ b = e ++ ["010"%byte] /\ (Z.of_nat (length b) <= limit)%Z.
Proof.
  unfold encode_json. destruct (to_vec_pretty a) as [e|]; simpl; [|naive_solver].
  split.
  - rewrite rbind_Ok. intros ([] & Hs%ensure_size_Ok & [= <-]). eauto.
  - intros (? & [= <-] & -> & Hs%ensure_size_Ok). by rewrite Hs.
Qed.

Lemma encode_frame_Ok {JF : Json Frame} f b :
  encode_frame f = Ok b <-> frame_wf f /\ encode_json f MAX_FRAME_BYTES = Ok b.
Proof.
  unfold encode_frame. rewrite rbind_Ok, <-validate_frame_Ok.
  destruct (validate_frame f) as [[]|]; naive_solver.
Qed.

Lemma envelope_codec {JE : Json Envelope} e b :
  encode_envelope e = Ok b -> envelope_wf e /\ decode_envelope b = Ok e.
Proof.
  unfold encode_envelope. rewrite rbind_Ok. intros ([] & Hv & Hj).
  split; [by apply validate_envelope_Ok|].
  apply encode_json_Ok in Hj as (t & Ht & -> & Hs%ensure_size_Ok).
  unfold decode_envelope. change MAX_MESSAGE_BYTES with MAX_MESSAGE_BYTES in Hs.
  rewrite Hs. simpl. rewrite (json_pretty_line _ _ Ht). simpl. by rewrite Hv.
Qed.

Lemma decode_public_key_Ok s k :
  decode_public_key s = Ok k <-> length k = PUBLIC_KEY_LENGTH /\ s = b64_encode k.
Proof.
  unfold decode_public_key. split.
  - destruct (b64_decode s) as [k'|]; simpl; [|done].
    repeat (case_bool_decide; simpl; try done). naive_solver.
  - intros [Hk ->]. rewrite b64_roundtrip. simpl.
    rewrite bool_decide_eq_true_2 by done. simpl. by rewrite bool_decide_eq_true_2.
Qed.

Lemma bundle_bytes_inj b1 b2 :
  bundle_ok b1 -> bundle_ok b2 -> bundle_bytes b1 = bundle_bytes b2 -> b1 = b2.
Proof.
  intros [Hs1 Hd1] [Hs2 Hd2] Heq. destruct b1, b2; simpl in *.
  unfold bundle_bytes in Heq; simpl in Heq.
  apply app_inj_1 in Heq as [-> ->]; [done|congruence].
Qed.

Lemma length_bundle_bytes b : bundle_ok b -> length (bundle_bytes b) = BUNDLE_BYTES_LENGTH.
Proof. intros [H1 H2]. unfold bundle_bytes. by rewrite length_app, H1, H2. Qed.

(** ** Claims *)

(** The connection-order validator implements the state table of the
    module documentation: a frame is accepted in a state, with a given next
    state, exactly when its fields are well formed and the table has that row. *)
Theorem frame_order_table s f s' :
  validate_frame_order s f = Ok s' <-> frame_wf f /\ legal s (from_frame f) s'.
Proof. apply validate_frame_order_Ok. Qed.

(** A connection reaches the live state exactly through the documented
    exchange: hello, hello_ok, at most one pairing (offered or claimed), join,
    join_ok, exactly one bootstrap frame, then only live clips. *)
Theorem live_connections fs :
  run_order Connected fs = Ok Live <->
  Forall frame_wf fs /\ script Live (from_frame <$> fs).
Proof.
  split.
  - intros H. split; [|by apply run_order_script]. by apply run_order_path in H as [? _].
  - intros [Hwf Hs]. apply run_order_path. split; [done|]. by apply script_Live_path.
Qed.

(** An error frame is the last frame of a connection: it is accepted in
    every open state, closes it, and no frame is accepted afterwards. *)
Theorem error_frame_is_last s fs code message post s' :
  run_order s (fs ++ ErrorFrame code message :: post) = Ok s' <->
  post = [] /\ s' = Closed /\ exists s1, run_order s fs = Ok s1 /\ s1 <> Closed.
Proof.
  rewrite !run_order_path, fmap_app, ev_path_app, Forall_app. simpl. split.
  - intros ([Hwf Hp] & s1 & H1 & s2 & [Hne ->]%legal_error_inv & H3).
    destruct post as [|f post]; simpl in H3.
    + split; [done|]. split; [done|]. exists s1. by rewrite run_order_path.
    + destruct H3 as (s3 & H3 & _). by apply legal_from_Closed in H3.
  - intros (-> & -> & s1 & [Hwf Hp]%run_order_path & Hne).
    split; [split; [done|]; by repeat constructor|].
    exists s1. split; [done|]. exists Closed. split; [by constructor|done].
Qed.

(** Public bundles are read from JSON exactly when both keys are canonical
    base64 of 32 bytes, and then print back to the very same text. *)
Theorem bundle_json_canonical j b :
  bundle_deserialize j = Ok b <-> bundle_ok b /\ j = bundle_serialize b.
Proof.
  unfold bundle_deserialize, bundle_serialize, bundle_ok.
  destruct j as [s h], b as [ks kh]; simpl. split.
  - rewrite rbind_Ok. intros (? & [? ->]%decode_public_key_Ok & H2).
    apply rbind_Ok in H2 as (? & [? ->]%decode_public_key_Ok & [= -> ->]). done.
  - intros [[Hs Hh] [= -> ->]].
    rewrite (proj2 (decode_public_key_Ok _ ks)) by done. simpl.
    by rewrite (proj2 (decode_public_key_Ok _ kh)) by done.
Qed.
End runs.

(** ** Countable frames, for the instances the witnesses run on *)

Module ProtocolToy.

Definition frame_code (f : Frame) : nat * list string * list bytes * Z * bool :=
  match f with
  | Hello d b z => (0, [d], [sign_pk b; dh_pk b], z, false)
  | HelloOk z n => (1, [n], [], z, false)
  | PairOffer c b => (2, [c], [sign_pk b; dh_pk b], 0%Z, false)
  | PairOfferOk => (3, [], [], 0%Z, false)
  | PairClaim c b => (4, [c], [sign_pk b; dh_pk b], 0%Z, false)
  | PairPeer b => (5, [], [sign_pk b; dh_pk b], 0%Z, false)
  | Join r d b s => (6, [r; d; s], [sign_pk b; dh_pk b], 0%Z, false)
  | JoinOk => (7, [], [], 0%Z, false)
  | Clip r c o m => (8, [r; c; o], [], 0%Z, m)
  | MailboxEmpty => (9, [], [], 0%Z, false)
  | ErrorFrame c m => (10, [c; m], [], 0%Z, false)
  end.

Definition frame_uncode (x : nat * list string * list bytes * Z * bool) : option Frame :=
  match x with
  | (0, [d], [s; h], z, _) => Some (Hello d (Build_PubBundle s h) z)
  | (1, [n], [], z, _) => Some (HelloOk z n)
  | (2, [c], [s; h], _, _) => Some (PairOffer c (Build_PubBundle s h))
  | (3, _, _, _, _) => Some PairOfferOk
  | (4, [c], [s; h], _, _) => Some (PairClaim c (Build_PubBundle s h))
  | (5, _, [s; h], _, _) => Some (PairPeer (Build_PubBundle s h))
  | (6, [r; d; g], [s; h], _, _) => Some (Join r d (Build_PubBundle s h) g)
  | (7, _, _, _, _) => Some JoinOk
  | (8, [r; c; o], _, _, m) => Some (Clip r c o m)
  | (9, _, _, _, _) => Some MailboxEmpty
  | (10, [c; m], _, _, _) => Some (ErrorFrame c m)
  | _ => None
  end.

Lemma frame_uncode_code f : frame_uncode (frame_code f) = Some f.
Proof. by destruct f as [? []| |? []| |? []|[]|? ? []| | | |]. Qed.

#[global] Instance Frame_countable : Countable Frame :=
  inj_countable frame_code frame_uncode frame_uncode_code.

#[global] Program Instance Envelope_countable : Countable Envelope :=
  inj_countable
    (fun e => (v e, match kind e with KText => true | KImage => false end, item_id e,
               env_seq e, env_ts_ms e, content_b64 e))
    (fun '(v, k, i, s, t, c) =>
       Some (Build_Envelope v (if k : bool then KText else KImage) i s t c)) _.
Next Obligation. by intros [? [] ? ? ? ?]. Qed.

Definition frame_json : Json Frame := Toy.toy_json Frame.
Definition envelope_json : Json Envelope := Toy.toy_json Envelope.
End ProtocolToy.
