(* ===== verification/Serde.v ===== *)
(** * Frames as JSON ([crates/core/src/protocol.rs], the serde attributes)

    The rest of the development takes the JSON codec of frames as a parameter
    ([Json Frame]).  Here it is built from what protocol.rs declares: the
    variants and fields of [Frame] with their serde attributes
    ([frame_schema]), and the serializer and deserializer of [PubBundle] it
    implements itself.  What remains a parameter is the generic machinery,
    [serde_derive] and [serde_json], for internally tagged enums: a tree that
    conforms to a schema prints to a text that reads back as that tree. *)

From S2P Require Import Prelude Interfaces Protocol.
From Stdlib Require Import Strings.Byte.

Set Default Goal Selector "!".
#[local] Open Scope clip_scope.

(** ** Internally tagged enums *)

(** The types of the fields that occur: [String], [u32], [bool], and a struct
    of named strings. *)
Inductive leaf_type := TString | TU32 | TBool | TStruct (names : list string).
Inductive leaf := LString (s : string) | LU32 (n : Z) | LBool (b : bool) | LStruct (fields : list (string * string)).

(** [#[serde(tag = ...)]], and the variants with their fields, as printed. *)
Record schema := { sc_tag : string; sc_variants : list (string * list (string * leaf_type)) }.
Record tagged := { tg_variant : string; tg_fields : list (string * leaf) }.

Definition is_string (s : string) : bool := utf8_valid (as_bytes s).

Definition leaf_ok (t : leaf_type) (l : leaf) : bool :=
  match t, l with
  | TString, LString s => is_string s
  | TU32, LU32 n => (0 <=? n)%Z && (n <? 2 ^ 32)%Z
  | TBool, LBool _ => true
  | TStruct names, LStruct fields => bool_decide (names = fields.*1) && forallb (fun f => is_string f.2) fields
  | _, _ => false
  end.

Fixpoint fields_ok (types : list (string * leaf_type)) (fields : list (string * leaf)) : bool :=
  match types, fields with
  | [], [] => true
  | (name, t) :: types, (name', l) :: fields => bool_decide (name = name') && leaf_ok t l && fields_ok types fields
  | _, _ => false
  end.

Definition conforms (s : schema) (t : tagged) : bool :=
  existsb (fun v => bool_decide (v.1 = tg_variant t) && fields_ok v.2 (tg_fields t)) (sc_variants s).

(** Names do not clash: variants, the fields of a variant, and the tag. *)
Definition schema_ok (s : schema) : bool :=
  bool_decide (NoDup (sc_variants s).*1) &&
  forallb (fun v => bool_decide (NoDup (sc_tag s :: v.2.*1)) &&
    forallb (fun f => match f.2 with TStruct names => bool_decide (NoDup names) | _ => true end) v.2) (sc_variants s).

(** [to_vec], [to_vec_pretty] and [from_slice] at a type of that form; reading
    returns the fields in the order of the schema. *)
Class TaggedSerde := {
  tagged_to_vec : schema -> tagged -> bytes;
  tagged_to_vec_pretty : schema -> tagged -> bytes;
  tagged_from_slice : schema -> bytes -> result tagged string;
  tagged_compact : forall s t, schema_ok s = true -> conforms s t = true ->
    tagged_from_slice s (tagged_to_vec s t) = Ok t;
  tagged_pretty : forall s t, schema_ok s = true -> conforms s t = true ->
    tagged_from_slice s (tagged_to_vec_pretty s t) = Ok t;
  tagged_pretty_line : forall s t, schema_ok s = true -> conforms s t = true ->
    tagged_from_slice s (tagged_to_vec_pretty s t ++ ["010"%byte]) = Ok t;
  tagged_one_line : forall s t, conforms s t = true ->
    ("010"%byte ∉ tagged_to_vec s t) /\ tagged_to_vec s t <> []
}.

(** ** [Frame] *)

(** [PubBundleJson]. *)
Definition bundle_type : leaf_type := TStruct ["sign_pk_b64"; "dh_pk_b64"].

Definition frame_schema : schema := {|
  sc_tag := "type";
  sc_variants :=
    [ ("hello", [("device_id", TString); ("pub_bundle", bundle_type); ("version", TU32)]);
      ("hello_ok", [("server_version", TU32); ("nonce_b64", TString)]);
      ("pair_offer", [("code", TString); ("pub_bundle", bundle_type)]);
      ("pair_offer_ok", []);
      ("pair_claim", [("code", TString); ("pub_bundle", bundle_type)]);
      ("pair_peer", [("peer_pub_bundle", bundle_type)]);
      ("join", [("room_id", TString); ("device_id", TString); ("pub_bundle", bundle_type); ("sig_b64", TString)]);
      ("join_ok", []);
      ("clip", [("room_id", TString); ("ciphertext_b64", TString); ("origin_device", TString); ("mailbox", TBool)]);
      ("mailbox_empty", []);
      ("error", [("code", TString); ("message", TString)]) ]%string |}.

Lemma frame_schema_ok : schema_ok frame_schema = true.
Proof. vm_compute; reflexivity. Qed.

Section frames.
Context {B64 : Base64}.

(** [Serialize for PubBundle] and [Deserialize for PubBundle]. *)
Definition bundle_leaf (b : PubBundle) : leaf :=
  let j := bundle_serialize b in LStruct [("sign_pk_b64", sign_pk_b64 j); ("dh_pk_b64", dh_pk_b64 j)]%string.

Definition bundle_of_leaf (fields : list (string * string)) : result PubBundle string :=
  match fields with
  | [(_, sign); (_, dh)] => bundle_deserialize {| sign_pk_b64 := sign; dh_pk_b64 := dh |}
  | _ => Err "missing field"
  end.

Definition frame_tagged (f : Frame) : tagged :=
  {| tg_variant := type_name f;
     tg_fields :=
       match f with
       | Hello device_id pub_bundle version =>
           [("device_id", LString device_id); ("pub_bundle", bundle_leaf pub_bundle); ("version", LU32 version)]
       | HelloOk server_version nonce_b64 =>
           [("server_version", LU32 server_version); ("nonce_b64", LString nonce_b64)]
       | PairOffer code pub_bundle | PairClaim code pub_bundle =>
           [("code", LString code); ("pub_bundle", bundle_leaf pub_bundle)]
       | PairOfferOk | JoinOk | MailboxEmpty => []
       | PairPeer peer_pub_bundle => [("peer_pub_bundle", bundle_leaf peer_pub_bundle)]
       | Join room_id device_id pub_bundle sig_b64 =>
           [("room_id", LString room_id); ("device_id", LString device_id); ("pub_bundle", bundle_leaf pub_bundle);
            ("sig_b64", LString sig_b64)]
       | Clip room_id ciphertext_b64 origin_device mailbox =>
           [("room_id", LString room_id); ("ciphertext_b64", LString ciphertext_b64);
            ("origin_device", LString origin_device); ("mailbox", LBool mailbox)]
       | ErrorFrame code message => [("code", LString code); ("message", LString message)]
       end%string |}.

(** The variant the tag names, from its fields in the order of the schema. *)
Definition frame_of_tagged (t : tagged) : result Frame string :=
  let named name := bool_decide (tg_variant t = name) in
  let with_bundle {R} fields (k : PubBundle -> R) : result R string := b ←? bundle_of_leaf fields; Ok (k b) in
  match (tg_fields t).*2 with
  | [LString device_id; LStruct bundle; LU32 version] =>
      if named "hello" then with_bundle bundle (fun b => Hello device_id b version) else Err "unknown variant"
  | [LU32 server_version; LString nonce_b64] =>
      if named "hello_ok" then Ok (HelloOk server_version nonce_b64) else Err "unknown variant"
  | [LString code; LStruct bundle] =>
      if named "pair_offer" then with_bundle bundle (PairOffer code)
      else if named "pair_claim" then with_bundle bundle (PairClaim code) else Err "unknown variant"
  | [LStruct bundle] => if named "pair_peer" then with_bundle bundle PairPeer else Err "unknown variant"
  | [LString room_id; LString device_id; LStruct bundle; LString sig_b64] =>
      if named "join" then with_bundle bundle (fun b => Join room_id device_id b sig_b64) else Err "unknown variant"
  | [LString room_id; LString ciphertext_b64; LString origin_device; LBool mailbox] =>
      if named "clip" then Ok (Clip room_id ciphertext_b64 origin_device mailbox) else Err "unknown variant"
  | [LString code; LString message] => if named "error" then Ok (ErrorFrame code message) else Err "unknown variant"
  | [] =>
      if named "pair_offer_ok" then Ok PairOfferOk else if named "join_ok" then Ok JoinOk
      else if named "mailbox_empty" then Ok MailboxEmpty else Err "unknown variant"
  | _ => Err "unknown variant"
  end%string.

(** What a [Frame] of the program is: its strings are UTF-8, its keys are
    arrays of 32 bytes (whose base64 text is a string), its versions are
    [u32]s. *)
Definition key_value (k : bytes) : bool := bool_decide (length k = PUBLIC_KEY_LENGTH) && is_string (b64_encode k).
Definition bundle_value (b : PubBundle) : bool := key_value (sign_pk b) && key_value (dh_pk b).
Definition u32_value (n : Z) : bool := (0 <=? n)%Z && (n <? 2 ^ 32)%Z.
Definition frame_value (f : Frame) : bool :=
  match f with
  | Hello device_id b version => is_string device_id && bundle_value b && u32_value version
  | HelloOk server_version nonce_b64 => u32_value server_version && is_string nonce_b64
  | PairOffer code b | PairClaim code b => is_string code && bundle_value b
  | PairOfferOk | JoinOk | MailboxEmpty => true
  | PairPeer b => bundle_value b
  | Join room_id device_id b sig_b64 => is_string room_id && is_string device_id && bundle_value b && is_string sig_b64
  | Clip room_id ciphertext_b64 origin_device _ =>
      is_string room_id && is_string ciphertext_b64 && is_string origin_device
  | ErrorFrame code message => is_string code && is_string message
  end.

Lemma bundle_leaf_ok b : bundle_value b = true -> leaf_ok bundle_type (bundle_leaf b) = true.
Proof.
  intros [[_ Hs]%andb_prop [_ Hd]%andb_prop]%andb_prop. unfold bundle_leaf, bundle_serialize.
  cbn [leaf_ok bundle_type forallb snd sign_pk_b64 dh_pk_b64]. by rewrite Hs, Hd, bool_decide_eq_true_2.
Qed.

Lemma fields_ok_cons name t types l fields :
  leaf_ok t l = true -> fields_ok types fields = true -> fields_ok ((name, t) :: types) ((name, l) :: fields) = true.
Proof. intros H1 H2. cbn [fields_ok]. by rewrite H1, H2, bool_decide_eq_true_2. Qed.

Lemma conforms_at s i types t :
  sc_variants s !! i = Some (tg_variant t, types) -> fields_ok types (tg_fields t) = true -> conforms s t = true.
Proof.
  intros Hi Hf. apply existsb_exists. exists (tg_variant t, types). split.
  - apply list_elem_of_In. by eapply list_elem_of_lookup_2.
  - cbn [fst snd]. by rewrite Hf, bool_decide_eq_true_2.
Qed.

(** What is printed conforms to what is declared. *)
Lemma frame_conforms f : frame_value f = true -> conforms frame_schema (frame_tagged f) = true.
Proof.
  intros Hf. destruct f; cbn [frame_value] in Hf; rewrite ?andb_true_iff in Hf; destruct_and?;
    [eapply (conforms_at _ 0)|eapply (conforms_at _ 1)|eapply (conforms_at _ 2)|eapply (conforms_at _ 3)
    |eapply (conforms_at _ 4)|eapply (conforms_at _ 5)|eapply (conforms_at _ 6)|eapply (conforms_at _ 7)
    |eapply (conforms_at _ 8)|eapply (conforms_at _ 9)|eapply (conforms_at _ 10)]; try reflexivity;
    cbn [tg_fields frame_tagged]; repeat (apply fields_ok_cons; [first [by apply bundle_leaf_ok|done]|]); done.
Qed.

Lemma bundle_of_bundle_leaf b :
  bundle_value b = true ->
  match bundle_leaf b with LStruct fields => bundle_of_leaf fields = Ok b | _ => False end.
Proof.
  intros [[H1%bool_decide_eq_true _]%andb_prop [H2%bool_decide_eq_true _]%andb_prop]%andb_prop.
  by apply bundle_json_canonical.
Qed.

(** Reading the fields of a frame gives back the frame. *)
Lemma frame_of_frame_tagged f : frame_value f = true -> frame_of_tagged (frame_tagged f) = Ok f.
Proof.
  intros Hf. destruct f; try done; cbn [frame_value] in Hf; rewrite ?andb_true_iff in Hf; destruct_and?;
    match goal with H : bundle_value ?b = true |- _ => apply bundle_of_bundle_leaf in H; rename H into Hb end;
    unfold frame_of_tagged; simpl in *; by rewrite Hb.
Qed.

Context {TS : TaggedSerde}.

(** The codec of frames; a value that no [Frame] of the program has does not
    print. *)
#[program] Definition serde_frame : Json Frame := {|
  to_vec := fun f => if frame_value f then Ok (tagged_to_vec frame_schema (frame_tagged f)) else Err ""%string;
  to_vec_pretty := fun f =>
    if frame_value f then Ok (tagged_to_vec_pretty frame_schema (frame_tagged f)) else Err ""%string;
  from_slice := fun b => t ←? tagged_from_slice frame_schema b; frame_of_tagged t |}.
Next Obligation.
  intros f b. cbv beta. destruct (frame_value f) eqn:Hf; [|done]. intros [= <-]. pose proof (frame_conforms f Hf) as Hc.
  rewrite tagged_compact by auto using frame_schema_ok. by apply frame_of_frame_tagged.
Qed.
Next Obligation.
  intros f b. cbv beta. destruct (frame_value f) eqn:Hf; [|done]. intros [= <-]. pose proof (frame_conforms f Hf) as Hc.
  rewrite tagged_pretty by auto using frame_schema_ok. by apply frame_of_frame_tagged.
Qed.
Next Obligation.
  intros f b. cbv beta. destruct (frame_value f) eqn:Hf; [|done]. intros [= <-]. pose proof (frame_conforms f Hf) as Hc.
  rewrite tagged_pretty_line by auto using frame_schema_ok. by apply frame_of_frame_tagged.
Qed.
Next Obligation.
  intros f b. cbv beta. destruct (frame_value f) eqn:Hf; [|done]. intros [= <-]. pose proof (frame_conforms f Hf) as Hc.
  by apply tagged_one_line.
Qed.

(** C37. The codec of frames, built from the declared fields and the
    serializer of public bundles.  [encode_frame] succeeds on every frame of
    the program whose fields are well formed, unless its text is over 24 MiB,
    and on no other; whatever it produces is within the limit, and
    [decode_frame] reads it back as the same frame, keys included. *)
Theorem frame_codec_roundtrip f :
  frame_value f = true ->
  match encode_frame (JF := serde_frame) f with
  | Ok b => frame_wf f /\ (Z.of_nat (length b) <= MAX_FRAME_BYTES)%Z /\ decode_frame (JF := serde_frame) b = Ok f
  | Err e => ~ frame_wf f \/
      exists size, e = Oversize size MAX_FRAME_BYTES /\ (MAX_FRAME_BYTES < size)%Z /\
        size = (Z.of_nat (length (tagged_to_vec_pretty frame_schema (frame_tagged f))) + 1)%Z
  end.
Proof.
  intros Hf. destruct (encode_frame (JF := serde_frame) f) as [b|e] eqn:E.
  - apply encode_frame_Ok in E as [Hwf E]. split; [done|]. apply encode_json_Ok in E as (t & Ht & -> & Hlen).
    split; [done|]. apply decode_frame_Ok. split_and!; [done| |done]. by apply json_pretty_line.
  - unfold encode_frame in E. rewrite <-validate_frame_Ok. destruct (validate_frame f) as [[]|]; [|by left].
    right. cbn [rbind] in E. unfold encode_json in E. simpl in E. rewrite Hf in E. simpl in E. unfold ensure_size in E.
    rewrite length_app in E. simpl in E. destruct (Z.leb_spec (Z.of_nat (length (tagged_to_vec_pretty frame_schema (frame_tagged f)) + 1)) MAX_FRAME_BYTES);
      simplify_eq/=. eexists. split_and!; [done|done|lia].
Qed.
End frames.

(** ** A concrete machinery *)

Module SerdeToy.
Import Toy.
#[local] Existing Instance toy_base64.

#[local] Instance leaf_eq_decision : EqDecision leaf.
Proof. solve_decision. Defined.
#[local] Program Instance leaf_countable : Countable leaf :=
  inj_countable
    (fun l => match l with LString s => inl (inl s) | LU32 n => inl (inr n) | LBool b => inr (inl b) | LStruct fs => inr (inr fs) end)
    (fun x => Some match x with inl (inl s) => LString s | inl (inr n) => LU32 n | inr (inl b) => LBool b | inr (inr fs) => LStruct fs end) _.
Next Obligation. by intros []. Qed.

#[local] Instance tagged_eq_decision : EqDecision tagged.
Proof. solve_decision. Defined.
#[local] Program Instance tagged_countable : Countable tagged :=
  inj_countable (fun t => (tg_variant t, tg_fields t)) (fun '(n, fs) => Some {| tg_variant := n; tg_fields := fs |}) _.
Next Obligation. by intros []. Qed.

Definition printed (t : tagged) : bytes := match to_vec (Json := toy_json tagged) t with Ok b => b | Err _ => [] end.
Lemma printed_Ok t : to_vec (Json := toy_json tagged) t = Ok (printed t).
Proof. done. Qed.

#[local] Program Instance toy_serde : TaggedSerde := {|
  tagged_to_vec := fun _ => printed; tagged_to_vec_pretty := fun _ => printed;
  tagged_from_slice := fun _ => from_slice (Json := toy_json tagged) |}.
Next Obligation. intros s t _ _. apply json_compact, printed_Ok. Qed.
Next Obligation. intros s t _ _. apply json_pretty, printed_Ok. Qed.
Next Obligation. intros s t _ _. apply json_pretty_line, printed_Ok. Qed.
Next Obligation. intros s t _. exact (json_one_line (Json := toy_json tagged) t _ (printed_Ok t)). Qed.

(** A hello that carries a public bundle. *)
Definition sample_hello : Frame :=
  Hello "0011223344556677" {| sign_pk := replicate 32 "s"%byte; dh_pk := replicate 32 "d"%byte |} 1.

Lemma frame_codec_roundtrip_witness :
  is_ok (encode_frame (JF := serde_frame) sample_hello) = true /\
  match encode_frame (JF := serde_frame) sample_hello with
  | Ok b => decode_frame (JF := serde_frame) b = Ok sample_hello
  | Err _ => False
  end.
Proof.
  assert (is_ok (encode_frame (JF := serde_frame) sample_hello) = true) as Hok by (vm_compute; reflexivity).
  assert (frame_value sample_hello = true) as Hv by (vm_compute; reflexivity).
  split; [exact Hok|]. pose proof (frame_codec_roundtrip sample_hello Hv) as H.
  destruct (encode_frame (JF := serde_frame) sample_hello) as [b|e]; [|discriminate Hok].
  exact (proj2 (proj2 H)).
Defined.
End SerdeToy.
