(* ===== verification/Crypto.v ===== *)
(** * Identities, fingerprints and the AEAD envelope ([crates/core/src/crypto.rs])

    The primitives (SHA-256, Ed25519, X25519, HKDF, XChaCha20-Poly1305,
    base64) are the classes of [Interfaces]; everything the file builds from
    them is translated: fingerprints and identifiers, the join signature
    input, directional session keys, associated data, the SAS, [seal]/[open]
    and the identity file.  Random bytes are arguments. *)

From S2P Require Import Prelude Fs Interfaces Protocol.
From Stdlib Require Import Strings.Byte.

Set Default Goal Selector "!".
#[local] Open Scope clip_scope.

Definition HEX_DIGITS : bytes := as_bytes "0123456789abcdef".
Definition JOIN_DOMAIN : bytes := as_bytes "clipboard-sync-join-v1".
Definition HKDF_DOMAIN : bytes := as_bytes "clipboard-sync-v1".
Definition SAS_DOMAIN : bytes := as_bytes "clipboard-sync-sas-v1".
Definition NONCE_LENGTH : nat := 24.

Inductive CryptoError :=
| JoinFieldTooLong | InvalidVerifyingKey | InvalidSignature | SameIdentity
| NonContributoryDh | KdfExpand | Encryption | Decryption | SealedTooShort
| InvalidGeneration (generation : Z) | InvalidSecretLength | MissingParent
| CryptoIo (e : io_error) | CryptoJson (e : string) | CryptoBase64 (e : string).

(** ** Hexadecimal text *)

Definition hex_digit (n : Z) : byte := default "000"%byte (HEX_DIGITS !! Z.to_nat n).

Definition hex_byte (b : byte) : bytes :=
  [hex_digit (Z.shiftr (bval b) 4); hex_digit (Z.land (bval b) 15)].

Definition hex_lower (b : bytes) : string := str_of_bytes (concat (hex_byte <$> b)).

(** ** Fingerprints and identifiers *)

Section fingerprints.
Context {S256 : Sha256}.

Definition bundle_fp (b : PubBundle) : string := hex_lower (sha256 (bundle_bytes b)).

Definition device_id (sign_pk : bytes) : string := hex_lower (take 8 (sha256 sign_pk)).

(** The two bundles in canonical order, as both [room_id] and [sas_code] hash them. *)
Definition sorted_pair (first second : PubBundle) : bytes :=
  let first_bytes := bundle_bytes first in
  let second_bytes := bundle_bytes second in
  if bytes_leb first_bytes second_bytes then first_bytes ++ second_bytes
  else second_bytes ++ first_bytes.

Definition room_id (first second : PubBundle) : string :=
  hex_lower (take 16 (sha256 (sorted_pair first second))).

(** [u32::from_be_bytes] of the first four bytes, and [{value:06}]. *)
Definition be_u32 (d : bytes) : Z :=
  foldl (fun acc b => acc * 256 + bval b)%Z 0%Z (take 4 d).

Definition digit (n : Z) : byte := default "000"%byte (HEX_DIGITS !! Z.to_nat n).
Definition six_digits (n : Z) : string :=
  str_of_bytes [digit (n / 100000 mod 10); digit (n / 10000 mod 10); digit (n / 1000 mod 10);
                digit (n / 100 mod 10); digit (n / 10 mod 10); digit (n mod 10)]%Z.

Definition sas_code (nonce_a : bytes) (first second : PubBundle) : string :=
  let digest := sha256 (SAS_DOMAIN ++ nonce_a ++ sorted_pair first second) in
  six_digits (be_u32 digest mod 1000000).
End fingerprints.

(** ** The join signature input *)

Definition byte_of_Z (z : Z) : byte := default "000"%byte (Byte.of_N (Z.to_N (z mod 256))).

(** [u32::to_be_bytes]. *)
Definition to_be_u32 (n : Z) : bytes :=
  [byte_of_Z (Z.shiftr n 24); byte_of_Z (Z.shiftr n 16); byte_of_Z (Z.shiftr n 8); byte_of_Z n].

Fixpoint push_fields (message : bytes) (fields : list bytes) : result bytes CryptoError :=
  match fields with
  | [] => Ok message
  | field :: fields =>
      let len := Z.of_nat (length field) in
      if (len <=? u32_max)%Z then push_fields (message ++ to_be_u32 len ++ field) fields
      else Err JoinFieldTooLong
  end.

Definition join_sig_msg (nonce : bytes) (room_id device_id : string) (bundle : bytes) :
    result bytes CryptoError :=
  push_fields JOIN_DOMAIN [nonce; as_bytes room_id; as_bytes device_id; bundle].

Definition verify {E : Ed25519} (sign_pk message signature : bytes) : result unit CryptoError :=
  if negb (ed_key_ok sign_pk) then Err InvalidVerifyingKey
  else if ed_verify_strict sign_pk message signature then Ok tt
  else Err InvalidSignature.

(** ** Identities *)

Record SessionKeys := { key_send : bytes; key_recv : bytes }.

Record Identity := { sign_secret : bytes; dh_secret : bytes; generation : Z }.

(** Private keys are [[u8; 32]] arrays, the generation is a [u64] of at least 1. *)
Definition identity_ok (i : Identity) : Prop :=
  length (sign_secret i) = 32 /\ length (dh_secret i) = 32 /\ (1 <= generation i <= u64_max)%Z.

Definition from_secret_bytes (sign_secret dh_secret : bytes) (generation : Z) :
    result Identity CryptoError :=
  if (generation =? 0)%Z then Err (InvalidGeneration generation)
  else Ok {| sign_secret := sign_secret; dh_secret := dh_secret; generation := generation |}.

(** [Identity::generate], with the bytes drawn from [OsRng]. *)
Definition generate (drawn : bytes * bytes) : Identity :=
  {| sign_secret := drawn.1; dh_secret := drawn.2; generation := 1 |}.

Section identities.
Context {E : Ed25519} {X : X25519} {S256 : Sha256}.

Definition public_bundle (i : Identity) : PubBundle :=
  {| sign_pk := ed_public (sign_secret i); dh_pk := x_public (dh_secret i) |}.

Definition identity_sign (i : Identity) (message : bytes) : bytes := ed_sign (sign_secret i) message.
Definition identity_device_id (i : Identity) : string := device_id (ed_public (sign_secret i)).
Definition identity_fp (i : Identity) : string := bundle_fp (public_bundle i).

Definition derive_session_key (shared base_info direction : bytes) : result bytes CryptoError :=
  ok_or (hkdf_expand shared (base_info ++ direction)) KdfExpand.

Definition session_keys (self : Identity) (peer : PubBundle) : result SessionKeys CryptoError :=
  let self_fp := identity_fp self in
  let peer_fp := bundle_fp peer in
  if bool_decide (self_fp = peer_fp) then Err SameIdentity
  else
    let shared := x_dh (dh_secret self) (dh_pk peer) in
    if negb (x_contributory shared) then Err NonContributoryDh
    else
      let '(fp_min, fp_max, self_is_a) :=
        if negb (str_leb peer_fp self_fp) then (self_fp, peer_fp, true)
        else (peer_fp, self_fp, false) in
      let info := HKDF_DOMAIN ++ as_bytes fp_min ++ as_bytes fp_max in
      a2b ←? derive_session_key shared info (as_bytes "a2b");
      b2a ←? derive_session_key shared info (as_bytes "b2a");
      Ok (if self_is_a : bool then {| key_send := a2b; key_recv := b2a |}
          else {| key_send := b2a; key_recv := a2b |}).
End identities.

(** ** The AEAD envelope *)

Definition aad (room_id sender_fp receiver_fp : string) : bytes :=
  as_bytes room_id ++ ["000"%byte] ++ as_bytes sender_fp ++ ["000"%byte] ++ as_bytes receiver_fp.

Section sealing.
Context {A : Aead}.

(** [nonce] is the 24 bytes drawn from [OsRng]. *)
Definition seal (nonce key ad plaintext : bytes) : result bytes CryptoError :=
  ciphertext ←? ok_or (aead_encrypt key nonce ad plaintext) Encryption;
  Ok (nonce ++ ciphertext).

Definition open_sealed (key ad sealed : bytes) : result bytes CryptoError :=
  if bool_decide (length sealed < NONCE_LENGTH) then Err SealedTooShort
  else ok_or (aead_decrypt key (take NONCE_LENGTH sealed) ad (drop NONCE_LENGTH sealed)) Decryption.
End sealing.

(** ** The identity file *)

Record IdentityDocument := { doc_generation : Z; doc_sign_sk : string; doc_dh_sk : string }.

#[global] Instance IdentityDocument_eq_decision : EqDecision IdentityDocument.
Proof. solve_decision. Defined.

Section identity_file.
Context {T : Type} {B64 : Base64} {JI : Json IdentityDocument}.

Definition decode_secret (encoded : string) : result bytes CryptoError :=
  decoded ←? map_err CryptoBase64 (b64_decode encoded);
  if bool_decide (length decoded = 32) then Ok decoded else Err InvalidSecretLength.

Definition from_document (d : IdentityDocument) : result Identity CryptoError :=
  sign ←? decode_secret (doc_sign_sk d);
  dh ←? decode_secret (doc_dh_sk d);
  from_secret_bytes sign dh (doc_generation d).

Definition to_document (i : Identity) : IdentityDocument :=
  {| doc_generation := generation i; doc_sign_sk := b64_encode (sign_secret i);
     doc_dh_sk := b64_encode (dh_secret i) |}.

Definition identity_temp (p : path) (suffix : string) : path :=
  Path (p_dir p) (".identity.json." +:+ suffix +:+ ".tmp").

(** The atomic write [Identity::persist] and identity rotation share, with the
    error conversions of the caller. *)
Definition write_identity {F} (conv : io_error -> F) (json : string -> F) (i : Identity) (p : path) :
    io T (result unit F) :=
  suffix ← new_v4;
  let temp := identity_temp p suffix in
  _ ←! with_pending conv temp
         match to_vec (to_document i) with
         | Err e => mret (Err (json e))
         | Ok encoded => lift_err conv (write_sync_rename temp p encoded)
         end;
  lift_err conv (open_sync_dir (p_dir p)).

Definition identity_persist (i : Identity) (p : path) : io T (result unit CryptoError) :=
  write_identity CryptoIo CryptoJson i p.

Definition load_or_create (drawn : bytes * bytes) (p : path) : io T (result Identity CryptoError) :=
  r ← read p;
  match r with
  | Ok encoded => mret (d ←? map_err CryptoJson (from_slice encoded); from_document d)
  | Err NotFound =>
      let identity := generate drawn in
      _ ←! identity_persist identity p;
      mret (Ok identity)
  | Err e => mret (Err (CryptoIo e))
  end.
End identity_file.

(** ** Hexadecimal text *)

(** The value of a lowercase hex digit, the inverse of [hex_digit]. *)
Definition hex_value (b : byte) : Z :=
  if is_ascii_digit b then (bval b - 48)%Z else (bval b - 87)%Z.

Lemma hex_byte_spec b :
  exists h l, hex_byte b = [h; l] /\ is_lower_hex h = true /\ is_lower_hex l = true /\
              bval b = (hex_value h * 16 + hex_value l)%Z.
Proof.
  exists (hex_digit (Z.shiftr (bval b) 4)), (hex_digit (Z.land (bval b) 15)). split; [done|].
  assert (let h := hex_digit (Z.shiftr (bval b) 4) in let l := hex_digit (Z.land (bval b) 15) in
          is_lower_hex h && is_lower_hex l && (bval b =? hex_value h * 16 + hex_value l)%Z = true)
    as H by (destruct b; reflexivity).
  cbv zeta in H. bool_to_prop. split_and!; [done..|]. by apply Z.eqb_eq.
Qed.

Lemma length_hex_lower b : String.length (hex_lower b) = 2 * length b.
Proof.
  unfold hex_lower. rewrite <-length_as_bytes, as_bytes_str.
  induction b as [|x b IH]; [done|]. cbn [fmap list_fmap concat].
  rewrite length_app, IH. cbn [hex_byte length]. lia.
Qed.

Lemma hex_lower_chars b : Forall (fun c => is_lower_hex c = true) (as_bytes (hex_lower b)).
Proof.
  unfold hex_lower. rewrite as_bytes_str.
  induction b as [|x b IH]; cbn [fmap list_fmap concat]; [constructor|].
  destruct (hex_byte_spec x) as (h & l & -> & Hh & Hl & _).
  apply Forall_app. split; [|done]. auto using Forall_cons_2, Forall_nil_2.
Qed.

Lemma hex_lower_ok n b : length b = n -> lower_hex (2 * n) (hex_lower b) = true.
Proof.
  intros <-. apply lower_hex_spec. split; [apply length_hex_lower|apply hex_lower_chars].
Qed.

Lemma hex_lower_inj a b : hex_lower a = hex_lower b -> a = b.
Proof.
  unfold hex_lower. intros H%(f_equal as_bytes). rewrite !as_bytes_str in H.
  revert b H. induction a as [|x a IH]; intros [|y b]; cbn [fmap list_fmap concat]; [done|..].
  - destruct (hex_byte_spec y) as (h & l & -> & _). done.
  - destruct (hex_byte_spec x) as (h & l & -> & _). done.
  - destruct (hex_byte_spec x) as (h & l & -> & _ & _ & Hx).
    destruct (hex_byte_spec y) as (h' & l' & -> & _ & _ & Hy).
    intros [= <- <- H]. f_equal; [|by apply IH]. apply bval_inj. by rewrite Hx, Hy.
Qed.

(** ** Big-endian lengths and prefix-free fields *)

Lemma bval_byte_of_Z z : bval (byte_of_Z z) = (z mod 256)%Z.
Proof.
  unfold byte_of_Z, bval. pose proof (Z.mod_pos_bound z 256 eq_refl).
  destruct (Byte.of_N (Z.to_N (z mod 256))) as [b|] eqn:Hb; simpl.
  - apply Byte.to_of_N in Hb. rewrite Hb. lia.
  - apply Byte.of_N_None_iff in Hb. lia.
Qed.

Lemma be_u32_value n :
  (0 <= n <= u32_max)%Z ->
  n = ((((Z.shiftr n 24 mod 256) * 256 + Z.shiftr n 16 mod 256) * 256 + Z.shiftr n 8 mod 256) * 256
      + n mod 256)%Z.
Proof.
  intros Hn. rewrite !Z.shiftr_div_pow2 by lia.
  change (2 ^ 24)%Z with (256 * 256 * 256)%Z. change (2 ^ 16)%Z with (256 * 256)%Z.
  change (2 ^ 8)%Z with 256%Z. rewrite <-!Z.div_div by lia.
  pose proof (Z.div_mod n 256 ltac:(lia)). pose proof (Z.div_mod (n / 256) 256 ltac:(lia)).
  pose proof (Z.div_mod (n / 256 / 256) 256 ltac:(lia)).
  rewrite (Z.mod_small (n / 256 / 256 / 256) 256); [lia|].
  rewrite !Z.div_div by lia. unfold u32_max in Hn. split; [apply Z.div_pos; lia|].
  apply Z.div_lt_upper_bound; lia.
Qed.

Lemma to_be_u32_inj n m :
  (0 <= n <= u32_max)%Z -> (0 <= m <= u32_max)%Z -> to_be_u32 n = to_be_u32 m -> n = m.
Proof.
  unfold to_be_u32. intros Hn Hm [= H3 H2 H1 H0].
  apply (f_equal bval) in H3, H2, H1, H0. rewrite !bval_byte_of_Z in H3, H2, H1, H0.
  rewrite (be_u32_value n Hn), (be_u32_value m Hm). by rewrite H3, H2, H1, H0.
Qed.

Lemma field_prefix_free f g r s :
  (Z.of_nat (length f) <= u32_max)%Z -> (Z.of_nat (length g) <= u32_max)%Z ->
  (to_be_u32 (Z.of_nat (length f)) ++ f) ++ r = (to_be_u32 (Z.of_nat (length g)) ++ g) ++ s ->
  f = g /\ r = s.
Proof.
  intros Hf Hg. rewrite <-!app_assoc. intros H.
  apply app_inj_1 in H as [Hl H]; [|done].
  apply to_be_u32_inj in Hl; [|lia..]. apply app_inj_1 in H as [-> ->]; [done|lia].
Qed.

Lemma push_fields_Ok message fields m :
  push_fields message fields = Ok m <->
  Forall (fun f => (Z.of_nat (length f) <= u32_max)%Z) fields /\
  m = message ++ concat ((fun f => to_be_u32 (Z.of_nat (length f)) ++ f) <$> fields).
Proof.
  revert message; induction fields as [|f fields IH]; intros message; cbn [push_fields fmap list_fmap concat].
  - rewrite app_nil_r. naive_solver.
  - rewrite Forall_cons. destruct (Z.leb_spec (Z.of_nat (length f)) u32_max).
    + rewrite IH, <-!app_assoc. naive_solver.
    + split; [done|]. intros [[? _] _]. lia.
Qed.

Lemma concat_fields_inj fs gs :
  length fs = length gs ->
  Forall (fun f => (Z.of_nat (length f) <= u32_max)%Z) fs ->
  Forall (fun f => (Z.of_nat (length f) <= u32_max)%Z) gs ->
  concat ((fun f => to_be_u32 (Z.of_nat (length f)) ++ f) <$> fs) =
  concat ((fun f => to_be_u32 (Z.of_nat (length f)) ++ f) <$> gs) -> fs = gs.
Proof.
  revert gs; induction fs as [|f fs IH]; intros [|g gs]; cbn [fmap list_fmap concat]; try done.
  intros [= Hlen] [Hf Hfs]%Forall_cons [Hg Hgs]%Forall_cons H.
  apply field_prefix_free in H as [-> H]; [|done..]. f_equal. by apply IH.
Qed.

Lemma sorted_pair_comm a b : sorted_pair a b = sorted_pair b a.
Proof.
  unfold sorted_pair. destruct (bytes_leb (bundle_bytes a) (bundle_bytes b)) eqn:Hab,
    (bytes_leb (bundle_bytes b) (bundle_bytes a)) eqn:Hba; try done.
  - by rewrite (bytes_leb_antisym _ _ Hab Hba).
  - destruct (bytes_leb_total (bundle_bytes a) (bundle_bytes b)); congruence.
Qed.

Lemma lower_hex_no_nul n s : lower_hex n s = true -> "000"%byte ∉ as_bytes s.
Proof.
  intros [_ H]%lower_hex_spec Hin. rewrite Forall_forall in H.
  by destruct (is_lower_hex_not_sep _ (H _ Hin)).
Qed.

Lemma digit_ok n : (0 <= n < 10)%Z -> is_ascii_digit (digit n) = true.
Proof.
  intros Hn. unfold digit. replace n with (Z.of_nat (Z.to_nat n)) by lia.
  assert (Z.to_nat n < 10) as H by lia. revert H. rewrite Nat2Z.id.
  generalize (Z.to_nat n). intros k Hk.
  do 10 (destruct k as [|k]; [reflexivity|]). lia.
Qed.

Section shapes.
Context {S256 : Sha256}.

Lemma bundle_fp_ok b : lower_hex 64 (bundle_fp b) = true.
Proof. apply (hex_lower_ok 32). apply length_sha256. Qed.

Lemma device_id_ok pk : lower_hex 16 (device_id pk) = true.
Proof. apply (hex_lower_ok 8). rewrite length_take, length_sha256. done. Qed.

Lemma room_id_ok a b : lower_hex 32 (room_id a b) = true.
Proof. apply (hex_lower_ok 16). rewrite length_take, length_sha256. done. Qed.

Lemma room_id_comm a b : room_id a b = room_id b a.
Proof. unfold room_id. by rewrite sorted_pair_comm. Qed.
End shapes.

#[export] Hint Resolve bundle_fp_ok device_id_ok room_id_ok : clip.

Lemma session_keys_swap `{Ed25519, X25519, Sha256} (a b : Identity) :
  session_keys b (public_bundle a) =
  match session_keys a (public_bundle b) with
  | Ok k => Ok {| key_send := key_recv k; key_recv := key_send k |}
  | Err e => Err e
  end.
Proof.
  unfold session_keys, identity_fp. cbn [dh_pk public_bundle].
  rewrite (x_dh_comm (dh_secret b)).
  set (fa := bundle_fp (public_bundle a)). set (fb := bundle_fp (public_bundle b)).
  destruct (decide (fa = fb)) as [Heq|Hne].
  { by rewrite !bool_decide_eq_true_2 by done. }
  rewrite !bool_decide_eq_false_2 by done.
  destruct (x_contributory _); [simpl|done].
  destruct (str_leb fa fb) eqn:Hab, (str_leb fb fa) eqn:Hba; simpl.
  - by destruct Hne; apply str_leb_antisym.
  - destruct (derive_session_key _ _ (as_bytes "a2b")), (derive_session_key _ _ (as_bytes "b2a")); done.
  - destruct (derive_session_key _ _ (as_bytes "a2b")), (derive_session_key _ _ (as_bytes "b2a")); done.
  - destruct (str_leb_total fa fb); congruence.
Qed.

Lemma open_sealed_seal `{Aead} nonce k ad m sealed :
  length nonce = NONCE_LENGTH -> seal nonce k ad m = Ok sealed -> open_sealed k ad sealed = Ok m.
Proof.
  intros Hn Hs. unfold seal in Hs. apply rbind_Ok in Hs as (c & Hc & [= <-]).
  destruct (aead_encrypt k nonce ad m) as [c'|] eqn:He; simplify_eq/=.
  unfold open_sealed. rewrite bool_decide_eq_false_2 by (rewrite length_app; lia).
  rewrite <-Hn, take_app_length, drop_app_length. by rewrite (aead_correct _ _ _ _ _ He).
Qed.

(** ** The identity file *)

Section identity_file_proofs.
Context {T : Type} {B64 : Base64} {JI : Json IdentityDocument}.
Implicit Types (w : world T) (i : Identity).

(** What [load_or_create] reads out of a file. *)
Definition parse_identity (encoded : bytes) : result Identity CryptoError :=
  d ←? map_err CryptoJson (from_slice encoded); from_document d.

(** The identity file holds no identity yet, or a complete one. *)
Definition identity_slot (o : option bytes) : Prop :=
  match o with Some b => is_ok (parse_identity b) = true | None => True end.

Definition holds_identity (i : Identity) (o : option bytes) : Prop :=
  exists b, o = Some b /\ parse_identity b = Ok i.

Lemma decode_encoded_secret s : length s = 32 -> decode_secret (b64_encode s) = Ok s.
Proof. intros H. unfold decode_secret. rewrite b64_roundtrip. simpl. by rewrite bool_decide_eq_true_2. Qed.

Lemma parse_persisted_identity i data :
  identity_ok i -> to_vec (to_document i) = Ok data -> parse_identity data = Ok i.
Proof.
  intros (Hs & Hd & Hg) Hv. unfold parse_identity. rewrite (json_compact _ _ Hv). simpl.
  unfold from_document, to_document; simpl. rewrite !decode_encoded_secret by done. simpl.
  unfold from_secret_bytes. replace (generation i =? 0)%Z with false by lia. by destruct i.
Qed.

Lemma identity_temp_ne p suffix : p_name p = "identity.json" -> identity_temp p suffix <> p.
Proof. intros Hp Heq. apply (f_equal p_name) in Heq. rewrite Hp in Heq. discriminate. Qed.

(** The identity file and its temporary files. *)
Definition identity_area (p q : path) : Prop := q = p \/ exists s, q = identity_temp p s.

Lemma wpc_write_identity {F} (conv : io_error -> F) json P i p w :
  p_name p = "identity.json" -> stable P p (w_disk w) ->
  (forall data, to_vec (to_document i) = Ok data -> P (Some data)) ->
  wpc (write_identity conv json i p)
    (fun r w' => within (identity_area p) w w' /\ stable P p (w_disk w') /\
       (r = Ok tt -> exists data, to_vec (to_document i) = Ok data /\ committed p data (w_disk w')))
    (fun w' => within (identity_area p) w w' /\ stable P p (w_disk w')) w.
Proof.
  intros Hp Hst HP. unfold write_identity. apply wpc_bind, wpc_new_v4.
  set (temp := identity_temp p (w_uuid w (w_next w))).
  set (w0 := World (w_disk w) (w_faults w) (w_uuid w) (S (w_next w)) (w_trace w)).
  pose proof (identity_temp_ne p (w_uuid w (w_next w)) Hp : temp <> p) as Hne.
  assert (forall w', quiet w0 w' -> preserves (two temp p) (w_disk w0) (w_disk w') ->
    within (identity_area p) w w') as Hin.
  { intros w' Hq Hpr. split; [exact Hq|]. eapply preserves_weaken; [|exact Hpr].
    intros q [-> | ->]; [right; by eexists|by left]. }
  destruct (to_vec (to_document i)) as [data|e] eqn:Hv.
  - assert (forall w', torn temp p data w0 w' ->
      within (identity_area p) w w' /\ stable P p (w_disk w')) as Hkeep.
    { intros w' (Hq & Hpr & Hr). split; [by apply Hin|]. eapply replaced_stable; eauto. }
    eapply wpc_mono; [apply (wpc_pending_replace _ p data Hne), fills_write_sync_rename, Hne|
      |exact Hkeep].
    intros r w' [[Hw' Hs]%Hkeep Hc]. split_and!; [done..|]. intros Hr. exists data. auto.
  - assert (forall w', filling temp p w0 w' ->
      within (identity_area p) w w' /\ stable P p (w_disk w')) as Hkeep.
    { intros w' (Hq & Hpr & Hl & Hd). split; [by apply Hin|]. unfold stable. by rewrite Hl, Hd. }
    apply wpc_try. eapply wpc_mono; [apply (wpc_pending_fail _ p Hne)| |exact Hkeep].
    intros [[]|e'] w' [Hn [Hw' Hs]%Hkeep]; [done|]. by split_and!.
Qed.

Lemma wpc_load_or_create drawn p w :
  p_name p = "identity.json" -> identity_ok (generate drawn) ->
  stable identity_slot p (w_disk w) ->
  wpc (load_or_create drawn p)
    (fun r w' => stable identity_slot p (w_disk w') /\
       forall i, r = Ok i -> live (w_disk w) !! p = durable (w_disk w) !! p ->
                 stable (holds_identity i) p (w_disk w'))
    (fun w' => stable identity_slot p (w_disk w')) w.
Proof.
  intros Hp Hgen Hst. unfold load_or_create. apply wpc_bind.
  eapply wpc_mono; [apply wpc_read| |by intros w' (-> & _)].
  intros r w1 [(Hd & _) Hr]. rewrite <-Hd in Hst.
  destruct r as [b|[]]; try (apply wpc_ret; split; [done|]; by intros i).
  - apply wpc_ret. split; [done|]. intros i Hi Heq.
    destruct Hst as [[Hls _] _]. unfold stable. rewrite Hd in *. rewrite <-Heq, Hr.
    split_and!; try done; by exists b.
  - apply wpc_try.
    eapply wpc_mono; [apply (wpc_write_identity _ _ identity_slot)| |by intros w2 [_ ?]]; [done..| |].
    + intros data Hv. simpl. by rewrite (parse_persisted_identity _ _ Hgen Hv).
    + intros [[]|e] w2 (_ & Hs2 & Hc); [|split; [done|by intros ?]]. apply wpc_ret.
      split; [done|]. intros i [= <-] _. destruct (Hc eq_refl) as (data & Hv & Hcm).
      eapply stable_mono; [|by apply committed_stable]. intros o <-.
      exists data. eauto using parse_persisted_identity.
Qed.

(** Loading from a file that holds one of some identities. *)
Lemma wpc_load_some drawn (S : Identity -> Prop) p w :
  stable (fun o => exists i, S i /\ holds_identity i o) p (w_disk w) ->
  wpc (load_or_create drawn p)
    (fun r w' => ((exists i, S i /\ r = Ok i) \/ exists e, r = Err (CryptoIo e)) /\ w_disk w' = w_disk w)
    (fun w' => w_disk w' = w_disk w) w.
Proof.
  intros [[_ (i & HS & b & Hb & Hi)] _]. unfold load_or_create. apply wpc_bind.
  eapply wpc_mono; [apply wpc_read| |by intros w' (-> & _)].
  intros r w1 [(Hd & _) Hr].
  destruct r as [b'|[]]; try (apply wpc_ret; split; [right; by eexists|done]).
  - rewrite Hb in Hr. simplify_eq. split; [left; by exists i|done].
  - by rewrite Hr in Hb.
Qed.

Lemma wpc_load_held drawn i p w :
  stable (holds_identity i) p (w_disk w) ->
  wpc (load_or_create drawn p)
    (fun r w' => (r = Ok i \/ exists e, r = Err (CryptoIo e)) /\ w_disk w' = w_disk w)
    (fun w' => w_disk w' = w_disk w) w.
Proof.
  intros Hst. eapply wpc_mono; [apply (wpc_load_some drawn (eq i))| |done].
  - eapply stable_mono; [|exact Hst]. intros o Ho. by exists i.
  - intros r w' [[(j & <- & ->)|He] Hd]; auto.
Qed.
End identity_file_proofs.

(** ** Properties *)

(** Both sides of a pairing derive the same two directional keys, one's
    sending key being the other's receiving key, and fail together: with
    [SameIdentity] on equal fingerprints, [NonContributoryDh] on a weak
    exchange. *)
Theorem session_keys_agree `{Ed25519, X25519, Sha256} (a b : Identity) :
  session_keys b (public_bundle a) =
  match session_keys a (public_bundle b) with
  | Ok k => Ok {| key_send := key_recv k; key_recv := key_send k |}
  | Err e => Err e
  end.
Proof. apply session_keys_swap. Qed.

(** What one device seals for its peer, the peer opens: the peer derives
    keys too, from its own secrets and the sender's public bundle, and with
    its receiving key and the associated data it computes for the direction
    [open] returns the plaintext that was sealed. *)
Theorem sealed_for_peer_opens `{Ed25519, X25519, Sha256, Aead} (a b : Identity) ka nonce room m sealed :
  session_keys a (public_bundle b) = Ok ka ->
  length nonce = NONCE_LENGTH ->
  seal nonce (key_send ka) (aad room (identity_fp a) (bundle_fp (public_bundle b))) m = Ok sealed ->
  exists kb, session_keys b (public_bundle a) = Ok kb /\
    open_sealed (key_recv kb) (aad room (bundle_fp (public_bundle a)) (identity_fp b)) sealed = Ok m.
Proof.
  intros Ha Hn Hs. rewrite session_keys_swap, Ha. eexists; split; [done|]. simpl.
  by eapply open_sealed_seal.
Qed.

(** The join signature input determines the challenge, the room, the device
    and the bundle it was built from: no signature of one join verifies as
    that of another. *)
Theorem join_sig_msg_injective nonce room device bundle nonce' room' device' bundle' m :
  join_sig_msg nonce room device bundle = Ok m ->
  join_sig_msg nonce' room' device' bundle' = Ok m ->
  nonce = nonce' /\ room = room' /\ device = device' /\ bundle = bundle'.
Proof.
  unfold join_sig_msg. intros [H1 ->]%push_fields_Ok [H2 Heq]%push_fields_Ok.
  apply app_inv_head, concat_fields_inj in Heq; [|done..].
  injection Heq as -> ->%as_bytes_inj ->%as_bytes_inj ->. done.
Qed.

(** The associated data of a sealed frame determines the room, the sender
    and the receiver: a frame sealed in one room or direction carries other
    associated data than any frame of another room or direction. *)
Theorem aad_injective room room' s s' r r' n n' k k' :
  lower_hex n room = true -> lower_hex n' room' = true ->
  lower_hex k s = true -> lower_hex k' s' = true ->
  aad room s r = aad room' s' r' -> room = room' /\ s = s' /\ r = r'.
Proof.
  unfold aad. intros Hr Hr' Hs Hs' H. simpl in H.
  apply sep_prefix_inj in H as [->%as_bytes_inj H]; [|by eapply lower_hex_no_nul..].
  apply sep_prefix_inj in H as [->%as_bytes_inj H]; [|by eapply lower_hex_no_nul..].
  by apply as_bytes_inj in H as ->.
Qed.

(** Both devices compute the same room id and the same short
    authentication string from each other's bundles, whatever the order; the
    room id has the shape the protocol validates, the string is six decimal
    digits. *)
Theorem rendezvous_symmetric `{Sha256} nonce (a b : PubBundle) :
  room_id a b = room_id b a /\ validate_room_id (room_id a b) = Ok tt /\
  sas_code nonce a b = sas_code nonce b a /\
  String.length (sas_code nonce a b) = 6 /\
  Forall (fun c => is_ascii_digit c = true) (as_bytes (sas_code nonce a b)).
Proof.
  split; [apply room_id_comm|]. split; [apply validate_lower_hex_Ok, room_id_ok|].
  split; [unfold sas_code; by rewrite sorted_pair_comm|]. split; [done|].
  unfold sas_code, six_digits. rewrite as_bytes_str.
  repeat (apply Forall_cons_2; [apply digit_ok, Z.mod_pos_bound; lia|]). apply Forall_nil_2.
Qed.

(** The identity file survives: when [load_or_create] returned an
    identity, every later start after any process crash or power loss returns
    the same identity or reports an I/O error, and never generates another;
    a crash at any point leaves no identity or a complete one. *)
Theorem identity_survives_restarts {T} `{Base64, Json IdentityDocument} drawn p (w : world T) :
  p_name p = "identity.json" -> identity_ok (generate drawn) ->
  stable identity_slot p (w_disk w) -> live (w_disk w) !! p = durable (w_disk w) !! p ->
  wpc (load_or_create drawn p)
    (fun r w1 => forall i, r = Ok i -> forall (w2 : world T) drawn',
       restart (w_disk w1) (w_disk w2) ->
       wpc (load_or_create drawn' p)
         (fun r' _ => r' = Ok i \/ exists e, r' = Err (CryptoIo e)) (fun _ => True) w2)
    (fun w1 => stable identity_slot p (w_disk w1)) w.
Proof.
  intros Hp Hgen Hst Heq. eapply wpc_mono; [by apply wpc_load_or_create| |done].
  intros r w1 [_ Hi] i Hr w2 drawn' Hrs.
  eapply wpc_mono; [apply (wpc_load_held drawn' i)| |done].
  - eapply restart_stable; [done|]. by apply Hi.
  - by intros r' w' [? _].
Qed.

(** ** Witnesses *)

Module CryptoToy.
Import Toy.

#[global] Program Instance IdentityDocument_countable : Countable IdentityDocument :=
  inj_countable (fun d => (doc_generation d, doc_sign_sk d, doc_dh_sk d))
    (fun '(g, s, k) => Some {| doc_generation := g; doc_sign_sk := s; doc_dh_sk := k |}) _.
Next Obligation. by intros []. Qed.

Definition identity_json : Json IdentityDocument := toy_json IdentityDocument.

Definition alice : Identity := generate (replicate 32 "a"%byte, replicate 32 "b"%byte).
Definition bob : Identity := generate (replicate 32 "c"%byte, replicate 32 "d"%byte).
End CryptoToy.

Lemma identity_survives_restarts_witness :
  exists w : world unit, stable (fun o => o = None) (Path "home" "identity.json") (w_disk w) /\
    wpc (@load_or_create unit Toy.toy_base64 CryptoToy.identity_json
          (replicate 32 "a"%byte, replicate 32 "b"%byte) (Path "home" "identity.json"))
      (fun _ _ => True)
      (fun w1 => stable (@identity_slot Toy.toy_base64 CryptoToy.identity_json)
                   (Path "home" "identity.json") (w_disk w1)) w.
Proof.
  exists (World (Disk ∅ ∅) [NoFault; CrashNow 1] (fun _ => "u") 0 []). split; [done|].
  eapply wpc_mono;
    [apply (@identity_survives_restarts unit Toy.toy_base64 CryptoToy.identity_json
       (replicate 32 "a"%byte, replicate 32 "b"%byte) (Path "home" "identity.json"))| |].
  - reflexivity.
  - repeat split; vm_compute; discriminate.
  - repeat split.
  - reflexivity.
  - intros; exact I.
  - intros w1 Hw. exact Hw.
Defined.
