(* ===== verification/History.v ===== *)
(** * The clipboard history ([crates/core/src/history.rs])

    A list of at most [HISTORY_CAP] items kept in memory and mirrored, on
    every change, to [history.jsonl] (one JSON object per line) with image
    payloads as files of their own.  A [&mut self] method is a function that
    returns the new store next to its result, since an error does not undo
    what happened before it. *)

From S2P Require Import Prelude Fs Interfaces.
From Stdlib Require Import Strings.Byte.

Set Default Goal Selector "!".
#[local] Open Scope clip_scope.

Definition METADATA_FILE : string := "history.jsonl".
Definition IMAGES_DIR : string := "images".
Definition HISTORY_CAP : nat := 50.

Inductive HistorySource := Local | Remote | RemoteDeferred.

Inductive HistoryContent :=
| HcText (content : string)
| HcImage (data : bytes).

(** A [Uuid] is its canonical text. *)
Record NewHistoryItem := {
  n_id : string; n_ts_ms : Z; n_source : HistorySource; n_content : HistoryContent
}.

Inductive HistoryKind :=
| HkText (content : string)
| HkImage (file_name : string).

Definition image_file_name (k : HistoryKind) : option string :=
  match k with HkText _ => None | HkImage file_name => Some file_name end.

Record HistoryItem := {
  h_id : string; h_ts_ms : Z; h_kind : HistoryKind; h_source : HistorySource
}.

#[global] Instance HistorySource_eq_decision : EqDecision HistorySource.
Proof. solve_decision. Defined.
#[global] Instance HistoryKind_eq_decision : EqDecision HistoryKind.
Proof. solve_decision. Defined.
#[global] Instance HistoryItem_eq_decision : EqDecision HistoryItem.
Proof. solve_decision. Defined.

Inductive HistoryError :=
| HistoryIo (p : path) (source : io_error)
| Metadata (e : string)
| UnknownItem (id : string)
| NotImage (id : string).

Record HistoryStore := { hs_dir : string; hs_items : list HistoryItem }.

(** ** Paths *)

(** [Path::join] with a relative name. *)
Definition join (dir name : string) : string := dir +:+ "/" +:+ name.
Definition metadata_path (dir : string) : path := Path dir METADATA_FILE.
Definition images_dir (dir : string) : string := join dir IMAGES_DIR.
Definition image_path (dir file_name : string) : path := Path (images_dir dir) file_name.
Definition image_name (id : string) : string := id +:+ ".img".

(** [Path::with_extension]: the part before the last dot, unless the name has
    none or only a leading one, then the new extension. *)
Fixpoint before_last_dot (b : bytes) : option bytes :=
  match b with
  | [] => None
  | x :: b =>
      match before_last_dot b with
      | Some s => Some (x :: s)
      | None => if bool_decide (x = "."%byte) then Some [] else None
      end
  end.

Definition file_stem (name : string) : string :=
  match before_last_dot (as_bytes name) with
  | Some (x :: s) => str_of_bytes (x :: s)
  | _ => name
  end.

Definition with_extension (p : path) (ext : string) : path :=
  Path (p_dir p) (file_stem (p_name p) +:+ "." +:+ ext).

(** [<[u8]>::split] on one separator: always at least one piece. *)
Fixpoint split_on (sep : byte) (b : bytes) : list bytes :=
  match b with
  | [] => [[]]
  | x :: b =>
      if bool_decide (x = sep) then [] :: split_on sep b
      else match split_on sep b with
           | l :: ls => (x :: l) :: ls
           | [] => [[x]]
           end
  end.

Section history.
Context {T : Type} {JH : Json HistoryItem}.

(** ** The metadata file *)

Fixpoint encode_items (items : list HistoryItem) : result bytes HistoryError :=
  match items with
  | [] => Ok []
  | item :: items =>
      line ←? map_err Metadata (to_vec item);
      rest ←? encode_items items;
      Ok (line ++ "010"%byte :: rest)
  end.

Definition valid_reference (item : HistoryItem) : bool :=
  match image_file_name (h_kind item) with
  | None => true
  | Some file_name => bool_decide (file_name = image_name (h_id item))
  end.

(** The loop of [load_items] over the lines, [ids] being the identifiers kept so far. *)
Fixpoint load_lines (ids : gset string) (lines : list bytes) : list HistoryItem :=
  match lines with
  | [] => []
  | [] :: lines => load_lines ids lines
  | line :: lines =>
      match from_slice line with
      | Err _ => load_lines ids lines
      | Ok item =>
          if valid_reference item && bool_decide (h_id item ∉ ids)
          then item :: load_lines ({[h_id item]} ∪ ids) lines
          else load_lines ids lines
      end
  end.

Definition parse_items (contents : bytes) : list HistoryItem :=
  load_lines ∅ (split_on "010"%byte contents).

Definition load_items (p : path) : io T (result (list HistoryItem) HistoryError) :=
  r ← read p;
  mret match r with
       | Ok contents => Ok (parse_items contents)
       | Err NotFound => Ok []
       | Err e => Err (HistoryIo p e)
       end.

Definition history_atomic_write (p : path) (contents : bytes) : io T (result unit HistoryError) :=
  u ← new_v4;
  let temp := with_extension p ("tmp-" +:+ u) in
  _ ←! open_truncate temp @ HistoryIo temp;
  _ ←! write_all temp contents @ HistoryIo temp;
  _ ←! sync_file temp @ HistoryIo temp;
  lift_err (HistoryIo p) (rename temp p).

Definition remove_file_if_exists (p : path) : io T (result unit HistoryError) :=
  r ← remove_file p;
  mret match r with
       | Ok _ => Ok tt
       | Err NotFound => Ok tt
       | Err e => Err (HistoryIo p e)
       end.

Fixpoint remove_all (paths : list path) : io T (result unit HistoryError) :=
  match paths with
  | [] => mret (Ok tt)
  | p :: paths => _ ←! remove_file_if_exists p; remove_all paths
  end.

(** ** Opening *)

Definition referenced (items : list HistoryItem) : list string :=
  omap (fun item => image_file_name (h_kind item)) items.

Definition cleanup_orphan_images (dir : string) (items : list HistoryItem) :
    io T (result unit HistoryError) :=
  entries ←! read_dir dir @ HistoryIo (Path dir "");
  remove_all (Path dir <$> filter (fun name => name ∉ referenced items) entries).

Definition history_new (dir : string) : io T (result HistoryStore HistoryError) :=
  _ ←! create_dir_all @ HistoryIo (Path dir "");
  loaded ←! load_items (metadata_path dir);
  let items := keep_last HISTORY_CAP loaded in
  _ ←! cleanup_orphan_images (images_dir dir) items;
  mret (Ok {| hs_dir := dir; hs_items := items |}).

(** ** Operations *)

Definition history_persist (h : HistoryStore) (items : list HistoryItem) :
    io T (result unit HistoryError) :=
  match encode_items items with
  | Err e => mret (Err e)
  | Ok encoded => history_atomic_write (metadata_path (hs_dir h)) encoded
  end.

(** The kind an added item is stored with; an image is written first. *)
Definition store_content (h : HistoryStore) (id : string) (c : HistoryContent) :
    io T (result (HistoryKind * option path) HistoryError) :=
  match c with
  | HcText content => mret (Ok (HkText content, None))
  | HcImage data =>
      let p := image_path (hs_dir h) (image_name id) in
      _ ←! history_atomic_write p data;
      mret (Ok (HkImage (image_name id), Some p))
  end.

Definition set_items (h : HistoryStore) (items : list HistoryItem) : HistoryStore :=
  {| hs_dir := hs_dir h; hs_items := items |}.

(** [updated.push(item)], then [updated.remove(0)] when too long. *)
Definition push_item (items : list HistoryItem) (item : HistoryItem) :
    list HistoryItem * option HistoryItem :=
  let updated := items ++ [item] in
  if bool_decide (HISTORY_CAP < length updated)
  then (tail updated, head updated) else (updated, None).

Definition history_add (h : HistoryStore) (item : NewHistoryItem) :
    io T (result unit HistoryError * HistoryStore) :=
  if existsb (fun existing => bool_decide (h_id existing = n_id item)) (hs_items h)
  then mret (Ok tt, h)
  else
    stored ← store_content h (n_id item) (n_content item);
    match stored with
    | Err e => mret (Err e, h)
    | Ok (kind, image) =>
        let '(updated, evicted) := push_item (hs_items h)
          {| h_id := n_id item; h_ts_ms := n_ts_ms item; h_kind := kind; h_source := n_source item |} in
        r ← history_persist h updated;
        match r with
        | Err e =>
            _ ← match image with Some p => remove_file p | None => mret (Ok tt) end;
            mret (Err e, h)
        | Ok _ =>
            let h := set_items h updated in
            match evicted ≫= (fun item => image_file_name (h_kind item)) with
            | Some file_name =>
                r ← remove_file_if_exists (image_path (hs_dir h) file_name);
                mret (r, h)
            | None => mret (Ok tt, h)
            end
        end
    end.

Definition history_list (h : HistoryStore) : list HistoryItem := hs_items h.

Definition history_clear (h : HistoryStore) : io T (result unit HistoryError * HistoryStore) :=
  let image_paths := image_path (hs_dir h) <$> referenced (hs_items h) in
  r ← history_persist h [];
  match r with
  | Err e => mret (Err e, h)
  | Ok _ =>
      r ← remove_all image_paths;
      mret (r, set_items h [])
  end.

Definition find_item (id : string) (items : list HistoryItem) : option HistoryItem :=
  List.find (fun item => bool_decide (h_id item = id)) items.

Definition image_bytes (h : HistoryStore) (id : string) : io T (result bytes HistoryError) :=
  match find_item id (hs_items h) with
  | None => mret (Err (UnknownItem id))
  | Some item =>
      match h_kind item with
      | HkText _ => mret (Err (NotImage id))
      | HkImage file_name =>
          let p := image_path (hs_dir h) file_name in
          lift_err (HistoryIo p) (read p)
      end
  end.

(** The [(old, new)] table of [set_source]. *)
Definition source_transition (old new : HistorySource) : bool :=
  match old, new with
  | RemoteDeferred, Remote => true
  | _, _ => false
  end.

Definition with_source (s : HistorySource) (item : HistoryItem) : HistoryItem :=
  {| h_id := h_id item; h_ts_ms := h_ts_ms item; h_kind := h_kind item; h_source := s |}.

Definition set_source (h : HistoryStore) (id : string) (s : HistorySource) :
    io T (result unit HistoryError * HistoryStore) :=
  match list_find (fun item => h_id item = id) (hs_items h) with
  | None => mret (Err (UnknownItem id), h)
  | Some (index, item) =>
      if source_transition (h_source item) s then
        let updated := <[index := with_source Remote item]> (hs_items h) in
        r ← history_persist h updated;
        match r with
        | Err e => mret (Err e, h)
        | Ok _ => mret (Ok tt, set_items h updated)
        end
      else mret (Ok tt, h)
  end.
End history.

(** ** The abstract history *)

(** What the list of items becomes under each operation. *)
Inductive history_op :=
| OpAdd (item : NewHistoryItem)
| OpClear
| OpSetSource (id : string) (s : HistorySource).

Definition stored_kind (id : string) (c : HistoryContent) : HistoryKind :=
  match c with HcText content => HkText content | HcImage _ => HkImage (image_name id) end.

Definition stored_item (n : NewHistoryItem) : HistoryItem :=
  {| h_id := n_id n; h_ts_ms := n_ts_ms n; h_kind := stored_kind (n_id n) (n_content n);
     h_source := n_source n |}.

Definition promote (id : string) (s : HistorySource) (item : HistoryItem) : HistoryItem :=
  if bool_decide (h_id item = id) && source_transition (h_source item) s
  then with_source Remote item else item.

Definition spec_op (items : list HistoryItem) (op : history_op) : list HistoryItem :=
  match op with
  | OpAdd n => if bool_decide (n_id n ∈ h_id <$> items) then items
               else push_ring HISTORY_CAP items (stored_item n)
  | OpClear => []
  | OpSetSource id s => promote id s <$> items
  end.

Definition items_ok (items : list HistoryItem) : Prop :=
  length items <= HISTORY_CAP /\ NoDup (h_id <$> items) /\
  Forall (fun item => valid_reference item = true) items.

(** ** Lists of items *)

Lemma items_ok_nil : items_ok [].
Proof. repeat split; [simpl; lia|constructor|constructor]. Qed.

Lemma fmap_keep_last {A B} (f : A -> B) cap l : f <$> keep_last cap l = keep_last cap (f <$> l).
Proof. unfold keep_last. by rewrite fmap_drop, length_fmap. Qed.

Lemma items_ok_push items n :
  items_ok items -> n_id n ∉ h_id <$> items -> items_ok (push_ring HISTORY_CAP items (stored_item n)).
Proof.
  intros (Hl & Hnd & Hv) Hn. split_and!.
  - apply length_push_ring.
  - unfold push_ring. rewrite fmap_keep_last. apply NoDup_keep_last.
    rewrite fmap_app. apply NoDup_app. split_and!; [done|set_solver|apply NoDup_singleton].
  - apply Forall_forall. intros x [Hx | ->]%elem_of_push_ring.
    + by eapply Forall_forall in Hv.
    + unfold valid_reference, stored_item, stored_kind; simpl.
      destruct (n_content n); simpl; [done|]. by apply bool_decide_eq_true.
Qed.

Lemma promote_id id s item : h_id (promote id s item) = h_id item.
Proof. unfold promote. by destruct (_ && _). Qed.

Lemma promote_kind id s item : h_kind (promote id s item) = h_kind item.
Proof. unfold promote. by destruct (_ && _). Qed.

Lemma fmap_promote_ids id s (items : list HistoryItem) : h_id <$> (promote id s <$> items) = h_id <$> items.
Proof. rewrite <-list_fmap_compose. apply list_fmap_ext. intros. apply promote_id. Qed.

Lemma items_ok_promote id s items : items_ok items -> items_ok (promote id s <$> items).
Proof.
  intros (Hl & Hnd & Hv). unfold items_ok. rewrite length_fmap, fmap_promote_ids, Forall_fmap.
  split_and!; [done..|]. eapply Forall_impl; [done|]. intros item H.
  unfold valid_reference in *. simpl. by rewrite promote_kind, promote_id.
Qed.

Lemma items_ok_spec items op : items_ok items -> items_ok (spec_op items op).
Proof.
  intros H. destruct op as [n| |id s]; simpl.
  - case_bool_decide; [done|by apply items_ok_push].
  - apply items_ok_nil.
  - by apply items_ok_promote.
Qed.

Lemma push_item_spec items item :
  length items <= HISTORY_CAP ->
  push_item items item =
    (push_ring HISTORY_CAP items item,
     if bool_decide (length items = HISTORY_CAP) then head (items ++ [item]) else None).
Proof.
  intros H. unfold push_item, push_ring, keep_last. rewrite length_app; simpl.
  destruct (decide (length items = HISTORY_CAP)) as [Heq|Hne].
  - rewrite !bool_decide_eq_true_2 by lia. rewrite Heq.
    replace (HISTORY_CAP + 1 - HISTORY_CAP) with 1 by lia. by destruct items.
  - rewrite !bool_decide_eq_false_2 by lia.
    replace (length items + 1 - HISTORY_CAP) with 0 by lia. done.
Qed.

(** The item that [push_item] evicts is no longer referenced, and its
    identifier differs from those that stay. *)
Lemma push_item_evicted items item x :
  length items <= HISTORY_CAP -> NoDup (h_id <$> items ++ [item]) ->
  (if bool_decide (length items = HISTORY_CAP) then head (items ++ [item]) else None) = Some x ->
  x ∈ items /\ forall y, y ∈ push_ring HISTORY_CAP items item -> h_id y <> h_id x.
Proof.
  intros Hl Hnd. case_bool_decide as Heq; [|done].
  destruct items as [|z items]; [done|]. simpl. intros [= ->]. split; [set_solver|].
  intros y Hy Hid. simpl in Hnd. apply NoDup_cons in Hnd as [Hx _]. apply Hx.
  unfold push_ring, keep_last in Hy. rewrite length_app in Hy. simpl length in *. rewrite Heq in Hy.
  replace (HISTORY_CAP + 1 - HISTORY_CAP) with 1 in Hy by lia. simpl in Hy.
  rewrite <-Hid. by apply list_elem_of_fmap_2.
Qed.

Lemma list_find_promote id s items index item :
  NoDup (h_id <$> items) -> list_find (fun item => h_id item = id) items = Some (index, item) ->
  promote id s <$> items = <[index := promote id s item]> items.
Proof.
  revert index. induction items as [|x items IH]; intros index Hnd; [done|].
  apply NoDup_cons in Hnd as [Hx Hnd]. simpl. case_decide as Hid.
  - intros [= <- <-]. simpl. f_equal.
    rewrite <-(list_fmap_id items) at 2.
    apply Forall_fmap_ext_1, Forall_forall. intros y Hy. unfold promote.
    rewrite bool_decide_eq_false_2; [done|]. intros Heq. apply Hx. rewrite Hid, <-Heq.
    by apply list_elem_of_fmap_2.
  - intros ([i y] & Hf & [= -> ->])%fmap_Some. simpl. f_equal; [|by apply IH].
    unfold promote. by rewrite bool_decide_eq_false_2.
Qed.

(** ** The metadata file *)

Lemma split_on_app sep l r : sep ∉ l -> split_on sep (l ++ sep :: r) = l :: split_on sep r.
Proof.
  induction l as [|x l IH]; intros Hl; simpl.
  - by rewrite bool_decide_eq_true_2.
  - rewrite bool_decide_eq_false_2 by set_solver. rewrite IH by set_solver. done.
Qed.

Section metadata.
Context {JH : Json HistoryItem}.

Lemma load_encoded_lines items b ids :
  encode_items items = Ok b -> NoDup (h_id <$> items) ->
  Forall (fun item => valid_reference item = true) items ->
  (forall item, item ∈ items -> h_id item ∉ ids) ->
  load_lines ids (split_on "010"%byte b) = items.
Proof.
  revert b ids; induction items as [|item items IH]; intros b ids Henc Hnd Hv Hids.
  { injection Henc as <-. done. }
  apply rbind_Ok in Henc as (line & Hline & Henc).
  apply rbind_Ok in Henc as (rest & Hrest & [= <-]).
  destruct (to_vec item) as [l|] eqn:Hto; simplify_eq/=.
  destruct (json_one_line _ _ Hto) as [Hnl Hne].
  rewrite split_on_app by done. destruct line as [|c line]; [done|]. cbn [load_lines].
  rewrite (json_compact _ _ Hto). apply NoDup_cons in Hnd as [Hx Hnd].
  apply Forall_cons in Hv as [-> Hv]. rewrite bool_decide_eq_true_2 by set_solver. simpl.
  f_equal. apply IH; [done..|]. intros y Hy [Heq%elem_of_singleton|Hin]%elem_of_union.
  - apply Hx. rewrite <-Heq. by apply list_elem_of_fmap_2.
  - eapply Hids; [|done]. by right.
Qed.

Lemma parse_encoded items b : items_ok items -> encode_items items = Ok b -> parse_items b = items.
Proof. intros (_ & Hnd & Hv) Henc. by apply load_encoded_lines. Qed.

Lemma load_lines_ok ids lines :
  NoDup (h_id <$> load_lines ids lines) /\
  Forall (fun item => valid_reference item = true /\ h_id item ∉ ids) (load_lines ids lines).
Proof.
  revert ids; induction lines as [|[|c l] lines IH]; intros ids; cbn [load_lines];
    [by split; constructor|apply IH|].
  destruct (from_slice (c :: l)) as [item|]; [|apply IH].
  destruct (valid_reference item) eqn:Hv; [|apply IH].
  case_bool_decide as Hid; simpl; [|apply IH]. destruct (IH ({[h_id item]} ∪ ids)) as [Hnd Hall].
  split.
  - apply NoDup_cons. split; [|done]. intros (y & Hy1 & Hy2)%list_elem_of_fmap.
    eapply Forall_forall in Hall as [_ Hall]; [|done]. set_solver.
  - constructor; [done|]. eapply Forall_impl; [done|]. set_solver.
Qed.

Lemma parse_items_ok b : items_ok (keep_last HISTORY_CAP (parse_items b)).
Proof.
  destruct (load_lines_ok ∅ (split_on "010"%byte b)) as [Hnd Hall]. split_and!.
  - rewrite length_keep_last. lia.
  - rewrite fmap_keep_last. by apply NoDup_keep_last.
  - apply Forall_forall. intros x Hx%elem_of_keep_last.
    by eapply Forall_forall in Hall as [? _].
Qed.
End metadata.

(** ** The store and its files *)

(** What a start would load. *)
Definition loaded {JH : Json HistoryItem} (dir : string) (d : disk) : list HistoryItem :=
  match live d !! metadata_path dir with
  | Some f => parse_items (f_data f)
  | None => []
  end.

(** Every image the items refer to is on disk. *)
Definition images_present (dir : string) (items : list HistoryItem) (d : disk) : Prop :=
  forall item name, item ∈ items -> image_file_name (h_kind item) = Some name ->
  is_Some (live d !! image_path dir name).

Definition consistent {JH : Json HistoryItem} (dir : string) (items : list HistoryItem) (d : disk) : Prop :=
  items_ok items /\ loaded dir d = items /\ images_present dir items d.

(** A [Uuid] is written without dots. *)
Definition supply_ok {T} (w : world T) : Prop := forall n, "."%byte ∉ as_bytes (w_uuid w n).

(** The paths of the store. *)
Definition in_metadata_dir (dir : string) (q : path) : Prop := p_dir q = dir.
Definition image_area (dir id : string) (q : path) : Prop :=
  q = image_path dir (image_name id) \/
  exists s u, ("."%byte ∉ as_bytes u) /\ q = Path (images_dir dir) (s +:+ ".tmp-" +:+ u).
Definition history_area (dir : string) (q : path) : Prop :=
  p_dir q = dir \/ p_dir q = images_dir dir.

Lemma images_dir_ne dir : images_dir dir <> dir.
Proof.
  intros H. apply (f_equal (fun s => length (as_bytes s))) in H.
  unfold images_dir, join in H. rewrite !as_bytes_app, !length_app in H. simpl in H. lia.
Qed.

Lemma image_name_inj a b : image_name a = image_name b -> a = b.
Proof.
  unfold image_name. intros H%(f_equal as_bytes). rewrite !as_bytes_app in H.
  by apply (app_inj_2 _ _ _ _ eq_refl) in H as [->%as_bytes_inj _].
Qed.

(** The last extension of an image is [img], that of a temporary file is not. *)
Lemma image_name_not_temp id s u : "."%byte ∉ as_bytes u -> image_name id <> s +:+ ".tmp-" +:+ u.
Proof.
  intros Hu H%(f_equal as_bytes). unfold image_name in H. rewrite !as_bytes_app in H.
  change (as_bytes ".img") with ("."%byte :: as_bytes "img") in H.
  change (as_bytes ".tmp-") with ("."%byte :: as_bytes "tmp-") in H. simpl app in H.
  apply sep_suffix_inj in H as [_ H]; [discriminate| |].
  - by apply (bool_decide_eq_true_1 ("."%byte ∉ as_bytes "img")).
  - rewrite !not_elem_of_cons. by split_and!.
Qed.

Lemma valid_reference_name item name :
  valid_reference item = true -> image_file_name (h_kind item) = Some name -> name = image_name (h_id item).
Proof. unfold valid_reference. intros H Hn. rewrite Hn in H. by apply bool_decide_eq_true in H. Qed.

Section store.
Context {T : Type} {JH : Json HistoryItem}.
Implicit Types (w : world T) (h : HistoryStore) (dir id : string) (items : list HistoryItem).

Lemma loaded_within touch dir w w' :
  within touch w w' -> ~ touch (metadata_path dir) -> loaded dir (w_disk w') = loaded dir (w_disk w).
Proof. intros [_ Hp] Ht. unfold loaded. by destruct (Hp _ Ht) as [-> _]. Qed.

Lemma images_within touch dir items w w' :
  within touch w w' ->
  (forall item name, item ∈ items -> image_file_name (h_kind item) = Some name ->
     ~ touch (image_path dir name)) ->
  images_present dir items (w_disk w) -> images_present dir items (w_disk w').
Proof.
  intros [_ Hp] Ht Hi item name Hin Hn. destruct (Hp _ (Ht _ _ Hin Hn)) as [-> _]. by eapply Hi.
Qed.

Lemma images_metadata dir items w w' :
  within (in_metadata_dir dir) w w' ->
  images_present dir items (w_disk w) -> images_present dir items (w_disk w').
Proof.
  intros Hw. apply (images_within _ _ _ _ _ Hw). intros item name _ _ H. by apply images_dir_ne in H.
Qed.

Lemma image_area_others dir id items :
  items_ok items -> id ∉ h_id <$> items ->
  forall item name, item ∈ items -> image_file_name (h_kind item) = Some name ->
  ~ image_area dir id (image_path dir name).
Proof.
  intros (_ & _ & Hv) Hid item name Hin Hn. eapply Forall_forall in Hv; [|done].
  rewrite (valid_reference_name _ _ Hv Hn). intros [[= H]|(s & u & Hu & [= H])].
  - apply image_name_inj in H. apply Hid. rewrite <-H. by apply list_elem_of_fmap_2.
  - by apply image_name_not_temp in H.
Qed.

Lemma image_area_metadata dir id : ~ image_area dir id (metadata_path dir).
Proof.
  intros [H|(s & u & _ & H)]; apply (f_equal p_dir) in H; simpl in H; by apply (images_dir_ne dir).
Qed.

Lemma supply_quiet w w' : quiet w w' -> supply_ok w -> supply_ok w'.
Proof. intros [Hu _] H n. rewrite Hu. apply H. Qed.

Lemma wpc_history_persist h items w :
  items_ok items ->
  wpc (history_persist h items)
    (fun r w' => within (in_metadata_dir (hs_dir h)) w w' /\
       loaded (hs_dir h) (w_disk w') =
         if is_ok r then items else loaded (hs_dir h) (w_disk w))
    (fun w' => within (in_metadata_dir (hs_dir h)) w w' /\
       (loaded (hs_dir h) (w_disk w') = loaded (hs_dir h) (w_disk w) \/
        loaded (hs_dir h) (w_disk w') = items)) w.
Proof.
  intros Hok. unfold history_persist. destruct (encode_items items) as [b|e] eqn:Henc.
  2: { apply wpc_ret. simpl. auto with clip. }
  unfold history_atomic_write. apply wpc_bind, wpc_new_v4.
  set (p := metadata_path (hs_dir h)).
  set (temp := with_extension p ("tmp-" +:+ w_uuid w (w_next w))).
  set (w1 := World (w_disk w) (w_faults w) (w_uuid w) (S (w_next w)) (w_trace w)).
  assert (temp <> p) as Hne by (intros Heq; apply (f_equal p_name) in Heq; discriminate).
  assert (forall w', quiet w1 w' -> preserves (two temp p) (w_disk w1) (w_disk w') ->
    within (in_metadata_dir (hs_dir h)) w w') as Hin.
  { intros w' Hq Hp. split; [exact Hq|]. eapply preserves_weaken; [|exact Hp].
    intros q [-> | ->]; done. }
  assert (forall w', live (w_disk w') !! p = new_file b -> loaded (hs_dir h) (w_disk w') = items) as Hnew.
  { intros w' Hl. unfold loaded. fold p. rewrite Hl. by apply parse_encoded. }
  assert (forall w', live (w_disk w') !! p = live (w_disk w1) !! p ->
    loaded (hs_dir h) (w_disk w') = loaded (hs_dir h) (w_disk w)) as Hold.
  { intros w' Hl. unfold loaded. fold p. by rewrite Hl. }
  eapply wpc_mono; [by apply (wpc_create_replace _ p b Hne)| |].
  - intros [[]|e] w' (Hq & Hp & Hs); (split; [by apply Hin|]); simpl.
    + destruct Hs as [Hs _]. by apply Hnew.
    + destruct Hs as [Hs _]. by apply Hold.
  - intros w' (Hq & Hp & Hr). split; [by apply Hin|].
    destruct Hr as [[Hr _]|[[Hr _]|[Hr _]]]; auto.
Qed.

Lemma wpc_write_image dir id data w :
  supply_ok w ->
  wpc (history_atomic_write (image_path dir (image_name id)) data)
    (fun r w' => within (image_area dir id) w w' /\
       (r = Ok tt -> contents (live (w_disk w') !! image_path dir (image_name id)) = Some data))
    (within (image_area dir id) w) w.
Proof.
  intros Hsup. unfold history_atomic_write. apply wpc_bind, wpc_new_v4.
  set (p := image_path dir (image_name id)).
  set (temp := with_extension p ("tmp-" +:+ w_uuid w (w_next w))).
  assert (temp = Path (images_dir dir) (file_stem (image_name id) +:+ ".tmp-" +:+ w_uuid w (w_next w)))
    as Htemp by done.
  assert (temp <> p) as Hne.
  { rewrite Htemp. intros [= H]. symmetry in H. by apply image_name_not_temp in H. }
  assert (forall w', quiet w w' -> preserves (two temp p) (w_disk w) (w_disk w') ->
    within (image_area dir id) w w') as Hin.
  { intros w' Hq Hp. split; [exact Hq|]. eapply preserves_weaken; [|exact Hp].
    intros q [-> | ->]; [right|by left]. eauto. }
  eapply wpc_mono; [by apply (wpc_create_replace _ p data Hne)| |].
  - intros [[]|e] w' (Hq & Hp & Hs); (split; [by apply Hin|]); [|done].
    intros _. destruct Hs as [-> _]. done.
  - intros w' (Hq & Hp & _). by apply Hin.
Qed.

Lemma wpc_remove_image dir id w :
  wpc (remove_file_if_exists (image_path dir (image_name id)))
    (fun _ => within (image_area dir id) w) (within (image_area dir id) w) w.
Proof.
  unfold remove_file_if_exists. apply wpc_bind.
  eapply wpc_mono; [apply (wpc_remove_file (image_area dir id)); by left| |done]. intros r w' H. exact H.
Qed.

Lemma wpc_store_content h id c w :
  supply_ok w ->
  wpc (store_content h id c)
    (fun r w' => within (image_area (hs_dir h) id) w w' /\
       match r with
       | Ok (k, image) =>
           k = stored_kind id c /\
           (forall name, image_file_name k = Some name ->
              is_Some (live (w_disk w') !! image_path (hs_dir h) name)) /\
           (image = None \/ image = Some (image_path (hs_dir h) (image_name id)))
       | Err _ => True
       end)
    (within (image_area (hs_dir h) id) w) w.
Proof.
  intros Hsup. destruct c as [content|data]; simpl.
  { apply wpc_ret. split; [apply within_refl|]. split_and!; [done|done|by left]. }
  apply wpc_try. eapply wpc_mono; [by apply wpc_write_image| |done].
  intros [[]|e] w' [Hw Hi]; [|done]. apply wpc_ret. split; [done|].
  split_and!; [done| |by right]. intros name [= <-]. specialize (Hi eq_refl).
  by apply fmap_Some_1 in Hi as (f & -> & _).
Qed.

Lemma history_image_area dir id q : image_area dir id q -> history_area dir q.
Proof. intros [-> |(s & u & _ & ->)]; by right. Qed.

Lemma history_metadata_dir dir q : in_metadata_dir dir q -> history_area dir q.
Proof. by left. Qed.

(** Writing or removing an image no item refers to. *)
Lemma consistent_image_area dir id items w w' :
  within (image_area dir id) w w' -> id ∉ h_id <$> items ->
  consistent dir items (w_disk w) -> consistent dir items (w_disk w').
Proof.
  intros Hw Hid (Hok & Hl & Hi). split_and!; [done| |].
  - by rewrite (loaded_within _ _ _ _ Hw (image_area_metadata dir id)).
  - eapply images_within; [done| |done]. by apply image_area_others.
Qed.

(** One of two histories, consistently on disk. *)
Definition either dir (items items' : list HistoryItem) w (w' : world T) : Prop :=
  within (history_area dir) w w' /\
  exists found, (found = items \/ found = items') /\ consistent dir found (w_disk w').

Lemma either_left dir items items' w w' :
  within (history_area dir) w w' -> consistent dir items (w_disk w') -> either dir items items' w w'.
Proof. unfold either. eauto. Qed.

Lemma either_right dir items items' w w' :
  within (history_area dir) w w' -> consistent dir items' (w_disk w') -> either dir items items' w w'.
Proof. unfold either. eauto. Qed.

(** Replacing the items by others whose images are on disk. *)
Lemma wpc_publish h items w0 w :
  within (history_area (hs_dir h)) w0 w ->
  consistent (hs_dir h) (hs_items h) (w_disk w) -> items_ok items ->
  images_present (hs_dir h) items (w_disk w) ->
  wpc (history_persist h items)
    (fun r w' => within (history_area (hs_dir h)) w0 w' /\
       consistent (hs_dir h) (if is_ok r then items else hs_items h) (w_disk w'))
    (either (hs_dir h) (hs_items h) items w0) w.
Proof.
  intros Hw (Hok & Hl & Hi) Hok' Hi'.
  assert (forall w', within (in_metadata_dir (hs_dir h)) w w' -> within (history_area (hs_dir h)) w0 w')
    as Hmeta.
  { intros w' H. eapply within_trans; [done|]. eapply within_weaken; [|done].
    apply history_metadata_dir. }
  eapply wpc_mono; [by apply wpc_history_persist| |].
  - intros r w' [Hm Hld]. split; [by apply Hmeta|]. rewrite Hl in Hld.
    destruct (is_ok r); split_and!; try done; by eapply images_metadata.
  - intros w' [Hm [Hld|Hld]].
    + apply either_left; [by apply Hmeta|]. split_and!; [done|congruence|by eapply images_metadata].
    + apply either_right; [by apply Hmeta|]. split_and!; [done|congruence|by eapply images_metadata].
Qed.

(** What every operation owes: the store and the disk agree on the old or the
    new items; on success on the new ones. *)
Definition refines h (items : list HistoryItem) w (out : result unit HistoryError * HistoryStore)
    (w' : world T) : Prop :=
  within (history_area (hs_dir h)) w w' /\
  hs_dir (snd out) = hs_dir h /\ consistent (hs_dir h) (hs_items (snd out)) (w_disk w') /\
  (hs_items (snd out) = hs_items h \/ hs_items (snd out) = items) /\
  (fst out = Ok tt -> hs_items (snd out) = items).

Lemma existsb_ids id items :
  existsb (fun existing => bool_decide (h_id existing = id)) items = bool_decide (id ∈ h_id <$> items).
Proof.
  apply eq_true_iff_eq. rewrite existsb_exists, bool_decide_eq_true, list_elem_of_fmap.
  split.
  - intros (x & Hx%list_elem_of_In & Hid%bool_decide_eq_true). eauto.
  - intros (x & Hid & Hx). exists x. rewrite <-list_elem_of_In. split; [done|]. by apply bool_decide_eq_true.
Qed.
End store.

(** ** The operations refine the abstract history *)

Section operations.
Context {T : Type} {JH : Json HistoryItem}.
Implicit Types (w : world T) (h : HistoryStore) (dir id : string) (items : list HistoryItem).

Definition run_op h (op : history_op) : io T (result unit HistoryError * HistoryStore) :=
  match op with
  | OpAdd n => history_add h n
  | OpClear => history_clear h
  | OpSetSource id s => set_source h id s
  end.

(** After the new metadata is out: removing the evicted image. *)
Lemma wpc_evict h n items w0 w :
  items = push_ring HISTORY_CAP (hs_items h) (stored_item n) ->
  items_ok (hs_items h) -> n_id n ∉ h_id <$> hs_items h ->
  within (history_area (hs_dir h)) w0 w -> consistent (hs_dir h) items (w_disk w) ->
  wpc (match (if bool_decide (length (hs_items h) = HISTORY_CAP)
              then head (hs_items h ++ [stored_item n]) else None)
             ≫= (fun item => image_file_name (h_kind item)) with
       | Some file_name =>
           r ← remove_file_if_exists (image_path (hs_dir (set_items h items)) file_name);
           mret (r, set_items h items)
       | None => mret (Ok tt, set_items h items)
       end)
    (refines h items w0) (either (hs_dir h) (hs_items h) items w0) w.
Proof.
  intros Hitems Hok Hid Hw Hc.
  destruct (if bool_decide (length (hs_items h) = HISTORY_CAP)
            then head (hs_items h ++ [stored_item n]) else None) as [x|] eqn:Hev; simpl.
  2: { apply wpc_ret. by split_and!; [..|right|]. }
  destruct (image_file_name (h_kind x)) as [name|] eqn:Hname.
  2: { apply wpc_ret. by split_and!; [..|right|]. }
  destruct Hok as (Hl & Hnd & Hv).
  apply push_item_evicted in Hev as [Hx Hothers]; [|done|].
  2: { rewrite fmap_app. apply NoDup_app. split_and!; [done|set_solver|apply NoDup_singleton]. }
  eapply Forall_forall in Hv; [|done]. rewrite (valid_reference_name _ _ Hv Hname).
  assert (forall w', within (image_area (hs_dir h) (h_id x)) w w' ->
    within (history_area (hs_dir h)) w0 w' /\ consistent (hs_dir h) items (w_disk w')) as Hrm.
  { intros w' H. split.
    - eapply within_trans; [done|]. eapply within_weaken; [|done]. apply history_image_area.
    - eapply consistent_image_area; [done| |done]. subst items.
      intros (y & Hy & Hin)%list_elem_of_fmap. by apply (Hothers y). }
  apply wpc_bind. eapply wpc_mono; [apply wpc_remove_image| |].
  - intros r w' H%Hrm. destruct H. apply wpc_ret. by split_and!; [..|right|].
  - intros w' H%Hrm. destruct H. by apply either_right.
Qed.

Lemma wpc_history_add h n w :
  supply_ok w -> consistent (hs_dir h) (hs_items h) (w_disk w) ->
  wpc (history_add h n) (refines h (spec_op (hs_items h) (OpAdd n)) w)
    (either (hs_dir h) (hs_items h) (spec_op (hs_items h) (OpAdd n)) w) w.
Proof.
  intros Hsup Hc. pose proof Hc as (Hok & _). unfold history_add. rewrite existsb_ids.
  unfold spec_op. case_bool_decide as Hid.
  { apply wpc_ret. split_and!; auto with clip. }
  assert (forall w', within (image_area (hs_dir h) (n_id n)) w w' ->
    within (history_area (hs_dir h)) w w' /\ consistent (hs_dir h) (hs_items h) (w_disk w')) as Hst.
  { intros w' H. split; [eapply within_weaken; [|done]; apply history_image_area|].
    by eapply consistent_image_area. }
  apply wpc_bind. eapply wpc_mono; [by apply wpc_store_content| |].
  2: { intros w' H%Hst. destruct H. by apply either_left. }
  intros [[k image]|e] w1 [[Hw1 Hc1]%Hst Hr].
  2: { apply wpc_ret. by split_and!; [..|left|]. }
  destruct Hr as (-> & Himg & Hpath). rewrite push_item_spec by apply Hok.
  pose proof (items_ok_push _ n Hok Hid) as Hok'. fold (stored_item n).
  apply wpc_bind. eapply wpc_mono; [apply (wpc_publish _ _ w w1 Hw1 Hc1 Hok')| |done].
  { intros item name [Hin| ->]%elem_of_push_ring Hn; [|by apply Himg].
    destruct Hc1 as (_ & _ & Hi1). by eapply Hi1. }
  intros [[]|e] w2 [Hw2 Hc2]; simpl in Hc2.
  { by eapply wpc_evict. }
  assert (forall w', within (image_area (hs_dir h) (n_id n)) w2 w' ->
    within (history_area (hs_dir h)) w w' /\ consistent (hs_dir h) (hs_items h) (w_disk w')) as Hun.
  { intros w' H. split; [|by eapply consistent_image_area].
    eapply within_trans; [done|]. eapply within_weaken; [|done]. apply history_image_area. }
  apply wpc_bind. eapply (wpc_mono _ (fun _ => within (image_area (hs_dir h) (n_id n)) w2)
    _ (within (image_area (hs_dir h) (n_id n)) w2)).
  - destruct Hpath as [-> | ->]; [apply wpc_ret, within_refl|]. apply wpc_remove_file. by left.
  - intros r w' [Hw' Hc']%Hun. apply wpc_ret. by split_and!; [..|left|].
  - intros w' H%Hun. destruct H. by apply either_left.
Qed.

(** Removing files none of which the items refer to. *)
Lemma wpc_remove_all dir items names w0 w :
  within (history_area dir) w0 w -> consistent dir items (w_disk w) ->
  (forall name, name ∈ names -> name ∉ referenced items) ->
  wpc (remove_all (image_path dir <$> names))
    (fun r w' => (within (history_area dir) w0 w' /\ consistent dir items (w_disk w')) /\
       (r = Ok tt -> forall name, is_Some (live (w_disk w') !! image_path dir name) ->
          is_Some (live (w_disk w) !! image_path dir name) /\ name ∉ names))
    (fun w' => within (history_area dir) w0 w' /\ consistent dir items (w_disk w')) w.
Proof.
  revert w; induction names as [|name names IH]; intros w Hw Hc Hn.
  { apply wpc_ret. split; [done|]. intros _ name Hs. split; [done|set_solver]. }
  assert (forall w', within (eq (image_path dir name)) w w' ->
    within (history_area dir) w0 w' /\ consistent dir items (w_disk w')) as Hrm.
  { intros w' H. split.
    - eapply within_trans; [done|]. eapply within_weaken; [|done]. intros q <-. by right.
    - destruct Hc as (Hok & Hl & Hi). split_and!; [done| |].
      + erewrite loaded_within; [done..|]. intros Heq%(f_equal p_dir). by apply images_dir_ne in Heq.
      + eapply images_within; [done| |done]. intros item name' Hin Hname [= <-].
        apply (Hn name); [by left|]. apply list_elem_of_omap. eauto. }
  cbn [remove_all fmap list_fmap]. apply wpc_try. unfold remove_file_if_exists. apply wpc_bind.
  eapply wpc_mono; [by apply wpc_remove_file_gone| |done].
  intros r w' [Hw' Hgone]. apply wpc_ret. pose proof (Hrm w' Hw') as [Hin' Hc'].
  destruct Hw' as [_ Hpr].
  destruct r as [|[]]; try (split; [done|]; by intros ?).
  all: eapply wpc_mono; [apply IH; [done|done|intros ??; apply Hn; by right]| |done].
  all: intros r w2 [Hinv Hall]; (split; [done|]); intros Hr name' Hs.
  all: destruct (Hall Hr name' Hs) as [Hs' Hnin].
  all: assert (name' <> name) by (intros ->; rewrite Hgone in Hs'; by destruct Hs').
  all: split; [|by apply not_elem_of_cons]; destruct (Hpr (image_path dir name')) as [Heq _]; [by intros [= ?]|].
  all: by rewrite <-Heq.
Qed.

Lemma wpc_history_clear h w :
  consistent (hs_dir h) (hs_items h) (w_disk w) ->
  wpc (history_clear h) (refines h [] w) (either (hs_dir h) (hs_items h) [] w) w.
Proof.
  intros Hc. unfold history_clear. apply wpc_bind.
  eapply wpc_mono; [apply (wpc_publish _ _ w w (within_refl _ w) Hc items_ok_nil)| |done].
  { by intros ?? ?%elem_of_nil. }
  intros [[]|e] w1 [Hw1 Hc1]; simpl in Hc1.
  2: { apply wpc_ret. by split_and!; [..|left|]. }
  apply wpc_bind. eapply wpc_mono; [eapply wpc_remove_all; [done..|]| |].
  - set_solver.
  - intros r w' [[Hw' Hc'] _]. apply wpc_ret. by split_and!; [..|right|].
  - intros w' [Hw' Hc']. by apply either_right.
Qed.

Lemma promote_unchanged id s items :
  (forall item, item ∈ items -> h_id item = id -> source_transition (h_source item) s = false) ->
  promote id s <$> items = items.
Proof.
  intros H. rewrite <-(list_fmap_id items) at 2. apply Forall_fmap_ext_1, Forall_forall.
  intros item Hin. unfold promote. case_bool_decide as Hid; [|done]. by rewrite (H item Hin Hid).
Qed.

Lemma wpc_set_source h id s w :
  consistent (hs_dir h) (hs_items h) (w_disk w) ->
  wpc (set_source h id s) (refines h (promote id s <$> hs_items h) w)
    (either (hs_dir h) (hs_items h) (promote id s <$> hs_items h) w) w.
Proof.
  intros Hc. pose proof Hc as (Hok & _ & Hi). unfold set_source.
  destruct (list_find _ (hs_items h)) as [[index item]|] eqn:Hf.
  2: { apply wpc_ret. apply list_find_None in Hf. split_and!; auto with clip; done. }
  pose proof Hok as (_ & Hnd & _). pose proof (list_find_promote id s _ _ _ Hnd Hf) as Hup.
  apply list_find_Some in Hf as (Hlk & Hid & _).
  destruct (source_transition (h_source item) s) eqn:Htr.
  2: { apply wpc_ret. rewrite promote_unchanged; [split_and!; auto with clip|].
       intros y Hy Hyid. apply list_elem_of_lookup in Hy as [j Hj].
       assert (j = index) as -> by (apply (NoDup_lookup _ _ _ id Hnd); rewrite list_lookup_fmap;
         [rewrite Hj|rewrite Hlk]; simpl; congruence).
       congruence. }
  assert (promote id s item = with_source Remote item) as Hpr.
  { unfold promote. by rewrite bool_decide_eq_true_2, Htr. }
  rewrite Hpr in Hup. rewrite <-Hup. apply wpc_bind.
  eapply wpc_mono;
    [apply (wpc_publish _ _ w w (within_refl _ w) Hc (items_ok_promote id s _ Hok))| |done].
  { intros y name (z & -> & Hz)%list_elem_of_fmap Hn. rewrite promote_kind in Hn. by eapply Hi. }
  intros [[]|e] w1 [Hw1 Hc1]; apply wpc_ret; [by split_and!; [..|right|]|by split_and!; [..|left|]].
Qed.

Lemma wpc_run_op h op w :
  supply_ok w -> consistent (hs_dir h) (hs_items h) (w_disk w) ->
  wpc (run_op h op) (refines h (spec_op (hs_items h) op) w)
    (either (hs_dir h) (hs_items h) (spec_op (hs_items h) op) w) w.
Proof.
  intros Hsup Hc. destruct op; [by apply wpc_history_add|by apply wpc_history_clear|].
  by apply wpc_set_source.
Qed.
End operations.

Section opening.
Context {T : Type} {JH : Json HistoryItem}.
Implicit Types (w : world T) (dir : string).

Lemma wpc_load_items dir w :
  wpc (load_items (metadata_path dir))
    (fun r w' => moved w (w_disk w) w' /\ forall l, r = Ok l -> l = loaded dir (w_disk w))
    (moved w (w_disk w)) w.
Proof.
  unfold load_items. apply wpc_bind. eapply wpc_mono; [apply wpc_read| |done].
  intros r w' [Hm Hr]. apply wpc_ret. split; [done|]. unfold loaded.
  destruct r as [b|[]]; intros l [= <-].
  - destruct (live (w_disk w) !! metadata_path dir); by simplify_eq/=.
  - by rewrite Hr.
Qed.

Lemma wpc_cleanup dir items w0 w :
  within (history_area dir) w0 w -> consistent dir items (w_disk w) ->
  wpc (cleanup_orphan_images (images_dir dir) items)
    (fun r w' => (within (history_area dir) w0 w' /\ consistent dir items (w_disk w')) /\
       (r = Ok tt -> forall name, is_Some (live (w_disk w') !! image_path dir name) ->
          name ∈ referenced items))
    (fun w' => within (history_area dir) w0 w' /\ consistent dir items (w_disk w')) w.
Proof.
  intros Hw Hc. assert (forall w', moved w (w_disk w) w' ->
    within (history_area dir) w0 w' /\ consistent dir items (w_disk w')) as Hsame.
  { intros w' Hm. split; [|by destruct Hm as (-> & _)].
    eapply within_trans; [done|]. eapply moved_within; eauto with clip. }
  unfold cleanup_orphan_images. apply wpc_try. eapply wpc_mono; [apply wpc_read_dir| |done].
  intros [names|e] w1 [Hm Hnames]; [|by split; [apply Hsame|]].
  specialize (Hnames names eq_refl). destruct (Hsame w1 Hm) as [Hw1 Hc1]. destruct Hm as (Hd & _).
  eapply wpc_mono; [apply (wpc_remove_all dir items _ w0 w1 Hw1 Hc1)| |done].
  - by intros name [? _]%list_elem_of_filter.
  - intros r w2 [Hinv Hall]. split; [done|]. intros Hr name Hs.
    destruct (Hall Hr name Hs) as [Hs1 Hnin]. rewrite Hd in Hs1. apply Hnames in Hs1.
    destruct (decide (name ∈ referenced items)); [done|]. destruct Hnin.
    by apply list_elem_of_filter.
Qed.

(** Opening a consistent directory loads exactly its items and removes every
    image none of them refers to. *)
Lemma wpc_history_new dir items w :
  consistent dir items (w_disk w) ->
  wpc (history_new dir)
    (fun r w' => (within (history_area dir) w w' /\ consistent dir items (w_disk w')) /\
       forall h, r = Ok h -> h = {| hs_dir := dir; hs_items := items |} /\
         forall name, is_Some (live (w_disk w') !! image_path dir name) -> name ∈ referenced items)
    (fun w' => within (history_area dir) w w' /\ consistent dir items (w_disk w')) w.
Proof.
  intros Hc. assert (forall w', moved w (w_disk w) w' ->
    within (history_area dir) w w' /\ consistent dir items (w_disk w')) as Hsame.
  { intros w' Hm. split; [eapply moved_within; eauto with clip|]. by destruct Hm as (-> & _). }
  unfold history_new. apply wpc_try, wpc_atomic_call.
  2: { intros w' e _ Hm%Hsame. split; [split; [done|by intros]|done]. }
  intros w1 r d [= <- <-] Hm1. split; [|by apply Hsame].
  pose proof Hm1 as (Hd1 & _). apply wpc_try. eapply wpc_mono; [apply wpc_load_items| |].
  all: rewrite Hd1.
  2: { intros w' Hm. apply Hsame. by eapply moved_trans. }
  intros r w2 [Hm2 Hl]. apply (moved_trans _ _ _ _ _ Hm1) in Hm2.
  destruct (Hsame w2 Hm2) as [Hw2 Hc2]. destruct r as [l|e]; [|split; [done|by intros]].
  rewrite (Hl l eq_refl). pose proof Hc as (Hok & -> & _).
  rewrite keep_last_id by apply Hok. apply wpc_try.
  eapply wpc_mono; [by apply (wpc_cleanup dir items w)| |done].
  intros [[]|e] w3 [Hinv Hall]; [apply wpc_ret|split; [done|by intros]].
  split; [done|]. intros h [= <-]. auto.
Qed.
End opening.

(** ** The operations stay inside the history directory

    Whatever the directory holds. *)

Section area.
Context {T : Type} {JH : Json HistoryItem}.
Implicit Types (h : HistoryStore) (dir : string).

Lemma inside_history_write dir p data :
  history_area dir p -> inside (T := T) (history_area dir) (history_atomic_write p data).
Proof.
  intros Hp. apply inside_bind; [auto with inside|]. intros u.
  assert (history_area dir (with_extension p ("tmp-" +:+ u))) by exact Hp.
  repeat (apply inside_try; [auto with inside|intros _]). auto with inside.
Qed.

Lemma inside_history_persist h items :
  inside (T := T) (history_area (hs_dir h)) (history_persist h items).
Proof.
  unfold history_persist. destruct (encode_items items); [|apply inside_ret].
  apply inside_history_write. by left.
Qed.

Lemma inside_remove_if_exists dir p :
  history_area dir p -> inside (T := T) (history_area dir) (remove_file_if_exists p).
Proof. intros Hp. apply inside_bind; auto with inside. Qed.

Lemma inside_remove_all dir paths :
  Forall (history_area dir) paths -> inside (T := T) (history_area dir) (remove_all paths).
Proof.
  induction 1 as [|p paths Hp _ IH]; [apply inside_ret|].
  apply inside_try; [by apply inside_remove_if_exists|done].
Qed.

Lemma image_paths_area dir names : Forall (history_area dir) (image_path dir <$> names).
Proof. apply Forall_fmap, Forall_true. intros name. by right. Qed.

Lemma inside_store_content h id c w :
  wpc (store_content (T := T) h id c)
    (fun r w' => (forall k p, r = Ok (k, Some p) -> history_area (hs_dir h) p) /\
                 within (history_area (hs_dir h)) w w')
    (within (history_area (hs_dir h)) w) w.
Proof.
  destruct c as [content|data]; simpl.
  { apply wpc_ret. split; [done|apply within_refl]. }
  apply wpc_try. eapply wpc_mono; [apply inside_history_write; by right| |done].
  intros [[]|e] w' H; [|done]. apply wpc_ret. split; [|done]. intros k p [= _ <-]. by right.
Qed.

Lemma inside_history_add h n : inside (T := T) (history_area (hs_dir h)) (history_add h n).
Proof.
  unfold history_add. destruct (existsb _ _); [apply inside_ret|].
  eapply inside_bind_post; [apply inside_store_content|]. intros r Hr.
  destruct r as [[k image]|e]; [|apply inside_ret]. destruct (push_item _ _) as [updated evicted].
  apply inside_bind; [apply inside_history_persist|]. intros [[]|e].
  - destruct (evicted ≫= _) as [name|]; [|apply inside_ret].
    apply inside_bind; [|intros; apply inside_ret]. apply inside_remove_if_exists. by right.
  - apply inside_bind; [|auto with inside].
    destruct image as [p|]; [|apply inside_ret]. apply inside_remove_file. by eapply Hr.
Qed.

(** The directory of a store never changes. *)
Definition same_dir h (out : result unit HistoryError * HistoryStore) : Prop :=
  hs_dir (snd out) = hs_dir h.

Lemma history_add_dir h n : returns (T := T) (same_dir h) (history_add h n).
Proof.
  unfold history_add. destruct (existsb _ _); [by apply returns_ret|]. apply returns_bind.
  intros [[k image]|e]; [|by apply returns_ret]. destruct (push_item _ _) as [updated evicted].
  apply returns_bind. intros [[]|e]; [|apply returns_bind; intros; by apply returns_ret].
  destruct (evicted ≫= _) as [name|]; [|by apply returns_ret].
  apply returns_bind. intros. by apply returns_ret.
Qed.

Lemma history_clear_dir h : returns (T := T) (same_dir h) (history_clear h).
Proof.
  apply returns_bind. intros [[]|e]; [|by apply returns_ret].
  apply returns_bind. intros. by apply returns_ret.
Qed.

Lemma set_source_dir h id s : returns (T := T) (same_dir h) (set_source h id s).
Proof.
  unfold set_source. destruct (list_find _ _) as [[index item]|]; [|by apply returns_ret].
  destruct (source_transition _ _); [|by apply returns_ret].
  apply returns_bind. intros [[]|e]; by apply returns_ret.
Qed.

Lemma history_new_dir dir :
  returns (T := T) (fun r => forall h, r = Ok h -> hs_dir h = dir) (history_new dir).
Proof.
  do 3 (apply returns_bind; intros []; [|by apply returns_ret]).
  apply returns_ret. by intros h [= <-].
Qed.

Lemma inside_history_clear h : inside (T := T) (history_area (hs_dir h)) (history_clear h).
Proof.
  apply inside_bind; [apply inside_history_persist|]. intros [[]|e]; [|apply inside_ret].
  apply inside_bind; [|auto with inside]. apply inside_remove_all, image_paths_area.
Qed.

Lemma inside_set_source h id s : inside (T := T) (history_area (hs_dir h)) (set_source h id s).
Proof.
  unfold set_source. destruct (list_find _ _) as [[index item]|]; [|apply inside_ret].
  destruct (source_transition _ _); [|apply inside_ret].
  apply inside_bind; [apply inside_history_persist|]. intros [[]|e]; apply inside_ret.
Qed.

Lemma inside_history_new dir : inside (T := T) (history_area dir) (history_new dir).
Proof.
  apply inside_try; [auto with inside|intros _]. apply inside_try.
  { apply inside_bind; auto with inside. }
  intros l. apply inside_try; [|auto with inside].
  apply inside_try; [auto with inside|]. intros names. apply inside_remove_all.
  apply Forall_fmap, Forall_true. intros name. by right.
Qed.
End area.

(** ** Properties *)

(** C29. Every history operation (add, clear, change of source) refines the
    abstract list: on success the store and the metadata file hold the list
    the specification gives, on an error the old or that list, and a process
    crash at any call leaves a directory from which a new start loads exactly
    one of the two. *)
Theorem history_op_crash_atomic {T} `{Json HistoryItem} (h : HistoryStore) op (w : world T) :
  supply_ok w -> consistent (hs_dir h) (hs_items h) (w_disk w) ->
  wpc (run_op h op)
    (fun out w' =>
       consistent (hs_dir h) (hs_items (snd out)) (w_disk w') /\
       (hs_items (snd out) = hs_items h \/ hs_items (snd out) = spec_op (hs_items h) op) /\
       (fst out = Ok tt -> hs_items (snd out) = spec_op (hs_items h) op))
    (fun w' => exists found, (found = hs_items h \/ found = spec_op (hs_items h) op) /\
       forall w2 : world T, w_disk w2 = w_disk w' ->
       wpc (history_new (hs_dir h))
         (fun r _ => forall h2, r = Ok h2 -> hs_items h2 = found) (fun _ => True) w2) w.
Proof.
  intros Hsup Hc. eapply wpc_mono; [by apply wpc_run_op| |].
  - intros out w' (_ & _ & Hc' & Hor & Hok). done.
  - intros w' (_ & found & Hf & Hc'). exists found. split; [done|]. intros w2 Hd.
    rewrite <-Hd in Hc'. eapply wpc_mono; [by apply wpc_history_new| |done].
    intros r w3 [_ Hr] h2 ->. by destruct (Hr h2 eq_refl) as [-> _].
Qed.

(** Opening the history of a consistent directory returns exactly the
    persisted items and removes every image file no item refers to, keeping
    all the others; a crash in between loses nothing. *)
Theorem history_reopen_exact {T} `{Json HistoryItem} dir items (w : world T) :
  consistent dir items (w_disk w) ->
  wpc (history_new dir)
    (fun r w' => consistent dir items (w_disk w') /\
       forall h, r = Ok h -> history_list h = items /\
         forall name, is_Some (live (w_disk w') !! image_path dir name) -> name ∈ referenced items)
    (fun w' => consistent dir items (w_disk w')) w.
Proof.
  intros Hc. eapply wpc_mono; [by apply wpc_history_new| |].
  - intros r w' [[_ Hc'] Hr]. split; [done|]. intros h Hh. destruct (Hr h Hh) as [-> Hall]. done.
  - intros w' [_ Hc']. done.
Qed.

(** ** Witnesses *)

Module HistoryToy.

Definition source_code (s : HistorySource) : nat :=
  match s with Local => 0 | Remote => 1 | RemoteDeferred => 2 end.
Definition source_uncode (n : nat) : option HistorySource :=
  Some match n with 0 => Local | 1 => Remote | _ => RemoteDeferred end.

#[global] Program Instance HistorySource_countable : Countable HistorySource :=
  inj_countable source_code source_uncode _.
Next Obligation. by intros []. Qed.

Definition kind_code (k : HistoryKind) : string + string :=
  match k with HkText c => inl c | HkImage f => inr f end.
Definition kind_uncode (k : string + string) : HistoryKind :=
  match k with inl c => HkText c | inr f => HkImage f end.

#[global] Program Instance HistoryItem_countable : Countable HistoryItem :=
  inj_countable (fun i => (h_id i, h_ts_ms i, kind_code (h_kind i), h_source i))
    (fun '(i, t, k, s) =>
       Some {| h_id := i; h_ts_ms := t; h_kind := kind_uncode k; h_source := s |}) _.
Next Obligation. by intros [? ? [] ?]. Qed.

Definition history_json : Json HistoryItem := Toy.toy_json HistoryItem.

Definition empty_world {T} (faults : list fault) : world T :=
  World (Disk ∅ ∅) faults (fun _ => "u") 0 [].

Definition empty_store : HistoryStore := {| hs_dir := "h"; hs_items := [] |}.

Definition sample_image : NewHistoryItem :=
  {| n_id := "i"; n_ts_ms := 7; n_source := Remote; n_content := HcImage (as_bytes "png") |}.
End HistoryToy.

Lemma history_op_crash_atomic_witness :
  wpc (T := unit) (@run_op unit HistoryToy.history_json HistoryToy.empty_store (OpAdd HistoryToy.sample_image))
    (fun out w' => fst out = Ok tt -> hs_items (snd out) = [stored_item HistoryToy.sample_image])
    (fun _ => True) (HistoryToy.empty_world []).
Proof.
  eapply wpc_mono;
    [apply (@history_op_crash_atomic unit HistoryToy.history_json HistoryToy.empty_store
       (OpAdd HistoryToy.sample_image) (HistoryToy.empty_world []))| |].
  - intros n Hin. apply list_elem_of_singleton in Hin. discriminate.
  - split; [exact items_ok_nil|]. split; [reflexivity|]. intros item name Hin.
    by apply elem_of_nil in Hin.
  - intros out w' (_ & _ & Hok) Hr. exact (Hok Hr).
  - done.
Defined.

