(* ===== verification/Pairing.v ===== *)
(** * Pairing state and its durable record ([crates/core/src/pairing.rs])

    QR content and its validation, the offerer and claimer roles up to the
    confirmed short authentication string, the pairing record on disk, and
    identity rotation.  The build flag [cfg!(debug_assertions)] is an argument
    of the server check; random bytes are arguments. *)

From S2P Require Import Prelude Fs Interfaces Protocol Crypto.
From Stdlib Require Import Strings.Byte.

Set Default Goal Selector "!".
#[local] Open Scope clip_scope.

Definition QR_NONCE_BYTES : nat := 16.
Definition IDENTITY_FILE : string := "identity.json".
Definition PAIRING_FILE : string := "pairing.json".

Inductive PairingError :=
| InvalidServer | InvalidCode | PairSameIdentity | ServerMismatch | BundleMismatch | SasMismatch
| StaleIdentity | InvalidRecord | GenerationOverflow
| PairingIo (e : io_error) | PairingCrypto (e : CryptoError) | PairingJson (e : string).

(** ** Server addresses and codes *)

(** [split(['/', '?', '#']).next()]. *)
Definition authority_end (b : byte) : bool :=
  bool_decide (b ∈ ["/"%byte; "?"%byte; "#"%byte]).

Fixpoint authority_of (s : bytes) : bytes :=
  match s with
  | [] => []
  | b :: s => if authority_end b then [] else b :: authority_of s
  end.

(** [u8::is_ascii_whitespace], [u8::is_ascii_control]. *)
Definition is_ascii_whitespace (b : byte) : bool :=
  bool_decide (b ∈ [" "%byte; "009"%byte; "010"%byte; "012"%byte; "013"%byte]).
Definition is_ascii_control (b : byte) : bool := in_range 0 31 b || in_range 127 127 b.

Definition validate_server (debug_assertions : bool) (server : string) : result unit PairingError :=
  rest ←? match strip_prefix (as_bytes "wss://") (as_bytes server) with
          | Some rest => Ok rest
          | None =>
              if debug_assertions
              then ok_or (strip_prefix (as_bytes "ws://") (as_bytes server)) InvalidServer
              else Err InvalidServer
          end;
  let authority := authority_of rest in
  if bool_decide (authority <> []) && bool_decide ("@"%byte ∉ authority) &&
     bool_decide ("#"%byte ∉ as_bytes server) &&
     forallb (fun b => negb (is_ascii_whitespace b) && negb (is_ascii_control b)) (as_bytes server)
  then Ok tt else Err InvalidServer.

Definition validate_code (code : string) : result unit PairingError :=
  if bool_decide (String.length code = 6) &&
     forallb (fun b => is_ascii_uppercase b || is_ascii_digit b) (as_bytes code)
  then Ok tt else Err InvalidCode.

(** ** QR content *)

Record QrPayload := { qr_server : string; qr_code : string; qr_bundle : PubBundle; qr_nonce_a : bytes }.

#[global] Instance QrPayload_eq_decision : EqDecision QrPayload.
Proof. solve_decision. Defined.

Definition nonce_serialize `{Base64} (nonce : bytes) : string := b64_encode nonce.

Definition nonce_deserialize `{Base64} (encoded : string) : result bytes string :=
  decoded ←? b64_decode encoded;
  if negb (bool_decide (b64_encode decoded = encoded))
  then Err "nonce_a must use canonical padded STANDARD base64"
  else if bool_decide (length decoded = QR_NONCE_BYTES) then Ok decoded
  else Err "nonce_a must decode to 16 bytes".

Section pairing.
Context {T : Type} {B64 : Base64} {S256 : Sha256} {Ed : Ed25519} {X : X25519}.
Context {JI : Json IdentityDocument} {JQ : Json QrPayload}.
Variable debug : bool.

Definition qr_new (server code : string) (bundle : PubBundle) (nonce_a : bytes) :
    result QrPayload PairingError :=
  _ ←? validate_server debug server;
  _ ←? validate_code code;
  Ok {| qr_server := server; qr_code := code; qr_bundle := bundle; qr_nonce_a := nonce_a |}.

Definition qr_to_json (qr : QrPayload) : result bytes PairingError := map_err PairingJson (to_vec qr).

Definition qr_parse (encoded : bytes) : result QrPayload PairingError :=
  payload ←? map_err PairingJson (from_slice encoded);
  _ ←? validate_server debug (qr_server payload);
  _ ←? validate_code (qr_code payload);
  Ok payload.

(** ** Roles *)

Record Offerer := {
  of_generation : Z; of_server : string; of_local_bundle : PubBundle; of_nonce_a : bytes
}.

Record Claimer := {
  cl_generation : Z; cl_pinned_server : string; cl_local_bundle : PubBundle;
  cl_pinned_bundle : PubBundle; cl_nonce_a : bytes
}.

Record PairingCandidate := {
  pc_generation : Z; pc_server : string; pc_local_bundle : PubBundle; pc_peer_bundle : PubBundle
}.

Record PendingConfirmation := { pn_candidate : PairingCandidate; pn_nonce_a : bytes }.

Definition offerer_start (identity : Identity) (qr : QrPayload) : result Offerer PairingError :=
  _ ←? validate_server debug (qr_server qr);
  _ ←? validate_code (qr_code qr);
  let local_bundle := public_bundle identity in
  if negb (bool_decide (qr_bundle qr = local_bundle)) then Err BundleMismatch
  else Ok {| of_generation := generation identity; of_server := qr_server qr;
             of_local_bundle := local_bundle; of_nonce_a := qr_nonce_a qr |}.

Definition offerer_receive_peer (self : Offerer) (peer_bundle : PubBundle) :
    result PendingConfirmation PairingError :=
  if bool_decide (bundle_fp (of_local_bundle self) = bundle_fp peer_bundle) then Err PairSameIdentity
  else Ok {| pn_candidate := {| pc_generation := of_generation self; pc_server := of_server self;
                                pc_local_bundle := of_local_bundle self; pc_peer_bundle := peer_bundle |};
             pn_nonce_a := of_nonce_a self |}.

Definition claimer_start (identity : Identity) (qr : QrPayload) : result Claimer PairingError :=
  _ ←? validate_server debug (qr_server qr);
  _ ←? validate_code (qr_code qr);
  let local_bundle := public_bundle identity in
  if bool_decide (bundle_fp local_bundle = bundle_fp (qr_bundle qr)) then Err PairSameIdentity
  else Ok {| cl_generation := generation identity; cl_pinned_server := qr_server qr;
             cl_local_bundle := local_bundle; cl_pinned_bundle := qr_bundle qr;
             cl_nonce_a := qr_nonce_a qr |}.

Definition claimer_receive_peer (self : Claimer) (server : string) (peer_bundle : PubBundle) :
    result PendingConfirmation PairingError :=
  if negb (bool_decide (server = cl_pinned_server self)) then Err ServerMismatch
  else if negb (bool_decide (peer_bundle = cl_pinned_bundle self)) then Err BundleMismatch
  else Ok {| pn_candidate := {| pc_generation := cl_generation self; pc_server := cl_pinned_server self;
                                pc_local_bundle := cl_local_bundle self;
                                pc_peer_bundle := cl_pinned_bundle self |};
             pn_nonce_a := cl_nonce_a self |}.

Definition pending_sas (p : PendingConfirmation) : string :=
  sas_code (pn_nonce_a p) (pc_local_bundle (pn_candidate p)) (pc_peer_bundle (pn_candidate p)).
End pairing.

(** ** The durable record *)

Record PairingRecord := {
  identity_generation : Z; server : string; rec_room_id : string; local_bundle_fp : string;
  peer_bundle : PubBundle; peer_bundle_fp : string
}.

#[global] Instance PairingRecord_eq_decision : EqDecision PairingRecord.
Proof. solve_decision. Defined.

Section records.
Context {T : Type} {B64 : Base64} {S256 : Sha256} {Ed : Ed25519} {X : X25519}.
Context {JI : Json IdentityDocument} {JR : Json PairingRecord}.
Variable debug : bool.

Definition from_candidate (c : PairingCandidate) : PairingRecord :=
  {| identity_generation := pc_generation c; server := pc_server c;
     rec_room_id := room_id (pc_local_bundle c) (pc_peer_bundle c);
     local_bundle_fp := bundle_fp (pc_local_bundle c);
     peer_bundle := pc_peer_bundle c; peer_bundle_fp := bundle_fp (pc_peer_bundle c) |}.

Definition validate_record (record : PairingRecord) (identity : Identity) : result unit PairingError :=
  let local_bundle := public_bundle identity in
  if (0 <? identity_generation record)%Z &&
     (identity_generation record =? generation identity)%Z &&
     bool_decide (local_bundle_fp record = bundle_fp local_bundle) &&
     bool_decide (peer_bundle_fp record = bundle_fp (peer_bundle record)) &&
     negb (bool_decide (local_bundle_fp record = peer_bundle_fp record)) &&
     bool_decide (rec_room_id record = room_id local_bundle (peer_bundle record)) &&
     is_ok (validate_server debug (server record))
  then Ok tt else Err InvalidRecord.

(** [PairingStore] is its root directory. *)
Definition pairing_store_new (root : string) : io T (result string PairingError) :=
  _ ←! create_dir_all @ PairingIo; mret (Ok root).

Definition pairing_path (root : string) : path := Path root PAIRING_FILE.
Definition identity_path (root : string) : path := Path root IDENTITY_FILE.

Definition load_identity (drawn : bytes * bytes) (root : string) : io T (result Identity PairingError) :=
  lift_err PairingCrypto (load_or_create drawn (identity_path root)).

Definition load_pairing (drawn : bytes * bytes) (root : string) :
    io T (result (option PairingRecord) PairingError) :=
  identity ←! load_identity drawn root;
  r ← read (pairing_path root);
  mret match r with
       | Err NotFound => Ok None
       | Err e => Err (PairingIo e)
       | Ok encoded =>
           record ←? map_err PairingJson (from_slice encoded);
           if negb (identity_generation record =? generation identity)%Z then Ok None
           else _ ←? validate_record record identity; Ok (Some record)
       end.

Definition pairing_temp (root suffix : string) : path :=
  Path root (".pairing.json." +:+ suffix +:+ ".tmp").

Definition pairing_atomic_write (root : string) (contents : bytes) : io T (result unit PairingError) :=
  suffix ← new_v4;
  let temp := pairing_temp root suffix in
  _ ←! with_pending PairingIo temp
         (lift_err PairingIo (write_sync_rename temp (pairing_path root) contents));
  lift_err PairingIo (open_sync_dir root).

Definition persist_pairing (drawn : bytes * bytes) (root : string) (record : PairingRecord) :
    io T (result unit PairingError) :=
  identity ←! load_identity drawn root;
  if negb (identity_generation record =? generation identity)%Z ||
     negb (bool_decide (local_bundle_fp record = identity_fp identity))
  then mret (Err StaleIdentity)
  else match validate_record record identity with
       | Err e => mret (Err e)
       | Ok _ =>
           match to_vec record with
           | Err e => mret (Err (PairingJson e))
           | Ok encoded => pairing_atomic_write root encoded
           end
       end.

(** [PendingConfirmation::confirm]; [PairingDone] is the record. *)
Definition confirm (drawn : bytes * bytes) (self : PendingConfirmation) (sas root : string) :
    io T (result PairingRecord PairingError) :=
  if negb (bool_decide (sas = pending_sas self)) then mret (Err SasMismatch)
  else
    let record := from_candidate (pn_candidate self) in
    _ ←! persist_pairing drawn root record;
    mret (Ok record).

(** ** Identity rotation *)

Definition cleanup_old_pairing_state (root : string) : io T unit :=
  r ← remove_file (pairing_path root);
  match r with
  | Ok _ => _ ← open_sync_dir root; mret tt
  | Err _ => mret tt
  end.

(** [drawn] is what a first start would generate, [fresh] the replacement's secrets. *)
Definition reset_pairing_state (drawn fresh : bytes * bytes) (root : string) :
    io T (result Identity PairingError) :=
  current ←! load_identity drawn root;
  match checked_add_u64 (generation current) 1 with
  | None => mret (Err GenerationOverflow)
  | Some gen =>
      match from_secret_bytes fresh.1 fresh.2 gen with
      | Err e => mret (Err (PairingCrypto e))
      | Ok replacement =>
          _ ←! write_identity PairingIo PairingJson replacement (identity_path root);
          _ ← cleanup_old_pairing_state root;
          mret (Ok replacement)
      end
  end.
End records.

(** ** Lemmas *)

(** A server address of a scheme: a non-empty authority without user
    information, no fragment, no blank or control character. *)
Definition server_shape (scheme : string) (s : string) : Prop :=
  exists authority rest, as_bytes s = as_bytes scheme ++ authority ++ rest /\
    authority <> [] /\ Forall (fun b => authority_end b = false /\ b <> "@"%byte) authority /\
    (rest = [] \/ exists b rest', rest = b :: rest' /\ authority_end b = true) /\
    ("#"%byte ∉ as_bytes s) /\
    Forall (fun b => is_ascii_whitespace b = false /\ is_ascii_control b = false) (as_bytes s).

Lemma authority_of_spec s :
  exists rest, s = authority_of s ++ rest /\
    Forall (fun b => authority_end b = false) (authority_of s) /\
    (rest = [] \/ exists b rest', rest = b :: rest' /\ authority_end b = true).
Proof.
  induction s as [|b s (rest & Heq & Hall & Hr)]; simpl; [exists []; auto|].
  destruct (authority_end b) eqn:Hb.
  - exists (b :: s). split_and!; [done|constructor|right; eauto].
  - exists rest. split_and!; [simpl; congruence|by constructor|done].
Qed.

Lemma authority_of_app a rest :
  Forall (fun b => authority_end b = false) a ->
  (rest = [] \/ exists b rest', rest = b :: rest' /\ authority_end b = true) ->
  authority_of (a ++ rest) = a.
Proof.
  intros Ha Hr. induction Ha as [|b a Hb Ha IH]; simpl.
  - destruct Hr as [-> |(b & rest' & -> & Hb)]; [done|]. simpl. by rewrite Hb.
  - by rewrite Hb, IH.
Qed.

Lemma checks_spec s :
  forallb (fun b => negb (is_ascii_whitespace b) && negb (is_ascii_control b)) s = true <->
  Forall (fun b => is_ascii_whitespace b = false /\ is_ascii_control b = false) s.
Proof.
  rewrite forallb_forall, Forall_forall. setoid_rewrite list_elem_of_In.
  setoid_rewrite andb_true_iff. setoid_rewrite negb_true_iff. done.
Qed.

Lemma server_checks_spec scheme server rest :
  as_bytes server = as_bytes scheme ++ rest ->
  (bool_decide (authority_of rest <> []) && bool_decide ("@"%byte ∉ authority_of rest) &&
   bool_decide ("#"%byte ∉ as_bytes server) &&
   forallb (fun b => negb (is_ascii_whitespace b) && negb (is_ascii_control b)) (as_bytes server)
   = true) <-> server_shape scheme server.
Proof.
  intros Heq. rewrite !andb_true_iff, !bool_decide_eq_true, checks_spec. split.
  - intros [[[Hne Hat] Hh] Hc]. destruct (authority_of_spec rest) as (r & Hr & Hall & Hrest).
    exists (authority_of rest), r. split_and!; try done; [by rewrite Heq, Hr at 1|].
    apply Forall_forall. intros b Hb. split; [by eapply Forall_forall in Hall|]. by intros ->.
  - intros (a & r & Heq' & Hne & Hall & Hr & Hh & Hc). rewrite Heq in Heq'.
    apply app_inv_head in Heq' as ->. rewrite authority_of_app; [|eapply Forall_impl; [exact Hall|]; by intros ? [? _]|done].
    split_and!; try done. intros Hat. by destruct (proj1 (Forall_forall _ _) Hall _ Hat) as [_ ?].
Qed.

Section lemmas.
Context {T : Type} {B64 : Base64} {S256 : Sha256} {Ed : Ed25519} {X : X25519}.
Context {JI : Json IdentityDocument} {JR : Json PairingRecord}.
Implicit Types (w : world T) (root : string).

Lemma wpc_load_identity drawn i root w :
  stable (holds_identity i) (identity_path root) (w_disk w) ->
  wpc (load_identity drawn root)
    (fun r w' => (r = Ok i \/ exists e, r = Err (PairingCrypto (CryptoIo e))) /\ w_disk w' = w_disk w)
    (fun w' => w_disk w' = w_disk w) w.
Proof.
  intros Hst. apply wpc_lift_err. eapply wpc_mono; [by apply (wpc_load_held drawn i)| |done].
  intros r w' [[-> |[e ->]] Hd]; (split; [|done]); [by left|right; by eexists].
Qed.

Lemma pairing_temp_ne root suffix : pairing_temp root suffix <> pairing_path root.
Proof. intros Heq. by apply (f_equal p_name) in Heq. Qed.

Lemma wpc_pairing_write root data P w :
  stable P (pairing_path root) (w_disk w) -> P (Some data) ->
  wpc (pairing_atomic_write root data)
    (fun r w' => stable P (pairing_path root) (w_disk w') /\
       (forall Q, stable Q (identity_path root) (w_disk w) -> stable Q (identity_path root) (w_disk w')) /\
       (r = Ok tt -> committed (pairing_path root) data (w_disk w')))
    (fun w' => stable P (pairing_path root) (w_disk w')) w.
Proof.
  intros Hst HP. unfold pairing_atomic_write. apply wpc_bind, wpc_new_v4.
  pose proof (pairing_temp_ne root (w_uuid w (w_next w))) as Hne.
  eapply wpc_mono; [apply (wpc_pending_replace _ (pairing_path root) data Hne),
    fills_write_sync_rename, Hne| |].
  - intros r w' [(_ & Hpr & Hr) Hc]. split_and!; [by eapply replaced_stable| |done].
    intros Q HQ. eapply preserves_stable; [done| |done]. by intros [[=]|[=]].
  - intros w' (_ & _ & Hr). by eapply replaced_stable.
Qed.

(** The pairing file holds nothing or some complete record. *)
Definition pairing_slot (o : option bytes) : Prop :=
  match o with Some b => is_ok (from_slice (A := PairingRecord) b) = true | None => True end.

Definition holds_record (record : PairingRecord) (o : option bytes) : Prop :=
  exists b, o = Some b /\ from_slice b = Ok record.

Lemma wpc_persist_pairing debug drawn i root record w :
  stable (holds_identity i) (identity_path root) (w_disk w) ->
  stable pairing_slot (pairing_path root) (w_disk w) ->
  wpc (persist_pairing debug drawn root record)
    (fun r w' => stable pairing_slot (pairing_path root) (w_disk w') /\
       (r = Ok tt -> stable (holds_identity i) (identity_path root) (w_disk w') /\
          stable (holds_record record) (pairing_path root) (w_disk w') /\
          identity_generation record = generation i /\ validate_record debug record i = Ok tt))
    (fun w' => stable pairing_slot (pairing_path root) (w_disk w')) w.
Proof.
  intros Hid Hp. unfold persist_pairing. apply wpc_try.
  eapply wpc_mono; [by apply (wpc_load_identity drawn i)| |by intros w' ->].
  intros r w1 [Hr Hd]. rewrite <-Hd in Hid, Hp. destruct Hr as [-> |[e ->]].
  2: { split; [done|by intros]. }
  destruct (negb _ || negb _) eqn:Hstale; [apply wpc_ret; split; [done|by intros]|].
  bool_to_prop.
  destruct (validate_record debug record i) as [[]|e] eqn:Hval; [|apply wpc_ret; split; [done|by intros]].
  destruct (to_vec record) as [data|e] eqn:Hv; [|apply wpc_ret; split; [done|by intros]].
  eapply wpc_mono; [apply (wpc_pairing_write root data pairing_slot w1 Hp)| |done].
  { simpl. by rewrite (json_compact _ _ Hv). }
  intros r w2 (Hs & Hi & Hc). split; [done|]. intros Hr. split_and!; auto; [|lia].
  eapply stable_mono; [|apply committed_stable, Hc, Hr]. intros o <-. exists data.
  split; [done|]. by apply json_compact.
Qed.

Lemma wpc_load_pairing debug drawn i root record w :
  stable (holds_identity i) (identity_path root) (w_disk w) ->
  stable (holds_record record) (pairing_path root) (w_disk w) ->
  identity_generation record = generation i -> validate_record debug record i = Ok tt ->
  wpc (load_pairing debug drawn root)
    (fun r _ => r = Ok (Some record) \/
       exists e, r = Err (PairingIo e) \/ r = Err (PairingCrypto (CryptoIo e)))
    (fun _ => True) w.
Proof.
  intros Hid Hp Hgen Hval. unfold load_pairing. apply wpc_try.
  eapply wpc_mono; [by apply (wpc_load_identity drawn i)| |done].
  intros r w1 [[-> |[e ->]] Hd]; [|eauto]. apply wpc_bind.
  eapply wpc_mono; [apply wpc_read| |done]. intros r w2 [_ Hr]. apply wpc_ret.
  destruct Hp as [[_ (b & Hb & Hrec)] _]. rewrite Hd in Hr.
  destruct r as [b'|[]]; eauto.
  - rewrite Hb in Hr. simplify_eq. rewrite Hrec. simpl. rewrite Hgen, Z.eqb_refl. simpl.
    rewrite Hval. by left.
  - by rewrite Hr in Hb.
Qed.
End lemmas.

Section rotation.
Context {T : Type} {B64 : Base64} {JI : Json IdentityDocument}.
Implicit Types (w : world T) (root : string).

(** The next identity: both keys drawn anew, one generation on. *)
Definition rotated (fresh : bytes * bytes) (i : Identity) : Identity :=
  {| sign_secret := fresh.1; dh_secret := fresh.2; generation := generation i + 1 |}.

Lemma wpc_cleanup_pairing root w :
  wpc (cleanup_old_pairing_state root)
    (fun _ w' => within (eq (pairing_path root)) w w') (within (eq (pairing_path root)) w) w.
Proof.
  assert (inside (eq (pairing_path root)) (cleanup_old_pairing_state (T := T) root)) as H; [|apply H].
  unfold cleanup_old_pairing_state. apply inside_bind; [auto with inside|].
  intros []; auto with inside.
Qed.

Lemma wpc_reset drawn fresh i root w :
  stable (holds_identity i) (identity_path root) (w_disk w) ->
  length fresh.1 = 32 -> length fresh.2 = 32 -> (0 <= generation i)%Z ->
  let one_of := fun o => exists j, (j = i \/ j = rotated fresh i) /\ holds_identity j o in
  wpc (reset_pairing_state drawn fresh root)
    (fun r w' => stable one_of (identity_path root) (w_disk w') /\
       forall i', r = Ok i' -> i' = rotated fresh i /\ stable (holds_identity i') (identity_path root) (w_disk w'))
    (fun w' => stable one_of (identity_path root) (w_disk w')) w.
Proof.
  intros Hst Hf1 Hf2 Hgen one_of.
  assert (stable one_of (identity_path root) (w_disk w)) as Hst'.
  { eapply stable_mono; [|exact Hst]. intros o Ho. exists i. auto. }
  unfold reset_pairing_state. apply wpc_try.
  eapply wpc_mono; [by apply (wpc_load_identity drawn i)| |by intros w' ->].
  intros r w1 [Hr Hd]. rewrite <-Hd in Hst, Hst'.
  destruct Hr as [-> |[e ->]]; [|split; [done|by intros]].
  destruct (checked_add_u64 (generation i) 1) as [gen|] eqn:Hadd;
    [|apply wpc_ret; split; [done|by intros]].
  apply checked_add_u64_Some in Hadd as [-> Hmax].
  unfold from_secret_bytes. replace (generation i + 1 =? 0)%Z with false by lia. cbv iota.
  set (i' := {| sign_secret := fresh.1 |}).
  assert (identity_ok i') as Hok by (unfold identity_ok, i'; simpl; lia).
  assert (i' = rotated fresh i) as Hrot by done.
  apply wpc_try. eapply wpc_mono; [apply (wpc_write_identity _ _ one_of)| |by intros w2 [_ ?]].
  1-2: done.
  1: { intros data Hv. exists i'. split; [auto|]. exists data. eauto using parse_persisted_identity. }
  intros [[]|e] w2 (_ & Hs & Hc); [|split; [done|by intros]].
  destruct (Hc eq_refl) as (data & Hv & Hcm).
  assert (forall w', within (eq (pairing_path root)) w2 w' ->
    stable one_of (identity_path root) (w_disk w') /\
    stable (holds_identity i') (identity_path root) (w_disk w')) as Hafter.
  { intros w' [_ Hpr]. split; (eapply preserves_stable; [exact Hpr|by intros [=]|]); [done|].
    eapply stable_mono; [|by apply committed_stable]. intros o <-. exists data.
    eauto using parse_persisted_identity. }
  apply wpc_bind. eapply wpc_mono; [apply wpc_cleanup_pairing| |].
  - intros _ w3 [H1 H2]%Hafter. apply wpc_ret. split; [done|]. by intros j [= <-].
  - by intros w3 [? _]%Hafter.
Qed.
End rotation.

(** ** Properties *)

(** The server check accepts exactly the [wss] addresses with a non-empty
    authority, no user information, no fragment and no blank or control
    character, and plain [ws] only in debug builds. *)
Theorem server_check_exact debug s :
  validate_server debug s = Ok tt <->
  server_shape "wss://" s \/ (debug = true /\ server_shape "ws://" s).
Proof.
  unfold validate_server.
  assert (forall rest, strip_prefix (as_bytes "wss://") (as_bytes s) = Some rest ->
    ~ server_shape "ws://" s) as Hexcl.
  { intros rest Hr%strip_prefix_Some (a & r & Heq & _). rewrite Hr in Heq. discriminate. }
  destruct (strip_prefix (as_bytes "wss://") (as_bytes s)) as [rest|] eqn:Hwss;
    unfold rbind.
  - pose proof Hwss as Hr%strip_prefix_Some. rewrite <-(server_checks_spec _ _ _ Hr).
    specialize (Hexcl rest eq_refl).
    destruct (_ && _); [by split; [left|]|]. split; [done|]. by intros [?|[_ ?]].
  - assert (~ server_shape "wss://" s) as Hno.
    { intros (a & r & Heq & _). apply strip_prefix_Some in Heq. congruence. }
    destruct debug; [|split; [done|]; by intros [?|[? _]]].
    destruct (strip_prefix (as_bytes "ws://") (as_bytes s)) as [rest|] eqn:Hws;
      unfold ok_or.
    + pose proof Hws as Hr%strip_prefix_Some. rewrite <-(server_checks_spec "ws://" _ _ Hr).
      destruct (_ && _); [by split; [right|]|]. split; [done|]. by intros [?|[_ ?]].
    + split; [done|]. intros [?|[_ (a & r & Heq & _)]]; [done|].
      apply strip_prefix_Some in Heq. congruence.
Qed.

(** C8. An offerer and a claimer that complete the exchange of one QR code show
    the same SAS and store matching records: the same room and server, each
    one's local fingerprint the other's peer fingerprint, the claimer's peer
    being the bundle of the QR code; each record passes the validation of its
    own identity. *)
Theorem pairing_agreement `{Sha256, Ed25519, X25519} debug (a b : Identity) qr o c po pc srv bundle :
  (0 < generation a)%Z -> (0 < generation b)%Z ->
  offerer_start debug a qr = Ok o -> claimer_start debug b qr = Ok c ->
  offerer_receive_peer o (public_bundle b) = Ok po ->
  claimer_receive_peer c srv bundle = Ok pc ->
  let ra := from_candidate (pn_candidate po) in
  let rb := from_candidate (pn_candidate pc) in
  pending_sas po = pending_sas pc /\ rec_room_id ra = rec_room_id rb /\ server ra = server rb /\
  local_bundle_fp ra = peer_bundle_fp rb /\ local_bundle_fp rb = peer_bundle_fp ra /\
  peer_bundle rb = qr_bundle qr /\ srv = qr_server qr /\ bundle = qr_bundle qr /\
  validate_record debug ra a = Ok tt /\ validate_record debug rb b = Ok tt.
Proof.
  intros Hga Hgb Ho Hc Hpo Hpc.
  unfold offerer_start in Ho. apply rbind_Ok in Ho as ([] & Hsrv & Ho).
  apply rbind_Ok in Ho as ([] & _ & Ho). case_bool_decide as Hqr; [|done]. simplify_eq/=.
  unfold claimer_start in Hc. apply rbind_Ok in Hc as ([] & _ & Hc).
  apply rbind_Ok in Hc as ([] & _ & Hc). case_bool_decide as Hfp; [done|]. simplify_eq/=.
  unfold offerer_receive_peer in Hpo; simpl in Hpo. case_bool_decide as Hfp'; [done|]. simplify_eq/=.
  unfold claimer_receive_peer in Hpc; simpl in Hpc.
  case_bool_decide as Hs; [|done]. case_bool_decide as Hb; [|done]. simplify_eq/=.
  unfold pending_sas, sas_code; simpl. rewrite !Hqr in *.
  rewrite (sorted_pair_comm (public_bundle a)), (room_id_comm (public_bundle a)).
  assert (forall (i : Identity) (s : string) (p : PubBundle), (0 < generation i)%Z ->
    validate_server debug s = Ok tt -> bundle_fp (public_bundle i) <> bundle_fp p ->
    validate_record debug (from_candidate {| pc_generation := generation i; pc_server := s;
      pc_local_bundle := public_bundle i; pc_peer_bundle := p |}) i = Ok tt) as Hval.
  { intros i s p Hg Hs Hne. unfold validate_record, from_candidate; simpl.
    apply Z.ltb_lt in Hg. rewrite Hg, Z.eqb_refl, Hs, (bool_decide_eq_false_2 _ Hne).
    by rewrite !bool_decide_eq_true_2. }
  split_and!; try done.
  - by apply (Hval a).
  - by apply (Hval b).
Qed.

(** C30. A confirmed pairing is durable: [confirm] succeeds only for the exact
    displayed SAS, and then every later start after any process crash or power
    loss loads exactly that record, or reports an I/O error; a crash while
    confirming leaves the file absent or with a complete record. *)
Theorem confirmed_pairing_survives {T} `{Base64, Sha256, Ed25519, X25519, Json IdentityDocument, Json PairingRecord}
    debug drawn pending sas root i (w : world T) :
  stable (holds_identity i) (identity_path root) (w_disk w) ->
  stable pairing_slot (pairing_path root) (w_disk w) ->
  wpc (confirm debug drawn pending sas root)
    (fun r w1 => forall record, r = Ok record ->
       sas = pending_sas pending /\ record = from_candidate (pn_candidate pending) /\
       forall (w2 : world T) drawn', restart (w_disk w1) (w_disk w2) ->
       wpc (load_pairing debug drawn' root)
         (fun r' _ => r' = Ok (Some record) \/
            exists e, r' = Err (PairingIo e) \/ r' = Err (PairingCrypto (CryptoIo e)))
         (fun _ => True) w2)
    (fun w1 => stable pairing_slot (pairing_path root) (w_disk w1)) w.
Proof.
  intros Hid Hp. unfold confirm. case_bool_decide as Hsas; [|by apply wpc_ret].
  apply wpc_try. eapply wpc_mono; [by apply (wpc_persist_pairing debug drawn i)| |done].
  intros [[]|e] w1 [_ Hok]; [|done]. destruct (Hok eq_refl) as (Hid1 & Hr1 & Hgen & Hval).
  apply wpc_ret. intros record [= <-]. split_and!; [done..|]. intros w2 drawn' Hrs.
  by apply (wpc_load_pairing debug drawn' i); [eapply restart_stable..| |].
Qed.

(** [load_pairing] returns a record only when it passes every integrity
    check against the identity on disk, in particular when it belongs to its
    generation: the record of a rotated identity is never loaded. *)
Theorem stale_pairing_never_loaded {T} `{Base64, Sha256, Ed25519, X25519, Json IdentityDocument, Json PairingRecord}
    debug drawn root i (w : world T) :
  stable (holds_identity i) (identity_path root) (w_disk w) ->
  wpc (load_pairing debug drawn root)
    (fun r _ => forall record, r = Ok (Some record) ->
       identity_generation record = generation i /\ validate_record debug record i = Ok tt /\
       contents (live (w_disk w) !! pairing_path root) ≫= (fun b => ok (from_slice b)) = Some record)
    (fun w' => w_disk w' = w_disk w) w.
Proof.
  intros Hid. unfold load_pairing. apply wpc_try.
  eapply wpc_mono; [by apply (wpc_load_identity drawn i)| |done].
  intros r w1 [[-> |[e ->]] Hd]; [|done]. apply wpc_bind.
  eapply wpc_mono; [apply wpc_read| |by intros w' (-> & _)].
  rewrite Hd. intros r w2 [_ Hr]. apply wpc_ret. intros record Hrec.
  destruct r as [b|[]]; try done.
  apply rbind_Ok in Hrec as (rec & Hparse & Hrec).
  destruct (from_slice b) as [rec'|] eqn:Hb; simplify_eq/=.
  destruct (identity_generation rec =? generation i)%Z eqn:Hg; [|done]. simpl in Hrec.
  apply rbind_Ok in Hrec as ([] & Hval & [= <-]). split_and!; [lia|done|].
  rewrite Hr. simpl. by rewrite Hb.
Qed.

(** C31. Identity rotation is atomic: a crash at any call, followed by any
    restart, finds the old identity or the new one, never none and never a
    mixture: the new one has both keys as they were drawn for it and the next
    generation.  When rotation reports success it returns the new identity,
    and every later start loads exactly that or reports an I/O error. *)
Theorem rotation_crash_atomic {T} `{Base64, Json IdentityDocument} drawn fresh i root (w : world T) :
  stable (holds_identity i) (identity_path root) (w_disk w) ->
  length fresh.1 = 32 -> length fresh.2 = 32 -> (0 <= generation i)%Z ->
  wpc (reset_pairing_state drawn fresh root)
    (fun r w1 => forall i', r = Ok i' -> i' = rotated fresh i /\
       forall (w2 : world T) drawn', restart (w_disk w1) (w_disk w2) ->
       wpc (load_identity drawn' root)
         (fun r' _ => r' = Ok i' \/ exists e, r' = Err (PairingCrypto (CryptoIo e))) (fun _ => True) w2)
    (fun w1 => forall (w2 : world T) drawn', restart (w_disk w1) (w_disk w2) ->
       wpc (load_identity drawn' root)
         (fun r' _ => r' = Ok i \/ r' = Ok (rotated fresh i) \/
                      exists e, r' = Err (PairingCrypto (CryptoIo e))) (fun _ => True) w2) w.
Proof.
  intros Hst Hf1 Hf2 Hg. eapply wpc_mono; [by apply (wpc_reset drawn fresh i)| |].
  - intros r w1 [_ Hok] i' Hr. destruct (Hok i' Hr) as [Hrot Hs]. split; [done|].
    intros w2 drawn' Hrs.
    eapply wpc_mono; [apply (wpc_load_identity drawn' i'); by eapply restart_stable| |done].
    by intros r' w3 [? _].
  - intros w1 Hs w2 drawn' Hrs. apply wpc_lift_err.
    eapply wpc_mono; [apply (wpc_load_some drawn' (fun j => j = i \/ j = rotated fresh i));
      by eapply restart_stable| |done].
    intros r' w3 [[(j & [-> | ->] & ->)|[e ->]] _]; eauto.
Qed.

(** ** Witnesses *)

Module PairingToy.
Import Toy ProtocolToy.

Definition record_code (r : PairingRecord) :=
  (identity_generation r, server r, rec_room_id r, local_bundle_fp r,
   (sign_pk (peer_bundle r), dh_pk (peer_bundle r)), peer_bundle_fp r).

#[global] Program Instance PairingRecord_countable : Countable PairingRecord :=
  inj_countable record_code
    (fun '(g, s, r, l, (sk, dk), p) =>
       Some {| identity_generation := g; server := s; rec_room_id := r; local_bundle_fp := l;
               peer_bundle := {| sign_pk := sk; dh_pk := dk |}; peer_bundle_fp := p |}) _.
Next Obligation. by intros [? ? ? ? [] ?]. Qed.

Definition record_json : Json PairingRecord := toy_json PairingRecord.

Definition alice_bytes : bytes :=
  match @to_vec _ CryptoToy.identity_json (@to_document toy_base64 CryptoToy.alice) with
  | Ok b => b
  | Err _ => []
  end.

Definition alice_files : gmap path file := {[ identity_path "p" := File alice_bytes true ]}.
Definition alice_world (faults : list fault) : world unit :=
  World (Disk alice_files alice_files) faults (fun _ => "u") 0 [].

Lemma alice_stable faults :
  stable (@holds_identity toy_base64 CryptoToy.identity_json CryptoToy.alice)
    (identity_path "p") (w_disk (alice_world faults)).
Proof.
  assert (@parse_identity toy_base64 CryptoToy.identity_json alice_bytes = Ok CryptoToy.alice) as Hp
    by (vm_compute; reflexivity).
  unfold stable, alice_world, alice_files; cbn [w_disk live durable].
  rewrite !lookup_singleton_eq. repeat split; exists alice_bytes; split; done.
Qed.

Lemma no_record_stable faults :
  stable (@pairing_slot record_json) (pairing_path "p") (w_disk (alice_world faults)).
Proof.
  unfold stable, alice_world, alice_files; cbn [w_disk live durable].
  rewrite !lookup_singleton_ne by done. done.
Qed.

Definition bob_pending : PendingConfirmation :=
  {| pn_candidate := {| pc_generation := 1; pc_server := "wss://relay";
       pc_local_bundle := @public_bundle toy_ed25519 toy_x25519 CryptoToy.alice;
       pc_peer_bundle := @public_bundle toy_ed25519 toy_x25519 CryptoToy.bob |};
     pn_nonce_a := replicate 16 "n"%byte |}.

Definition sample_qr : QrPayload :=
  {| qr_server := "wss://relay"; qr_code := "ABC123";
     qr_bundle := @public_bundle toy_ed25519 toy_x25519 CryptoToy.alice;
     qr_nonce_a := replicate 16 "n"%byte |}.
End PairingToy.

Lemma pairing_agreement_witness :
  exists po pc : PendingConfirmation,
    @pending_sas Toy.toy_sha256 po = @pending_sas Toy.toy_sha256 pc.
Proof.
  set (sk := Toy.toy_sha256). set (ek := Toy.toy_ed25519). set (xk := Toy.toy_x25519).
  destruct (offerer_start false CryptoToy.alice PairingToy.sample_qr) as [o|] eqn:Ho;
    [|vm_compute in Ho; discriminate].
  destruct (claimer_start false CryptoToy.bob PairingToy.sample_qr) as [c|] eqn:Hc;
    [|vm_compute in Hc; discriminate].
  destruct (offerer_receive_peer o (public_bundle CryptoToy.bob)) as [po|] eqn:Hpo;
    [|vm_compute in Ho; injection Ho as <-; vm_compute in Hpo; discriminate].
  destruct (claimer_receive_peer c "wss://relay" (public_bundle CryptoToy.alice)) as [pc|] eqn:Hpc;
    [|vm_compute in Hc; injection Hc as <-; vm_compute in Hpc; discriminate].
  exists po, pc.
  refine (proj1 (pairing_agreement false CryptoToy.alice CryptoToy.bob PairingToy.sample_qr
    o c po pc "wss://relay" _ _ _ Ho Hc Hpo Hpc)); reflexivity.
Defined.

Lemma confirmed_pairing_survives_witness :
  exists (w : world unit) (sas : string),
    wpc (@confirm unit Toy.toy_base64 Toy.toy_sha256 Toy.toy_ed25519 Toy.toy_x25519
           CryptoToy.identity_json PairingToy.record_json false ([], []) PairingToy.bob_pending sas "p")
      (fun _ _ => True)
      (fun w1 => stable (@pairing_slot PairingToy.record_json) (pairing_path "p") (w_disk w1)) w.
Proof.
  exists (PairingToy.alice_world [NoFault; NoFault; CrashNow 3]),
    (@pending_sas Toy.toy_sha256 PairingToy.bob_pending).
  eapply wpc_mono; [apply (@confirmed_pairing_survives unit Toy.toy_base64 Toy.toy_sha256
    Toy.toy_ed25519 Toy.toy_x25519 CryptoToy.identity_json PairingToy.record_json)
    with (i := CryptoToy.alice)| |].
  - apply PairingToy.alice_stable.
  - apply PairingToy.no_record_stable.
  - intros; exact I.
  - intros w1 Hw; exact Hw.
Defined.

Lemma rotation_crash_atomic_witness :
  wpc (@reset_pairing_state unit Toy.toy_base64 CryptoToy.identity_json ([], [])
         (replicate 32 "x"%byte, replicate 32 "y"%byte) "p")
    (fun r _ => forall i', r = Ok i' ->
       i' = {| sign_secret := replicate 32 "x"%byte; dh_secret := replicate 32 "y"%byte; generation := 2 |})
    (fun _ => True)
    (PairingToy.alice_world []).
Proof.
  eapply wpc_mono; [apply (@rotation_crash_atomic unit Toy.toy_base64 CryptoToy.identity_json ([], [])
    (replicate 32 "x"%byte, replicate 32 "y"%byte) CryptoToy.alice "p")| |].
  - apply PairingToy.alice_stable.
  - reflexivity.
  - reflexivity.
  - vm_compute; discriminate.
  - intros r w' Hr i' Hi. exact (proj1 (Hr i' Hi)).
  - intros; exact I.
Defined.
