(* ===== verification/Session.v ===== *)
(** * The clipboard session ([crates/core/src/session.rs])

    One end-to-end encrypted session with one peer: sequence reservation and
    sealing on the way out; authentication, replay rejection, the two delivery
    transactions, the history and the clipboard callback on the way in.  The
    trace of a session's world holds what leaves it for good: a sealed
    envelope ([Sealed]) and an invocation of the platform callback ([Fired]).
    The callback is a type class whose answers may depend on everything it saw
    before; the nonce of [seal] is an argument. *)

From S2P Require Import Prelude Fs Interfaces Protocol Crypto History Pairing.
From Stdlib Require Import Strings.Byte Sorted.

Set Default Goal Selector "!".
#[local] Open Scope clip_scope.

Definition SEEN_IDS_RING : nat := 64.
Definition LIVE_FRESH_WINDOW_MS : Z := 5 * 60 * 1000.
Definition LIVE_FUTURE_SKEW_MS : Z := 2 * 60 * 1000.
Definition MAX_IMAGE_BYTES : Z := 10 * 1024 * 1024.
Definition ECHO_RING : nat := 64.
Definition SESSION_FILE : string := "session.json".

Inductive ClipContent := CText (text : string) | CImage (data : bytes).

Record ClipItem := { ci_id : string; ci_ts_ms : Z; ci_seq : Z; ci_content : ClipContent }.

#[global] Instance ClipContent_eq_decision : EqDecision ClipContent.
Proof. solve_decision. Defined.
#[global] Instance ClipItem_eq_decision : EqDecision ClipItem.
Proof. solve_decision. Defined.

Inductive MailboxDisposition := Applied | Deferred.

Inductive CallbackError := Rejected (why : string) | Panicked.

(** What leaves the session. *)
Inductive event :=
| Sealed (seq : Z)
| Fired (mailbox : bool) (item : ClipItem).

(** How a callback ends: it returns or it panics. *)
Inductive callback_end (A : Type) := Returned (r : result A CallbackError) | Panics.
Arguments Returned {A} r.
Arguments Panics {A}.

(** The trait [SessionCallback], the first argument being what happened so far. *)
Class SessionCallback := {
  on_clip : list event -> ClipItem -> callback_end unit;
  on_mailbox_clip : list event -> ClipItem -> callback_end MailboxDisposition
}.

Inductive InboundOutcome :=
| LiveApplied | MailboxApplied | MailboxDeferred | Duplicate | Replay | Unauthenticated.

Inductive SessionError :=
| RecordMismatch | SessionCrypto (e : CryptoError) | SessionProtocol (e : ProtocolError)
| SessionHistory (e : HistoryError) | SessionIo (e : io_error) | SessionJson (e : string)
| SessionCallbackError (e : CallbackError) | InjectedFault.

Record PendingItem := {
  p_id : string; p_ts_ms : Z; p_source : HistorySource; p_content : ClipContent
}.

Record DirectionState := {
  ds_generation : Z; next_seq : Z; last_seq : Z; seen_ids : list string;
  pending_history : list PendingItem
}.

Definition direction_new (generation : Z) : DirectionState :=
  {| ds_generation := generation; next_seq := 1; last_seq := 0; seen_ids := []; pending_history := [] |}.

Record SessionDocument := { directions : gmap string DirectionState }.

#[global] Instance PendingItem_eq_decision : EqDecision PendingItem.
Proof. solve_decision. Defined.
#[global] Instance DirectionState_eq_decision : EqDecision DirectionState.
Proof. solve_decision. Defined.
#[global] Instance SessionDocument_eq_decision : EqDecision SessionDocument.
Proof. solve_decision. Defined.

Inductive SendStage := SeqReserved.
Inductive ReceiveStage :=
| DeliveryCommitted | HistoryAdded | PendingCleared | StageMailboxApplied | SourcePromoted.

#[global] Instance SendStage_eq_decision : EqDecision SendStage.
Proof. solve_decision. Defined.
#[global] Instance ReceiveStage_eq_decision : EqDecision ReceiveStage.
Proof. solve_decision. Defined.

Record Session := {
  s_room_id : string; s_self_fp : string; s_peer_fp : string; s_keys : SessionKeys;
  s_store : string; s_send_key : string; s_recv_key : string;
  s_send_state : DirectionState; s_recv_state : DirectionState;
  s_history : HistoryStore; s_echo_hashes : list string
}.

(** Assignments to single fields. *)
Definition set_send_state (d : DirectionState) (s : Session) : Session :=
  {| s_room_id := s_room_id s; s_self_fp := s_self_fp s; s_peer_fp := s_peer_fp s; s_keys := s_keys s;
     s_store := s_store s; s_send_key := s_send_key s; s_recv_key := s_recv_key s;
     s_send_state := d; s_recv_state := s_recv_state s;
     s_history := s_history s; s_echo_hashes := s_echo_hashes s |}.
Definition set_recv_state (d : DirectionState) (s : Session) : Session :=
  {| s_room_id := s_room_id s; s_self_fp := s_self_fp s; s_peer_fp := s_peer_fp s; s_keys := s_keys s;
     s_store := s_store s; s_send_key := s_send_key s; s_recv_key := s_recv_key s;
     s_send_state := s_send_state s; s_recv_state := d;
     s_history := s_history s; s_echo_hashes := s_echo_hashes s |}.
Definition set_history (h : HistoryStore) (s : Session) : Session :=
  {| s_room_id := s_room_id s; s_self_fp := s_self_fp s; s_peer_fp := s_peer_fp s; s_keys := s_keys s;
     s_store := s_store s; s_send_key := s_send_key s; s_recv_key := s_recv_key s;
     s_send_state := s_send_state s; s_recv_state := s_recv_state s;
     s_history := h; s_echo_hashes := s_echo_hashes s |}.
Definition set_echo (e : list string) (s : Session) : Session :=
  {| s_room_id := s_room_id s; s_self_fp := s_self_fp s; s_peer_fp := s_peer_fp s; s_keys := s_keys s;
     s_store := s_store s; s_send_key := s_send_key s; s_recv_key := s_recv_key s;
     s_send_state := s_send_state s; s_recv_state := s_recv_state s;
     s_history := s_history s; s_echo_hashes := e |}.

Definition with_next_seq (n : Z) (d : DirectionState) : DirectionState :=
  {| ds_generation := ds_generation d; next_seq := n; last_seq := last_seq d;
     seen_ids := seen_ids d; pending_history := pending_history d |}.
Definition with_pending_history (l : list PendingItem) (d : DirectionState) : DirectionState :=
  {| ds_generation := ds_generation d; next_seq := next_seq d; last_seq := last_seq d;
     seen_ids := seen_ids d; pending_history := l |}.

(** [i64] arithmetic of a release build. *)
Definition wrap_i64 (z : Z) : Z := ((z + 2 ^ 63) mod 2 ^ 64 - 2 ^ 63)%Z.

Definition direction_key (room_id sender_fp receiver_fp : string) : string :=
  room_id +:+ ":" +:+ sender_fp +:+ ":" +:+ receiver_fp.

(** [text_hash]: the lowercase hexadecimal SHA-256 of the text. *)
Definition text_hash `{Sha256} (content : string) : string := hex_lower (sha256 (as_bytes content)).

Definition history_content (c : ClipContent) : HistoryContent :=
  match c with CText text => HcText text | CImage data => HcImage data end.

(** [Serialize] and [Deserialize] of [ClipContent], through the tagged helper. *)
Inductive ClipContentJson := JText (content : string) | JImage (bytes_b64 : string).

Definition clip_serialize `{Base64} (c : ClipContent) : ClipContentJson :=
  match c with CText text => JText text | CImage data => JImage (b64_encode data) end.

Definition clip_deserialize `{Base64} (j : ClipContentJson) : result ClipContent string :=
  match j with
  | JText content => Ok (CText content)
  | JImage bytes_b64 =>
      decoded ←? b64_decode bytes_b64;
      if negb (bool_decide (b64_encode decoded = bytes_b64))
      then Err "image bytes must use canonical padded STANDARD base64"
      else Ok (CImage decoded)
  end.

(** The state of one direction, of the right generation or fresh. *)
Definition find_direction (document : SessionDocument) (key : string) (generation : Z) : DirectionState :=
  match directions document !! key with
  | Some state =>
      if (ds_generation state =? generation)%Z then state else direction_new generation
  | None => direction_new generation
  end.

Section store.
Context {JD : Json SessionDocument}.

(** ** The session store: its root directory *)

Definition session_path (root : string) : path := Path root SESSION_FILE.
Definition session_temp (root suffix : string) : path :=
  Path root (".session.json." +:+ suffix +:+ ".tmp").

Definition session_store_new (root : string) : io event (result string SessionError) :=
  _ ←! create_dir_all @ SessionIo; mret (Ok root).

Definition session_atomic_write (root : string) (contents : bytes) : io event (result unit SessionError) :=
  suffix ← new_v4;
  let temp := session_temp root suffix in
  _ ←! with_pending SessionIo temp
         (lift_err SessionIo (write_sync_rename temp (session_path root) contents));
  lift_err SessionIo (open_sync_dir root).

Definition load_document (root : string) : io event (result SessionDocument SessionError) :=
  r ← read (session_path root);
  mret match r with
       | Ok b => map_err SessionJson (from_slice b)
       | Err NotFound => Ok {| directions := ∅ |}
       | Err e => Err (SessionIo e)
       end.

Definition commit_direction (root key : string) (state : DirectionState)
    (extra : option (string * DirectionState)) : io event (result unit SessionError) :=
  document ←! load_document root;
  let dirs := <[key := state]> (directions document) in
  let dirs := match extra with Some (k, d) => <[k := d]> dirs | None => dirs end in
  match to_vec {| directions := dirs |} with
  | Err e => mret (Err (SessionJson e))
  | Ok encoded => session_atomic_write root encoded
  end.

Definition load_direction (root key : string) (generation : Z) :
    io event (result DirectionState SessionError) :=
  document ←! load_document root;
  mret (Ok (find_direction document key generation)).
End store.

Section session.
Context {JD : Json SessionDocument} {JH : Json HistoryItem} {JE : Json Envelope}.
Context {B64 : Base64} {S256 : Sha256} {Ed : Ed25519} {X : X25519} {A : Aead} {U : UuidText}.
Context {CB : SessionCallback}.

(** ** Opening *)

Fixpoint replay_pending (h : HistoryStore) (pending : list PendingItem) :
    io event (result unit SessionError * HistoryStore) :=
  match pending with
  | [] => mret (Ok tt, h)
  | p :: pending =>
      out ← history_add h {| n_id := p_id p; n_ts_ms := p_ts_ms p; n_source := p_source p;
                             n_content := history_content (p_content p) |};
      match out with
      | (Ok _, h) => replay_pending h pending
      | (Err e, h) => mret (Err (SessionHistory e), h)
      end
  end.

(** The state of a session that was just opened. *)
Definition opened (record : PairingRecord) (keys : SessionKeys) (root : string)
    (send_state recv_state : DirectionState) (h : HistoryStore) : Session :=
  {| s_room_id := rec_room_id record; s_self_fp := local_bundle_fp record;
     s_peer_fp := peer_bundle_fp record; s_keys := keys; s_store := root;
     s_send_key := direction_key (rec_room_id record) (local_bundle_fp record) (peer_bundle_fp record);
     s_recv_key := direction_key (rec_room_id record) (peer_bundle_fp record) (local_bundle_fp record);
     s_send_state := send_state; s_recv_state := recv_state; s_history := h; s_echo_hashes := [] |}.

Definition session_new (identity : Identity) (record : PairingRecord) (root : string)
    (history : HistoryStore) : io event (result Session SessionError) :=
  let gen := generation identity in
  if negb (identity_generation record =? gen)%Z ||
     negb (bool_decide (local_bundle_fp record = identity_fp identity)) ||
     bool_decide (local_bundle_fp record = peer_bundle_fp record)
  then mret (Err RecordMismatch)
  else
    match session_keys identity (peer_bundle record) with
    | Err e => mret (Err (SessionCrypto e))
    | Ok keys =>
        let self_fp := local_bundle_fp record in
        let peer_fp := peer_bundle_fp record in
        let send_key := direction_key (rec_room_id record) self_fp peer_fp in
        let recv_key := direction_key (rec_room_id record) peer_fp self_fp in
        send_state ←! load_direction root send_key gen;
        recv_state ←! load_direction root recv_key gen;
        if bool_decide (pending_history recv_state = [])
        then mret (Ok (opened record keys root send_state recv_state history))
        else
          out ← replay_pending history (pending_history recv_state);
          match out with
          | (Err e, _) => mret (Err e)
          | (Ok _, history) =>
              let recv_state := with_pending_history [] recv_state in
              _ ←! commit_direction root recv_key recv_state None;
              mret (Ok (opened record keys root send_state recv_state history))
          end
    end.

(** ** Echo suppression *)

Definition is_echo (s : Session) (hash : string) : bool :=
  existsb (fun known => bool_decide (known = hash)) (s_echo_hashes s).

Definition register_echo (hash : string) (s : Session) : Session :=
  if existsb (fun known => bool_decide (known = hash)) (s_echo_hashes s) then s
  else set_echo (keep_last ECHO_RING (s_echo_hashes s ++ [hash])) s.

Definition register_content (c : ClipContent) (s : Session) : Session :=
  match c with CText text => register_echo (text_hash text) s | CImage _ => s end.

(** ** Methods on [&mut self]: [?] keeps the state reached so far *)

Definition st_try {R B} (m : io event (result R SessionError * Session))
    (k : R -> Session -> io event (result B SessionError * Session)) :
    io event (result B SessionError * Session) :=
  out ← m;
  match out with (Ok a, s) => k a s | (Err e, s) => mret (Err e, s) end.

(** A history method called on [self.history]. *)
Definition on_history (s : Session) (m : HistoryStore -> io event (result unit HistoryError * HistoryStore)) :
    io event (result unit SessionError * Session) :=
  out ← m (s_history s);
  mret (map_err SessionHistory (fst out), set_history (snd out) s).

(** ** Sending *)

Definition oversize_image (c : ClipContent) : option Z :=
  match c with
  | CImage data =>
      let size := Z.of_nat (length data) in
      if (MAX_IMAGE_BYTES <? size)%Z then Some size else None
  | CText _ => None
  end.

(** [next_seq] is persisted one higher before the number is used. *)
Definition reserve_seq (s : Session) : io event (result Z SessionError * Session) :=
  let seq := next_seq (s_send_state s) in
  match checked_add_u64 seq 1 with
  | None => mret (Err RecordMismatch, s)
  | Some next =>
      let reserved := with_next_seq next (s_send_state s) in
      r ← commit_direction (s_store s) (s_send_key s) reserved None;
      match r with
      | Err e => mret (Err e, s)
      | Ok _ => mret (Ok seq, set_send_state reserved s)
      end
  end.

Definition raw_content (c : ClipContent) : ContentKind * bytes :=
  match c with CText text => (KText, as_bytes text) | CImage data => (KImage, data) end.

(** Encoding and sealing under [keys.send]. *)
Definition seal_clip (nonce : bytes) (s : Session) (c : ClipContent) (id : string) (seq ts_ms : Z) :
    result bytes SessionError :=
  let '(k, raw) := raw_content c in
  encoded ←? map_err SessionProtocol
    (encode_envelope {| v := PROTOCOL_VERSION; kind := k; item_id := id; env_seq := seq;
                        env_ts_ms := ts_ms; content_b64 := b64_encode raw |});
  map_err SessionCrypto
    (seal nonce (key_send (s_keys s)) (aad (s_room_id s) (s_self_fp s) (s_peer_fp s)) encoded).

Definition send_clip_with_fault (nonce : bytes) (s : Session) (c : ClipContent) (ts_ms : Z)
    (fail_at : option SendStage) : io event (result Frame SessionError * Session) :=
  match oversize_image c with
  | Some size => mret (Err (SessionProtocol (Oversize size MAX_IMAGE_BYTES)), s)
  | None =>
      st_try (reserve_seq s) (fun seq s =>
      if bool_decide (fail_at = Some SeqReserved) then mret (Err InjectedFault, s)
      else
        id ← new_v4;
        match seal_clip nonce s c id seq ts_ms with
        | Err e => mret (Err e, s)
        | Ok sealed =>
            _ ← emit (Sealed seq);
            st_try (on_history s (fun h => history_add h
                      {| n_id := id; n_ts_ms := ts_ms; n_source := Local;
                         n_content := history_content c |})) (fun _ s =>
            let s := register_content c s in
            mret (Ok (Clip (s_room_id s) (b64_encode sealed) "" false), s))
        end)
  end.

Definition send_clip (nonce : bytes) (s : Session) (c : ClipContent) (ts_ms : Z) :
    io event (result Frame SessionError * Session) :=
  send_clip_with_fault nonce s c ts_ms None.

(** ** Receiving *)

Definition decode_content (k : ContentKind) (b64 : string) : option ClipContent :=
  raw ← ok (b64_decode b64);
  match k with
  | KText => text ← from_utf8 raw; Some (CText text)
  | KImage => Some (CImage raw)
  end.

Definition authenticate (s : Session) (room_id ciphertext_b64 : string) : option ClipItem :=
  if negb (bool_decide (room_id = s_room_id s)) then None
  else
    sealed ← ok (b64_decode ciphertext_b64);
    plaintext ← ok (open_sealed (key_recv (s_keys s))
                      (aad (s_room_id s) (s_peer_fp s) (s_self_fp s)) sealed);
    envelope ← ok (decode_envelope plaintext);
    id ← uuid_parse (item_id envelope);
    content ← decode_content (kind envelope) (content_b64 envelope);
    Some {| ci_id := id; ci_ts_ms := env_ts_ms envelope; ci_seq := env_seq envelope;
            ci_content := content |}.

Definition is_fresh (mailbox : bool) (ts_ms now_ms : Z) : bool :=
  negb mailbox && (wrap_i64 (now_ms - LIVE_FRESH_WINDOW_MS) <=? ts_ms)%Z
               && (ts_ms <=? wrap_i64 (now_ms + LIVE_FUTURE_SKEW_MS))%Z.

(** Step 1: the delivery transaction. *)
Definition delivered (item : ClipItem) (source : HistorySource) (d : DirectionState) : DirectionState :=
  {| ds_generation := ds_generation d; next_seq := next_seq d;
     last_seq := Z.max (last_seq d) (ci_seq item);
     seen_ids := push_ring SEEN_IDS_RING (seen_ids d) (ci_id item);
     pending_history := pending_history d ++
       [{| p_id := ci_id item; p_ts_ms := ci_ts_ms item; p_source := source;
           p_content := ci_content item |}] |}.

(** Step 3: clearing the pending entry. *)
Definition cleared (item : ClipItem) (d : DirectionState) : DirectionState :=
  with_pending_history (filter (fun p => p_id p <> ci_id item) (pending_history d)) d.

(** [self.store.commit_direction(&self.recv_key, &d, None)?; self.recv_state = d]. *)
Definition commit_recv (s : Session) (d : DirectionState) : io event (result unit SessionError * Session) :=
  r ← commit_direction (s_store s) (s_recv_key s) d None;
  match r with
  | Err e => mret (Err e, s)
  | Ok _ => mret (Ok tt, set_recv_state d s)
  end.

Definition get_trace : io event (list event) := fun w => (Done (w_trace w), w).

(** The clipboard callback, a panic being caught. *)
Definition invoke_callback (item : ClipItem) (mailbox : bool) :
    io event (result MailboxDisposition CallbackError) :=
  past ← get_trace;
  _ ← emit (Fired mailbox item);
  mret (if mailbox : bool
        then match on_mailbox_clip past item with Returned r => r | Panics => Err Panicked end
        else match on_clip past item with
             | Returned (Ok _) => Ok Applied
             | Returned (Err e) => Err e
             | Panics => Err Panicked
             end).

(** Step 4. *)
Definition apply_clip (s : Session) (item : ClipItem) (fresh : bool) (fail_at : option ReceiveStage) :
    io event (result InboundOutcome SessionError * Session) :=
  if fresh then
    r ← invoke_callback item false;
    match r with
    | Err e => mret (Err (SessionCallbackError e), s)
    | Ok _ => mret (Ok LiveApplied, register_content (ci_content item) s)
    end
  else
    r ← invoke_callback item true;
    match r with
    | Err e => mret (Err (SessionCallbackError e), s)
    | Ok Deferred => mret (Ok MailboxDeferred, s)
    | Ok Applied =>
        if bool_decide (fail_at = Some StageMailboxApplied) then mret (Err InjectedFault, s)
        else
          st_try (on_history s (fun h => set_source h (ci_id item) Remote)) (fun _ s =>
          if bool_decide (fail_at = Some SourcePromoted) then mret (Err InjectedFault, s)
          else mret (Ok MailboxApplied, register_content (ci_content item) s))
    end.

Definition handle_clip_with_fault (s : Session) (room_id ciphertext_b64 : string) (mailbox : bool)
    (now_ms : Z) (fail_at : option ReceiveStage) : io event (result InboundOutcome SessionError * Session) :=
  match authenticate s room_id ciphertext_b64 with
  | None => mret (Ok Unauthenticated, s)
  | Some item =>
      if existsb (fun id => bool_decide (id = ci_id item)) (seen_ids (s_recv_state s))
      then mret (Ok Duplicate, s)
      else if (ci_seq item <=? last_seq (s_recv_state s))%Z then mret (Ok Replay, s)
      else
        let fresh := is_fresh mailbox (ci_ts_ms item) now_ms in
        let source := if fresh : bool then Remote else RemoteDeferred in
        st_try (commit_recv s (delivered item source (s_recv_state s))) (fun _ s =>
        if bool_decide (fail_at = Some DeliveryCommitted) then mret (Err InjectedFault, s)
        else
          st_try (on_history s (fun h => history_add h
                    {| n_id := ci_id item; n_ts_ms := ci_ts_ms item; n_source := source;
                       n_content := history_content (ci_content item) |})) (fun _ s =>
          if bool_decide (fail_at = Some HistoryAdded) then mret (Err InjectedFault, s)
          else
            st_try (commit_recv s (cleared item (s_recv_state s))) (fun _ s =>
            if bool_decide (fail_at = Some PendingCleared) then mret (Err InjectedFault, s)
            else apply_clip s item fresh fail_at)))
  end.

Definition handle_clip (s : Session) (room_id ciphertext_b64 : string) (mailbox : bool) (now_ms : Z) :
    io event (result InboundOutcome SessionError * Session) :=
  handle_clip_with_fault s room_id ciphertext_b64 mailbox now_ms None.

(** ** Manual application and clearing *)

Definition apply_deferred (s : Session) (id : string) : io event (result unit SessionError * Session) :=
  st_try (on_history s (fun h => set_source h id Remote)) (fun _ s =>
  mret (Ok tt, match find_item id (history_list (s_history s)) with
               | Some item =>
                   match h_kind item with
                   | HkText content => register_echo (text_hash content) s
                   | HkImage _ => s
                   end
               | None => s
               end)).

Definition clear_history (s : Session) : io event (result unit SessionError * Session) :=
  on_history s (fun h => history_clear h).
End session.

(** ** The session document on disk *)

(** Every document a content may decode to satisfies [P]; no file is the empty document. *)
Definition slot_ok {JD : Json SessionDocument} (P : SessionDocument -> Prop) (o : option bytes) : Prop :=
  match o with
  | None => P {| directions := ∅ |}
  | Some b => forall doc, from_slice b = Ok doc -> P doc
  end.

Definition session_area (root : string) (q : path) : Prop :=
  q = session_path root \/ exists s, q = session_temp root s.

Definition insert_direction (key : string) (d : DirectionState) (doc : SessionDocument) : SessionDocument :=
  {| directions := <[key := d]> (directions doc) |}.

Lemma find_direction_insert key d doc :
  find_direction (insert_direction key d doc) key (ds_generation d) = d.
Proof. unfold find_direction; simpl. by rewrite lookup_insert_eq, Z.eqb_refl. Qed.

Lemma find_direction_insert_ne key key' d doc gen :
  key <> key' -> find_direction (insert_direction key d doc) key' gen = find_direction doc key' gen.
Proof. intros H. unfold find_direction; simpl. by rewrite lookup_insert_ne. Qed.

Lemma find_direction_generation doc key gen : ds_generation (find_direction doc key gen) = gen.
Proof.
  unfold find_direction. destruct (directions doc !! key) as [d|]; [|done].
  destruct (ds_generation d =? gen)%Z eqn:H; [lia|done].
Qed.

Section documents.
Context {JD : Json SessionDocument}.
Implicit Types (w : world event) (root : string).

Lemma slot_ok_mono (P Q : SessionDocument -> Prop) o :
  (forall doc, P doc -> Q doc) -> slot_ok P o -> slot_ok Q o.
Proof. intros H. destruct o; simpl; auto. Qed.

Lemma stable_slot_mono (P Q : SessionDocument -> Prop) p d :
  (forall doc, P doc -> Q doc) -> stable (slot_ok P) p d -> stable (slot_ok Q) p d.
Proof. intros H. apply stable_mono. intros o. by apply slot_ok_mono. Qed.

Lemma session_temp_ne root suffix : session_temp root suffix <> session_path root.
Proof. intros Heq. by apply (f_equal p_name) in Heq. Qed.

Lemma wpc_load_document root P w :
  stable (slot_ok P) (session_path root) (w_disk w) ->
  wpc (load_document root)
    (fun r w' => moved w (w_disk w) w' /\ forall doc, r = Ok doc -> P doc)
    (moved w (w_disk w)) w.
Proof.
  intros [[_ HP] _]. unfold load_document. apply wpc_bind.
  eapply wpc_mono; [apply wpc_read| |done]. intros r w' [Hm Hr]. apply wpc_ret.
  split; [done|]. intros doc Hdoc. destruct r as [b|[]]; try done.
  - rewrite Hr in HP. simpl in HP. apply HP. by destruct (from_slice b); simplify_eq/=.
  - rewrite Hr in HP. by simplify_eq.
Qed.

Lemma wpc_load_direction root key gen P w :
  stable (slot_ok P) (session_path root) (w_disk w) ->
  wpc (load_direction root key gen)
    (fun r w' => moved w (w_disk w) w' /\
       forall d, r = Ok d -> exists doc, P doc /\ d = find_direction doc key gen)
    (moved w (w_disk w)) w.
Proof.
  intros Hst. apply wpc_try. eapply wpc_mono; [by apply wpc_load_document| |done].
  intros [doc|e] w' [Hm HP]; [apply wpc_ret|split; [done|by intros]].
  split; [done|]. intros d [= <-]. eauto.
Qed.

Lemma wpc_session_write root data P w :
  stable P (session_path root) (w_disk w) -> P (Some data) ->
  wpc (session_atomic_write root data)
    (fun r w' => within (session_area root) w w' /\ stable P (session_path root) (w_disk w') /\
       (r = Ok tt -> committed (session_path root) data (w_disk w')))
    (fun w' => within (session_area root) w w' /\ stable P (session_path root) (w_disk w')) w.
Proof.
  intros Hst HP. unfold session_atomic_write. apply wpc_bind, wpc_new_v4.
  set (temp := session_temp root (w_uuid w (w_next w))).
  pose proof (session_temp_ne root (w_uuid w (w_next w)) : temp <> session_path root) as Hne.
  set (w0 := World (w_disk w) (w_faults w) (w_uuid w) (S (w_next w)) (w_trace w)).
  assert (forall w', torn temp (session_path root) data w0 w' ->
    within (session_area root) w w' /\ stable P (session_path root) (w_disk w')) as Hkeep.
  { intros w' (Hq & Hp & Hr). split; [split; [exact Hq|]|by eapply replaced_stable].
    eapply preserves_weaken; [|exact Hp]. intros q [-> | ->]; [right; by eexists|by left]. }
  eapply wpc_mono; [apply (wpc_pending_replace _ (session_path root) data Hne),
    fills_write_sync_rename, Hne| |exact Hkeep].
  intros r w' [[]%Hkeep Hc]. by split_and!.
Qed.

(** One transaction on one direction: the document is one satisfying [P], and
    on success it is one that holds the new state. *)
Lemma wpc_commit_direction root key d P w :
  stable (slot_ok P) (session_path root) (w_disk w) ->
  (forall doc, P doc -> P (insert_direction key d doc)) ->
  wpc (commit_direction root key d None)
    (fun r w' => within (session_area root) w w' /\
       stable (slot_ok P) (session_path root) (w_disk w') /\
       (r = Ok tt -> stable (slot_ok (fun doc => P doc /\ exists doc', doc = insert_direction key d doc'))
                       (session_path root) (w_disk w')))
    (fun w' => within (session_area root) w w' /\
       stable (slot_ok P) (session_path root) (w_disk w')) w.
Proof.
  intros Hst HP. unfold commit_direction. apply wpc_try.
  assert (forall w', moved w (w_disk w) w' -> within (session_area root) w w' /\
    stable (slot_ok P) (session_path root) (w_disk w')) as Hsame.
  { intros w' Hm. split; [eapply moved_within; eauto with clip|]. by destruct Hm as (-> & _). }
  eapply wpc_mono; [by apply wpc_load_document| |done].
  intros [doc|e] w1 [Hm Hdoc]; destruct (Hsame w1 Hm) as [Hw1 Hs1]; [|by split_and!].
  specialize (Hdoc doc eq_refl). fold (insert_direction key d doc).
  destruct (to_vec (insert_direction key d doc)) as [data|e] eqn:Hv; [|by apply wpc_ret; split_and!].
  pose proof (json_compact _ _ Hv) as Hparse.
  eapply wpc_mono; [apply (wpc_session_write root data (slot_ok P) w1 Hs1)| |].
  - simpl. intros doc'. rewrite Hparse. intros [= <-]. by apply HP.
  - intros r w2 (Hw2 & Hs2 & Hc). split_and!; [by eapply within_trans|done|].
    intros Hr. eapply stable_mono; [|apply committed_stable, Hc, Hr]. intros o <- doc'.
    rewrite Hparse. intros [= <-]. eauto.
  - intros w2 [Hw2 Hs2]. split; [by eapply within_trans|done].
Qed.
End documents.

(** ** Sequence numbers: the invariant *)

Definition sealed_seqs (tr : list event) : list Z :=
  omap (fun e => match e with Sealed seq => Some seq | Fired _ _ => None end) tr.
Definition fired_items (tr : list event) : list ClipItem :=
  omap (fun e => match e with Sealed _ => None | Fired _ item => Some item end) tr.
Definition fired_seqs (tr : list event) : list Z := ci_seq <$> fired_items tr.

(** No sequence number was sealed twice, none delivered twice, both in order. *)
Definition ordered (tr : list event) : Prop :=
  StronglySorted Z.lt (sealed_seqs tr) /\ StronglySorted Z.lt (fired_seqs tr).

(** The two counters are ahead of everything that left the session. *)
Definition ahead (tr : list event) (send recv : DirectionState) : Prop :=
  Forall (fun seq => seq < next_seq send)%Z (sealed_seqs tr) /\
  Forall (fun seq => seq <= last_seq recv)%Z (fired_seqs tr).

Lemma sealed_seqs_app a b : sealed_seqs (a ++ b) = sealed_seqs a ++ sealed_seqs b.
Proof. apply omap_app. Qed.
Lemma fired_seqs_app a b : fired_seqs (a ++ b) = fired_seqs a ++ fired_seqs b.
Proof. unfold fired_seqs, fired_items. by rewrite omap_app, fmap_app. Qed.

Lemma StronglySorted_snoc l (x : Z) :
  StronglySorted Z.lt l -> Forall (fun y => y < x)%Z l -> StronglySorted Z.lt (l ++ [x]).
Proof.
  intros Hs Hx. induction Hs as [|y l Hs IH Hy]; simpl; [repeat constructor|].
  apply Forall_cons in Hx as [Hyx Hx]. constructor; [auto|].
  apply Forall_app. split; [done|]. by constructor.
Qed.

(** Sealing the number before [next_seq], delivering the number [last_seq]. *)
Lemma ordered_sealed tr seq send recv :
  ordered tr -> Forall (fun s => s < seq)%Z (sealed_seqs tr) -> ahead tr send recv ->
  (seq < next_seq send)%Z ->
  ordered (tr ++ [Sealed seq]) /\ ahead (tr ++ [Sealed seq]) send recv.
Proof.
  intros [Ho1 Ho2] Hs [Ha1 Ha2] Hn. unfold ordered, ahead.
  rewrite sealed_seqs_app, fired_seqs_app. simpl. rewrite app_nil_r.
  split_and!; [by apply StronglySorted_snoc|done| |done].
  apply Forall_app. split; [done|by constructor].
Qed.

Lemma ordered_fired tr mailbox item send recv :
  ordered tr -> Forall (fun s => s < ci_seq item)%Z (fired_seqs tr) -> ahead tr send recv ->
  (ci_seq item <= last_seq recv)%Z ->
  ordered (tr ++ [Fired mailbox item]) /\ ahead (tr ++ [Fired mailbox item]) send recv.
Proof.
  intros [Ho1 Ho2] Hs [Ha1 Ha2] Hn. unfold ordered, ahead.
  rewrite sealed_seqs_app, fired_seqs_app. simpl. rewrite app_nil_r.
  split_and!; [done|by apply StronglySorted_snoc|done|].
  apply Forall_app. split; [done|by constructor].
Qed.

Section invariant.
Context {JD : Json SessionDocument} {JH : Json HistoryItem} {JE : Json Envelope}.
Context {B64 : Base64} {S256 : Sha256} {Ed : Ed25519} {X : X25519} {A : Aead} {U : UuidText}.
Context {CB : SessionCallback}.
Variables (root hdir send_key recv_key : string) (gen : Z).
Hypothesis Hkeys : send_key <> recv_key.
Hypothesis Harea : ~ history_area hdir (session_path root).
Implicit Types (w : world event) (s : Session).

Definition doc_ahead (tr : list event) (doc : SessionDocument) : Prop :=
  ahead tr (find_direction doc send_key gen) (find_direction doc recv_key gen).

(** What holds of the world whether or not a session is open. *)
Definition winv w : Prop :=
  ordered (w_trace w) /\
  stable (slot_ok (doc_ahead (w_trace w))) (session_path root) (w_disk w).

(** What holds of an open session. *)
Definition sinv s w : Prop :=
  winv w /\ ahead (w_trace w) (s_send_state s) (s_recv_state s) /\
  (s_store s = root /\ s_send_key s = send_key /\ s_recv_key s = recv_key) /\
  (ds_generation (s_send_state s) = gen /\ ds_generation (s_recv_state s) = gen) /\
  hs_dir (s_history s) = hdir.

Lemma winv_history w w' : within (history_area hdir) w w' -> winv w -> winv w' /\ w_trace w' = w_trace w.
Proof.
  intros [[_ Ht] Hp] [Ho Hst]. split; [|done]. unfold winv. rewrite Ht. split; [done|].
  by eapply preserves_stable.
Qed.

Lemma winv_session w w' :
  within (session_area root) w w' -> winv w ->
  stable (slot_ok (doc_ahead (w_trace w))) (session_path root) (w_disk w') ->
  winv w' /\ w_trace w' = w_trace w.
Proof. intros [[_ Ht] _] [Ho _] Hst. unfold winv. rewrite Ht. done. Qed.

Lemma wpc_st_try {R B} (m : io event (result R SessionError * Session))
    (k : R -> Session -> io event (result B SessionError * Session)) Q C w :
  wpc m (fun out w' => match out with
                       | (Ok a, s') => wpc (k a s') Q C w'
                       | (Err e, s') => Q (Err e, s') w'
                       end) C w ->
  wpc (st_try m k) Q C w.
Proof.
  intros H. apply wpc_bind. eapply wpc_mono; [exact H| |done]. by intros [[a|e] s'] w'.
Qed.

(** A history operation changes nothing the invariant speaks of. *)
Lemma wpc_on_history s (m : HistoryStore -> io event (result unit HistoryError * HistoryStore)) w :
  sinv s w -> inside (history_area hdir) (m (s_history s)) ->
  returns (same_dir (s_history s)) (m (s_history s)) ->
  wpc (on_history s m)
    (fun out w' => (winv w' /\ w_trace w' = w_trace w) /\ sinv (snd out) w' /\
       within (history_area hdir) w w' /\
       exists h, snd out = set_history h s)
    winv w.
Proof.
  intros (Hw & Ha & Hk & Hg & Hh) Hin Hdir. apply wpc_bind.
  eapply wpc_mono; [eapply wpc_returns; [exact Hdir|apply Hin]| |].
  - intros [r h] w' [Hd Hwi]. destruct (winv_history _ _ Hwi Hw) as [Hw' Ht].
    apply wpc_ret. split; [done|]. simpl. split; [|eauto].
    unfold sinv; simpl. rewrite Ht. split_and!; try done; try apply Hk; try apply Hg.
    unfold same_dir in Hd. simpl in Hd. congruence.
  - intros w' Hwi. by eapply winv_history.
Qed.

Lemma wpc_commit_recv s d w :
  sinv s w -> ds_generation d = gen -> (last_seq (s_recv_state s) <= last_seq d)%Z ->
  wpc (commit_recv s d)
    (fun out w' => w_trace w' = w_trace w /\ sinv (snd out) w' /\
       (fst out = Ok tt -> snd out = set_recv_state d s /\
          stable (slot_ok (fun doc => doc_ahead (w_trace w) doc /\ find_direction doc recv_key gen = d))
            (session_path root) (w_disk w')))
    winv w.
Proof.
  intros (Hw & Ha & (Hr & Hks & Hkr) & (Hgs & Hgr) & Hh) Hg Hle.
  unfold commit_recv. rewrite Hr, Hkr. apply wpc_bind.
  eapply wpc_mono; [apply (wpc_commit_direction root recv_key d (doc_ahead (w_trace w)) w)| |].
  - apply Hw.
  - intros doc [Hd1 Hd2]. unfold doc_ahead.
    rewrite find_direction_insert_ne by done. rewrite <-Hg, find_direction_insert. rewrite Hg.
    split; [done|]. destruct Ha as [_ Ha]. eapply Forall_impl; [exact Ha|]. simpl. lia.
  - intros r w' (Hwi & Hst & Hok). destruct (winv_session _ _ Hwi Hw Hst) as [Hw' Ht].
    destruct r as [[]|e]; apply wpc_ret; simpl; (split; [done|]).
    + split.
      * unfold sinv; simpl. rewrite Ht. split_and!; try done.
        split; [apply Ha|]. destruct Ha as [_ Ha]. eapply Forall_impl; [exact Ha|]. simpl. lia.
      * intros _. split; [done|]. eapply stable_slot_mono; [|by apply Hok].
        intros doc [Hdoc (doc' & ->)]. split; [done|]. rewrite <-Hg. apply find_direction_insert.
    + split; [|done]. unfold sinv. rewrite Ht. by split_and!.
  - intros w' [Hwi Hst]. by apply (winv_session w).
Qed.

Lemma wpc_reserve_seq s w :
  sinv s w ->
  wpc (reserve_seq s)
    (fun out w' => w_trace w' = w_trace w /\ sinv (snd out) w' /\
       forall seq, fst out = Ok seq ->
         Forall (fun x => x < seq)%Z (sealed_seqs (w_trace w)) /\
         (seq < next_seq (s_send_state (snd out)))%Z /\
         stable (slot_ok (fun doc => doc_ahead (w_trace w) doc /\
             (seq < next_seq (find_direction doc send_key gen))%Z))
           (session_path root) (w_disk w'))
    winv w.
Proof.
  intros Hs. pose proof Hs as (Hw & Ha & (Hr & Hks & Hkr) & (Hgs & Hgr) & Hh).
  unfold reserve_seq. set (seq := next_seq (s_send_state s)).
  destruct (checked_add_u64 seq 1) as [next|] eqn:Hadd.
  2: { apply wpc_ret. simpl. by split_and!. }
  apply checked_add_u64_Some in Hadd as [-> _]. rewrite Hr, Hks.
  set (d := with_next_seq (seq + 1) (s_send_state s)). apply wpc_bind.
  assert (ds_generation d = gen) as Hg by done.
  eapply wpc_mono; [apply (wpc_commit_direction root send_key d (doc_ahead (w_trace w)) w)| |].
  - apply Hw.
  - intros doc [Hd1 Hd2]. unfold doc_ahead.
    rewrite (find_direction_insert_ne _ recv_key) by done. rewrite <-Hg at 1.
    rewrite find_direction_insert. split; [|done].
    destruct Ha as [Ha _]. eapply Forall_impl; [exact Ha|]. simpl. fold seq. lia.
  - intros r w' (Hwi & Hst & Hok). destruct (winv_session _ _ Hwi Hw Hst) as [Hw' Ht].
    destruct r as [[]|e]; apply wpc_ret; simpl; (split; [done|]).
    + split.
      * unfold sinv; simpl. rewrite Ht. split_and!; try done. split; [|apply Ha].
        destruct Ha as [Ha _]. eapply Forall_impl; [exact Ha|]. simpl. fold seq. lia.
      * intros x [= <-]. split_and!; [apply Ha|lia|].
        eapply stable_slot_mono; [|by apply Hok]. intros doc [Hdoc (doc' & ->)].
        split; [done|]. rewrite <-Hg, find_direction_insert. simpl. lia.
    + split; [|done]. unfold sinv. rewrite Ht. by split_and!.
  - intros w' [Hwi Hst]. by apply (winv_session w).
Qed.

(** A session that differs in its history and echo ring only. *)
Lemma sinv_register_content c s w : sinv s w -> sinv (register_content c s) w.
Proof.
  unfold register_content, register_echo. destruct c; [|done]. by destruct (existsb _ _).
Qed.

Definition emitted (e : event) w : world event :=
  World (w_disk w) (w_faults w) (w_uuid w) (w_next w) (w_trace w ++ [e]).

Lemma sinv_sealed seq s w :
  sinv s w -> Forall (fun x => x < seq)%Z (sealed_seqs (w_trace w)) ->
  (seq < next_seq (s_send_state s))%Z ->
  stable (slot_ok (fun doc => doc_ahead (w_trace w) doc /\
    (seq < next_seq (find_direction doc send_key gen))%Z)) (session_path root) (w_disk w) ->
  sinv s (emitted (Sealed seq) w).
Proof.
  intros ([Ho _] & Ha & Hrest) Hall Hn Hst. unfold sinv, winv; simpl.
  pose proof (ordered_sealed _ _ _ _ Ho Hall Ha Hn) as [Ho' Ha']. split_and!; try done; try apply Hrest.
  eapply stable_slot_mono; [|exact Hst]. intros doc [Hd Hdn].
  by apply ordered_sealed.
Qed.

Lemma sinv_fired mailbox item s w :
  sinv s w -> Forall (fun x => x < ci_seq item)%Z (fired_seqs (w_trace w)) ->
  (ci_seq item <= last_seq (s_recv_state s))%Z ->
  stable (slot_ok (fun doc => doc_ahead (w_trace w) doc /\
    (ci_seq item <= last_seq (find_direction doc recv_key gen))%Z)) (session_path root) (w_disk w) ->
  sinv s (emitted (Fired mailbox item) w).
Proof.
  intros ([Ho _] & Ha & Hrest) Hall Hn Hst. unfold sinv, winv; simpl.
  pose proof (ordered_fired _ mailbox _ _ _ Ho Hall Ha Hn) as [Ho' Ha']. split_and!; try done; try apply Hrest.
  eapply stable_slot_mono; [|exact Hst]. intros doc [Hd Hdn].
  by apply ordered_fired.
Qed.

Lemma wpc_on_history_add s n w :
  sinv s w ->
  wpc (on_history s (fun h => history_add h n))
    (fun out w' => (winv w' /\ w_trace w' = w_trace w) /\ sinv (snd out) w' /\
       within (history_area hdir) w w' /\ exists h, snd out = set_history h s) winv w.
Proof.
  intros Hs. pose proof Hs as (_ & _ & _ & _ & Hh). apply wpc_on_history; [done| |].
  - rewrite <-Hh. apply inside_history_add.
  - apply history_add_dir.
Qed.

Lemma wpc_on_history_source s id src w :
  sinv s w ->
  wpc (on_history s (fun h => set_source h id src))
    (fun out w' => (winv w' /\ w_trace w' = w_trace w) /\ sinv (snd out) w' /\
       within (history_area hdir) w w' /\ exists h, snd out = set_history h s) winv w.
Proof.
  intros Hs. pose proof Hs as (_ & _ & _ & _ & Hh). apply wpc_on_history; [done| |].
  - rewrite <-Hh. apply inside_set_source.
  - apply set_source_dir.
Qed.

Lemma wpc_send nonce s c ts_ms fail_at w :
  sinv s w ->
  wpc (send_clip_with_fault nonce s c ts_ms fail_at) (fun out w' => sinv (snd out) w') winv w.
Proof.
  intros Hs. unfold send_clip_with_fault. destruct (oversize_image c); [by apply wpc_ret|].
  apply wpc_st_try. eapply wpc_mono; [by apply wpc_reserve_seq| |done].
  intros [[seq|e] s1] w1 (Ht & Hs1 & Hok); [|done]. simpl in *.
  case_bool_decide; [by apply wpc_ret|]. destruct (Hok seq eq_refl) as (Hall & Hn & Hst).
  rewrite <-Ht in Hall, Hst. apply wpc_bind, wpc_new_v4.
  destruct (seal_clip _ _ _ _ _ _) as [sealed|e]; [|by apply wpc_ret].
  apply wpc_bind, wpc_emit, wpc_st_try. eapply wpc_mono; [apply wpc_on_history_add| |done].
  { apply (sinv_sealed seq) in Hs1; done. }
  intros [[[]|e] s2] w2 (_ & Hs2 & _); [|done]. simpl in *. apply wpc_ret. simpl.
  by apply sinv_register_content.
Qed.

Lemma wpc_invoke item mailbox s w :
  sinv s (emitted (Fired mailbox item) w) ->
  wpc (invoke_callback item mailbox) (fun _ w' => sinv s w') winv w.
Proof. intros H. exact H. Qed.

Lemma wpc_apply_clip s item fresh fail_at w :
  sinv s w -> Forall (fun x => x < ci_seq item)%Z (fired_seqs (w_trace w)) ->
  (ci_seq item <= last_seq (s_recv_state s))%Z ->
  stable (slot_ok (fun doc => doc_ahead (w_trace w) doc /\
    (ci_seq item <= last_seq (find_direction doc recv_key gen))%Z)) (session_path root) (w_disk w) ->
  wpc (apply_clip s item fresh fail_at) (fun out w' => sinv (snd out) w') winv w.
Proof.
  intros Hs Hall Hle Hst. unfold apply_clip. destruct fresh; apply wpc_bind.
  - eapply wpc_mono; [apply (wpc_invoke item false s); by apply sinv_fired| |done].
    intros [d|e] w1 H1; apply wpc_ret; [by apply sinv_register_content|done].
  - eapply wpc_mono; [apply (wpc_invoke item true s); by apply sinv_fired| |done].
    intros [[]|e] w1 H1; [|by apply wpc_ret..].
    case_bool_decide; [by apply wpc_ret|]. apply wpc_st_try.
    eapply wpc_mono; [by apply wpc_on_history_source| |done].
    intros [[[]|e] s2] w2 (_ & Hs2 & _); [|done].
    case_bool_decide; apply wpc_ret; [done|by apply sinv_register_content].
Qed.

Lemma wpc_handle s room ct mailbox now_ms fail_at w :
  sinv s w ->
  wpc (handle_clip_with_fault s room ct mailbox now_ms fail_at) (fun out w' => sinv (snd out) w') winv w.
Proof.
  intros Hs. unfold handle_clip_with_fault.
  destruct (authenticate s room ct) as [item|]; [|by apply wpc_ret].
  destruct (existsb _ _); [by apply wpc_ret|].
  destruct (ci_seq item <=? last_seq (s_recv_state s))%Z eqn:Hseq; [by apply wpc_ret|].
  apply Z.leb_gt in Hseq. pose proof Hs as (_ & [_ Ha] & _ & [_ Hg] & _).
  assert (Forall (fun x => x < ci_seq item)%Z (fired_seqs (w_trace w))) as Hall.
  { eapply Forall_impl; [exact Ha|]. simpl. lia. }
  set (source := if is_fresh _ _ _ then Remote else RemoteDeferred).
  apply wpc_st_try. eapply wpc_mono; [apply (wpc_commit_recv _ _ w Hs)| |done]; [done|simpl; lia|].
  intros [[[]|e] s1] w1 (Ht1 & Hs1 & Hok1); [|done]. simpl in *.
  destruct (Hok1 eq_refl) as [-> _]. case_bool_decide; [by apply wpc_ret|].
  apply wpc_st_try. eapply wpc_mono; [by apply wpc_on_history_add| |done].
  intros [[[]|e] s2] w2 ([_ Ht2] & Hs2 & _ & h & Heq); [|done]. simpl in *. subst s2.
  case_bool_decide; [by apply wpc_ret|].
  apply wpc_st_try. eapply wpc_mono; [apply (wpc_commit_recv _ _ w2 Hs2)| |done]; [done|simpl; lia|].
  intros [[[]|e] s3] w3 (Ht3 & Hs3 & Hok3); [|done]. simpl in *.
  destruct (Hok3 eq_refl) as [-> Hst]. case_bool_decide; [by apply wpc_ret|].
  apply wpc_apply_clip; [done| |simpl; lia|].
  - by rewrite Ht3, Ht2, Ht1.
  - rewrite Ht3. eapply stable_slot_mono; [|exact Hst]. intros doc [Hd ->]. split; [done|]. simpl. lia.
Qed.
End invariant.

(** ** Opening a session *)

Lemma direction_key_swap room a b n :
  lower_hex n a = true -> lower_hex n b = true -> a <> b ->
  direction_key room a b <> direction_key room b a.
Proof.
  intros Ha Hb Hne H%(f_equal as_bytes). unfold direction_key in H.
  rewrite !as_bytes_app in H. apply app_inv_head in H. simpl in H. injection H as H.
  assert (forall s, lower_hex n s = true -> ":"%byte ∉ as_bytes s) as Hsep.
  { intros s [_ Hs]%lower_hex_spec Hin. eapply Forall_forall in Hs; [|done].
    by destruct (is_lower_hex_not_sep _ Hs). }
  apply sep_prefix_inj in H as [H%as_bytes_inj _]; [done|by apply Hsep..].
Qed.

Section opening.
Context {JD : Json SessionDocument} {JH : Json HistoryItem}.
Context {S256 : Sha256} {Ed : Ed25519} {X : X25519}.
Variables (identity : Identity) (record : PairingRecord) (debug : bool) (root hdir : string).
Hypothesis Hrecord : validate_record debug record identity = Ok tt.
Hypothesis Harea : ~ history_area hdir (session_path root).
Implicit Types (w : world event) (s : Session).

Definition rec_send_key : string :=
  direction_key (rec_room_id record) (local_bundle_fp record) (peer_bundle_fp record).
Definition rec_recv_key : string :=
  direction_key (rec_room_id record) (peer_bundle_fp record) (local_bundle_fp record).

Lemma record_facts :
  local_bundle_fp record = bundle_fp (public_bundle identity) /\
  peer_bundle_fp record = bundle_fp (peer_bundle record) /\
  local_bundle_fp record <> peer_bundle_fp record /\
  rec_room_id record = room_id (public_bundle identity) (peer_bundle record).
Proof. unfold validate_record in Hrecord. case_bool; [|done]. bool_to_prop. done. Qed.

Lemma record_keys : rec_send_key <> rec_recv_key.
Proof.
  destruct record_facts as (Hl & Hp & Hne & _).
  eapply (direction_key_swap _ _ _ 64); [rewrite Hl|rewrite Hp|done]; apply bundle_fp_ok.
Qed.

Lemma inside_replay h pending :
  hs_dir h = hdir -> inside (T := event) (history_area hdir) (replay_pending h pending).
Proof.
  revert h; induction pending as [|p pending IH]; intros h Hh; [apply inside_ret|].
  eapply (inside_bind_post _ (same_dir h)).
  - intros w. apply wpc_returns; [apply history_add_dir|]. rewrite <-Hh. apply inside_history_add.
  - intros [[[]|e] h'] Hd; [|apply inside_ret]. apply IH. unfold same_dir in Hd. simpl in Hd. congruence.
Qed.

Lemma replay_dir h pending :
  hs_dir h = hdir -> returns (T := event) (fun out => hs_dir (snd out) = hdir) (replay_pending h pending).
Proof.
  revert h; induction pending as [|p pending IH]; intros h Hh; [by apply returns_ret|].
  intros w. apply wpc_bind. cbn. pose proof (history_add_dir (T := event) h) as Hd.
  eapply wpc_mono; [apply Hd| |done]. intros [[[]|e] h'] w' Hdir; unfold same_dir in Hdir; simpl in Hdir.
  - apply IH. congruence.
  - apply wpc_ret. simpl. congruence.
Qed.

Abbreviation Winv := (winv root rec_send_key rec_recv_key (generation identity)).
Abbreviation Sinv := (sinv root hdir rec_send_key rec_recv_key (generation identity)).

Lemma sinv_opened keys send recv h w :
  Winv w -> ahead (w_trace w) send recv -> hs_dir h = hdir ->
  ds_generation send = generation identity -> ds_generation recv = generation identity ->
  Sinv (opened record keys root send recv h) w.
Proof. intros Hw Ha Hh Hs Hr. unfold sinv, opened; simpl. by split_and!. Qed.

Lemma wpc_session_new h w :
  hs_dir h = hdir -> Winv w ->
  wpc (session_new identity record root h)
    (fun r w' => Winv w' /\ forall s, r = Ok s -> Sinv s w') Winv w.
Proof.
  intros Hh Hw. unfold session_new. fold rec_send_key rec_recv_key.
  destruct (_ || _); [by apply wpc_ret|]. destruct (session_keys _ _) as [keys|e]; [|by apply wpc_ret].
  assert (forall w', moved w (w_disk w) w' -> Winv w' /\ w_trace w' = w_trace w) as Hsame.
  { intros w' (Hd & _ & _ & Ht). unfold winv. by rewrite Hd, Ht. }
  apply wpc_try. eapply wpc_mono; [eapply wpc_load_direction, Hw| |by apply Hsame].
  intros [send|e] w1 [Hm1 Hsend]; [|by split; [apply Hsame|]].
  destruct (Hsend send eq_refl) as (doc1 & [Hd1 _] & ->). pose proof Hm1 as (Hdk1 & _).
  destruct (Hsame w1 Hm1) as [Hw1 Ht1].
  assert (forall w', moved w1 (w_disk w1) w' -> moved w (w_disk w) w') as Htrans.
  { intros w' H. rewrite Hdk1 in H. by eapply moved_trans. }
  apply wpc_try. eapply wpc_mono; [eapply wpc_load_direction, Hw1| |].
  2: { intros w' H%Htrans. by apply Hsame. }
  intros [recv|e] w2 [Hm2%Htrans Hrecv]; (destruct (Hsame w2 Hm2) as [Hw2 Ht2]); [|done].
  destruct (Hrecv recv eq_refl) as (doc2 & [_ Hd2] & ->). rewrite Ht1 in Hd2.
  set (send := find_direction doc1 _ _) in *. set (recv := find_direction doc2 _ _) in *.
  assert (ds_generation send = generation identity) as Hgs by apply find_direction_generation.
  assert (ds_generation recv = generation identity) as Hgr by apply find_direction_generation.
  case_bool_decide.
  { apply wpc_ret. split; [done|]. intros s [= <-]. apply sinv_opened; [done| |done..].
    rewrite Ht2. by split. }
  apply wpc_bind. eapply wpc_mono; [eapply wpc_returns; [by apply replay_dir|by apply inside_replay]| |].
  2: { intros w' Hwi. by eapply winv_history. }
  intros [[[]|e] h'] w3 [Hdir Hwi]; simpl in Hdir;
    (destruct (winv_history root hdir _ _ _ Harea _ _ Hwi Hw2) as [Hw3 Ht3]); [|by apply wpc_ret].
  apply wpc_try. set (recv' := with_pending_history [] recv).
  eapply wpc_mono; [apply (wpc_commit_direction root rec_recv_key recv' _ w3 (proj2 Hw3))| |].
  - intros doc [Hdoc1 Hdoc2]. unfold doc_ahead.
    rewrite find_direction_insert_ne by (apply not_eq_sym, record_keys).
    split; [done|]. rewrite <-Hgr. change (ds_generation recv) with (ds_generation recv').
    rewrite find_direction_insert. simpl. by rewrite Ht3, Ht2.
  - intros r w4 (Hwi4 & Hst4 & _). destruct (winv_session _ _ _ _ _ _ Hwi4 Hw3 Hst4) as [Hw4 Ht4].
    destruct r as [[]|e]; [|done]. apply wpc_ret. split; [done|]. intros s [= <-].
    apply sinv_opened; [done| |done..]. rewrite Ht4, Ht3, Ht2. by split.
  - intros w4 [Hwi4 Hst4]. by apply (winv_session _ _ _ _ w3).
Qed.

(** [SessionStore::new], [HistoryStore::new] and [Session::new], as the
    platform boundary opens a session. *)
Definition open_session : io event (result Session SessionError) :=
  store ←! session_store_new root;
  history ←! history_new hdir @ SessionHistory;
  session_new identity record store history.

Lemma wpc_open_session w :
  Winv w ->
  wpc open_session (fun r w' => Winv w' /\ forall s, r = Ok s -> Sinv s w') Winv w.
Proof.
  intros Hw.
  assert (forall w', within (history_area hdir) w w' -> Winv w') as Hkeep.
  { intros w' H. by eapply winv_history. }
  apply wpc_try, wpc_try, wpc_atomic_call.
  2: { intros w' e _ Hm. assert (Winv w') by (eapply Hkeep, moved_within; eauto with clip). done. }
  intros w1 r d [= <- <-] Hm.
  assert (within (history_area hdir) w w1) as Hw1 by (eapply moved_within; eauto with clip).
  split; [|by apply Hkeep]. apply wpc_ret, wpc_try.
  eapply wpc_mono; [eapply wpc_returns; [apply history_new_dir|apply inside_history_new]| |].
  2: { intros w2 H2. eapply Hkeep, within_trans; done. }
  intros [h|e] w2 [Hd H2]; (assert (Winv w2) by (eapply Hkeep, within_trans; done)); [|done].
  apply wpc_session_new; auto.
Qed.
End opening.

(** ** A device over time: openings, operations, crashes and restarts *)

Inductive session_op :=
| Send (nonce : bytes) (c : ClipContent) (ts_ms : Z) (fail_at : option SendStage)
| Receive (room ciphertext_b64 : string) (mailbox : bool) (now_ms : Z) (fail_at : option ReceiveStage)
| ApplyDeferred (id : string)
| ClearHistory.

Section device.
Context {JD : Json SessionDocument} {JH : Json HistoryItem} {JE : Json Envelope}.
Context {B64 : Base64} {S256 : Sha256} {Ed : Ed25519} {X : X25519} {A : Aead} {U : UuidText}.
Context {CB : SessionCallback}.
Variables (identity : Identity) (record : PairingRecord) (root hdir : string).
Implicit Types (w : world event) (s : Session).

Definition run_session_op s (op : session_op) : io event Session :=
  match op with
  | Send nonce c ts_ms fail_at => out ← send_clip_with_fault nonce s c ts_ms fail_at; mret (snd out)
  | Receive room ct mailbox now_ms fail_at =>
      out ← handle_clip_with_fault s room ct mailbox now_ms fail_at; mret (snd out)
  | ApplyDeferred id => out ← apply_deferred s id; mret (snd out)
  | ClearHistory => out ← clear_history s; mret (snd out)
  end.

(** [m] run from [w] under some plan of faults. *)
Definition runs {R} (m : io event R) w (out : outcome R) w' : Prop :=
  exists faults, m (set_faults faults w) = (out, w').

(** The process is gone and the machine starts again. *)
Definition rebooted w w' : Prop := restart (w_disk w) (w_disk w') /\ w_trace w' = w_trace w.

Inductive device_step : option Session * world event -> option Session * world event -> Prop :=
| step_open r w w' :
    runs (open_session identity record root hdir) w (Done r) w' -> device_step (None, w) (ok r, w')
| step_op s op s' w w' :
    runs (run_session_op s op) w (Done s') w' -> device_step (Some s, w) (Some s', w')
| step_open_crash w w1 w2 :
    runs (open_session identity record root hdir) w Crashed w1 -> rebooted w1 w2 ->
    device_step (None, w) (None, w2)
| step_op_crash s op w w1 w2 :
    runs (run_session_op s op) w Crashed w1 -> rebooted w1 w2 -> device_step (Some s, w) (None, w2)
| step_close s w : device_step (Some s, w) (None, w)
| step_reboot o w w' : rebooted w w' -> device_step (o, w) (None, w').

Variable debug : bool.
Hypothesis Hrecord : validate_record debug record identity = Ok tt.
Hypothesis Harea : ~ history_area hdir (session_path root).

Abbreviation Winv := (winv root (rec_send_key record) (rec_recv_key record) (generation identity)).
Abbreviation Sinv := (sinv root hdir (rec_send_key record) (rec_recv_key record) (generation identity)).

Lemma wpc_run_session_op s op w :
  Sinv s w -> wpc (run_session_op s op) (fun s' w' => Sinv s' w') Winv w.
Proof.
  intros Hs. pose proof (record_keys _ _ _ Hrecord) as Hk.
  destruct op as [nonce c ts f|room ct mb now f|id|]; apply wpc_bind.
  - eapply wpc_mono; [by apply wpc_send| |done]. done.
  - eapply wpc_mono; [by apply wpc_handle| |done]. done.
  - apply wpc_st_try. eapply wpc_mono; [by apply wpc_on_history_source| |done].
    intros [[[]|e] s1] w1 (_ & Hs1 & _); [|done]. apply wpc_ret. simpl in *.
    destruct (find_item _ _) as [item|]; [|done]. destruct (h_kind item) as [t|f]; [|done].
    apply wpc_ret. by apply (sinv_register_content _ _ _ _ _ (CText t)).
  - pose proof Hs as (_ & _ & _ & _ & Hh).
    eapply wpc_mono; [eapply wpc_on_history; [exact Harea|exact Hs| |apply history_clear_dir]| |done].
    + rewrite <-Hh. apply inside_history_clear.
    + by intros out w1 (_ & Hs1 & _).
Qed.

Lemma wpc_runs {R} (m : io event R) (Q : R -> world event -> Prop) (C : world event -> Prop) w out w' :
  (forall faults, wpc m Q C (set_faults faults w)) -> runs m w out w' ->
  match out with Done a => Q a w' | Crashed => C w' end.
Proof. intros H [faults Hm]. specialize (H faults). unfold wpc in H. by rewrite Hm in H. Qed.

Lemma winv_rebooted w w' : rebooted w w' -> Winv w -> Winv w'.
Proof.
  intros [Hr Ht] [Ho Hst]. unfold winv. rewrite Ht. split; [done|]. by eapply restart_stable.
Qed.

Definition device_inv (sys : option Session * world event) : Prop :=
  Winv sys.2 /\ forall s, sys.1 = Some s -> Sinv s sys.2.

Lemma device_step_inv sys sys' : device_step sys sys' -> device_inv sys -> device_inv sys'.
Proof.
  intros Hstep [Hw Hs]. destruct Hstep as [r w w' Hr|s op s' w w' Hr|w w1 w2 Hr Hb|s op w w1 w2 Hr Hb|s w|o w w' Hb];
    simpl in *.
  - eapply (wpc_runs _ _ _ _ _ _ (fun fs => wpc_open_session _ _ _ _ _ Hrecord Harea (set_faults fs w) Hw)) in Hr.
    destruct Hr as [Hw' Hok]. split; [done|]. simpl. intros s Hrs. apply Hok. by destruct r; simplify_eq/=.
  - eapply (wpc_runs _ _ _ _ _ _ (fun fs => wpc_run_session_op s op (set_faults fs w) (Hs s eq_refl))) in Hr.
    simpl in Hr. split; [apply Hr|]. by intros ? [= <-].
  - eapply (wpc_runs _ _ _ _ _ _ (fun fs => wpc_open_session _ _ _ _ _ Hrecord Harea (set_faults fs w) Hw)) in Hr.
    split; [by eapply winv_rebooted|done].
  - eapply (wpc_runs _ _ _ _ _ _ (fun fs => wpc_run_session_op s op (set_faults fs w) (Hs s eq_refl))) in Hr.
    split; [by eapply winv_rebooted|done].
  - by split.
  - split; [by eapply winv_rebooted|done].
Qed.

Lemma device_reachable_inv sys sys' : rtc device_step sys sys' -> device_inv sys -> device_inv sys'.
Proof. induction 1; eauto using device_step_inv. Qed.

(** Nothing left the device yet; its session file, if any, is on stable storage. *)
Definition untouched (sys : option Session * world event) : Prop :=
  sys.1 = None /\ w_trace sys.2 = [] /\ stable (fun _ => True) (session_path root) (w_disk sys.2).

Lemma untouched_inv sys : untouched sys -> device_inv sys.
Proof.
  intros (Hn & Ht & Hst). split; [|by rewrite Hn]. unfold winv. rewrite Ht.
  split; [split; constructor|]. eapply stable_mono; [|exact Hst].
  intros [b|] _; simpl; [intros doc _|]; by split; constructor.
Qed.
End device.

(** ** An accepted clip is kept *)

Definition new_item (item : ClipItem) (source : HistorySource) : NewHistoryItem :=
  {| n_id := ci_id item; n_ts_ms := ci_ts_ms item; n_source := source;
     n_content := history_content (ci_content item) |}.

Definition pending_item (p : PendingItem) : NewHistoryItem :=
  {| n_id := p_id p; n_ts_ms := p_ts_ms p; n_source := p_source p;
     n_content := history_content (p_content p) |}.

(** The history after replaying a list of pending entries. *)
Definition replayed (items : list HistoryItem) (pending : list PendingItem) : list HistoryItem :=
  foldl (fun items p => spec_op items (OpAdd (pending_item p))) items pending.

Lemma spec_add_elem items n : n_id n ∈ h_id <$> spec_op items (OpAdd n).
Proof.
  simpl. case_bool_decide as H; [done|]. unfold push_ring. rewrite fmap_keep_last, fmap_app.
  apply (push_ring_last HISTORY_CAP (h_id <$> items) (n_id n)). unfold HISTORY_CAP. lia.
Qed.

Section delivery.
Context {JD : Json SessionDocument} {JH : Json HistoryItem} {JE : Json Envelope}.
Context {B64 : Base64} {S256 : Sha256} {Ed : Ed25519} {X : X25519} {A : Aead} {U : UuidText}.
Context {CB : SessionCallback}.
Variables (root hdir : string).
Hypothesis Hroot : root <> hdir /\ root <> images_dir hdir.
Implicit Types (w : world event) (s : Session).

Lemma root_area : ~ history_area hdir (session_path root).
Proof. destruct Hroot. by intros [?|?]. Qed.

Lemma consistent_session items w w' :
  within (session_area root) w w' -> consistent hdir items (w_disk w) -> consistent hdir items (w_disk w').
Proof.
  destruct Hroot as [Hr1 Hr2]. intros Hw (Hok & Hl & Hi). split_and!; [done| |].
  - rewrite (loaded_within _ _ _ _ Hw); [done|]. intros [H|[t H]]; by injection H.
  - eapply images_within; [done| |done]. intros item name _ _ [H|[t H]]; by injection H.
Qed.

Variables (key : string) (gen : Z) (item : ClipItem).

(** Not accepted yet, or still pending. *)
Definition open_entry (doc : SessionDocument) : Prop :=
  (last_seq (find_direction doc key gen) < ci_seq item)%Z \/
  ci_id item ∈ p_id <$> pending_history (find_direction doc key gen).

Definition kept w : Prop :=
  stable (slot_ok open_entry) (session_path root) (w_disk w) \/
  exists items, consistent hdir items (w_disk w) /\ ci_id item ∈ h_id <$> items.

Lemma kept_history w w' :
  within (history_area hdir) w w' ->
  stable (slot_ok open_entry) (session_path root) (w_disk w) -> kept w'.
Proof. intros [_ Hp] Hst. left. eapply preserves_stable; [done|apply root_area|done]. Qed.

Definition ready s w : Prop :=
  supply_ok w /\ hs_dir (s_history s) = hdir /\ s_store s = root /\ s_recv_key s = key /\
  ds_generation (s_recv_state s) = gen /\ consistent hdir (hs_items (s_history s)) (w_disk w).

(** A transaction on the receive direction. *)
Lemma wpc_commit_ready s d P w :
  ready s w -> ds_generation d = gen -> stable (slot_ok P) (session_path root) (w_disk w) ->
  (forall doc, P doc -> P (insert_direction key d doc)) ->
  wpc (commit_recv s d)
    (fun out w' => w_trace w' = w_trace w /\ stable (slot_ok P) (session_path root) (w_disk w') /\
       ready (snd out) w' /\ s_history (snd out) = s_history s /\
       (fst out = Ok tt -> snd out = set_recv_state d s /\
          stable (slot_ok (fun doc => find_direction doc key gen = d)) (session_path root) (w_disk w')))
    (fun w' => w_trace w' = w_trace w /\ stable (slot_ok P) (session_path root) (w_disk w') /\
       consistent hdir (hs_items (s_history s)) (w_disk w')) w.
Proof.
  intros (Hsup & Hh & Hr & Hk & Hg & Hc) Hd Hst HP. unfold commit_recv. rewrite Hr, Hk. apply wpc_bind.
  eapply wpc_mono; [by apply (wpc_commit_direction root key d P w)| |].
  - intros r w' (Hw & Hs & Hok). pose proof (consistent_session _ _ _ Hw Hc) as Hc'.
    destruct Hw as [Hq _]. pose proof (supply_quiet _ _ Hq Hsup). destruct Hq as [_ Ht].
    destruct r as [[]|e]; apply wpc_ret; simpl; split_and!; try done; try (by split_and!).
    intros _. split; [done|]. eapply stable_slot_mono; [|by apply Hok].
    intros doc [_ (doc' & ->)]. rewrite <-Hd. apply find_direction_insert.
  - intros w' [Hw Hs]. pose proof (consistent_session _ _ _ Hw Hc). by destruct Hw as [[_ Ht] _].
Qed.

Lemma open_entry_delivered source d doc :
  ds_generation d = gen -> open_entry (insert_direction key (delivered item source d) doc).
Proof.
  intros Hg. right. rewrite <-Hg. change (ds_generation d) with (ds_generation (delivered item source d)).
  rewrite find_direction_insert. simpl. rewrite fmap_app. set_solver.
Qed.

Lemma wpc_add_ready s n w :
  ready s w ->
  wpc (on_history s (fun h => history_add h n))
    (fun out w' => within (history_area hdir) w w' /\ ready (snd out) w' /\
       s_recv_state (snd out) = s_recv_state s /\
       (fst out = Ok tt -> n_id n ∈ h_id <$> hs_items (s_history (snd out))))
    (fun w' => within (history_area hdir) w w') w.
Proof.
  intros (Hsup & Hh & Hr & Hk & Hg & Hc). apply wpc_bind. rewrite <-Hh in Hc.
  eapply wpc_mono; [by apply wpc_history_add| |].
  - intros [r h] w' (Hw & Hd & Hc' & _ & Hok). simpl in *. rewrite Hh in *.
    apply wpc_ret. simpl. split_and!; [done| |done|].
    + split_and!; try done; simpl. eapply supply_quiet; [apply Hw|done].
    + intros Hr'. destruct r as [[]|]; [|done]. rewrite (Hok eq_refl). apply spec_add_elem.
  - intros w' [Hw _]. by rewrite Hh in Hw.
Qed.

(** The clip is delivered for good: accepted, no longer pending, in the history. *)
Definition settled w : Prop :=
  stable (slot_ok (fun doc =>
      (ci_seq item <= last_seq (find_direction doc key gen))%Z /\
      ci_id item ∉ p_id <$> pending_history (find_direction doc key gen)))
    (session_path root) (w_disk w) /\
  exists items, consistent hdir items (w_disk w) /\ ci_id item ∈ h_id <$> items.

(** No event left, or the one callback of a settled clip did. *)
Definition announced (mailbox : bool) (tr : list event) w : Prop :=
  w_trace w = tr \/ (w_trace w = tr ++ [Fired mailbox item] /\ settled w).

Definition delivery (mailbox : bool) (tr : list event) w : Prop := kept w /\ announced mailbox tr w.

Lemma delivery_open mailbox tr w :
  stable (slot_ok open_entry) (session_path root) (w_disk w) -> w_trace w = tr -> delivery mailbox tr w.
Proof. intros Hst Ht. split; [by left|by left]. Qed.

Lemma delivery_kept items mailbox tr w :
  consistent hdir items (w_disk w) -> ci_id item ∈ h_id <$> items -> w_trace w = tr ->
  delivery mailbox tr w.
Proof. intros Hc Hin Ht. split; [right; eauto|by left]. Qed.

Lemma delivery_settled mailbox tr w :
  settled w -> w_trace w = tr ++ [Fired mailbox item] -> delivery mailbox tr w.
Proof. intros [Hst Hk] Ht. split; [by right|]. right. split; [done|by split]. Qed.

(** The history operations after the callback keep the clip settled. *)
Lemma wpc_promote_settled s w :
  ready s w -> settled w -> ci_id item ∈ h_id <$> hs_items (s_history s) ->
  wpc (on_history s (fun h => set_source h (ci_id item) Remote))
    (fun _ w' => settled w' /\ w_trace w' = w_trace w)
    (fun w' => settled w' /\ w_trace w' = w_trace w) w.
Proof.
  intros (Hsup & Hh & Hr & Hk & Hg & Hc) [Hst _] Hin. rewrite <-Hh in Hc. apply wpc_bind.
  assert (forall w' found, within (history_area hdir) w w' -> consistent hdir found (w_disk w') ->
    found = hs_items (s_history s) \/ found = promote (ci_id item) Remote <$> hs_items (s_history s) ->
    settled w' /\ w_trace w' = w_trace w) as Hafter.
  { intros w' found [[_ Ht] Hp] Hc' Hf. split; [|done]. split.
    - eapply preserves_stable; [done|apply root_area|done].
    - exists found. split; [done|]. destruct Hf as [-> | ->]; [done|]. by rewrite fmap_promote_ids. }
  eapply wpc_mono; [by apply wpc_set_source| |].
  - intros [r h] w' (Hw & _ & Hc' & Hor & _). apply wpc_ret. rewrite Hh in *. by eapply Hafter.
  - intros w' (Hw & found & Hf & Hc'). rewrite Hh in *. by eapply Hafter.
Qed.

Lemma wpc_apply_ready s fresh fail_at w :
  ready s w -> settled w -> ci_id item ∈ h_id <$> hs_items (s_history s) ->
  wpc (apply_clip s item fresh fail_at)
    (fun _ => delivery (negb fresh) (w_trace w)) (delivery (negb fresh) (w_trace w)) w.
Proof.
  intros Hready Hset Hin. unfold apply_clip.
  set (w1 := emitted (Fired (negb fresh) item) w).
  assert (delivery (negb fresh) (w_trace w) w1) as Hd1 by (by apply delivery_settled).
  destruct fresh; apply wpc_bind, wpc_bind; unfold get_trace; apply wpc_bind, wpc_emit, wpc_ret.
  { by destruct (on_clip _ _) as [[[]|e]|]; apply wpc_ret. }
  destruct (on_mailbox_clip _ _) as [[[]|e]|]; try by apply wpc_ret.
  case_bool_decide; [by apply wpc_ret|]. apply wpc_st_try.
  eapply wpc_mono; [by apply (wpc_promote_settled s w1)| |].
  - intros [[[]|e] s2] w2 [Hs2 Ht2]; [case_bool_decide; apply wpc_ret|]; by apply delivery_settled.
  - intros w2 [Hs2 Ht2]. by apply delivery_settled.
Qed.

Lemma wpc_handle_delivery s room ct mailbox now_ms fail_at w :
  ready s w -> authenticate s room ct = Some item ->
  stable (slot_ok (fun doc => last_seq (find_direction doc key gen) < ci_seq item)%Z)
    (session_path root) (w_disk w) ->
  let tag := negb (is_fresh mailbox (ci_ts_ms item) now_ms) in
  wpc (handle_clip_with_fault s room ct mailbox now_ms fail_at)
    (fun _ => delivery tag (w_trace w)) (delivery tag (w_trace w)) w.
Proof.
  intros Hs Hauth Hst tag. unfold handle_clip_with_fault. rewrite Hauth.
  assert (stable (slot_ok open_entry) (session_path root) (w_disk w)) as Hopen.
  { eapply stable_slot_mono; [|exact Hst]. intros doc H. by left. }
  destruct (existsb _ _); [apply wpc_ret; by apply delivery_open|].
  destruct (ci_seq item <=? _)%Z eqn:Hseq; [apply wpc_ret; by apply delivery_open|].
  set (fresh := is_fresh _ _ _) in *. set (source := if fresh then Remote else RemoteDeferred).
  pose proof Hs as (_ & _ & _ & _ & Hg & _). apply wpc_st_try.
  eapply wpc_mono; [apply (wpc_commit_ready _ _ open_entry w Hs)| |]; [done|done| | |].
  { intros doc _. by apply open_entry_delivered. }
  2: { intros w1 (Ht1 & H1 & _). by apply delivery_open. }
  intros [r s1] w1 (Ht1 & Ho1 & Hs1 & _ & Hok1); simpl in *.
  destruct r as [[]|e]; [|by apply delivery_open]. destruct (Hok1 eq_refl) as [-> _].
  case_bool_decide; [apply wpc_ret; by apply delivery_open|]. apply wpc_st_try.
  assert (forall w', within (history_area hdir) w1 w' ->
    stable (slot_ok open_entry) (session_path root) (w_disk w') /\ w_trace w' = w_trace w) as Hadd.
  { intros w' [[_ Ht] Hp]. split; [eapply preserves_stable; [done|apply root_area|done]|congruence]. }
  eapply wpc_mono; [by apply (wpc_add_ready _ (new_item item source))| |].
  2: { intros w2 [? ?]%Hadd. by apply delivery_open. }
  intros [r s2] w2 ([Ho2 Ht2]%Hadd & Hs2 & Hrecv & Hin); simpl in *.
  destruct r as [[]|e]; [|by apply delivery_open]. specialize (Hin eq_refl).
  case_bool_decide; [apply wpc_ret; by apply delivery_open|]. apply wpc_st_try.
  pose proof Hs2 as (_ & _ & _ & _ & Hg2 & Hc2).
  eapply wpc_mono; [apply (wpc_commit_ready _ (cleared item (s_recv_state s2)) (fun _ => True) w2 Hs2)| |];
    [done| |done| |].
  { eapply stable_slot_mono; [|exact Ho2]. done. }
  2: { intros w3 (Ht3 & _ & Hc3). eapply delivery_kept; [done..|congruence]. }
  intros [r s3] w3 (Ht3 & _ & Hs3 & Hh3 & Hok3); simpl in *. rewrite Ht2 in Ht3. rewrite <-Hh3 in Hin.
  pose proof Hs3 as (_ & _ & _ & _ & _ & Hc3).
  destruct r as [[]|e]; [|by eapply delivery_kept]. destruct (Hok3 eq_refl) as [_ Hst3].
  case_bool_decide; [apply wpc_ret; by eapply delivery_kept|].
  rewrite <-Ht3. apply wpc_apply_ready; [done| |done]. split; [|eauto].
  eapply stable_slot_mono; [|exact Hst3]. intros doc ->. rewrite Hrecv. simpl. split; [lia|].
  intros (p & Hp & [Hne _]%list_elem_of_filter)%list_elem_of_fmap. done.
Qed.
End delivery.

Section replay.
Context {JD : Json SessionDocument} {JH : Json HistoryItem}.
Context {S256 : Sha256} {Ed : Ed25519} {X : X25519}.
Variables (root hdir : string).
Hypothesis Hroot : root <> hdir /\ root <> images_dir hdir.
Implicit Types (w : world event).

Lemma wpc_replay_pending h pending w :
  supply_ok w -> hs_dir h = hdir -> consistent hdir (hs_items h) (w_disk w) ->
  wpc (replay_pending h pending)
    (fun out w' => within (history_area hdir) w w' /\
       consistent hdir (hs_items (snd out)) (w_disk w') /\
       (fst out = Ok tt -> hs_items (snd out) = replayed (hs_items h) pending))
    (within (history_area hdir) w) w.
Proof.
  revert h w; induction pending as [|p pending IH]; intros h w Hsup Hh Hc.
  { apply wpc_ret. split_and!; [apply within_refl|done..]. }
  cbn [replay_pending]. apply wpc_bind. rewrite <-Hh in Hc.
  eapply wpc_mono; [by apply wpc_history_add| |].
  2: { intros w' [Hw _]. by rewrite Hh in Hw. }
  intros [[[]|e] h'] w1 (Hw1 & Hd1 & Hc1 & _ & Hok1); simpl in *; rewrite Hh in *.
  2: { apply wpc_ret. by split_and!. }
  eapply wpc_mono; [apply (IH h' w1)| |].
  - eapply supply_quiet; [apply Hw1|done].
  - done.
  - done.
  - intros out w2 (Hw2 & Hc2 & Hok2). split_and!; [by eapply within_trans|done|].
    intros Hr. rewrite (Hok2 Hr), (Hok1 eq_refl). done.
  - intros w2 Hw2. by eapply within_trans.
Qed.

Lemma wpc_session_new_replay identity record h d w :
  supply_ok w -> hs_dir h = hdir -> consistent hdir (hs_items h) (w_disk w) ->
  stable (slot_ok (fun doc =>
      find_direction doc (rec_recv_key record) (generation identity) = d))
    (session_path root) (w_disk w) ->
  wpc (session_new identity record root h)
    (fun r w' => w_trace w' = w_trace w /\
       forall s, r = Ok s ->
         hs_items (s_history s) = replayed (hs_items h) (pending_history d) /\
         pending_history (s_recv_state s) = [] /\ last_seq (s_recv_state s) = last_seq d /\
         consistent hdir (hs_items (s_history s)) (w_disk w'))
    (fun w' => w_trace w' = w_trace w) w.
Proof.
  intros Hsup Hh Hc Hst. unfold session_new. fold (rec_recv_key record).
  destruct (_ || _); [by apply wpc_ret|]. destruct (session_keys _ _) as [keys|e]; [|by apply wpc_ret].
  apply wpc_try. eapply wpc_mono; [by eapply wpc_load_direction| |by intros w' (_&_&_&?)].
  intros [send|e] w1 [(Hd1 & Hu1 & _ & Ht1) _]; [|by split].
  rewrite <-Hd1 in Hst, Hc.
  apply wpc_try. eapply wpc_mono; [by eapply wpc_load_direction| |].
  2: { intros w' (_&_&_&?). congruence. }
  intros [recv|e] w2 [(Hd2 & Hu2 & _ & Ht2) Hrecv]; [|split; [congruence|done]].
  destruct (Hrecv recv eq_refl) as (doc & Hdoc & ->). rewrite Hdoc. rewrite <-Hd2 in Hst, Hc.
  rewrite Ht1 in Ht2. case_bool_decide as Hp.
  { apply wpc_ret. split; [done|]. intros s [= <-]. simpl. rewrite Hp. done. }
  apply wpc_bind. eapply wpc_mono; [apply wpc_replay_pending; [|done..]| |].
  { intros n. rewrite Hu2, Hu1. apply Hsup. }
  2: { intros w' [[_ ?] _]. congruence. }
  intros [r h'] w3 (Hw3 & Hc3 & Hok); simpl in *. pose proof Hw3 as [[_ Ht3] Hpr]. rewrite Ht2 in Ht3.
  destruct r as [[]|e]; [|by apply wpc_ret]. apply wpc_try.
  eapply wpc_mono; [apply (wpc_commit_direction root (rec_recv_key record) _ (fun _ => True))| |];
    [|done| |].
  - eapply preserves_stable; [done|by apply root_area|]. eapply stable_slot_mono; [|exact Hst]. done.
  - intros [[]|e] w4 (Hw4 & _ & _); pose proof Hw4 as [[_ Ht4] _]; (split; [simpl in *; congruence|]); [|done].
    intros s [= <-]. simpl. rewrite (Hok eq_refl). split_and!; try done.
    rewrite <-(Hok eq_refl). by eapply consistent_session.
  - intros w4 [[[_ Ht4] _] _]. congruence.
Qed.
End replay.

(** ** Two paired sessions *)

(** [s] was opened from [record] with [keys]; no operation changes these fields. *)
Definition session_of (record : PairingRecord) (keys : SessionKeys) (s : Session) : Prop :=
  s_room_id s = rec_room_id record /\ s_self_fp s = local_bundle_fp record /\
  s_peer_fp s = peer_bundle_fp record /\ s_keys s = keys.

(** A Rust [String] is valid UTF-8. *)
Definition content_ok (c : ClipContent) : Prop :=
  match c with CText text => str_ok text | CImage _ => True end.

Lemma decode_raw_content `{Base64} c :
  content_ok c -> decode_content (fst (raw_content c)) (b64_encode (snd (raw_content c))) = Some c.
Proof.
  intros Hc. unfold decode_content. rewrite b64_roundtrip. simpl.
  destruct c as [text|data]; simpl; [|done]. by rewrite from_utf8_as_bytes.
Qed.

(** ** Properties *)

(** A clip arrives as it was sent: what one device's session seals, the
    peer's session, opened from the other record of the same pairing,
    authenticates to the same identifier, timestamp, sequence number and
    content. *)
Theorem clip_arrives_as_sent
    `{Json Envelope, Base64, Sha256, Ed25519, X25519, Aead, UuidText}
    debug a b ra rb ka kb sa sb nonce c id seq ts_ms sealed :
  validate_record debug ra a = Ok tt -> validate_record debug rb b = Ok tt ->
  peer_bundle ra = public_bundle b -> peer_bundle rb = public_bundle a ->
  session_keys a (peer_bundle ra) = Ok ka -> session_keys b (peer_bundle rb) = Ok kb ->
  session_of ra ka sa -> session_of rb kb sb ->
  length nonce = NONCE_LENGTH -> content_ok c -> uuid_parse id = Some id ->
  seal_clip nonce sa c id seq ts_ms = Ok sealed ->
  authenticate sb (s_room_id sa) (b64_encode sealed) =
    Some {| ci_id := id; ci_ts_ms := ts_ms; ci_seq := seq; ci_content := c |}.
Proof.
  intros Ha Hb Hpa Hpb Hka Hkb (Hroom & Hself & Hpeer & Hk) (Hroom' & Hself' & Hpeer' & Hk')
    Hn Hc Hid Hseal.
  destruct (record_facts _ _ _ Ha) as (Hla & Hpfa & _ & Hra).
  destruct (record_facts _ _ _ Hb) as (Hlb & Hpfb & _ & Hrb).
  rewrite Hpa in Hka, Hpfa, Hra. rewrite Hpb in Hkb, Hpfb, Hrb.
  rewrite session_keys_swap, Hka in Hkb. injection Hkb as <-.
  unfold seal_clip in Hseal. destruct (raw_content c) as [k raw] eqn:Hraw.
  apply rbind_Ok in Hseal as (encoded & Henc & Hseal).
  destruct (encode_envelope _) as [encoded'|] eqn:He; simplify_eq/=.
  apply envelope_codec in He as [_ Hdec].
  destruct (seal _ _ _ _) as [sealed'|] eqn:Hs; simplify_eq/=. apply open_sealed_seal in Hs; [|done].
  pose proof (decode_raw_content c Hc) as Hcontent. rewrite Hraw in Hcontent. simpl in Hcontent.
  unfold authenticate. rewrite bool_decide_eq_true_2 by (rewrite Hroom, Hroom', Hra, Hrb; apply room_id_comm).
  rewrite b64_roundtrip, Hk', Hpeer', Hself'. cbn.
  replace (aad (s_room_id sb) (peer_bundle_fp rb) (local_bundle_fp rb))
    with (aad (s_room_id sa) (s_self_fp sa) (s_peer_fp sa)).
  2: { rewrite Hroom, Hroom', Hself, Hpeer, Hra, Hrb, room_id_comm. congruence. }
  rewrite Hs. cbn. rewrite Hdec. cbn. rewrite Hid. cbn. by rewrite Hcontent.
Qed.

(** C1. A device with one session open at a time never reuses a sequence
    number: whatever clips are sent and received, whatever calls fail and wherever the process crashes or the
    machine loses power, the numbers of the envelopes ever sealed for the peer
    are strictly increasing. *)
Theorem sequence_numbers_never_reused
    `{Json SessionDocument, Json HistoryItem, Json Envelope, Base64, Sha256, Ed25519, X25519, Aead,
      UuidText, SessionCallback}
    identity record root hdir debug sys sys' :
  validate_record debug record identity = Ok tt -> ~ history_area hdir (session_path root) ->
  untouched root sys -> rtc (device_step identity record root hdir) sys sys' ->
  StronglySorted Z.lt (sealed_seqs (w_trace sys'.2)).
Proof.
  intros Hrec Harea Hun Hrtc. eapply device_reachable_inv in Hrtc; [|done..|by eapply untouched_inv].
  apply Hrtc.
Qed.

(** C2. The clipboard callback is at most once: over any run of a device, with
    replayed and reordered frames, failing calls, crashes and power losses,
    the callbacks fire for strictly increasing sequence numbers, so never
    twice for one clip. *)
Theorem callbacks_at_most_once
    `{Json SessionDocument, Json HistoryItem, Json Envelope, Base64, Sha256, Ed25519, X25519, Aead,
      UuidText, SessionCallback}
    identity record root hdir debug sys sys' :
  validate_record debug record identity = Ok tt -> ~ history_area hdir (session_path root) ->
  untouched root sys -> rtc (device_step identity record root hdir) sys sys' ->
  StronglySorted Z.lt (fired_seqs (w_trace sys'.2)) /\
  NoDup (fired_items (w_trace sys'.2)).
Proof.
  intros Hrec Harea Hun Hrtc. eapply device_reachable_inv in Hrtc; [|done..|by eapply untouched_inv].
  destruct Hrtc as [[[_ Hs] _] _]. split; [done|]. apply (NoDup_fmap_1 ci_seq).
  unfold fired_seqs in Hs. induction Hs as [|x l Hs IH Hx]; [constructor|].
  constructor; [|done]. intros Hin. eapply Forall_forall in Hx; [|done]. lia.
Qed.

(** C6. Delivery is ordered and keeps what it accepts: while [handle_clip] runs
    on a clip that is not accepted yet, at every crash point and at its end
    the clip is unaccepted or pending on stable storage or in the history on
    disk, and the callback has fired only if the clip is accepted and no
    longer pending on stable storage and in the history. *)
Theorem accepted_clip_is_kept
    `{Json SessionDocument, Json HistoryItem, Json Envelope, Base64, Sha256, Ed25519, X25519, Aead,
      UuidText, SessionCallback}
    root hdir key gen item (s : Session) room ct mailbox now_ms (w : world event) :
  root <> hdir /\ root <> images_dir hdir -> ready root hdir key gen s w ->
  authenticate s room ct = Some item ->
  stable (slot_ok (fun doc => last_seq (find_direction doc key gen) < ci_seq item)%Z)
    (session_path root) (w_disk w) ->
  let tag := negb (is_fresh mailbox (ci_ts_ms item) now_ms) in
  wpc (handle_clip s room ct mailbox now_ms)
    (fun _ w' => kept root hdir key gen item w' /\ announced root hdir key gen item tag (w_trace w) w')
    (fun w' => kept root hdir key gen item w' /\ announced root hdir key gen item tag (w_trace w) w') w.
Proof. intros Hroot Hready Hauth Hst. by apply wpc_handle_delivery. Qed.

(** Restart replays into the history only: opening a session whose receive
    direction holds pending entries adds exactly those to the history, in
    order and idempotently, keeps the high-water mark, clears them, and fires
    no callback. *)
Theorem restart_replays_pending
    `{Json SessionDocument, Json HistoryItem, Sha256, Ed25519, X25519}
    root hdir identity record h d (w : world event) :
  root <> hdir /\ root <> images_dir hdir -> supply_ok w -> hs_dir h = hdir ->
  consistent hdir (hs_items h) (w_disk w) ->
  stable (slot_ok (fun doc =>
      find_direction doc (rec_recv_key record) (generation identity) = d))
    (session_path root) (w_disk w) ->
  wpc (session_new identity record root h)
    (fun r w' => w_trace w' = w_trace w /\
       forall s, r = Ok s ->
         hs_items (s_history s) = replayed (hs_items h) (pending_history d) /\
         pending_history (s_recv_state s) = [] /\ last_seq (s_recv_state s) = last_seq d /\
         consistent hdir (hs_items (s_history s)) (w_disk w'))
    (fun w' => w_trace w' = w_trace w) w.
Proof. intros Hroot Hsup Hh Hc Hst. by apply wpc_session_new_replay. Qed.

(** ** Witnesses *)

Module SessionToy.
Import Toy ProtocolToy CryptoToy HistoryToy PairingToy.

Definition content_code (c : ClipContent) : string + bytes :=
  match c with CText t => inl t | CImage d => inr d end.
Definition content_uncode (c : string + bytes) : ClipContent :=
  match c with inl t => CText t | inr d => CImage d end.

#[global] Program Instance ClipContent_countable : Countable ClipContent :=
  inj_countable content_code (fun c => Some (content_uncode c)) _.
Next Obligation. by intros []. Qed.

#[global] Program Instance PendingItem_countable : Countable PendingItem :=
  inj_countable (fun p => (p_id p, p_ts_ms p, p_source p, p_content p))
    (fun '(i, t, s, c) => Some {| p_id := i; p_ts_ms := t; p_source := s; p_content := c |}) _.
Next Obligation. by intros []. Qed.

#[global] Program Instance DirectionState_countable : Countable DirectionState :=
  inj_countable (fun d => (ds_generation d, next_seq d, last_seq d, seen_ids d, pending_history d))
    (fun '(g, n, l, i, p) => Some {| ds_generation := g; next_seq := n; last_seq := l;
       seen_ids := i; pending_history := p |}) _.
Next Obligation. by intros []. Qed.

#[global] Program Instance SessionDocument_countable : Countable SessionDocument :=
  inj_countable directions (fun m => Some {| directions := m |}) _.
Next Obligation. by intros []. Qed.

#[local] Instance document_json : Json SessionDocument := toy_json SessionDocument.
#[local] Existing Instances history_json toy_base64 toy_sha256 toy_ed25519 toy_x25519 toy_aead toy_uuid.
#[local] Existing Instances frame_json envelope_json identity_json record_json.

#[local] Instance callback : SessionCallback := {|
  on_clip := fun _ _ => Returned (Ok tt);
  on_mailbox_clip := fun _ _ => Returned (Ok Deferred) |}.

Definition pair_record (self peer : Identity) : PairingRecord :=
  from_candidate {| pc_generation := 1; pc_server := "wss://relay";
    pc_local_bundle := public_bundle self; pc_peer_bundle := public_bundle peer |}.

Definition keys_of (self peer : Identity) : SessionKeys :=
  match session_keys self (public_bundle peer) with
  | Ok k => k
  | Err _ => {| key_send := []; key_recv := [] |}
  end.

Definition fresh_session (self peer : Identity) : Session :=
  opened (pair_record self peer) (keys_of self peer) "s" (direction_new 1) (direction_new 1)
    {| hs_dir := "h"; hs_items := [] |}.

Definition sample_id : string := "01234567-89ab-4cde-8f01-23456789abcd".
Definition sample_nonce : bytes := replicate 24 "n"%byte.

Definition sample_ciphertext : string :=
  match seal_clip sample_nonce (fresh_session alice bob) (CText "hi") sample_id 1 1000 with
  | Ok sealed => b64_encode sealed
  | Err _ => ""
  end.

Definition sample_item : ClipItem :=
  {| ci_id := sample_id; ci_ts_ms := 1000; ci_seq := 1; ci_content := CText "hi" |}.

Definition bob_room : string := s_room_id (fresh_session bob alice).

(** Bob's device after a live clip went through without any fault. *)
Definition after_clip : outcome (result InboundOutcome SessionError * Session) * world event :=
  handle_clip (fresh_session bob alice) bob_room sample_ciphertext false 1000 (empty_world []).

Lemma empty_consistent faults : consistent "h" [] (w_disk (empty_world (T := event) faults)).
Proof. split; [exact items_ok_nil|]. split; [done|]. by intros ?? ?%elem_of_nil. Qed.

Lemma empty_supply faults : supply_ok (empty_world (T := event) faults).
Proof. intros n Hin. apply list_elem_of_singleton in Hin. discriminate. Qed.

Lemma records_valid :
  validate_record false (pair_record alice bob) alice = Ok tt /\
  validate_record false (pair_record bob alice) bob = Ok tt.
Proof. split; vm_compute; reflexivity. Qed.

Lemma area_ok : ~ history_area "h" (session_path "s").
Proof. intros [H|H]; vm_compute in H; discriminate. Qed.

Lemma empty_untouched : untouched "s" (None, empty_world []).
Proof. by repeat split. Qed.

(** Opening a session on an empty disk. *)
Lemma first_open :
  exists sys, rtc (device_step bob (pair_record bob alice) "s" "h") (None, empty_world []) sys /\
    is_Some sys.1.
Proof.
  assert (match open_session bob (pair_record bob alice) "s" "h" (set_faults [] (empty_world [])) with
          | (Done r, _) => is_ok r
          | _ => false
          end = true) as H by (vm_compute; reflexivity).
  destruct (open_session _ _ _ _ _) as [[r|] w'] eqn:Ho; [|discriminate H].
  exists (ok r, w'). split; [|destruct r; [by eexists|discriminate H]].
  apply rtc_once, step_open. by exists [].
Qed.

Lemma sequence_numbers_never_reused_witness :
  exists sys : option Session * world event,
    is_Some sys.1 /\ StronglySorted Z.lt (sealed_seqs (w_trace sys.2)).
Proof.
  destruct first_open as (sys & Hr & Hs). exists sys. split; [exact Hs|].
  exact (sequence_numbers_never_reused bob (pair_record bob alice) "s" "h" false _ sys
    (proj2 records_valid) area_ok empty_untouched Hr).
Defined.

Lemma callbacks_at_most_once_witness :
  exists sys : option Session * world event,
    is_Some sys.1 /\ NoDup (fired_items (w_trace sys.2)).
Proof.
  destruct first_open as (sys & Hr & Hs). exists sys. split; [exact Hs|].
  exact (proj2 (callbacks_at_most_once bob (pair_record bob alice) "s" "h" false _ sys
    (proj2 records_valid) area_ok empty_untouched Hr)).
Defined.

Lemma sample_authenticates :
  authenticate (fresh_session bob alice) bob_room sample_ciphertext = Some sample_item.
Proof. vm_compute. reflexivity. Qed.

Lemma accepted_clip_is_kept_witness :
  wpc (handle_clip (fresh_session bob alice) bob_room sample_ciphertext false 1000)
    (fun _ w' => kept "s" "h" (rec_recv_key (pair_record bob alice)) 1 sample_item w')
    (fun w' => kept "s" "h" (rec_recv_key (pair_record bob alice)) 1 sample_item w')
    (empty_world [NoFault; NoFault; CrashNow 4]).
Proof.
  eapply wpc_mono; [apply (accepted_clip_is_kept "s" "h" (rec_recv_key (pair_record bob alice)) 1
    sample_item (fresh_session bob alice) bob_room sample_ciphertext false 1000)| |].
  - split; vm_compute; discriminate.
  - split_and!; [apply empty_supply|reflexivity..|apply empty_consistent].
  - exact sample_authenticates.
  - repeat split.
  - intros r w' H. exact (proj1 H).
  - intros w' H. exact (proj1 H).
Defined.

Lemma restart_replays_pending_witness :
  wpc (session_new bob (pair_record bob alice) "s" {| hs_dir := "h"; hs_items := [] |})
    (fun r w' => w_trace w' = []) (fun w' => w_trace w' = []) (empty_world []).
Proof.
  eapply wpc_mono; [apply (restart_replays_pending "s" "h" bob (pair_record bob alice)
    {| hs_dir := "h"; hs_items := [] |} (direction_new 1))| |].
  - split; vm_compute; discriminate.
  - apply empty_supply.
  - reflexivity.
  - apply empty_consistent.
  - repeat split.
  - intros r w' H. exact (proj1 H).
  - intros w' H. exact H.
Defined.

(** ** What a power loss can still take *)

Definition power_disk : disk := Disk (durable (w_disk after_clip.2)) (durable (w_disk after_clip.2)).

(** The clip is accepted, not pending and not in the history. *)
Definition lost (d : disk) : bool :=
  match contents (live d !! session_path "s") ≫= (fun b => ok (from_slice b)) with
  | Some doc =>
      bool_decide (last_seq (find_direction doc (rec_recv_key (pair_record bob alice)) 1)
                   = ci_seq sample_item) &&
      bool_decide (pending_history (find_direction doc (rec_recv_key (pair_record bob alice)) 1) = []) &&
      bool_decide (loaded "h" d = [])
  | None => false
  end.

Lemma durable_synced : map_Forall (fun _ f => f_synced f = true) (durable (w_disk after_clip.2)).
Proof.
  apply (bool_decide_eq_true_1 (map_Forall (fun _ f => f_synced f = true) (durable (w_disk after_clip.2)))).
  vm_compute. reflexivity.
Qed.

Lemma power_restart : restart (w_disk after_clip.2) power_disk.
Proof.
  apply restart_power. intros p. right.
  destruct (durable (w_disk after_clip.2) !! p) as [f|] eqn:Hp; simpl; [|done].
  split; [|done]. exact (durable_synced p f Hp).
Qed.

(** A finding: the history file is renamed into place without syncing its
    directory, while the session file is.  [after_clip] is [handle_clip] run on
    a live clip without any failing call; a power loss right after it can leave the
    high-water mark covering the clip and no pending entry, and the history
    without it: the clip is in no place a restart looks at. *)
Theorem power_loss_drops_handled_clip :
  exists s' w' d' doc,
    after_clip = (Done (Ok LiveApplied, s'), w') /\
    restart (w_disk w') d' /\
    contents (live d' !! session_path "s") ≫= (fun b => ok (from_slice b)) = Some doc /\
    last_seq (find_direction doc (rec_recv_key (pair_record bob alice)) 1) = ci_seq sample_item /\
    pending_history (find_direction doc (rec_recv_key (pair_record bob alice)) 1) = [] /\
    loaded "h" d' = [].
Proof.
  assert (match after_clip with (Done (Ok LiveApplied, _), _) => true | _ => false end = true) as Hrun
    by (vm_compute; reflexivity).
  assert (lost power_disk = true) as Hlost by (vm_compute; reflexivity).
  pose proof power_restart as Hr.
  destruct after_clip as [[[[[]|] s']|] w']; try discriminate Hrun.
  unfold lost in Hlost.
  destruct (contents (live power_disk !! session_path "s") ≫= (fun b => ok (from_slice b)))
    as [doc|] eqn:Hdoc; [|discriminate Hlost].
  apply andb_true_iff in Hlost as [[H1%bool_decide_eq_true H2%bool_decide_eq_true]%andb_true_iff
    H3%bool_decide_eq_true].
  exists s', w', power_disk, doc. exact (conj eq_refl (conj Hr (conj Hdoc (conj H1 (conj H2 H3))))).
Qed.
End SessionToy.
