(* ===== verification/SessionTyping.v ===== *)
(** * The session's state is well typed ([crates/core/src/session.rs])

    The ranges and shapes the Rust types and the code keep for the session:
    its counters are [u64]s, the next sequence number is never zero, the
    replay ring and the echo ring stay within their capacities without
    repeating an entry, identifiers are canonical uuids and echo hashes are
    digests, the history is a list the store accepts.  [session_well_typed]
    shows that no run of a device leaves it, through failing calls, crashes and
    restarts; the same predicate holds of every document a restart may read. *)

From S2P Require Import Prelude Fs Interfaces Protocol Crypto History Pairing Session.

Set Default Goal Selector "!".
#[local] Open Scope clip_scope.

Section typing.
Context {JD : Json SessionDocument} {JH : Json HistoryItem} {JE : Json Envelope}.
Context {B64 : Base64} {S256 : Sha256} {Ed : Ed25519} {X : X25519} {A : Aead} {U : UuidText}.
Context {CB : SessionCallback}.
Implicit Types (d : DirectionState) (w : world event) (s : Session).

Definition canonical (id : string) : Prop := uuid_parse id = Some id.

Definition direction_typed d : Prop :=
  (1 <= next_seq d <= u64_max)%Z /\ (0 <= last_seq d <= u64_max)%Z /\
  (length (seen_ids d) <= SEEN_IDS_RING /\ NoDup (seen_ids d) /\ Forall canonical (seen_ids d)) /\
  Forall (fun p => canonical (p_id p)) (pending_history d).

Definition doc_typed (doc : SessionDocument) : Prop := map_Forall (fun _ d => direction_typed d) (directions doc).

Definition echo_typed (hashes : list string) : Prop :=
  length hashes <= ECHO_RING /\ NoDup hashes /\ Forall (fun hash => lower_hex 64 hash = true) hashes.

Definition session_typed s : Prop :=
  direction_typed (s_send_state s) /\ direction_typed (s_recv_state s) /\ echo_typed (s_echo_hashes s) /\
  items_ok (hs_items (s_history s)).

(** ** The pure parts *)

Lemma direction_new_typed gen : direction_typed (direction_new gen).
Proof. unfold direction_typed, u64_max; simpl. split_and!; try lia; constructor. Qed.

Lemma find_direction_typed doc key gen : doc_typed doc -> direction_typed (find_direction doc key gen).
Proof.
  intros Hd. unfold find_direction. destruct (directions doc !! key) as [d|] eqn:Hk; [|apply direction_new_typed].
  case_bool; [by apply (Hd key)|apply direction_new_typed].
Qed.

Lemma insert_typed key d doc : direction_typed d -> doc_typed doc -> doc_typed (insert_direction key d doc).
Proof. intros Hd Hdoc. by apply map_Forall_insert_2. Qed.

(** Pushing a new entry on a ring of distinct ones. *)
Lemma ring_typed (P : string -> Prop) cap l x :
  x ∉ l -> NoDup l -> Forall P l -> P x ->
  length (push_ring cap l x) <= cap /\ NoDup (push_ring cap l x) /\ Forall P (push_ring cap l x).
Proof.
  intros Hx Hnd HP Hp. split_and!; [apply length_push_ring| |].
  - apply NoDup_keep_last, NoDup_app. split_and!; [done|set_solver|apply NoDup_singleton].
  - apply Forall_forall. intros y [Hy| ->]%elem_of_push_ring; [by eapply Forall_forall in HP|done].
Qed.

Lemma existsb_eq_false (l : list string) x : existsb (fun y => bool_decide (y = x)) l = false -> x ∉ l.
Proof.
  intros H Hx. apply list_elem_of_In in Hx. rewrite <- not_true_iff_false, existsb_exists in H. apply H.
  exists x. split; [done|]. by apply bool_decide_eq_true.
Qed.

Lemma register_content_typed c s : session_typed s -> session_typed (register_content c s).
Proof.
  intros Hty. pose proof Hty as (Hs & Hr & (_ & Hnd & Hall) & Hh). unfold register_content, register_echo.
  destruct c as [text|]; [|done]. destruct (existsb _ _) eqn:He; [done|]. unfold session_typed. simpl. split_and!; [done..| |done].
  apply ring_typed; [by apply existsb_eq_false|done..|]. apply (hex_lower_ok 32), length_sha256.
Qed.

Lemma delivered_typed item source d :
  direction_typed d -> (0 <= ci_seq item <= u64_max)%Z -> canonical (ci_id item) -> ci_id item ∉ seen_ids d ->
  direction_typed (delivered item source d).
Proof.
  intros (Hn & Hl & (_ & Hnd & Hc) & Hp) Hseq Hid Hnew. unfold direction_typed; simpl. split_and!; try lia.
  - apply length_push_ring.
  - by apply (ring_typed canonical).
  - by apply (ring_typed canonical).
  - apply Forall_app. split; [done|]. by apply Forall_singleton.
Qed.

Lemma pending_typed l d :
  direction_typed d -> Forall (fun p => canonical (p_id p)) l -> direction_typed (with_pending_history l d).
Proof. intros (Hn & Hl & Hs & _) Hp. exact (conj Hn (conj Hl (conj Hs Hp))). Qed.

Lemma cleared_typed item d : direction_typed d -> direction_typed (cleared item d).
Proof.
  intros Hd. apply pending_typed; [done|]. destruct Hd as (_ & _ & _ & Hp). apply Forall_forall.
  intros p [_ Hin]%list_elem_of_filter. by eapply Forall_forall in Hp.
Qed.

(** ** The history in memory *)

Definition ok_items (out : result unit HistoryError * HistoryStore) : Prop := items_ok (hs_items out.2).

Lemma store_content_kind h id c :
  returns (T := event) (fun r => forall k p, r = Ok (k, p) -> k = stored_kind id c) (store_content h id c).
Proof.
  destruct c; [by apply returns_ret; intros k p [= <- _]|]. apply returns_bind. intros [[]|]; apply returns_ret; [|done].
  by intros k p [= <- _].
Qed.

Lemma history_add_items h n : items_ok (hs_items h) -> returns (T := event) ok_items (history_add h n).
Proof.
  intros Hok. unfold history_add. destruct (existsb _ _) eqn:He; [by apply returns_ret|].
  eapply returns_bind_post; [apply store_content_kind|]. intros [[k image]|e] Hk; [|by apply returns_ret].
  rewrite (Hk k image eq_refl), push_item_spec by apply Hok. fold (stored_item n).
  assert (items_ok (push_ring HISTORY_CAP (hs_items h) (stored_item n))) as Hnew.
  { apply items_ok_push; [done|]. intros (x & Hx & Hin)%list_elem_of_fmap. rewrite <- not_true_iff_false, existsb_exists in He.
    apply He. exists x. split; [by apply list_elem_of_In|]. by apply bool_decide_eq_true. }
  apply returns_bind. intros [[]|e]; [|apply returns_bind; intros; by apply returns_ret].
  destruct (_ ≫= _); [apply returns_bind; intros r|]; by apply returns_ret.
Qed.

Lemma history_clear_items h : items_ok (hs_items h) -> returns (T := event) ok_items (history_clear h).
Proof.
  intros Hok. apply returns_bind. intros [[]|e]; [|by apply returns_ret].
  apply returns_bind. intros r. apply returns_ret, items_ok_nil.
Qed.

Lemma set_source_items h id src : items_ok (hs_items h) -> returns (T := event) ok_items (set_source h id src).
Proof.
  intros Hok. unfold set_source. destruct (list_find _ _) as [[i item]|] eqn:Hf; [|by apply returns_ret].
  destruct (source_transition _ _) eqn:Ht; [|by apply returns_ret]. apply returns_bind.
  intros [[]|]; apply returns_ret; [|done]. pose proof Hok as (_ & Hnd & _).
  pose proof (list_find_promote id src _ _ _ Hnd Hf) as Hup. apply list_find_Some in Hf as (_ & Hid & _).
  unfold promote in Hup at 2. rewrite bool_decide_eq_true_2, Ht in Hup by done.
  unfold ok_items; simpl in *. rewrite <- Hup. by apply items_ok_promote.
Qed.

Lemma history_new_items dir :
  returns (T := event) (fun r => forall h, r = Ok h -> hs_dir h = dir /\ items_ok (hs_items h)) (history_new dir).
Proof.
  apply returns_bind. intros []; [|by apply returns_ret].
  eapply (returns_bind_post (fun r => forall items, r = Ok items -> exists b, items = parse_items b)).
  { apply returns_bind. intros [b|[]]; apply returns_ret; try done; intros items [= <-]; [by exists b|]. by exists []. }
  intros [items|] Hi; [|by apply returns_ret]. destruct (Hi items eq_refl) as [b ->].
  apply returns_bind. intros []; apply returns_ret; [|done]. intros h [= <-]. split; [done|]. apply parse_items_ok.
Qed.

(** ** The operations *)

Variables (root hdir : string).
Hypothesis Harea : ~ history_area hdir (session_path root).
(** serde reads the sequence number of an envelope as a [u64]. *)
Hypothesis envelope_seq_u64 : forall b (e : Envelope), from_slice b = Ok e -> (0 <= env_seq e <= u64_max)%Z.

Definition disk_typed w : Prop := stable (slot_ok doc_typed) (session_path root) (w_disk w).

Definition state_typed s w : Prop :=
  disk_typed w /\ session_typed s /\ s_store s = root /\ hs_dir (s_history s) = hdir.

Lemma disk_typed_history w w' : within (history_area hdir) w w' -> disk_typed w -> disk_typed w'.
Proof. intros [_ Hp] Hd. by eapply preserves_stable. Qed.

Lemma wpc_commit_typed key d w :
  disk_typed w -> direction_typed d -> wpc (commit_direction root key d None) (fun _ => disk_typed) disk_typed w.
Proof.
  intros Hw Hd. eapply wpc_mono; [apply (wpc_commit_direction root key d doc_typed w Hw)| |].
  - intros doc. by apply insert_typed.
  - by intros r w' (_ & Hs & _).
  - by intros w' [_ Hs].
Qed.

Lemma wpc_commit_recv_typed s d w :
  state_typed s w -> direction_typed d ->
  wpc (commit_recv s d) (fun out w' => state_typed out.2 w' /\ (out.1 = Ok tt -> s_recv_state out.2 = d)) disk_typed w.
Proof.
  intros (Hw & (Hs & Hr & He & Hh) & Hroot & Hdir) Hd. apply wpc_bind. rewrite Hroot.
  eapply wpc_mono; [by apply wpc_commit_typed| |done]. intros [[]|e] w' Hw'; apply wpc_ret; (split; [|done]).
  - exact (conj Hw' (conj (conj Hs (conj Hd (conj He Hh))) (conj Hroot Hdir))).
  - exact (conj Hw' (conj (conj Hs (conj Hr (conj He Hh))) (conj Hroot Hdir))).
Qed.

Lemma wpc_reserve_typed s w :
  state_typed s w -> wpc (reserve_seq s) (fun out w' => state_typed out.2 w') disk_typed w.
Proof.
  intros Hst. pose proof Hst as (Hw & (Hs & Hr & He & Hh) & Hroot & Hdir). unfold reserve_seq.
  destruct (checked_add_u64 _ 1) as [next|] eqn:Ha; [|by apply wpc_ret].
  apply checked_add_u64_Some in Ha as [-> Hmax]. pose proof Hs as (Hn & Hl & Hseen & Hp).
  assert (direction_typed (with_next_seq (next_seq (s_send_state s) + 1) (s_send_state s))) as Hd.
  { unfold direction_typed. simpl. split_and!; try lia; try apply Hseen. done. }
  apply wpc_bind. rewrite Hroot. eapply wpc_mono; [by apply wpc_commit_typed| |done].
  intros [[]|e] w' Hw'; apply wpc_ret.
  - exact (conj Hw' (conj (conj Hd (conj Hr (conj He Hh))) (conj Hroot Hdir))).
  - exact (conj Hw' (conj (conj Hs (conj Hr (conj He Hh))) (conj Hroot Hdir))).
Qed.

Lemma wpc_on_history_typed s (m : HistoryStore -> io event (result unit HistoryError * HistoryStore)) w :
  state_typed s w -> inside (history_area hdir) (m (s_history s)) -> returns (same_dir (s_history s)) (m (s_history s)) ->
  (items_ok (hs_items (s_history s)) -> returns ok_items (m (s_history s))) ->
  wpc (on_history s m) (fun out w' => state_typed out.2 w' /\ s_recv_state out.2 = s_recv_state s) disk_typed w.
Proof.
  intros (Hw & (Hs & Hr & He & Hh) & Hroot & Hdir) Hin Hsame Hitems. apply wpc_bind.
  eapply wpc_mono; [eapply wpc_returns; [exact Hsame|eapply wpc_returns; [by apply Hitems|apply Hin]]| |].
  - intros [r h] w' (Hd & Hok & Hwi). apply wpc_ret. pose proof (disk_typed_history _ _ Hwi Hw) as H.
    unfold same_dir in Hd; simpl in Hd. split; [|done].
    exact (conj H (conj (conj Hs (conj Hr (conj He Hok))) (conj Hroot (eq_trans Hd Hdir)))).
  - intros w' Hwi. by eapply disk_typed_history.
Qed.

Lemma wpc_add_typed s n w :
  state_typed s w ->
  wpc (on_history s (fun h => history_add h n))
    (fun out w' => state_typed out.2 w' /\ s_recv_state out.2 = s_recv_state s) disk_typed w.
Proof.
  intros Hs. apply wpc_on_history_typed; [done| |apply history_add_dir|apply history_add_items].
  destruct Hs as (_ & _ & _ & <-). apply inside_history_add.
Qed.

Lemma wpc_source_typed s id src w :
  state_typed s w ->
  wpc (on_history s (fun h => set_source h id src))
    (fun out w' => state_typed out.2 w' /\ s_recv_state out.2 = s_recv_state s) disk_typed w.
Proof.
  intros Hs. apply wpc_on_history_typed; [done| |apply set_source_dir|apply set_source_items].
  destruct Hs as (_ & _ & _ & <-). apply inside_set_source.
Qed.

Lemma state_typed_register c s w : state_typed s w -> state_typed (register_content c s) w.
Proof.
  intros (Hw & Hty & Hroot & Hdir). pose proof (register_content_typed c s Hty).
  unfold register_content, register_echo in *. destruct c; [|done]. by destruct (existsb _ _).
Qed.

Lemma wpc_send_typed nonce s c ts_ms fail_at w :
  state_typed s w ->
  wpc (send_clip_with_fault nonce s c ts_ms fail_at) (fun out w' => state_typed out.2 w') disk_typed w.
Proof.
  intros Hs. unfold send_clip_with_fault. destruct (oversize_image c); [by apply wpc_ret|].
  apply wpc_st_try. eapply wpc_mono; [by apply wpc_reserve_typed| |done]. intros [[seq|e] s1] w1 Hs1; [|done].
  case_bool_decide; [by apply wpc_ret|]. apply wpc_bind, wpc_new_v4. simpl in Hs1.
  destruct (seal_clip _ _ _ _ _ _); [|by apply wpc_ret]. apply wpc_bind, wpc_emit, wpc_st_try.
  eapply wpc_mono; [by apply wpc_add_typed| |done]. intros [[[]|e] s2] w2 [Hs2 _]; [|done].
  apply wpc_ret. by apply state_typed_register.
Qed.

Lemma authenticate_typed s room ct item :
  authenticate s room ct = Some item -> (0 <= ci_seq item <= u64_max)%Z /\ canonical (ci_id item).
Proof.
  unfold authenticate. destruct (negb _); [done|]. intros (sealed & _ & H)%bind_Some. apply bind_Some in H as (plain & _ & H).
  apply bind_Some in H as (env & Henv & H). apply bind_Some in H as (id & Hid & H). apply bind_Some in H as (c & _ & [= <-]).
  simpl. split; [|by eapply uuid_canonical]. unfold decode_envelope in Henv.
  destruct (ensure_size _ _); [|done]. destruct (from_slice plain) as [e|] eqn:He; [|done]. simpl in Henv.
  destruct (validate_envelope e); [|done]. injection Henv as <-. by eapply envelope_seq_u64.
Qed.

Lemma wpc_apply_typed s item fresh fail_at w :
  state_typed s w -> wpc (apply_clip s item fresh fail_at) (fun out w' => state_typed out.2 w') disk_typed w.
Proof.
  intros Hs. unfold apply_clip, invoke_callback.
  destruct fresh; apply wpc_bind, wpc_bind; unfold get_trace; apply wpc_bind, wpc_emit, wpc_ret.
  - destruct (match on_clip _ _ with Returned _ => _ | Panics => _ end); apply wpc_ret; [by apply state_typed_register|done].
  - destruct (match on_mailbox_clip _ _ with Returned _ => _ | Panics => _ end) as [[]|]; [|by apply wpc_ret..].
    case_bool_decide; [by apply wpc_ret|]. apply wpc_st_try. eapply wpc_mono; [by apply wpc_source_typed| |done].
    intros [[[]|e] s2] w2 [Hs2 _]; [|done]. case_bool_decide; apply wpc_ret; [done|by apply state_typed_register].
Qed.

Lemma wpc_handle_typed s room ct mailbox now_ms fail_at w :
  state_typed s w ->
  wpc (handle_clip_with_fault s room ct mailbox now_ms fail_at) (fun out w' => state_typed out.2 w') disk_typed w.
Proof.
  intros Hs. unfold handle_clip_with_fault. destruct (authenticate s room ct) as [item|] eqn:Ha; [|by apply wpc_ret].
  destruct (authenticate_typed _ _ _ _ Ha) as [Hseq Hid]. destruct (existsb _ _) eqn:He; [by apply wpc_ret|].
  destruct (_ <=? _)%Z; [by apply wpc_ret|]. pose proof Hs as (_ & (_ & Hr & _) & _).
  apply wpc_st_try. eapply wpc_mono; [apply wpc_commit_recv_typed; [done|]| |done].
  { apply delivered_typed; [done..|]. by apply existsb_eq_false. }
  intros [[[]|e] s1] w1 [Hs1 _]; [|done]. case_bool_decide; [by apply wpc_ret|].
  apply wpc_st_try. eapply wpc_mono; [by apply wpc_add_typed| |done].
  intros [[[]|e] s2] w2 [Hs2 _]; [|done]. case_bool_decide; [by apply wpc_ret|].
  apply wpc_st_try. eapply wpc_mono; [apply wpc_commit_recv_typed; [done|]| |done].
  { apply cleared_typed. by destruct Hs2 as (_ & (_ & ? & _) & _). }
  intros [[[]|e] s3] w3 [Hs3 _]; [|done]. case_bool_decide; [by apply wpc_ret|]. by apply wpc_apply_typed.
Qed.

Lemma wpc_op_typed s op w :
  state_typed s w -> wpc (run_session_op s op) (fun s' w' => state_typed s' w') disk_typed w.
Proof.
  intros Hs. destruct op as [nonce c ts f|room ct mb now f|id|]; apply wpc_bind.
  - eapply wpc_mono; [by apply wpc_send_typed| |done]. done.
  - eapply wpc_mono; [by apply wpc_handle_typed| |done]. done.
  - apply wpc_st_try. eapply wpc_mono; [by apply wpc_source_typed| |done].
    intros [[[]|e] s1] w1 [Hs1 _]; [|done]. apply wpc_ret. simpl in *. apply wpc_ret.
    destruct (find_item _ _) as [item|]; [|done]. destruct (h_kind item) as [t|f]; [|done].
    by apply (state_typed_register (CText t)).
  - eapply wpc_mono; [apply wpc_on_history_typed; [done| |apply history_clear_dir|apply history_clear_items]| |done].
    + destruct Hs as (_ & _ & _ & <-). apply inside_history_clear.
    + by intros out w1 [Hs1 _].
Qed.

(** ** Opening, and the device over time *)

Lemma replay_items h pending :
  items_ok (hs_items h) ->
  returns (T := event) (fun out => items_ok (hs_items out.2)) (replay_pending h pending).
Proof.
  revert h; induction pending as [|p pending IH]; intros h Hh; [by apply returns_ret|].
  eapply returns_bind_post; [by apply history_add_items|]. intros [[[]|e] h'] Hok; [by apply IH|by apply returns_ret].
Qed.

Lemma wpc_load_typed key gen w :
  disk_typed w ->
  wpc (load_direction root key gen)
    (fun r w' => disk_typed w' /\ forall d, r = Ok d -> direction_typed d) disk_typed w.
Proof.
  intros Hw. eapply wpc_mono; [by apply (wpc_load_direction root key gen doc_typed)| |].
  - intros r w' [(Hd & _) Hok]. unfold disk_typed. rewrite Hd. split; [done|].
    intros d (doc & Hdoc & ->)%Hok. by apply find_direction_typed.
  - intros w' (Hd & _). unfold disk_typed. by rewrite Hd.
Qed.

Lemma opened_typed record keys send recv h w :
  disk_typed w -> direction_typed send -> direction_typed recv -> items_ok (hs_items h) -> hs_dir h = hdir ->
  state_typed (opened record keys root send recv h) w.
Proof.
  intros Hw Hs Hr Hh Hdir. split; [done|]. split; [|done]. split; [done|]. split; [done|]. split; [|done].
  split; [simpl; lia|]. split; constructor.
Qed.

Lemma wpc_session_new_typed identity record h w :
  disk_typed w -> items_ok (hs_items h) -> hs_dir h = hdir ->
  wpc (session_new identity record root h)
    (fun r w' => disk_typed w' /\ forall s, r = Ok s -> state_typed s w') disk_typed w.
Proof.
  intros Hw Hh Hdir. unfold session_new. destruct (_ || _); [by apply wpc_ret|].
  destruct (session_keys _ _) as [keys|e]; [|by apply wpc_ret].
  apply wpc_try. eapply wpc_mono; [by apply wpc_load_typed| |done]. intros [send|e] w1 [Hw1 Hs]; [|done].
  apply wpc_try. eapply wpc_mono; [by apply wpc_load_typed| |done]. intros [recv|e] w2 [Hw2 Hr]; [|done].
  specialize (Hs send eq_refl). specialize (Hr recv eq_refl). case_bool_decide.
  { apply wpc_ret. split; [done|]. intros s [= <-]. by apply opened_typed. }
  apply wpc_bind. eapply wpc_mono;
    [eapply wpc_returns; [by apply (replay_dir hdir)|eapply wpc_returns; [by apply replay_items|by apply (inside_replay hdir)]]| |].
  2: { intros w' Hwi. by eapply disk_typed_history. }
  intros [[[]|e] h'] w3 (Hd & Hok & Hwi); pose proof (disk_typed_history _ _ Hwi Hw2) as Hw3; [|by apply wpc_ret].
  assert (direction_typed (with_pending_history [] recv)) as Hr' by (by apply pending_typed).
  apply wpc_try. eapply wpc_mono; [by apply wpc_commit_typed| |done]. intros [[]|e] w4 Hw4; [|done].
  apply wpc_ret. split; [done|]. intros s [= <-]. by apply opened_typed.
Qed.

Lemma wpc_open_typed identity record w :
  disk_typed w ->
  wpc (open_session identity record root hdir)
    (fun r w' => disk_typed w' /\ forall s, r = Ok s -> state_typed s w') disk_typed w.
Proof.
  intros Hw. apply wpc_try, wpc_try.
  eapply wpc_mono; [apply (inside_create_dir_all (T := event) (history_area hdir))| |].
  2: { intros w' Hwi. by eapply disk_typed_history. }
  intros [[]|e] w1 Hwi; pose proof (disk_typed_history _ _ Hwi Hw) as Hw1; [|done]. apply wpc_ret, wpc_try.
  eapply wpc_mono; [eapply wpc_returns; [apply history_new_items|apply inside_history_new]| |].
  2: { intros w' Hwi2. by eapply disk_typed_history. }
  intros [h|e] w2 [Hh Hwi2]; pose proof (disk_typed_history _ _ Hwi2 Hw1) as Hw2; [|done].
  destruct (Hh h eq_refl) as [Hdir Hok]. by apply wpc_session_new_typed.
Qed.

Definition device_typed (sys : option Session * world event) : Prop :=
  disk_typed sys.2 /\ forall s, sys.1 = Some s -> state_typed s sys.2.

Lemma device_step_typed identity record sys sys' :
  device_step identity record root hdir sys sys' -> device_typed sys -> device_typed sys'.
Proof.
  assert (forall w w', rebooted w w' -> disk_typed w -> disk_typed w') as Hboot.
  { intros w w' [Hr _] Hw. by eapply restart_stable. }
  intros Hstep [Hw Hs]. destruct Hstep as [r w w' Hr|s op s' w w' Hr|w w1 w2 Hr Hb|s op w w1 w2 Hr Hb|s w|o w w' Hb];
    simpl in *.
  - eapply (wpc_runs _ _ _ _ _ _ (fun fs => wpc_open_typed identity record (set_faults fs w) Hw)) in Hr.
    destruct Hr as [Hw' Hok]. split; [done|]. simpl. intros s Hrs. apply Hok. by destruct r; simplify_eq/=.
  - eapply (wpc_runs _ _ _ _ _ _ (fun fs => wpc_op_typed s op (set_faults fs w) (Hs s eq_refl))) in Hr.
    split; [apply Hr|]. by intros ? [= <-].
  - eapply (wpc_runs _ _ _ _ _ _ (fun fs => wpc_open_typed identity record (set_faults fs w) Hw)) in Hr.
    split; [by eapply Hboot|done].
  - eapply (wpc_runs _ _ _ _ _ _ (fun fs => wpc_op_typed s op (set_faults fs w) (Hs s eq_refl))) in Hr.
    split; [by eapply Hboot|done].
  - by split.
  - split; [by eapply Hboot|done].
Qed.
End typing.

(** C21. The state of a session is well typed on every run of a device that
    starts without a session file, whatever it opens, sends, receives, applies
    and clears, and through failing calls, crashes, power losses and restarts.
    Both counters stay [u64]s and the next sequence number is at least 1; the
    replay ring and the echo ring hold at most 64 distinct entries, canonical
    identifiers and digests; the history is within its capacity with distinct items; and every
    document a restart may find on the disk has the same types. *)
Theorem session_well_typed {JD : Json SessionDocument} {JH : Json HistoryItem} {JE : Json Envelope}
    {B64 : Base64} {S256 : Sha256} {Ed : Ed25519} {X : X25519} {A : Aead} {U : UuidText} {CB : SessionCallback}
    (root hdir : string) identity record w0 o w :
  ~ history_area hdir (session_path root) ->
  (forall b (e : Envelope), from_slice b = Ok e -> (0 <= env_seq e <= u64_max)%Z) ->
  stable (fun content => content = None) (session_path root) (w_disk w0) ->
  rtc (device_step identity record root hdir) (None, w0) (o, w) ->
  (forall s, o = Some s -> session_typed s) /\ stable (slot_ok doc_typed) (session_path root) (w_disk w).
Proof.
  intros Harea Hjson Hw0 Hrun.
  assert (device_typed root hdir (o, w)) as [Hd Hs].
  { eapply (rtc_ind_r (device_typed root hdir)); [| |exact Hrun].
    - split; [|done]. eapply stable_mono; [|exact Hw0]. intros content ->. apply map_Forall_empty.
    - intros y z _ Hyz Hy. by eapply device_step_typed. }
  split; [|done]. intros s Ho. by destruct (Hs s Ho) as (_ & ? & _).
Qed.

Module TypingToy.
Import Toy ProtocolToy CryptoToy HistoryToy PairingToy SessionToy.
#[local] Existing Instances history_json toy_base64 toy_sha256 toy_ed25519 toy_x25519 toy_aead toy_uuid.
#[local] Existing Instances document_json identity_json record_json callback.

(** A codec that, as serde does, has no envelope with a number out of range. *)
Definition in_u64 (e : Envelope) : bool := (0 <=? env_seq e)%Z && (env_seq e <=? u64_max)%Z.
Definition to_typed (e : Envelope) : result bytes string := if in_u64 e then to_vec (Json := envelope_json) e else Err "range".
Definition of_typed (b : bytes) : result Envelope string :=
  e ←? from_slice (Json := envelope_json) b; if in_u64 e then Ok e else Err "range".
#[local] Program Instance typed_json : Json Envelope := {|
  to_vec := to_typed; to_vec_pretty := to_typed; from_slice := of_typed |}.
Next Obligation.
  intros a b. unfold to_typed, of_typed. destruct (in_u64 a) eqn:Ha; [|done]. intros H.
  rewrite (json_compact _ _ H). simpl. by rewrite Ha.
Qed.
Next Obligation.
  intros a b. unfold to_typed, of_typed. destruct (in_u64 a) eqn:Ha; [|done]. intros H.
  rewrite (json_compact _ _ H). simpl. by rewrite Ha.
Qed.
Next Obligation.
  intros a b. unfold to_typed, of_typed. destruct (in_u64 a) eqn:Ha; [|done]. intros H.
  rewrite (json_pretty_line (Json := envelope_json) _ _ H). simpl. by rewrite Ha.
Qed.
Next Obligation.
  intros a b. unfold to_typed. destruct (in_u64 a); [|done]. apply json_one_line.
Qed.

Lemma of_typed_range b e : of_typed b = Ok e -> (0 <= env_seq e <= u64_max)%Z.
Proof.
  unfold of_typed. destruct (from_slice b) as [e'|]; [|done]. simpl. destruct (in_u64 e') eqn:H; [|done].
  intros [= <-]. unfold in_u64 in H. bool_to_prop. lia.
Qed.

(** Bob opens a session on an empty disk and sends a clip. *)
Definition opening : outcome (result Session SessionError) * world event :=
  open_session bob (pair_record bob alice) "s" "h" (empty_world []).
Definition bob_opened : Session :=
  match opening.1 with Done (Ok s) => s | _ => fresh_session bob alice end.
Definition sending : outcome Session * world event :=
  run_session_op bob_opened (Send sample_nonce (CText "hi") 1000 None) (set_faults [] opening.2).
Definition bob_after : Session := match sending.1 with Done s => s | Crashed => bob_opened end.

Lemma bob_runs : rtc (device_step bob (pair_record bob alice) "s" "h") (None, empty_world []) (Some bob_after, sending.2).
Proof.
  assert (match opening.1 with Done r => is_ok r | Crashed => false end = true) as H1 by (vm_compute; reflexivity).
  assert (match sending.1 with Done _ => true | Crashed => false end = true) as H2 by (vm_compute; reflexivity).
  apply (rtc_l _ _ (Some bob_opened, opening.2)).
  - unfold bob_opened. destruct opening as [[[s|e]|] w] eqn:Ho; [|discriminate H1..].
    apply (step_open _ _ _ _ (Ok s)). by exists [].
  - apply rtc_once, (step_op _ _ _ _ _ (Send sample_nonce (CText "hi") 1000 None)). exists []. fold sending.
    unfold bob_after. by destruct sending as [[s|] w].
Qed.

Lemma session_well_typed_witness : next_seq (s_send_state bob_after) = 2%Z /\ session_typed bob_after.
Proof.
  split; [vm_compute; reflexivity|].
  refine (proj1 (session_well_typed "s" "h" bob (pair_record bob alice) (empty_world []) (Some bob_after) sending.2
    area_ok of_typed_range _ bob_runs) bob_after eq_refl).
  by repeat split.
Defined.
End TypingToy.
