(* ===== verification/Registry.v ===== *)
(** * The room registry ([crates/server/src/registry.rs])

    Which two identities form a room.  The trait [Registry] is a type class of
    operations; [InMemoryRegistry] and [PersistentRegistry] are its instances.
    What a client of the trait may rely on is the class [RegistrySpec], proved
    for both.  A method that locks the map and may write the disk is a
    function to the result and the new registry; the time is an argument. *)

From S2P Require Import Prelude Fs Interfaces.
From Stdlib Require Import Strings.Byte Sorted.

Set Default Goal Selector "!".
#[local] Open Scope clip_scope.

Definition REGISTRY_FILE : string := "rooms.json".
Definition REGISTRY_TEMP_FILE : string := ".rooms.json.tmp".
Definition REGISTRY_MAX_ROOMS : nat := 100.

Inductive RegistryCommit := Created | Existing.

Record RoomRecord := {
  members : string * string; created_at_ms : Z; activated_at_ms : option Z;
  activated_members : gset string
}.

Definition reg_validate_room_id (room_id : string) : result unit io_error :=
  if lower_hex 32 room_id then Ok tt else Err InvalidInput.

(** Distinct 64-digit fingerprints, in canonical order. *)
Definition validate_members (ms : string * string) : result (string * string) io_error :=
  if bool_decide (ms.1 = ms.2) then Err InvalidInput
  else if negb (lower_hex 64 ms.1) || negb (lower_hex 64 ms.2) then Err InvalidInput
  else Ok (if str_leb ms.1 ms.2 then ms else (ms.2, ms.1)).

Definition record_new (ms : string * string) (created_at : Z) : result RoomRecord io_error :=
  canonical ←? validate_members ms;
  Ok {| members := canonical; created_at_ms := created_at; activated_at_ms := None;
        activated_members := ∅ |}.

Abbreviation rooms_map := (gmap string RoomRecord).

(** [record.members.to_vec()], and [contains]. *)
Definition members_vec (r : RoomRecord) : list string := [(members r).1; (members r).2].

(** ** The trait *)

Class Registry (T R : Type) := {
  lookup_members : R -> string -> list string;
  commit_room : R -> string -> string * string -> Z -> io T (result RegistryCommit io_error * R);
  activate_on_first_join : R -> string -> string -> Z -> io T (result bool io_error * R);
  prune_unactivated : R -> Z -> io T (result nat io_error * R)
}.

(** ** Shared pieces of the two implementations *)

Definition lookup_in (rooms : rooms_map) (room_id : string) : list string :=
  match rooms !! room_id with Some record => members_vec record | None => [] end.

(** What [commit_room] does before it inserts: an early answer or the new record. *)
Inductive commit_check := Answer (r : result RegistryCommit io_error) | Insert (record : RoomRecord).

Definition check_commit (rooms : rooms_map) (room_id : string) (ms : string * string) (created_at : Z) :
    commit_check :=
  match reg_validate_room_id room_id with
  | Err e => Answer (Err e)
  | Ok _ =>
      match record_new ms created_at with
      | Err e => Answer (Err e)
      | Ok record =>
          match rooms !! room_id with
          | Some existing =>
              if bool_decide (members existing = members record) then Answer (Ok Existing)
              else Answer (Err AlreadyExists)
          | None =>
              if bool_decide (REGISTRY_MAX_ROOMS <= size rooms) then Answer (Err OtherError)
              else Insert record
          end
      end
  end.

Definition set_activated (record : RoomRecord) (at_ms : Z) (fp : string) : RoomRecord :=
  {| members := members record; created_at_ms := created_at_ms record;
     activated_at_ms := Some at_ms; activated_members := {[fp]} ∪ activated_members record |}.

(** The predicate [prune_unactivated] retains rooms by. *)
Definition retained (cutoff_ms : Z) (record : RoomRecord) : bool :=
  match activated_at_ms record with Some _ => true | None => (cutoff_ms <=? created_at_ms record)%Z end.

Definition prune (cutoff_ms : Z) (rooms : rooms_map) : rooms_map :=
  filter (fun kv => retained cutoff_ms kv.2 = true) rooms.

(** ** In memory *)

Record InMemoryRegistry := { mem_rooms : rooms_map }.

Definition mem_commit_room {T} (self : InMemoryRegistry) (room_id : string) (ms : string * string)
    (created_at : Z) : io T (result RegistryCommit io_error * InMemoryRegistry) :=
  mret match check_commit (mem_rooms self) room_id ms created_at with
       | Answer r => (r, self)
       | Insert record => (Ok Created, {| mem_rooms := <[room_id := record]> (mem_rooms self) |})
       end.

Definition mem_activate {T} (self : InMemoryRegistry) (room_id member_fp : string) (activated_at : Z) :
    io T (result bool io_error * InMemoryRegistry) :=
  mret match mem_rooms self !! room_id with
       | None => (Ok false, self)
       | Some record =>
           if negb (bool_decide (member_fp ∈ members_vec record)) then (Ok false, self)
           else
             let marked := {| members := members record; created_at_ms := created_at_ms record;
                              activated_at_ms := activated_at_ms record;
                              activated_members := {[member_fp]} ∪ activated_members record |} in
             match activated_at_ms record with
             | Some _ => (Ok false, {| mem_rooms := <[room_id := marked]> (mem_rooms self) |})
             | None =>
                 (Ok true, {| mem_rooms := <[room_id := set_activated record activated_at member_fp]>
                                             (mem_rooms self) |})
             end
       end.

Definition mem_prune {T} (self : InMemoryRegistry) (cutoff_ms : Z) :
    io T (result nat io_error * InMemoryRegistry) :=
  let rooms := prune cutoff_ms (mem_rooms self) in
  mret (Ok (size (mem_rooms self) - size rooms), {| mem_rooms := rooms |}).

#[global] Instance memory_registry {T} : Registry T InMemoryRegistry := {|
  lookup_members := fun self => lookup_in (mem_rooms self);
  commit_room := mem_commit_room;
  activate_on_first_join := mem_activate;
  prune_unactivated := mem_prune |}.

(** ** On disk *)

Record DiskRoom := {
  d_room_id : string; d_members : list string; d_created_at_ms : Z; d_activated_at_ms : option Z
}.

Record DiskRegistry := { d_rooms : list DiskRoom }.

#[global] Instance DiskRoom_eq_decision : EqDecision DiskRoom.
Proof. solve_decision. Defined.
#[global] Instance DiskRegistry_eq_decision : EqDecision DiskRegistry.
Proof. solve_decision. Defined.

Definition to_row (kv : string * RoomRecord) : DiskRoom :=
  {| d_room_id := kv.1; d_members := members_vec kv.2; d_created_at_ms := created_at_ms kv.2;
     d_activated_at_ms := activated_at_ms kv.2 |}.

(** [sort_by] on the room identifier: a stable insertion sort. *)
Fixpoint insert_row (row : DiskRoom) (rows : list DiskRoom) : list DiskRoom :=
  match rows with
  | [] => [row]
  | r :: rows =>
      if str_leb (d_room_id row) (d_room_id r) then row :: r :: rows else r :: insert_row row rows
  end.

Fixpoint sort_rows (rows : list DiskRoom) : list DiskRoom :=
  match rows with [] => [] | r :: rows => insert_row r (sort_rows rows) end.

(** The map's iteration order does not matter: the rows are sorted. *)
Definition from_rooms (rooms : rooms_map) : DiskRegistry :=
  {| d_rooms := sort_rows (to_row <$> map_to_list rooms) |}.

Definition into_record (row : DiskRoom) : result (string * RoomRecord) io_error :=
  _ ←? reg_validate_room_id (d_room_id row);
  ms ←? match d_members row with [a; b] => Ok (a, b) | _ => Err InvalidData end;
  record ←? record_new ms (d_created_at_ms row);
  Ok (d_room_id row,
      {| members := members record; created_at_ms := created_at_ms record;
         activated_at_ms := d_activated_at_ms row; activated_members := activated_members record |}).

(** The loop of [open]: invalid and duplicate rows are skipped. *)
Fixpoint load_rows (rooms : rooms_map) (rows : list DiskRoom) : rooms_map :=
  match rows with
  | [] => rooms
  | row :: rows =>
      match into_record row with
      | Ok (room_id, record) =>
          load_rows (if bool_decide (rooms !! room_id = None) then <[room_id := record]> rooms else rooms) rows
      | Err _ => load_rows rooms rows
      end
  end.

Record PersistentRegistry := { reg_root : string; reg_rooms : rooms_map }.

Definition registry_path (root : string) : path := Path root REGISTRY_FILE.
Definition registry_temp (root : string) : path := Path root REGISTRY_TEMP_FILE.

Section persistent.
Context {T : Type} {JR : Json DiskRegistry}.

Definition registry_open (root : string) : io T (result PersistentRegistry io_error) :=
  _ ←! create_dir_all;
  found ← exists_path (registry_path root);
  if found : bool then
    b ←! read (registry_path root);
    mret match from_slice b with
         | Err _ => Err InvalidData
         | Ok disk => Ok {| reg_root := root; reg_rooms := load_rows ∅ (d_rooms disk) |}
         end
  else mret (Ok {| reg_root := root; reg_rooms := ∅ |}).

Definition registry_persist (self : PersistentRegistry) (rooms : rooms_map) : io T (result unit io_error) :=
  match to_vec_pretty (from_rooms rooms) with
  | Err _ => mret (Err OtherError)
  | Ok encoded =>
      _ ←! open_truncate (registry_temp (reg_root self));
      _ ←! write_sync_rename (registry_temp (reg_root self)) (registry_path (reg_root self)) encoded;
      open_sync_dir (reg_root self)
  end.

(** [self.persist(&next)?; *rooms = next]. *)
Definition replace_rooms {A} (self : PersistentRegistry) (next : rooms_map) (a : A) :
    io T (result A io_error * PersistentRegistry) :=
  r ← registry_persist self next;
  mret match r with
       | Err e => (Err e, self)
       | Ok _ => (Ok a, {| reg_root := reg_root self; reg_rooms := next |})
       end.

Definition reg_commit_room (self : PersistentRegistry) (room_id : string) (ms : string * string)
    (created_at : Z) : io T (result RegistryCommit io_error * PersistentRegistry) :=
  match check_commit (reg_rooms self) room_id ms created_at with
  | Answer r => mret (r, self)
  | Insert record => replace_rooms self (<[room_id := record]> (reg_rooms self)) Created
  end.

Definition reg_activate (self : PersistentRegistry) (room_id member_fp : string) (activated_at : Z) :
    io T (result bool io_error * PersistentRegistry) :=
  match reg_rooms self !! room_id with
  | None => mret (Ok false, self)
  | Some current =>
      if bool_decide (is_Some (activated_at_ms current)) ||
         negb (bool_decide (member_fp ∈ members_vec current))
      then mret (Ok false, self)
      else replace_rooms self
             (<[room_id := set_activated current activated_at member_fp]> (reg_rooms self)) true
  end.

Definition reg_prune (self : PersistentRegistry) (cutoff_ms : Z) :
    io T (result nat io_error * PersistentRegistry) :=
  let next := prune cutoff_ms (reg_rooms self) in
  let removed := size (reg_rooms self) - size next in
  if bool_decide (removed = 0) then mret (Ok removed, self) else replace_rooms self next removed.

#[global] Instance persistent_registry : Registry T PersistentRegistry := {|
  lookup_members := fun self => lookup_in (reg_rooms self);
  commit_room := reg_commit_room;
  activate_on_first_join := reg_activate;
  prune_unactivated := reg_prune |}.
End persistent.

(** The periodic sweep: [cutoff] is [ttl] before now. *)
Definition sweep_cutoff (now_ms ttl_ms : Z) : Z := saturating_sub_i64 now_ms (clamp_i64 ttl_ms).

(** ** Well-formed registries *)

Definition record_ok (r : RoomRecord) : Prop :=
  lower_hex 64 (members r).1 = true /\ lower_hex 64 (members r).2 = true /\
  (members r).1 <> (members r).2 /\ str_leb (members r).1 (members r).2 = true.

Definition rooms_ok (rooms : rooms_map) : Prop :=
  size rooms <= REGISTRY_MAX_ROOMS /\
  map_Forall (fun id r => lower_hex 32 id = true /\ record_ok r) rooms.

(** What the disk keeps of a record. *)
Definition forget (r : RoomRecord) : RoomRecord :=
  {| members := members r; created_at_ms := created_at_ms r; activated_at_ms := activated_at_ms r;
     activated_members := ∅ |}.

Lemma validate_members_Ok ms canonical :
  validate_members ms = Ok canonical ->
  lower_hex 64 canonical.1 = true /\ lower_hex 64 canonical.2 = true /\
  canonical.1 <> canonical.2 /\ str_leb canonical.1 canonical.2 = true /\
  (canonical = ms \/ canonical = (ms.2, ms.1)).
Proof.
  destruct ms as [a b]. unfold validate_members; simpl. case_bool_decide as Hab; [done|].
  destruct (negb (lower_hex 64 a) || negb (lower_hex 64 b)) eqn:Hh; [done|]. bool_to_prop.
  destruct (str_leb a b) eqn:Hle; intros [= <-]; simpl; [by auto 6|].
  destruct (str_leb_total a b); [congruence|]. by auto 7.
Qed.

Lemma record_new_Ok ms t r :
  record_new ms t = Ok r ->
  record_ok r /\ created_at_ms r = t /\ activated_at_ms r = None /\
  (members r = ms \/ members r = (ms.2, ms.1)).
Proof.
  intros (canonical & (H1 & H2 & H3 & H4 & H5)%validate_members_Ok & [= <-])%rbind_Ok.
  by split_and!.
Qed.

Lemma check_commit_Insert rooms id ms t record :
  check_commit rooms id ms t = Insert record ->
  lower_hex 32 id = true /\ record_new ms t = Ok record /\ rooms !! id = None /\
  size rooms < REGISTRY_MAX_ROOMS.
Proof.
  unfold check_commit, reg_validate_room_id. destruct (lower_hex 32 id); [|done].
  destruct (record_new ms t) as [r|] eqn:Hr; [|done].
  destruct (rooms !! id) as [existing|] eqn:He; [by case_bool_decide|].
  case_bool_decide; [done|]. intros [= <-]. split_and!; [done..|lia].
Qed.

Lemma rooms_ok_insert rooms id r :
  rooms_ok rooms -> rooms !! id = None -> size rooms < REGISTRY_MAX_ROOMS ->
  lower_hex 32 id = true -> record_ok r -> rooms_ok (<[id := r]> rooms).
Proof.
  intros [Hs Hall] Hn Hlt Hid Hr. split.
  - rewrite map_size_insert_None by done. lia.
  - by apply map_Forall_insert_2.
Qed.

Lemma rooms_ok_update rooms id r r' :
  rooms_ok rooms -> rooms !! id = Some r -> members r' = members r -> rooms_ok (<[id := r']> rooms).
Proof.
  intros [Hs Hall] Hr Hm. split.
  - by rewrite map_size_insert_Some by (by eexists).
  - apply map_Forall_insert_2; [|done]. destruct (Hall id r Hr) as [Hid Hok]. split; [done|].
    unfold record_ok in *. by rewrite Hm.
Qed.

Lemma rooms_ok_prune cutoff rooms : rooms_ok rooms -> rooms_ok (prune cutoff rooms).
Proof.
  intros [Hs Hall]. unfold prune. split.
  - etrans; [|exact Hs]. apply map_subseteq_size, map_filter_subseteq.
  - intros id r [Hr _]%map_lookup_filter_Some. by apply Hall.
Qed.

Lemma rooms_ok_empty : rooms_ok ∅.
Proof. split; [rewrite map_size_empty; lia|apply map_Forall_empty]. Qed.

(** ** Rows *)

Lemma insert_row_Permutation row rows : insert_row row rows ≡ₚ row :: rows.
Proof.
  induction rows as [|r rows IH]; simpl; [done|]. destruct (str_leb _ _); [done|].
  rewrite IH. apply Permutation_swap.
Qed.

Lemma sort_rows_Permutation rows : sort_rows rows ≡ₚ rows.
Proof. induction rows as [|r rows IH]; simpl; [done|]. by rewrite insert_row_Permutation, IH. Qed.

Lemma validate_members_canonical r : record_ok r -> validate_members (members r) = Ok (members r).
Proof.
  intros (H1 & H2 & H3 & H4). unfold validate_members.
  rewrite bool_decide_eq_false_2, H1, H2, H4 by done. by destruct (members r).
Qed.

Lemma into_record_row id r :
  lower_hex 32 id = true -> record_ok r -> into_record (to_row (id, r)) = Ok (id, forget r).
Proof.
  intros Hid Hr. unfold into_record, reg_validate_room_id. simpl. rewrite Hid. simpl.
  replace ((members r).1, (members r).2) with (members r) by (by destruct (members r)).
  unfold record_new. rewrite validate_members_canonical by done. done.
Qed.

Lemma load_rows_lookup m rows id r :
  NoDup (d_room_id <$> rows) -> (forall row, row ∈ rows -> m !! d_room_id row = None) ->
  load_rows m rows !! id = Some r <->
  m !! id = Some r \/ exists row, row ∈ rows /\ into_record row = Ok (id, r).
Proof.
  revert m; induction rows as [|row rows IH]; intros m Hnd Hm.
  { simpl. set_solver. }
  apply NoDup_cons in Hnd as [Hrow Hnd]. cbn [load_rows].
  assert (forall id' r', into_record row = Ok (id', r') -> id' = d_room_id row) as Hfst.
  { intros id' r' Hrec. unfold into_record in Hrec.
    apply rbind_Ok in Hrec as (? & _ & Hrec). apply rbind_Ok in Hrec as (? & _ & Hrec).
    by apply rbind_Ok in Hrec as (? & _ & [= <- _]). }
  destruct (into_record row) as [[id0 r0]|e] eqn:Hrec.
  - pose proof (Hfst _ _ eq_refl) as ->. rewrite bool_decide_eq_true_2 by (apply Hm; by left).
    rewrite IH; [|done|].
    + destruct (decide (d_room_id row = id)) as [<- |Hne].
      * rewrite lookup_insert_eq, (Hm row) by (by left). split.
        -- intros [[= <-]|(row' & Hin & Hr)]; right; [exists row; split; [by left|done]|].
           exists row'. split; [by right|done].
        -- intros [?|(row' & [-> |Hin]%elem_of_cons & Hr)]; [done| |]; [left; congruence|].
           right. eauto.
      * rewrite lookup_insert_ne by done. split.
        -- intros [?|(row' & Hin & Hr)]; [by left|]. right. exists row'. split; [by right|done].
        -- intros [?|(row' & [-> |Hin]%elem_of_cons & Hr)]; [by left| |right; eauto]. congruence.
    + intros row' Hin. rewrite lookup_insert_ne; [apply Hm; by right|].
      intros Heq. apply Hrow. rewrite Heq. by apply list_elem_of_fmap_2.
  - rewrite IH; [|done|intros; apply Hm; by right]. split.
    + intros [?|(row' & Hin & Hr)]; [by left|]. right. exists row'. split; [by right|done].
    + intros [?|(row' & [-> |Hin]%elem_of_cons & Hr)]; [by left|congruence|]. right. eauto.
Qed.

(** What [persist] wrote, [open] reads back. *)
Lemma load_from_rooms rooms :
  rooms_ok rooms -> load_rows ∅ (d_rooms (from_rooms rooms)) = forget <$> rooms.
Proof.
  intros [_ Hall]. apply map_eq. intros id. apply option_eq. intros r.
  assert (NoDup (d_room_id <$> d_rooms (from_rooms rooms))) as Hnd.
  { unfold from_rooms; simpl. rewrite sort_rows_Permutation, <-list_fmap_compose.
    apply NoDup_fst_map_to_list. }
  rewrite load_rows_lookup; [|done|done]. rewrite lookup_empty, lookup_fmap, fmap_Some.
  unfold from_rooms; simpl. setoid_rewrite sort_rows_Permutation. split.
  - intros [?|(row & Hin & Hr)]; [done|]. apply list_elem_of_fmap in Hin as ([id' r'] & -> & Hin).
    apply elem_of_map_to_list in Hin. destruct (Hall _ _ Hin) as [Hid Hok].
    rewrite into_record_row in Hr by done. simplify_eq. eauto.
  - intros (r' & Hin & ->). right. destruct (Hall _ _ Hin) as [Hid Hok].
    exists (to_row (id, r')). split; [|by apply into_record_row].
    apply list_elem_of_fmap_2. by apply elem_of_map_to_list.
Qed.

(** ** The registry file *)

(** The content decodes to rooms satisfying [P]; no file is no rooms. *)
Definition holds_rooms {JR : Json DiskRegistry} (P : rooms_map -> Prop) (o : option bytes) : Prop :=
  match o with
  | None => P ∅
  | Some b => exists disk, from_slice b = Ok disk /\ P (load_rows ∅ (d_rooms disk))
  end.

Inductive registry_op :=
| RCommit (room_id : string) (ms : string * string) (created_at : Z)
| RActivate (room_id member_fp : string) (activated_at : Z)
| RPrune (cutoff_ms : Z).

(** The rooms after a successful operation. *)
Definition reg_spec (op : registry_op) (rooms : rooms_map) : rooms_map :=
  match op with
  | RCommit id ms t =>
      match check_commit rooms id ms t with Insert record => <[id := record]> rooms | Answer _ => rooms end
  | RActivate id fp t =>
      match rooms !! id with
      | Some r =>
          if bool_decide (is_Some (activated_at_ms r)) || negb (bool_decide (fp ∈ members_vec r))
          then rooms else <[id := set_activated r t fp]> rooms
      | None => rooms
      end
  | RPrune cutoff => prune cutoff rooms
  end.

Lemma rooms_ok_spec op rooms : rooms_ok rooms -> rooms_ok (reg_spec op rooms).
Proof.
  intros Hok. destruct op as [id ms t|id fp t|cutoff]; simpl.
  - destruct (check_commit rooms id ms t) as [r|record] eqn:Hc; [done|].
    apply check_commit_Insert in Hc as (Hid & (Hr & _)%record_new_Ok & Hn & Hs).
    by apply rooms_ok_insert.
  - destruct (rooms !! id) as [r|] eqn:Hr; [|done]. destruct (_ || _); [done|].
    by eapply rooms_ok_update.
  - by apply rooms_ok_prune.
Qed.

Lemma prune_same_size cutoff rooms :
  size rooms - size (prune cutoff rooms) = 0 -> prune cutoff rooms = rooms.
Proof.
  intros Hs. apply map_subseteq_size_eq; [apply map_filter_subseteq|].
  pose proof (map_subseteq_size _ _ (map_filter_subseteq
    (fun kv : string * RoomRecord => retained cutoff kv.2 = true) rooms)) as Hle. unfold prune in *. lia.
Qed.

Section registry_disk.
Context {T : Type} {JR : Json DiskRegistry}.
Implicit Types (w : world T) (self : PersistentRegistry).

Definition run_registry_op self (op : registry_op) : io T (bool * PersistentRegistry) :=
  match op with
  | RCommit id ms t => out ← reg_commit_room self id ms t; mret (is_ok (fst out), snd out)
  | RActivate id fp t => out ← reg_activate self id fp t; mret (is_ok (fst out), snd out)
  | RPrune cutoff => out ← reg_prune self cutoff; mret (is_ok (fst out), snd out)
  end.

Lemma holds_rooms_mono (P Q : rooms_map -> Prop) o :
  (forall m, P m -> Q m) -> holds_rooms P o -> holds_rooms Q o.
Proof. intros H. destruct o; simpl; [|auto]. intros (disk & Hd & HP). eauto. Qed.

Lemma registry_temp_ne root : registry_temp root <> registry_path root.
Proof. by intros [=]. Qed.

(** The memory and both copies of the disk agree. *)
Definition in_sync self w : Prop :=
  rooms_ok (reg_rooms self) /\
  stable (holds_rooms (eq (forget <$> reg_rooms self))) (registry_path (reg_root self)) (w_disk w).

(** The disk holds one of two registries. *)
Definition old_or_new root (old new : rooms_map) w : Prop :=
  stable (holds_rooms (fun m => m = forget <$> old \/ m = forget <$> new)) (registry_path root) (w_disk w).

Lemma in_sync_old self next w : in_sync self w -> old_or_new (reg_root self) (reg_rooms self) next w.
Proof. intros [_ Hst]. eapply stable_mono; [|exact Hst]. intros o. apply holds_rooms_mono. auto. Qed.

Lemma wpc_replace_rooms {A} self next (a : A) w :
  in_sync self w -> rooms_ok next ->
  wpc (replace_rooms self next a)
    (fun out w' => quiet w w' /\ old_or_new (reg_root self) (reg_rooms self) next w' /\
       match fst out with
       | Ok a' => a' = a /\ snd out = {| reg_root := reg_root self; reg_rooms := next |} /\
                  in_sync (snd out) w'
       | Err _ => snd out = self
       end)
    (fun w' => quiet w w' /\ old_or_new (reg_root self) (reg_rooms self) next w') w.
Proof.
  intros Hsync Hok. pose proof (in_sync_old self next w Hsync) as Hold.
  unfold replace_rooms, registry_persist.
  destruct (to_vec_pretty (from_rooms next)) as [data|e] eqn:Hv.
  2: { by apply wpc_bind, wpc_ret, wpc_ret; split_and!. }
  pose proof (json_pretty _ _ Hv) as Hparse.
  assert (forall P : rooms_map -> Prop, P (forget <$> next) -> holds_rooms P (Some data)) as Hnew.
  { intros P HP. exists (from_rooms next). by rewrite load_from_rooms. }
  assert (forall w', torn (registry_temp (reg_root self)) (registry_path (reg_root self)) data w w' ->
    quiet w w' /\ old_or_new (reg_root self) (reg_rooms self) next w') as Htorn.
  { intros w' (Hq & _ & Hr). split; [done|]. eapply replaced_stable; [exact Hold| |exact Hr]. auto. }
  apply wpc_bind. eapply wpc_mono; [apply (wpc_truncate_replace _ _ data (registry_temp_ne _))| |done].
  intros [[]|e] w' [[Hq Ho]%Htorn Hc]; apply wpc_ret; simpl; split_and!; try done.
  split; [done|]. eapply stable_mono; [|apply committed_stable; auto]. intros o <-. auto.
Qed.

Lemma wpc_run_registry_op self op w :
  in_sync self w ->
  wpc (run_registry_op self op)
    (fun out w' => quiet w w' /\ old_or_new (reg_root self) (reg_rooms self) (reg_spec op (reg_rooms self)) w' /\
       if fst out
       then snd out = {| reg_root := reg_root self; reg_rooms := reg_spec op (reg_rooms self) |} /\
            in_sync (snd out) w' \/
            (* an operation that refuses or finds nothing to do *)
            snd out = self /\ reg_spec op (reg_rooms self) = reg_rooms self
       else snd out = self)
    (fun w' => quiet w w' /\ old_or_new (reg_root self) (reg_rooms self) (reg_spec op (reg_rooms self)) w') w.
Proof.
  intros Hsync. pose proof (rooms_ok_spec op _ (proj1 Hsync)) as Hok.
  assert (forall A (next : rooms_map) (a : A),
    next = reg_spec op (reg_rooms self) ->
    wpc (out ← replace_rooms self next a; mret (is_ok (fst out), snd out))
      (fun out w' => quiet w w' /\ old_or_new (reg_root self) (reg_rooms self) next w' /\
         if fst out
         then snd out = {| reg_root := reg_root self; reg_rooms := next |} /\ in_sync (snd out) w' \/
              snd out = self /\ next = reg_rooms self
         else snd out = self)
      (fun w' => quiet w w' /\ old_or_new (reg_root self) (reg_rooms self) next w') w) as Hrep.
  { intros A next a ->. apply wpc_bind. eapply wpc_mono; [by apply wpc_replace_rooms| |done].
    intros [[a'|e] r'] w' (Hq & Ho & Hr); apply wpc_ret; simpl in *; split_and!; try done.
    left. destruct Hr as (_ & -> & ?). done. }
  assert (forall b, reg_spec op (reg_rooms self) = reg_rooms self ->
    quiet w w /\ old_or_new (reg_root self) (reg_rooms self) (reg_spec op (reg_rooms self)) w /\
    (if b : bool then snd (b, self) = {| reg_root := reg_root self; reg_rooms := reg_spec op (reg_rooms self) |} /\
         in_sync (snd (b, self)) w \/ snd (b, self) = self /\ reg_spec op (reg_rooms self) = reg_rooms self
     else snd (b, self) = self)) as Hsame.
  { intros b Heq. split_and!; [apply quiet_refl|by apply in_sync_old|]. destruct b; auto. }
  destruct op as [id ms t|id fp t|cutoff]; simpl in *.
  - unfold reg_commit_room. destruct (check_commit (reg_rooms self) id ms t) as [r|record].
    + apply wpc_bind, wpc_ret, wpc_ret. by apply Hsame.
    + by apply Hrep.
  - unfold reg_activate. destruct (reg_rooms self !! id) as [r|].
    + destruct (_ || _); [|by apply Hrep]. apply wpc_bind, wpc_ret, wpc_ret. by apply Hsame.
    + apply wpc_bind, wpc_ret, wpc_ret. by apply Hsame.
  - unfold reg_prune. case_bool_decide as Hz; [|by apply Hrep].
    apply wpc_bind, wpc_ret, wpc_ret. apply Hsame. by apply prune_same_size.
Qed.

(** Opening without a failing call reads exactly what the disk holds. *)
Lemma registry_open_reads root P w :
  w_faults w = [] -> stable (holds_rooms P) (registry_path root) (w_disk w) ->
  exists reg, registry_open root w = (Done (Ok reg), w) /\ reg_root reg = root /\ P (reg_rooms reg).
Proof.
  intros Hf [[_ Hl] _]. destruct w as [d fs u n tr]; simpl in *. subst fs.
  unfold registry_open, try_io, exists_path, create_dir_all, read, atomic_call, fs_call, pop_fault.
  unfold mbind, io_bind, mret, io_ret; simpl.
  destruct (live d !! registry_path root) as [f|] eqn:Hp; simpl in *.
  - rewrite Hp. simpl.
    destruct Hl as (disk & Hd & HP). rewrite Hd. eexists. split; [done|]. done.
  - eexists. split; [done|]. done.
Qed.
End registry_disk.

(** ** What a client of the trait may rely on *)

(** The members of a pair in canonical order. *)
Definition canonical_pair (ms : string * string) : list string :=
  if str_leb ms.1 ms.2 then [ms.1; ms.2] else [ms.2; ms.1].

Class RegistrySpec (T R : Type) {Reg : Registry T R} := {
  reg_ok : R -> Prop;
  lookup_shape : forall r id, reg_ok r ->
    lookup_members r id = [] \/
    exists a b, lookup_members r id = [a; b] /\ a <> b /\
                lower_hex 64 a = true /\ lower_hex 64 b = true;
  spec_commit : forall r id ms t, reg_ok r ->
    returns (fun out => reg_ok (snd out) /\
      (forall id', id' <> id -> lookup_members (snd out) id' = lookup_members r id') /\
      lookup_members (snd out) id =
        (if is_ok (fst out) then canonical_pair ms else lookup_members r id))
      (commit_room r id ms t);
  spec_activate : forall r id fp t, reg_ok r ->
    returns (fun out => reg_ok (snd out) /\
      forall id', lookup_members (snd out) id' = lookup_members r id')
      (activate_on_first_join r id fp t);
  spec_prune : forall r cutoff, reg_ok r ->
    returns (fun out => reg_ok (snd out) /\
      forall id', lookup_members (snd out) id' = [] \/ lookup_members (snd out) id' = lookup_members r id')
      (prune_unactivated r cutoff)
}.

Lemma lookup_in_shape rooms id :
  rooms_ok rooms ->
  lookup_in rooms id = [] \/
  exists a b, lookup_in rooms id = [a; b] /\ a <> b /\ lower_hex 64 a = true /\ lower_hex 64 b = true.
Proof.
  intros [_ Hall]. unfold lookup_in. destruct (rooms !! id) as [r|] eqn:Hr; [right|by left].
  destruct (Hall id r Hr) as [_ (H1 & H2 & H3 & _)]. by exists (members r).1, (members r).2.
Qed.

Lemma canonical_members ms c :
  validate_members ms = Ok c -> [c.1; c.2] = canonical_pair ms.
Proof.
  unfold validate_members, canonical_pair. case_bool_decide; [done|].
  destruct (_ || _); [done|]. destruct ms as [a b]; simpl. by destruct (str_leb a b); intros [= <-].
Qed.

Lemma check_commit_lookup rooms id ms t :
  match check_commit rooms id ms t with
  | Insert record => members_vec record = canonical_pair ms
  | Answer (Ok _) => lookup_in rooms id = canonical_pair ms
  | Answer (Err _) => True
  end.
Proof.
  unfold check_commit, reg_validate_room_id. destruct (lower_hex 32 id); [|done].
  destruct (record_new ms t) as [r|] eqn:Hr; [|done].
  assert (members_vec r = canonical_pair ms) as Hm.
  { unfold record_new in Hr. apply rbind_Ok in Hr as (c & Hc & [= <-]). by apply canonical_members. }
  destruct (rooms !! id) as [existing|] eqn:He; [|by case_bool_decide].
  case_bool_decide as Heq; [|done]. unfold lookup_in. rewrite He. unfold members_vec in *. by rewrite Heq.
Qed.

Lemma lookup_in_insert rooms id r id' :
  lookup_in (<[id := r]> rooms) id' = if decide (id = id') then members_vec r else lookup_in rooms id'.
Proof.
  unfold lookup_in. case_decide as H; [subst; by rewrite lookup_insert_eq|by rewrite lookup_insert_ne].
Qed.

Lemma lookup_in_update rooms id r r' id' :
  rooms !! id = Some r -> members r' = members r ->
  lookup_in (<[id := r']> rooms) id' = lookup_in rooms id'.
Proof.
  intros Hr Hm. rewrite lookup_in_insert. case_decide as H; [|done]. subst id'.
  unfold lookup_in. rewrite Hr. unfold members_vec. by rewrite Hm.
Qed.

Lemma lookup_in_prune cutoff rooms id :
  lookup_in (prune cutoff rooms) id = [] \/ lookup_in (prune cutoff rooms) id = lookup_in rooms id.
Proof.
  unfold lookup_in. destruct (prune cutoff rooms !! id) as [r|] eqn:Hr; [right|by left].
  apply map_lookup_filter_Some in Hr as [-> _]. done.
Qed.

(** The facts the laws of [RegistrySpec] state, of a map. *)
Lemma commit_laws rooms id ms t record :
  rooms_ok rooms -> check_commit rooms id ms t = Insert record ->
  rooms_ok (<[id := record]> rooms) /\
  (forall id', id' <> id -> lookup_in (<[id := record]> rooms) id' = lookup_in rooms id') /\
  lookup_in (<[id := record]> rooms) id = canonical_pair ms.
Proof.
  intros Hok Hc. pose proof (check_commit_lookup rooms id ms t) as Hl. rewrite Hc in Hl.
  pose proof Hc as (Hid & (Hr & _)%record_new_Ok & Hn & Hs)%check_commit_Insert.
  split; [by apply rooms_ok_insert|]. split.
  - intros id' Hne. by rewrite lookup_in_insert, decide_False.
  - by rewrite lookup_in_insert, decide_True.
Qed.

#[global] Program Instance memory_registry_spec {T} : RegistrySpec T InMemoryRegistry := {|
  reg_ok := fun self => rooms_ok (mem_rooms self) |}.
Next Obligation. intros T r id Hok. by apply lookup_in_shape. Qed.
Next Obligation.
  intros T [rooms] id ms t Hok. simpl in *. apply returns_ret. simpl.
  pose proof (check_commit_lookup rooms id ms t) as Hl.
  destruct (check_commit rooms id ms t) as [[[]|e]|record] eqn:Hc; simpl; [done..|].
  by apply (commit_laws _ _ _ t).
Qed.
Next Obligation.
  intros T [rooms] id fp t Hok. simpl in *. apply returns_ret. simpl.
  destruct (rooms !! id) as [r|] eqn:Hr; [|done]. destruct (negb _); [done|].
  destruct (activated_at_ms r); simpl; (split; [by eapply rooms_ok_update|]);
    intros id'; by eapply lookup_in_update.
Qed.
Next Obligation.
  intros T [rooms] cutoff Hok. simpl in *. apply returns_ret. simpl.
  split; [by apply rooms_ok_prune|]. intros id'. apply lookup_in_prune.
Qed.

Lemma replace_rooms_returns {T} `{Json DiskRegistry} {A} (self : PersistentRegistry) next (a : A)
    (Q : result A io_error * PersistentRegistry -> Prop) :
  (forall e, Q (Err e, self)) -> Q (Ok a, {| reg_root := reg_root self; reg_rooms := next |}) ->
  returns (T := T) Q (replace_rooms self next a).
Proof. intros He Hok. apply returns_bind. intros [[]|e]; by apply returns_ret. Qed.

#[global] Program Instance persistent_registry_spec {T} `{Json DiskRegistry} :
    RegistrySpec T PersistentRegistry := {|
  reg_ok := fun self => rooms_ok (reg_rooms self) |}.
Next Obligation. intros T ? r id Hok. by apply lookup_in_shape. Qed.
Next Obligation.
  intros T ? self id ms t Hok. simpl in *. unfold reg_commit_room.
  pose proof (check_commit_lookup (reg_rooms self) id ms t) as Hl.
  destruct (check_commit (reg_rooms self) id ms t) as [[[]|e]|record] eqn:Hc; [by apply returns_ret..|].
  apply replace_rooms_returns; [done|]. by apply (commit_laws _ _ _ t).
Qed.
Next Obligation.
  intros T ? self id fp t Hok. simpl in *. unfold reg_activate.
  destruct (reg_rooms self !! id) as [r|] eqn:Hr; [|by apply returns_ret].
  destruct (_ || _); [by apply returns_ret|]. apply replace_rooms_returns; [done|]. simpl.
  split; [by eapply rooms_ok_update|]. intros id'. by eapply lookup_in_update.
Qed.
Next Obligation.
  intros T ? self cutoff Hok. simpl in *. unfold reg_prune.
  case_bool_decide; [apply returns_ret; simpl; auto|]. apply replace_rooms_returns; simpl; [auto|].
  split; [by apply rooms_ok_prune|]. intros id'. apply lookup_in_prune.
Qed.

(** ** Properties *)

(** C9. A registry change is atomic: a success has the new rooms in memory and
    on stable storage; an error keeps the memory; and after an error or a
    crash at any call, followed by any restart, a start whose own calls
    succeed opens exactly the rooms before or after the operation. *)
Theorem registry_crash_atomic {T} `{Json DiskRegistry} self op (w : world T) :
  in_sync self w ->
  let after := fun w1 => forall w2 : world T, restart (w_disk w1) (w_disk w2) -> w_faults w2 = [] ->
    exists reg, registry_open (reg_root self) w2 = (Done (Ok reg), w2) /\
      (reg_rooms reg = forget <$> reg_rooms self \/
       reg_rooms reg = forget <$> reg_spec op (reg_rooms self)) in
  wpc (run_registry_op self op)
    (fun out w1 => after w1 /\
       (fst out = false -> snd out = self) /\
       (fst out = true -> reg_rooms (snd out) = reg_spec op (reg_rooms self) /\ in_sync (snd out) w1))
    after w.
Proof.
  intros Hsync after.
  assert (forall w1, old_or_new (reg_root self) (reg_rooms self) (reg_spec op (reg_rooms self)) w1 ->
    after w1) as Hafter.
  { intros w1 Ho w2 Hr Hf. eapply restart_stable in Ho; [|done].
    destruct (registry_open_reads _ _ w2 Hf Ho) as (reg & ? & _ & ?). by exists reg. }
  eapply wpc_mono; [by apply wpc_run_registry_op| |by intros w1 [_ ?]; auto].
  intros [b r'] w1 (Hq & Ho & Hr). split; [auto|]. simpl in *. destruct b; split; try done.
  intros _. destruct Hr as [[-> Hs]|[-> Heq]]; [done|]. rewrite Heq. split; [done|].
  split; [apply Hsync|]. unfold old_or_new in Ho. rewrite Heq in Ho.
  eapply stable_mono; [|exact Ho]. intros o. apply holds_rooms_mono. intros m [->| ->]; done.
Qed.

(** C35. The persistent registry refines the in-memory one: whenever an
    operation of the former succeeds, the latter, started from the same rooms,
    gives the same answer and ends in the same rooms, up to the set of
    activated members that is not persisted. *)
Theorem persistent_registry_refines_memory {T} `{Json DiskRegistry} self op (w : world T) :
  let mem := {| mem_rooms := reg_rooms self |} in
  let agrees := fun {A} (out : result A io_error * PersistentRegistry) (m : io T (result A io_error * InMemoryRegistry)) =>
    forall a, fst out = Ok a -> exists mem', m w = (Done (Ok a, mem'), w) /\
      forget <$> mem_rooms mem' = forget <$> reg_rooms (snd out) in
  match op with
  | RCommit id ms t =>
      wpc (reg_commit_room self id ms t) (fun out _ => agrees out (mem_commit_room mem id ms t)) (fun _ => True) w
  | RActivate id fp t =>
      wpc (reg_activate self id fp t) (fun out _ => agrees out (mem_activate mem id fp t)) (fun _ => True) w
  | RPrune cutoff =>
      wpc (reg_prune self cutoff) (fun out _ => agrees out (mem_prune mem cutoff)) (fun _ => True) w
  end.
Proof.
  intros mem agrees. destruct op as [id ms t|id fp t|cutoff].
  - unfold reg_commit_room, agrees, mem_commit_room. simpl.
    destruct (check_commit (reg_rooms self) id ms t) as [r|record].
    + apply wpc_ret. simpl. intros a ->. by eexists.
    + apply replace_rooms_returns; simpl; [done|]. intros a [= <-]. by eexists.
  - unfold reg_activate, agrees, mem_activate. simpl.
    destruct (reg_rooms self !! id) as [r|] eqn:Hr; [|apply wpc_ret; simpl; intros a [= <-]; by eexists].
    case_bool_decide as Hact; simpl.
    + apply wpc_ret. simpl. intros a [= <-]. destruct (negb _); [by eexists|].
      destruct Hact as [x Hx]. rewrite Hx. eexists. split; [done|]. simpl.
      rewrite fmap_insert. apply insert_id. rewrite lookup_fmap, Hr. simpl. f_equal. unfold forget; simpl.
      by rewrite Hx.
    + case_bool_decide as Hin; simpl.
      * apply replace_rooms_returns; simpl; [done|]. intros a [= <-].
        destruct (activated_at_ms r) eqn:Ha; [by destruct Hact; eexists|]. by eexists.
      * apply wpc_ret. simpl. intros a [= <-]. by eexists.
  - unfold reg_prune, agrees, mem_prune. simpl. case_bool_decide as Hz.
    + apply wpc_ret. simpl. intros a [= <-]. eexists. split; [done|]. simpl.
      by rewrite (prune_same_size _ _ Hz).
    + apply replace_rooms_returns; simpl; [done|]. intros a [= <-]. by eexists.
Qed.

(** ** Witnesses *)

Module RegistryToy.
Import Toy.

#[global] Program Instance DiskRoom_countable : Countable DiskRoom :=
  inj_countable (fun r => (d_room_id r, d_members r, d_created_at_ms r, d_activated_at_ms r))
    (fun '(i, m, c, a) => Some {| d_room_id := i; d_members := m; d_created_at_ms := c;
       d_activated_at_ms := a |}) _.
Next Obligation. by intros []. Qed.

#[global] Program Instance DiskRegistry_countable : Countable DiskRegistry :=
  inj_countable d_rooms (fun r => Some {| d_rooms := r |}) _.
Next Obligation. by intros []. Qed.

#[local] Instance registry_json : Json DiskRegistry := toy_json DiskRegistry.

Definition hex (c : string) (n : nat) : string := String.concat "" (replicate n c).
Definition room_a : string := hex "a" 32.
Definition room_b : string := hex "b" 32.
Definition pair_ab : string * string := (hex "1" 64, hex "2" 64).

Definition empty_registry : PersistentRegistry := {| reg_root := "r"; reg_rooms := ∅ |}.
Definition blank (faults : list fault) : world unit := World (Disk ∅ ∅) faults (fun _ => "u") 0 [].

Lemma empty_in_sync faults : in_sync empty_registry (blank faults).
Proof. split; [apply rooms_ok_empty|]. by repeat split. Qed.

Lemma registry_crash_atomic_witness :
  wpc (run_registry_op empty_registry (RCommit room_a pair_ab 5))
    (fun out _ => fst out = true -> reg_rooms (snd out) !! room_b = None) (fun _ => True)
    (blank [NoFault; NoFault; NoFault]).
Proof.
  eapply wpc_mono; [apply (registry_crash_atomic empty_registry (RCommit room_a pair_ab 5))| |].
  - apply empty_in_sync.
  - intros out w1 (_ & _ & Hok) Hr. destruct (Hok Hr) as [Heq _]. rewrite Heq.
    vm_compute. reflexivity.
  - intros; exact I.
Defined.

(** A registry with one room is on disk; the first start's [exists] fails. *)
Definition after_first : world unit :=
  (run_registry_op empty_registry (RCommit room_a pair_ab 5) (blank [])).2.

Definition second_start : outcome (result PersistentRegistry io_error) * world unit :=
  registry_open "r" (set_faults [NoFault; FailWith OtherError 0] after_first).

Definition third : outcome (bool * PersistentRegistry) * world unit :=
  match second_start with
  | (Done (Ok reg), w) => run_registry_op reg (RCommit room_b pair_ab 6) w
  | (_, w) => (Crashed, w)
  end.

Definition rooms_on_disk (w : world unit) : list string :=
  match live (w_disk w) !! registry_path "r" with
  | Some f => match from_slice (f_data f) with Ok d => d_room_id <$> d_rooms d | Err _ => [] end
  | None => []
  end.

(** A finding: [open] asks [path.exists()], which answers no when the
    question itself fails.  With one room on stable storage, a start at which
    only that call fails opens an empty registry without an error, and the
    next committed room replaces the file: the first room is gone. *)
Theorem failed_exists_drops_rooms :
  rooms_on_disk after_first = [room_a] /\
  (exists reg, second_start.1 = Done (Ok reg) /\ reg_rooms reg = ∅) /\
  (exists reg, third.1 = Done (true, reg)) /\ rooms_on_disk third.2 = [room_b].
Proof.
  assert (match second_start.1 with Done (Ok reg) => bool_decide (reg_rooms reg = ∅) | _ => false end = true)
    as H2 by (vm_compute; reflexivity).
  assert (match third.1 with Done (b, _) => b | Crashed => false end = true) as H3 by (vm_compute; reflexivity).
  split; [vm_compute; reflexivity|]. split_and!; [..|vm_compute; reflexivity].
  - destruct (second_start.1) as [[reg|]|]; try discriminate H2.
    apply bool_decide_eq_true in H2. exists reg. split; [reflexivity|exact H2].
  - destruct (third.1) as [[b reg]|]; [|discriminate H3]. exists reg. rewrite H3. reflexivity.
Qed.
End RegistryToy.
