(* ===== verification/Config.v ===== *)
(** * Server configuration ([crates/server/src/config.rs])

    The resource limits with their production values, and whose address a
    connection is accounted to: [IpNet] and [ServerConfig::client_ip].  The
    parsers of the standard library these use ([IpAddr::from_str],
    [u8::from_str], [str::trim]) are translated from its documented grammar.
    An address is its octets; a slice or index out of range is [None], the
    panic of the source.  The test hooks are instrumentation and left out. *)

From S2P Require Import Prelude Crypto.
From Stdlib Require Import Strings.Byte.

Set Default Goal Selector "!".
#[local] Open Scope clip_scope.

(** Durations are in milliseconds. *)
Record Limits := {
  max_connections : nat; outbox_max_frames : nat; outbox_max_bytes : Z; inbox_max_events : nat;
  inbox_max_bytes : Z; handshake_deadline : Z; join_idle_deadline : Z; join_attempts_per_minute : Z;
  bytes_per_minute : Z; rate_window : Z
}.

Definition limits_default : Limits := {|
  max_connections := 256; outbox_max_frames := 64; outbox_max_bytes := 48 * 1024 * 1024;
  inbox_max_events := 64; inbox_max_bytes := 48 * 1024 * 1024; handshake_deadline := 10 * 1000;
  join_idle_deadline := 300 * 1000; join_attempts_per_minute := 5;
  bytes_per_minute := 64 * 1024 * 1024; rate_window := 60 * 1000 |}.

(** ** Addresses and their parser ([std::net]) *)

Inductive IpAddr := IpV4 (octets : bytes) | IpV6 (octets : bytes).

#[global] Instance IpAddr_eq_decision : EqDecision IpAddr.
Proof. solve_decision. Defined.

Definition ip_code (ip : IpAddr) : bytes + bytes :=
  match ip with IpV4 o => inl o | IpV6 o => inr o end.
Definition ip_uncode (x : bytes + bytes) : IpAddr :=
  match x with inl o => IpV4 o | inr o => IpV6 o end.

#[global] Program Instance IpAddr_countable : Countable IpAddr :=
  inj_countable' ip_code ip_uncode _.
Next Obligation. by intros []. Qed.

Definition ip_ok (ip : IpAddr) : Prop :=
  match ip with IpV4 o => length o = 4 | IpV6 o => length o = 16 end.

(** [char::to_digit]. *)
Definition to_digit (radix : Z) (b : byte) : option Z :=
  let d := if is_ascii_digit b then (bval b - 48)%Z
           else if in_range 97 102 b then (bval b - 87)%Z
           else if in_range 65 70 b then (bval b - 55)%Z else 99%Z in
  if (d <? radix)%Z then Some d else None.

(** A parser either fails and leaves the input, or returns a value and the rest. *)
Definition parser (A : Type) : Type := bytes -> option (A * bytes).

Fixpoint read_digits (radix value : Z) (count : nat) (p : bytes) : Z * nat * bytes :=
  match p with
  | [] => (value, count, [])
  | b :: rest =>
      match to_digit radix b with
      | Some d => read_digits radix (value * radix + d) (S count) rest
      | None => (value, count, p)
      end
  end.

Definition read_number (radix : Z) (max_digits : nat) (allow_zero_prefix : bool) (limit : Z) :
    parser Z := fun p =>
  let '(value, count, rest) := read_digits radix 0 0 p in
  if bool_decide (max_digits < count) || bool_decide (count = 0) || (limit <? value)%Z ||
     (negb allow_zero_prefix && bool_decide (head p = Some "0"%byte) && bool_decide (1 < count))
  then None else Some (value, rest).

Definition read_given_char (c : byte) : parser unit := fun p =>
  match p with b :: rest => if bool_decide (b = c) then Some (tt, rest) else None | [] => None end.

Definition read_separator {A} (sep : byte) (index : nat) (inner : parser A) : parser A := fun p =>
  if bool_decide (index = 0) then inner p
  else match read_given_char sep p with Some (_, rest) => inner rest | None => None end.

Fixpoint read_octets (n index : nat) (p : bytes) : option (bytes * bytes) :=
  match n with
  | 0 => Some ([], p)
  | S n =>
      match read_separator "."%byte index (read_number 10 3 false 255) p with
      | Some (octet, rest) =>
          match read_octets n (S index) rest with
          | Some (octets, rest) => Some (byte_of_Z octet :: octets, rest)
          | None => None
          end
      | None => None
      end
  end.

Definition read_ipv4_addr : parser bytes := read_octets 4 0.

(** [read_groups]: up to [slots] more groups, an embedded IPv4 address counting
    for two; the octets read, whether it ended with an IPv4 address, the rest. *)
Fixpoint read_groups (slots index : nat) (p : bytes) : bytes * bool * bytes :=
  match slots with
  | 0 => ([], false, p)
  | S slots =>
      match (if bool_decide (slots = 0) then None else read_separator ":"%byte index read_ipv4_addr p) with
      | Some (octets, rest) => (octets, true, rest)
      | None =>
          match read_separator ":"%byte index (read_number 16 4 true 65535) p with
          | Some (group, rest) =>
              let '(octets, v4, rest) := read_groups slots (S index) rest in
              (byte_of_Z (group / 256) :: byte_of_Z group :: octets, v4, rest)
          | None => ([], false, p)
          end
      end
  end.

Definition read_ipv6_addr : parser bytes := fun p =>
  let '(front, front_v4, rest) := read_groups 8 0 p in
  if bool_decide (length front = 16) then Some (front, rest)
  else if front_v4 then None
  else
    '(_, rest) ← read_given_char ":"%byte rest;
    '(_, rest) ← read_given_char ":"%byte rest;
    let '(back, _, rest) := read_groups (7 - length front / 2) 0 rest in
    Some (front ++ replicate (16 - length front - length back) "000"%byte ++ back, rest).

(** [IpAddr::from_str]: nothing may be left over. *)
Definition parse_ip (s : bytes) : option IpAddr :=
  '(ip, rest) ← match read_ipv4_addr s with
                | Some (octets, rest) => Some (IpV4 octets, rest)
                | None => '(octets, rest) ← read_ipv6_addr s; Some (IpV6 octets, rest)
                end;
  if bool_decide (rest = []) then Some ip else None.

(** [u8::from_str]: an optional plus sign, then decimal digits. *)
Definition parse_u8 (s : bytes) : option Z :=
  let digits := match s with "+"%byte :: rest => rest | _ => s end in
  let '(value, count, rest) := read_digits 10 0 0 digits in
  if bool_decide (count = 0) || negb (bool_decide (rest = [])) || (255 <? value)%Z
  then None else Some value.

(** [str::trim]: the UTF-8 encodings of the characters with the [White_Space] property. *)
Definition white_space : list bytes :=
  [["009"]; ["010"]; ["011"]; ["012"]; ["013"]; [" "]; ["194"; "133"]; ["194"; "160"];
   ["225"; "154"; "128"]; ["226"; "128"; "128"]; ["226"; "128"; "129"]; ["226"; "128"; "130"];
   ["226"; "128"; "131"]; ["226"; "128"; "132"]; ["226"; "128"; "133"]; ["226"; "128"; "134"];
   ["226"; "128"; "135"]; ["226"; "128"; "136"]; ["226"; "128"; "137"]; ["226"; "128"; "138"];
   ["226"; "128"; "168"]; ["226"; "128"; "169"]; ["226"; "128"; "175"]; ["226"; "129"; "159"];
   ["227"; "128"; "128"]]%byte.

Fixpoint trim_front (spaces : list bytes) (fuel : nat) (s : bytes) : bytes :=
  match fuel with
  | 0 => s
  | S fuel =>
      match list_find (fun sp => take (length sp) s = sp) spaces with
      | Some (_, sp) => trim_front spaces fuel (drop (length sp) s)
      | None => s
      end
  end.

Definition trim (s : bytes) : bytes :=
  let s := trim_front white_space (length s) s in
  reverse (trim_front (reverse <$> white_space) (length s) (reverse s)).

(** [split(c).next()] and [split_once(c)]. *)
Fixpoint split_first (c : byte) (s : bytes) : bytes * option bytes :=
  match s with
  | [] => ([], None)
  | b :: rest =>
      if bool_decide (b = c) then ([], Some rest)
      else let '(first, tail) := split_first c rest in (b :: first, tail)
  end.

(** ** Networks *)

Inductive IpNet := NetV4 (network : bytes) (prefix : Z) | NetV6 (network : bytes) (prefix : Z).

(** The message formats of [IpNet::parse]'s errors. *)
Inductive net_error := InvalidCidrPrefix | InvalidAddress | PrefixExceeds (prefix max : Z).

Definition with_prefix (make : bytes -> Z -> IpNet) (max : Z) (addr : bytes) (prefix : option Z) :
    result IpNet net_error :=
  let prefix := default max prefix in
  if (max <? prefix)%Z then Err (PrefixExceeds prefix max) else Ok (make addr prefix).

Definition net_parse (value : string) : result IpNet net_error :=
  parts ←? match split_first "/"%byte (as_bytes value) with
           | (address, Some prefix) =>
               prefix ←? ok_or (parse_u8 prefix) InvalidCidrPrefix; Ok (address, Some prefix)
           | (address, None) => Ok (address, None)
           end;
  let '(address, prefix) := parts in
  addr ←? ok_or (parse_ip address) InvalidAddress;
  match addr with
  | IpV4 addr => with_prefix NetV4 32 addr prefix
  | IpV6 addr => with_prefix NetV6 128 addr prefix
  end.

(** [&s[..n]]. *)
Definition slice_to (s : bytes) (n : nat) : option bytes :=
  if bool_decide (n <= length s) then Some (take n s) else None.

Definition prefix_matches (network address : bytes) (prefix : Z) : option bool :=
  let full_bytes := Z.to_nat (prefix / 8) in
  let remaining_bits := (prefix mod 8)%Z in
  n ← slice_to network full_bytes;
  a ← slice_to address full_bytes;
  if negb (bool_decide (n = a)) then Some false
  else if (remaining_bits =? 0)%Z then Some true
  else
    let mask := (Z.shiftl 255 (8 - remaining_bits) mod 256)%Z in
    n ← network !! full_bytes;
    a ← address !! full_bytes;
    Some (Z.land (bval n) mask =? Z.land (bval a) mask)%Z.

Definition contains (net : IpNet) (ip : IpAddr) : option bool :=
  match net, ip with
  | NetV4 network prefix, IpV4 addr => prefix_matches network addr prefix
  | NetV6 network prefix, IpV6 addr => prefix_matches network addr prefix
  | _, _ => Some false
  end.

Record ServerConfig := { trusted_proxy : option IpNet; limits : Limits }.

Definition client_ip (self : ServerConfig) (peer : IpAddr) (x_forwarded_for : option string) :
    option IpAddr :=
  match trusted_proxy self, x_forwarded_for with
  | Some trusted, Some header =>
      inside ← contains trusted peer;
      if inside : bool then
        Some match parse_ip (trim (split_first ","%byte (as_bytes header)).1) with
             | Some ip => ip
             | None => peer
             end
      else Some peer
  | _, _ => Some peer
  end.

(** ** What a network is: addresses that agree on the leading bits *)

Definition byte_bits (b : byte) : list bool := (fun i => Z.testbit (bval b) i) <$> [7; 6; 5; 4; 3; 2; 1; 0]%Z.
Definition bits (s : bytes) : list bool := s ≫= byte_bits.

Definition net_ok (net : IpNet) : Prop :=
  match net with
  | NetV4 n p => length n = 4 /\ (0 <= p <= 32)%Z
  | NetV6 n p => length n = 16 /\ (0 <= p <= 128)%Z
  end.

Definition in_net (net : IpNet) (ip : IpAddr) : Prop :=
  match net, ip with
  | NetV4 n p, IpV4 a => take (Z.to_nat p) (bits a) = take (Z.to_nat p) (bits n)
  | NetV6 n p, IpV6 a => take (Z.to_nat p) (bits a) = take (Z.to_nat p) (bits n)
  | _, _ => False
  end.

(** ** The parsers return full addresses *)

Lemma read_octets_length n i p o r : read_octets n i p = Some (o, r) -> length o = n.
Proof.
  revert i p o; induction n as [|n IH]; intros i p o; simpl; [by intros [= <- _]|].
  destruct (read_separator _ _ _ _) as [[v rest]|]; [|done].
  destruct (read_octets n (S i) rest) as [[os rest']|] eqn:Ho; [|done].
  intros [= <- <-]. simpl. f_equal. by eapply IH.
Qed.

Lemma read_separator_Some {A} sep i (inner : parser A) p x r :
  read_separator sep i inner p = Some (x, r) -> exists p', inner p' = Some (x, r).
Proof.
  unfold read_separator. case_bool_decide; [by eauto|].
  destruct (read_given_char sep p) as [[[] rest]|]; by eauto.
Qed.

Lemma read_groups_length slots i p o v4 r :
  read_groups slots i p = (o, v4, r) -> length o <= 2 * slots /\ exists k, length o = 2 * k.
Proof.
  revert i p o v4 r; induction slots as [|n IH]; intros i p o v4 r; cbn [read_groups].
  { intros [= <- <- <-]. split; [simpl; lia|by exists 0]. }
  destruct (if bool_decide (n = 0) then _ else _) as [[os rest]|] eqn:Hv4.
  { intros [= <- <- <-]. case_bool_decide; [done|].
    apply read_separator_Some in Hv4 as [p' Hp']. apply read_octets_length in Hp'.
    split; [lia|exists 2; lia]. }
  clear Hv4. destruct (read_separator _ _ _ _) as [[g rest]|].
  2: { intros [= <- <- <-]. split; [simpl; lia|by exists 0]. }
  destruct (read_groups n (S i) rest) as [[os v] rest'] eqn:Hg.
  intros [= <- <- <-]. apply IH in Hg as [Hle [k Hk]]. simpl. split; [lia|]. exists (S k). lia.
Qed.

Lemma read_ipv6_length p o r : read_ipv6_addr p = Some (o, r) -> length o = 16.
Proof.
  unfold read_ipv6_addr. destruct (read_groups 8 0 p) as [[front v4] rest] eqn:Hf.
  case_bool_decide as H16; [by intros [= <- <-]|]. destruct v4; [done|].
  destruct (read_given_char _ rest) as [[[] rest1]|]; [|done]. cbn [mbind option_bind].
  destruct (read_given_char _ rest1) as [[[] rest2]|]; [|done]. cbn [mbind option_bind].
  destruct (read_groups (7 - length front / 2) 0 rest2) as [[back v'] rest3] eqn:Hb.
  intros [= <- <-]. apply read_groups_length in Hf as [Hf [k Hk]], Hb as [Hb _].
  replace (length front / 2) with k in Hb by (by rewrite Hk, Nat.mul_comm, Nat.div_mul).
  rewrite !length_app, length_replicate. lia.
Qed.

Lemma parse_ip_ok s ip : parse_ip s = Some ip -> ip_ok ip.
Proof.
  unfold parse_ip. destruct (read_ipv4_addr s) as [[o r]|] eqn:H4; simpl.
  { case_bool_decide; [|done]. intros [= <-]. by apply read_octets_length in H4. }
  destruct (read_ipv6_addr s) as [[o r]|] eqn:H6; simpl; [|done].
  case_bool_decide; [|done]. intros [= <-]. by apply read_ipv6_length in H6.
Qed.

Lemma read_digits_nonneg radix v c p v' c' r :
  (0 <= radix)%Z -> (0 <= v)%Z -> read_digits radix v c p = (v', c', r) -> (0 <= v')%Z.
Proof.
  intros Hr. revert v c; induction p as [|b p IH]; intros v c Hv; simpl; [by intros [= <- <- <-]|].
  destruct (to_digit radix b) as [d|] eqn:Hd; [|by intros [= <- <- <-]]. apply IH.
  assert (0 <= d)%Z; [|nia]. unfold to_digit, is_ascii_digit, in_range in Hd.
  pose proof (bval_range b). repeat case_bool; bool_to_prop; simplify_eq; lia.
Qed.

Lemma net_parse_ok value net : net_parse value = Ok net -> net_ok net.
Proof.
  intros ([address prefix] & Hp & (addr & Ha & H)%rbind_Ok)%rbind_Ok.
  assert (0 <= default 0 prefix)%Z as Hnn.
  { destruct (split_first _ _) as [a [p|]]; [|by simplify_eq].
    apply rbind_Ok in Hp as (z & Hz & [= <- <-]). unfold parse_u8 in Hz.
    destruct (read_digits _ _ _ _) as [[v c] r] eqn:Hd.
    apply read_digits_nonneg in Hd; [|lia..]. destruct (_ || _ || _); [done|].
    by injection Hz as ->. }
  destruct (parse_ip address) as [ip|] eqn:Hip; [|done]. injection Ha as <-.
  apply parse_ip_ok in Hip.
  destruct ip; unfold with_prefix in H; case_bool; simplify_eq; bool_to_prop; split; auto;
    destruct prefix; simpl in *; lia.
Qed.

(** ** The octet comparison compares bits *)

Definition bits_val (l : list bool) : Z := foldl (fun v (b : bool) => 2 * v + if b then 1 else 0)%Z 0%Z l.

Lemma byte_bits_val b : bits_val (byte_bits b) = bval b.
Proof. by destruct b. Qed.

#[global] Instance byte_bits_inj : Inj eq eq byte_bits.
Proof. intros a b H. apply bval_inj. by rewrite <-!byte_bits_val, H. Qed.

(** Under the mask of [r] leading ones a byte keeps its [r] leading bits. *)
Definition mask (r : Z) : Z := (Z.shiftl 255 (8 - r) mod 256)%Z.

Lemma masked_bits b :
  forallb (fun r => bool_decide (byte_bits (byte_of_Z (Z.land (bval b) (mask r))) =
      take (Z.to_nat r) (byte_bits b) ++ replicate (8 - Z.to_nat r) false) &&
      (Z.land (bval b) (mask r) =? bval (byte_of_Z (Z.land (bval b) (mask r))))%Z)
    [1; 2; 3; 4; 5; 6; 7]%Z = true.
Proof. by destruct b. Qed.

Lemma masked_eq a b r :
  (1 <= r <= 7)%Z ->
  Z.land (bval a) (mask r) = Z.land (bval b) (mask r) <->
  take (Z.to_nat r) (byte_bits a) = take (Z.to_nat r) (byte_bits b).
Proof.
  intros Hr. pose proof (masked_bits a) as Ha. pose proof (masked_bits b) as Hb.
  assert (In r [1; 2; 3; 4; 5; 6; 7]%Z) as Hin by (simpl; lia).
  rewrite forallb_forall in Ha, Hb. specialize (Ha r Hin). specialize (Hb r Hin).
  apply andb_true_iff in Ha as [Ha1%bool_decide_eq_true Ha2%Z.eqb_eq].
  apply andb_true_iff in Hb as [Hb1%bool_decide_eq_true Hb2%Z.eqb_eq]. split; intros H'.
  - rewrite H', Hb1 in Ha1. by apply app_inj_2 in Ha1 as [-> _].
  - rewrite Ha2, Hb2. f_equal. apply byte_bits_inj. by rewrite Ha1, Hb1, H'.
Qed.

Lemma prefix_bits (q r : nat) (n a : bytes) :
  q <= length n -> q <= length a ->
  take (8 * q + r) (bits a) = take (8 * q + r) (bits n) <->
  take q n = take q a /\ take r (bits (drop q a)) = take r (bits (drop q n)).
Proof.
  revert n a; induction q as [|q IH]; intros n a Hn Ha.
  { rewrite !take_0, !drop_0. naive_solver. }
  destruct n as [|x n], a as [|y a]; simpl in Hn, Ha; try lia.
  replace (8 * S q + r) with (length (byte_bits y) + (8 * q + r)) by (simpl; lia).
  cbn [bits mbind list_bind take drop].
  rewrite take_app_add. replace (length (byte_bits y)) with (length (byte_bits x)) by done.
  rewrite take_app_add. specialize (IH n a ltac:(lia) ltac:(lia)). split.
  - intros H. apply app_inj_1 in H as [->%byte_bits_inj H]; [|done]. apply IH in H as [-> H]. done.
  - intros [[= -> H1] H2]. f_equal. by apply IH.
Qed.

Lemma bits_cons s q b : s !! q = Some b -> bits (drop q s) = byte_bits b ++ bits (drop (S q) s).
Proof. intros H. by rewrite (drop_S _ _ _ H). Qed.

Lemma take_byte_bits r b rest : r <= 8 -> take r (byte_bits b ++ rest) = take r (byte_bits b).
Proof. intros. by rewrite take_app_le by (simpl; lia). Qed.

Lemma prefix_matches_exact n a p :
  length n = length a -> (0 <= p <= 8 * Z.of_nat (length n))%Z ->
  exists b, prefix_matches n a p = Some b /\
    (b = true <-> take (Z.to_nat p) (bits a) = take (Z.to_nat p) (bits n)).
Proof.
  intros Hlen Hp. pose proof (Z.div_mod p 8 ltac:(lia)) as Hdiv.
  pose proof (Z.mod_pos_bound p 8 ltac:(lia)) as Hmod. unfold prefix_matches.
  set (q := Z.to_nat (p / 8)). set (r := (p mod 8)%Z) in *.
  assert (q <= length n) as Hq by (unfold q; lia).
  assert (Z.to_nat p = 8 * q + Z.to_nat r) as Hsplit by (unfold q; lia).
  unfold slice_to. rewrite !bool_decide_eq_true_2 by lia. cbn [mbind option_bind].
  setoid_rewrite Hsplit. setoid_rewrite (prefix_bits q (Z.to_nat r) n a); [|lia..].
  case_bool_decide as Heq; simpl; [|exists false; naive_solver].
  destruct (r =? 0)%Z eqn:Hr0.
  { apply Z.eqb_eq in Hr0. exists true. by rewrite Hr0. }
  apply Z.eqb_neq in Hr0. assert (q < length n) as Hlt by (unfold q; lia).
  destruct (lookup_lt_is_Some_2 n q Hlt) as [x Hx].
  destruct (lookup_lt_is_Some_2 a q ltac:(lia)) as [y Hy]. rewrite Hx, Hy. simpl.
  eexists; split; [done|]. rewrite Z.eqb_eq, (bits_cons n q x), (bits_cons a q y) by done.
  rewrite !take_byte_bits by lia. fold (mask r). rewrite masked_eq by lia. naive_solver.
Qed.

Lemma contains_exact net ip :
  net_ok net -> ip_ok ip -> exists b, contains net ip = Some b /\ (b = true <-> in_net net ip).
Proof.
  destruct net as [n p|n p], ip as [a|a]; simpl; intros [Hn Hp] Ha;
    try (exists false; split; [done|split; [discriminate|contradiction]]).
  - apply prefix_matches_exact; [congruence|lia].
  - apply prefix_matches_exact; [congruence|lia].
Qed.

Lemma split_first_hop c hop s :
  c ∉ hop -> (s = hop \/ exists rest, s = hop ++ c :: rest) -> (split_first c s).1 = hop.
Proof.
  revert s; induction hop as [|b hop IH]; intros s Hc Hs.
  - destruct Hs as [-> |[rest ->]]; simpl; [done|]. by rewrite bool_decide_eq_true_2.
  - apply not_elem_of_cons in Hc as [Hb Hc].
    assert (exists s', s = b :: s' /\ (s' = hop \/ exists rest, s' = hop ++ c :: rest)) as (s' & -> & Hs').
    { destruct Hs as [-> |[rest ->]]; eauto. }
    simpl. rewrite bool_decide_eq_false_2 by congruence. specialize (IH s' Hc Hs').
    destruct (split_first c s') as [first tail]. simpl in *. by rewrite IH.
Qed.

(** ** The property *)

(** C39. Rate limits are charged to the right address.  With a trusted proxy
    read from [TRUSTED_PROXY], a peer that shares the network's leading
    [prefix] bits speaks for the first hop of X-Forwarded-For when that hop
    is an address, whatever follows it; every other peer is charged itself,
    whatever header it sends.  The comparison never indexes out of range. *)
Theorem client_ip_exact value net lim peer header hop :
  net_parse value = Ok net -> ip_ok peer -> ","%byte ∉ hop ->
  (as_bytes header = hop \/ exists rest, as_bytes header = hop ++ ","%byte :: rest) ->
  let self := {| trusted_proxy := Some net; limits := lim |} in
  (in_net net peer -> client_ip self peer (Some header) = Some (default peer (parse_ip (trim hop)))) /\
  (~ in_net net peer -> client_ip self peer (Some header) = Some peer).
Proof.
  intros Hnet%net_parse_ok Hpeer Hhop Hheader. simpl. unfold client_ip; simpl.
  rewrite (split_first_hop _ _ _ Hhop Hheader).
  destruct (contains_exact net peer Hnet Hpeer) as ([|] & -> & Hb); simpl; split; intros H.
  - by destruct (parse_ip _).
  - exfalso. by apply H, Hb.
  - apply Hb in H. discriminate.
  - done.
Qed.

(** A proxy in 10.0.0.0/8 forwards for 203.0.113.7; 11.0.0.1 cannot. *)
Lemma client_ip_exact_witness :
  let self := {| trusted_proxy := Some (NetV4 ["010"; "000"; "000"; "000"]%byte 8); limits := limits_default |} in
  client_ip self (IpV4 ["010"; "001"; "002"; "003"]%byte) (Some " 203.0.113.7, 10.0.0.2") =
    Some (IpV4 ["203"; "000"; "113"; "007"]%byte) /\
  client_ip self (IpV4 ["011"; "000"; "000"; "001"]%byte) (Some "203.0.113.7") =
    Some (IpV4 ["011"; "000"; "000"; "001"]%byte).
Proof.
  split.
  - refine (eq_trans (proj1 (client_ip_exact "10.0.0.0/8" _ limits_default _ _ (as_bytes " 203.0.113.7") _ _ _ _) _) _);
      [reflexivity|reflexivity|by vm_compute; set_solver|right; by exists (as_bytes " 10.0.0.2")|reflexivity|reflexivity].
  - refine (proj2 (client_ip_exact "10.0.0.0/8" _ limits_default _ _ (as_bytes "203.0.113.7") _ _ _ _) _);
      [reflexivity|reflexivity|by vm_compute; set_solver|by left|by vm_compute].
Defined.
