(* ===== verification/RateLimit.v ===== *)
(** * Per-address rate limits ([crates/server/src/ratelimit.rs])

    Fixed windows counting join attempts and inbound bytes.  Each call reads
    the clock once, as the argument [now]; the guard of the concurrent map's
    entry makes a call atomic.  The [u32] attempt counter wraps, the [u64]
    byte counter saturates. *)

From S2P Require Import Prelude Config.

Set Default Goal Selector "!".
#[local] Open Scope clip_scope.
#[local] Open Scope Z_scope.

Record Window := { started : Z; joins : Z; w_bytes : Z }.

Record IpRateLimiter := {
  windows : gmap IpAddr Window; max_joins : Z; max_bytes : Z; window : Z
}.

Definition limiter_new (l : Limits) : IpRateLimiter := {|
  windows := ∅; max_joins := join_attempts_per_minute l; max_bytes := bytes_per_minute l;
  window := rate_window l |}.

Definition fresh_window (now : Z) : Window := {| started := now; joins := 0; w_bytes := 0 |}.

(** The entry a call works on: created, or replaced when its window has run out. *)
Definition current_window (self : IpRateLimiter) (ip : IpAddr) (now : Z) : Window :=
  let entry := default (fresh_window now) (windows self !! ip) in
  if window self <=? now - started entry then fresh_window now else entry.

Definition put_window (self : IpRateLimiter) (ip : IpAddr) (entry : Window) : IpRateLimiter := {|
  windows := <[ip := entry]> (windows self); max_joins := max_joins self;
  max_bytes := max_bytes self; window := window self |}.

Definition count_join (w : Window) : Window :=
  {| started := started w; joins := (joins w + 1) mod 2 ^ 32; w_bytes := w_bytes w |}.
Definition count_bytes (n : Z) (w : Window) : Window :=
  {| started := started w; joins := joins w; w_bytes := saturating_add_u64 (w_bytes w) n |}.

Definition check_join (self : IpRateLimiter) (ip : IpAddr) (now : Z) : bool * IpRateLimiter :=
  let entry := count_join (current_window self ip now) in
  (joins entry <=? max_joins self, put_window self ip entry).

Definition add_bytes (self : IpRateLimiter) (ip : IpAddr) (n now : Z) : bool * IpRateLimiter :=
  let entry := count_bytes n (current_window self ip now) in
  (w_bytes entry <=? max_bytes self, put_window self ip entry).

(** ** Histories of calls *)

Inductive meter := Joins | Bytes (n : Z).

Record call := { c_ip : IpAddr; c_now : Z; c_meter : meter }.

Definition limiter_step (self : IpRateLimiter) (c : call) : bool * IpRateLimiter :=
  match c_meter c with
  | Joins => check_join self (c_ip c) (c_now c)
  | Bytes n => add_bytes self (c_ip c) n (c_now c)
  end.

Definition limiter_run (self : IpRateLimiter) (calls : list call) : IpRateLimiter :=
  foldl (fun s c => (limiter_step s c).2) self calls.

(** What the calls of [ip] that were let through add up to. *)
Fixpoint admitted (cost : meter -> Z) (ip : IpAddr) (self : IpRateLimiter) (calls : list call) : Z :=
  match calls with
  | [] => 0
  | c :: calls =>
      let '(allowed, self') := limiter_step self c in
      (if allowed && bool_decide (c_ip c = ip) then cost (c_meter c) else 0) +
      admitted cost ip self' calls
  end.

Definition join_cost (m : meter) : Z := match m with Joins => 1 | Bytes _ => 0 end.
Definition byte_cost (m : meter) : Z := match m with Joins => 0 | Bytes n => n end.

Definition call_ok (c : call) : Prop := 0 <= byte_cost (c_meter c).
Definition during (t width : Z) (c : call) : Prop := t <= c_now c < t + width.

(** ** The bound, for either meter *)

Definition bump (m : meter) : Window -> Window :=
  match m with Joins => count_join | Bytes n => count_bytes n end.

Lemma limiter_step_window self c :
  windows (limiter_step self c).2 =
  <[c_ip c := bump (c_meter c) (current_window self (c_ip c) (c_now c))]> (windows self).
Proof. unfold limiter_step. by destruct (c_meter c). Qed.

Lemma limiter_step_config self c :
  max_joins (limiter_step self c).2 = max_joins self /\
  max_bytes (limiter_step self c).2 = max_bytes self /\ window (limiter_step self c).2 = window self.
Proof. unfold limiter_step. by destruct (c_meter c). Qed.

Lemma limiter_run_config self calls :
  max_joins (limiter_run self calls) = max_joins self /\
  max_bytes (limiter_run self calls) = max_bytes self /\ window (limiter_run self calls) = window self.
Proof.
  revert self; induction calls as [|c calls IH]; intros self; [done|]. simpl.
  destruct (IH (limiter_step self c).2) as (-> & -> & ->). apply limiter_step_config.
Qed.

Lemma bump_started m w : started (bump m w) = started w.
Proof. by destruct m. Qed.

(** The counters of a window that has seen at most [seen] calls. *)
Definition counts_ok (seen : Z) (w : Window) : Prop := 0 <= joins w <= seen /\ 0 <= w_bytes w <= u64_max.

Lemma bump_counts_ok seen m w :
  0 <= byte_cost m -> seen + 1 < 2 ^ 32 -> counts_ok seen w -> counts_ok (seen + 1) (bump m w).
Proof.
  intros Hm Hs [Hj Hb]. destruct m as [|n]; simpl in *; split; simpl; try lia.
  - rewrite Z.mod_small; lia.
  - unfold saturating_add_u64. assert (0 <= u64_max) by done. lia.
Qed.

Definition limiter_ok (seen : Z) (self : IpRateLimiter) : Prop :=
  0 <= seen /\ map_Forall (fun _ w => counts_ok seen w) (windows self).

Lemma fresh_counts_ok seen now : 0 <= seen -> counts_ok seen (fresh_window now).
Proof. by split; simpl. Qed.

Lemma current_counts_ok seen self ip now :
  limiter_ok seen self -> counts_ok seen (current_window self ip now).
Proof.
  intros [Hs Hall]. unfold current_window. case_bool; [by apply fresh_counts_ok|].
  destruct (windows self !! ip) as [w|] eqn:Hw; simpl; [by eapply Hall|by apply fresh_counts_ok].
Qed.

Lemma limiter_step_ok seen self c :
  call_ok c -> seen + 1 < 2 ^ 32 -> limiter_ok seen self -> limiter_ok (seen + 1) (limiter_step self c).2.
Proof.
  intros Hc Hs Hok. split; [destruct Hok; lia|]. rewrite limiter_step_window.
  apply map_Forall_insert_2; [by apply bump_counts_ok, current_counts_ok|].
  intros ip w Hw. destruct Hok as [? Hall]. destruct (Hall ip w Hw) as [Hj Hb]. split; lia.
Qed.

Lemma limiter_run_ok seen self calls :
  Forall call_ok calls -> seen + Z.of_nat (length calls) < 2 ^ 32 -> limiter_ok seen self ->
  limiter_ok (seen + Z.of_nat (length calls)) (limiter_run self calls).
Proof.
  revert seen self; induction calls as [|c calls IH]; intros seen self Hc Hs Hok; simpl in *.
  { by rewrite Z.add_0_r. }
  apply Forall_cons in Hc as [Hc Hcs].
  replace (seen + Z.of_nat (S (length calls))) with (seen + 1 + Z.of_nat (length calls)) by lia.
  apply IH; [done|lia|]. apply limiter_step_ok; [done|lia|done].
Qed.

(** A meter: its counter, what a call costs, and the limit read from the limiter. *)
Record gauge := {
  g_count : Window -> Z; g_cost : meter -> Z; g_max : IpRateLimiter -> Z
}.

Definition join_gauge : gauge := {| g_count := joins; g_cost := join_cost; g_max := max_joins |}.
Definition byte_gauge : gauge := {| g_count := w_bytes; g_cost := byte_cost; g_max := max_bytes |}.

(** What the bound needs of a meter under the limit [limit]. *)
Definition gauges (limit : Z) (g : gauge) : Prop :=
  (forall now, g_count g (fresh_window now) = 0) /\
  (forall seen w, counts_ok seen w -> 0 <= g_count g w) /\
  (forall seen m w, 0 <= byte_cost m -> seen + 1 < 2 ^ 32 -> counts_ok seen w ->
     0 <= g_cost g m /\
     (g_count g (bump m w) = g_count g w + g_cost g m \/ limit < g_count g (bump m w))) /\
  (forall self c, g_max g self = limit -> (limiter_step self c).1 = true ->
     g_cost g (c_meter c) = 0 \/
     g_count g (bump (c_meter c) (current_window self (c_ip c) (c_now c))) <= limit) /\
  (forall self c, g_max g (limiter_step self c).2 = g_max g self).

Lemma join_gauges limit : gauges limit join_gauge.
Proof.
  split_and!; [done|by intros seen w [[? _] [? _]]| | |].
  - intros seen m w Hm Hs [Hj _]. destruct m; simpl in *; [|lia]. rewrite Z.mod_small; lia.
  - intros self [ip now m]; unfold limiter_step; simpl. intros <-. destruct m; simpl; [|by left].
    intros H%Z.leb_le. by right.
  - intros self c. apply limiter_step_config.
Qed.

Lemma byte_gauges limit : limit < u64_max -> gauges limit byte_gauge.
Proof.
  intros Hlimit. split_and!; [done|by intros seen w [[? _] [? _]]| | |].
  - intros seen m w Hm Hs [_ Hb]. destruct m as [|n]; simpl in *; [lia|].
    unfold saturating_add_u64. lia.
  - intros self [ip now m]; unfold limiter_step; simpl. intros <-. destruct m; simpl; [by left|].
    intros H%Z.leb_le. by right.
  - intros self c. apply limiter_step_config.
Qed.

Section bound.
Context (limit : Z) (g : gauge) (Hlimit : 0 <= limit) (Hg : gauges limit g).
Context (ip : IpAddr) (t width : Z).

(** What the window of [ip] still allows. *)
Definition left_over (self : IpRateLimiter) : Z :=
  match windows self !! ip with Some w => Z.max 0 (limit - g_count g w) | None => limit end.

(** No window of [ip] can run out before [t + width]. *)
Definition settled (self : IpRateLimiter) : Prop :=
  exists w, windows self !! ip = Some w /\ t + width <= started w + window self.

(** One call: another address leaves the window, a call in a running window
    spends from it, and a call that opens a window settles it. *)
Lemma admitted_step seen self c :
  limiter_ok seen self -> seen + 1 < 2 ^ 32 -> call_ok c -> g_max g self = limit ->
  window self = width -> during t width c ->
  let spent := if (limiter_step self c).1 && bool_decide (c_ip c = ip)
               then g_cost g (c_meter c) else 0 in
  let self' := (limiter_step self c).2 in
  (spent + left_over self' <= left_over self /\ (settled self -> settled self')) \/
  (spent + left_over self' <= limit /\ settled self' /\ ~ settled self).
Proof.
  intros Hok Hs Hc Hmax Hw [Hlo Hhi]. destruct Hg as (Hfresh & _ & Hbump & Haccept & _).
  destruct (limiter_step_config self c) as (_ & _ & Hwin). unfold left_over, settled.
  rewrite limiter_step_window, Hwin. specialize (Haccept self c Hmax).
  destruct (decide (c_ip c = ip)) as [<-|Hne].
  2: { rewrite bool_decide_eq_false_2, andb_false_r by done. left.
       rewrite lookup_insert_ne by done. split; [lia|done]. }
  rewrite bool_decide_eq_true_2, andb_true_r, lookup_insert_eq by done.
  pose proof (current_counts_ok seen self (c_ip c) (c_now c) Hok) as Hcur.
  destruct (Hbump seen (c_meter c) _ Hc Hs Hcur) as [Hcost Hcount].
  unfold current_window in *.
  destruct (windows self !! c_ip c) as [w|] eqn:Hlook; simpl in *.
  - destruct (window self <=? c_now c - started w) eqn:Hout; bool_to_prop.
    + right. rewrite Hfresh in Hcount. split_and!.
      * destruct (limiter_step self c).1; [destruct (Haccept eq_refl)|]; lia.
      * eexists. split; [done|]. rewrite bump_started. simpl. lia.
      * intros (w' & [= <-] & Hw'). lia.
    + left. split.
      * destruct (limiter_step self c).1; [destruct (Haccept eq_refl)|]; lia.
      * intros (w' & [= <-] & Hw'). eexists. split; [done|]. by rewrite bump_started.
  - rewrite Z.sub_diag in *.
    replace (if window self <=? 0 then fresh_window (c_now c) else fresh_window (c_now c))
      with (fresh_window (c_now c)) in * by (by case_bool).
    left. rewrite Hfresh in Hcount. split.
    + destruct (limiter_step self c).1; [destruct (Haccept eq_refl)|]; lia.
    + by intros (w' & ? & _).
Qed.

Lemma admitted_bound seen self calls :
  limiter_ok seen self -> seen + Z.of_nat (length calls) < 2 ^ 32 -> Forall call_ok calls ->
  g_max g self = limit -> window self = width -> Forall (during t width) calls ->
  admitted (g_cost g) ip self calls <= left_over self + limit /\
  (settled self -> admitted (g_cost g) ip self calls <= left_over self).
Proof.
  revert seen self; induction calls as [|c calls IH]; intros seen self Hok Hs Hc Hmax Hw Hd; simpl in *.
  { unfold left_over. destruct (windows self !! ip); simpl; lia. }
  apply Forall_cons in Hc as [Hc Hcs], Hd as [Hd Hds].
  pose proof (admitted_step seen self c Hok ltac:(lia) Hc Hmax Hw Hd) as Hstep.
  pose proof (limiter_step_ok seen self c Hc ltac:(lia) Hok) as Hok'.
  destruct (limiter_step_config self c) as (_ & _ & Hwin).
  assert (g_max g (limiter_step self c).2 = limit) as Hmax' by (rewrite <-Hmax; apply Hg).
  destruct (limiter_step self c) as [allowed self'] eqn:Heq. simpl in *.
  destruct (IH (seen + 1) self') as [H1 H2]; [done|lia|done|done|congruence|done|].
  assert (0 <= left_over self) by (unfold left_over; destruct (windows self !! ip); lia).
  destruct Hstep as [[Hle Hset]|(Hle & Hset & Hns)]; [split; [lia|]|].
  - intros Hss. specialize (H2 (Hset Hss)). lia.
  - specialize (H2 Hset). split; [lia|done].
Qed.
End bound.

(** ** The property *)

(** C38. Over any stretch of time as long as the window, one address gets at
    most twice its budget: at most [2 * max_joins] of its join attempts and at
    most [2 * max_bytes] of its bytes are let through, however its calls
    interleave with those of other addresses and whatever calls came before.
    The limits are those of a limiter just made with a byte limit below the
    largest [u64], and it has had fewer than 2^32 calls in all, counted over
    all addresses. *)
Theorem rate_limit_bound lim before calls ip t :
  let self := limiter_run (limiter_new lim) before in
  0 <= join_attempts_per_minute lim -> 0 <= bytes_per_minute lim < u64_max ->
  Forall call_ok (before ++ calls) -> Z.of_nat (length (before ++ calls)) < 2 ^ 32 ->
  Forall (during t (rate_window lim)) calls ->
  admitted join_cost ip self calls <= 2 * join_attempts_per_minute lim /\
  admitted byte_cost ip self calls <= 2 * bytes_per_minute lim.
Proof.
  intros self Hj Hb Hok Hlen Hd. apply Forall_app in Hok as [Hok1 Hok2]. rewrite length_app in Hlen.
  destruct (limiter_run_config (limiter_new lim) before) as (Hmj & Hmb & Hw).
  assert (limiter_ok (0 + Z.of_nat (length before)) self) as Hself.
  { apply limiter_run_ok; [done|lia|]. split; [done|apply map_Forall_empty]. }
  assert (forall limit g, 0 <= limit -> gauges limit g -> g_max g self = limit ->
    admitted (g_cost g) ip self calls <= 2 * limit) as Hbound.
  { intros limit g Hl Hg Hm. edestruct (admitted_bound limit g Hl Hg ip t (rate_window lim) (0 + Z.of_nat (length before)) self calls) as [H _];
      [exact Hself|lia|done|done|done|done|].
    assert (left_over limit g ip self <= limit); [|lia]. unfold left_over.
    destruct (windows self !! ip) as [w|] eqn:Hlook; [|lia].
    destruct Hg as (_ & Hnn & _). specialize (Hnn _ w (proj2 Hself ip w Hlook)). lia. }
  split; [apply (Hbound _ join_gauge); [done|apply join_gauges|done]|].
  apply (Hbound _ byte_gauge); [lia|apply byte_gauges; lia|done].
Qed.

(** Seven attempts in one minute, one of them by another address: five pass. *)
Lemma rate_limit_bound_witness :
  let home := IpV4 [Byte.x0a; Byte.x00; Byte.x00; Byte.x01] in
  let other := IpV4 [Byte.x0a; Byte.x00; Byte.x00; Byte.x02] in
  let at_ ip now := {| c_ip := ip; c_now := now; c_meter := Joins |} in
  let calls := at_ other 3 :: (at_ home <$> [4; 5; 6; 7; 8; 9]) in
  admitted join_cost home (limiter_new limits_default) calls = 5 /\
  admitted join_cost home (limiter_new limits_default) calls <= 2 * 5.
Proof.
  intros home other at_ calls. split; [by vm_compute|].
  refine (proj1 (rate_limit_bound limits_default [] calls home 0 _ _ _ _ _)); [done|done| |done|];
    repeat constructor; simpl; unfold call_ok, during; simpl; lia.
Defined.
