(* ===== verification/Mailbox.v ===== *)
(** * Mailboxes ([crates/server/src/mailbox.rs])

    The latest undelivered clip of each room.  The trait [MailboxSink] is a
    type class; [NoopMailboxSink] and [PersistentMailbox] are its instances.
    [PersistentMailbox] is shared by the room actors, one publication worker
    and a sweeper: its methods are functions on the shared state, and
    [mailbox_step] interleaves them at the points where the source can be
    preempted.  The write gate and the test counters' notifications are
    instrumentation and left out. *)

From S2P Require Import Prelude Fs Interfaces.
From Stdlib Require Import Strings.Byte.

Set Default Goal Selector "!".
#[local] Open Scope clip_scope.

Definition MAILBOX_MAX_BYTES : Z := 100 * 24 * 1024 * 1024.
Definition MAILBOX_TTL : Z := 7 * 24 * 60 * 60 * 1000.

Record PendingClip := { origin_device : string; ciphertext_b64 : string }.

#[global] Instance PendingClip_eq_decision : EqDecision PendingClip.
Proof. solve_decision. Defined.

Record HealthProbe := { degraded : bool; last_error : option io_error }.

Definition health_default : HealthProbe := {| degraded := false; last_error := None |}.
Definition is_healthy (h : HealthProbe) : bool := negb (degraded h).
Definition mark_degraded (e : io_error) (h : HealthProbe) : HealthProbe :=
  {| degraded := true; last_error := Some e |}.
Definition mark_healthy (h : HealthProbe) : HealthProbe := health_default.

(** ** The trait: [now] is the clock the method reads *)

Class MailboxSink (M : Type) := {
  clip_pending : M -> string -> string -> PendingClip -> Z -> M;
  clip_consumed : M -> string -> string -> M;
  load_pending : M -> string -> Z -> list (string * PendingClip);
  health_probe : M -> option HealthProbe
}.

Inductive NoopMailboxSink := Noop.

#[global] Instance noop_sink : MailboxSink NoopMailboxSink := {|
  clip_pending := fun self _ _ _ _ => self;
  clip_consumed := fun self _ _ => self;
  load_pending := fun _ _ _ => [];
  health_probe := fun _ => None |}.

(** ** Snapshots *)

Record MailboxOptions := { mb_max_bytes : Z; ttl : Z; retry_interval : Z }.

Definition options_default : MailboxOptions :=
  {| mb_max_bytes := MAILBOX_MAX_BYTES; ttl := MAILBOX_TTL; retry_interval := 5 * 1000 |}.

Record DiskMailbox := {
  dm_version : Z; dm_room_id : string; dm_recipient_fp : string; dm_origin_fp : string;
  dm_ciphertext_b64 : string; dm_ts_ms : Z
}.

Record Snapshot := {
  recipient_fp : string; origin_fp : string; s_ciphertext_b64 : string; ts_ms : Z
}.

#[global] Instance DiskMailbox_eq_decision : EqDecision DiskMailbox.
Proof. solve_decision. Defined.
#[global] Instance Snapshot_eq_decision : EqDecision Snapshot.
Proof. solve_decision. Defined.

Definition mb_validate_room_id (room_id : string) : result unit io_error :=
  if lower_hex 32 room_id then Ok tt else Err InvalidInput.
Definition validate_fingerprint (fp : string) : result unit io_error :=
  if lower_hex 64 fp then Ok tt else Err InvalidData.

Definition into_snapshot {B64 : Base64} (self : DiskMailbox) : result Snapshot io_error :=
  if negb (dm_version self =? 1)%Z then Err InvalidData
  else
    _ ←? mb_validate_room_id (dm_room_id self);
    _ ←? validate_fingerprint (dm_recipient_fp self);
    _ ←? validate_fingerprint (dm_origin_fp self);
    decoded ←? map_err (fun _ => InvalidData) (b64_decode (dm_ciphertext_b64 self));
    if negb (bool_decide (b64_encode decoded = dm_ciphertext_b64 self)) then Err InvalidData
    else if (dm_ts_ms self <=? 0)%Z then Err InvalidData
    else Ok {| recipient_fp := dm_recipient_fp self; origin_fp := dm_origin_fp self;
               s_ciphertext_b64 := dm_ciphertext_b64 self; ts_ms := dm_ts_ms self |}.

Definition to_disk (self : Snapshot) (room_id : string) : DiskMailbox :=
  {| dm_version := 1; dm_room_id := room_id; dm_recipient_fp := recipient_fp self;
     dm_origin_fp := origin_fp self; dm_ciphertext_b64 := s_ciphertext_b64 self;
     dm_ts_ms := ts_ms self |}.

Definition to_pending_clip (self : Snapshot) : PendingClip :=
  {| origin_device := origin_fp self; ciphertext_b64 := s_ciphertext_b64 self |}.

Definition ttl_ms (ttl : Z) : Z := clamp_i64 ttl.
Definition is_expired (ts_ms now_ms ttl_ms : Z) : bool :=
  (ttl_ms <? saturating_sub_i64 now_ms ts_ms)%Z.

(** ** The persistent mailbox: shared state *)

Record PersistentMailbox := {
  mb_dir : string; options : MailboxOptions;
  index : gmap string Snapshot; dirty : gmap string Snapshot; queued : gset string;
  sizes : gmap string Z; channel : list string; health : HealthProbe;
  writes_done : nat; in_flight : bool
}.

Definition snapshot_path (dir room_id : string) : path := Path dir (room_id +:+ ".json").
Definition snapshot_temp (dir room_id : string) : path := Path dir ("." +:+ room_id +:+ ".json.tmp").

(** [sizes.values().sum()]. *)
Definition total (sizes : gmap string Z) : Z := map_fold (fun _ n acc => (n + acc)%Z) 0%Z sizes.

Definition set_dirty (d : gmap string Snapshot) (self : PersistentMailbox) : PersistentMailbox :=
  {| mb_dir := mb_dir self; options := options self; index := index self; dirty := d;
     queued := queued self; sizes := sizes self; channel := channel self; health := health self;
     writes_done := writes_done self; in_flight := in_flight self |}.
Definition set_queue (q : gset string) (c : list string) (self : PersistentMailbox) : PersistentMailbox :=
  {| mb_dir := mb_dir self; options := options self; index := index self; dirty := dirty self;
     queued := q; sizes := sizes self; channel := c; health := health self;
     writes_done := writes_done self; in_flight := in_flight self |}.
Definition set_index (i : gmap string Snapshot) (s : gmap string Z) (self : PersistentMailbox) : PersistentMailbox :=
  {| mb_dir := mb_dir self; options := options self; index := i; dirty := dirty self;
     queued := queued self; sizes := s; channel := channel self; health := health self;
     writes_done := writes_done self; in_flight := in_flight self |}.
Definition set_in_flight (b : bool) (self : PersistentMailbox) : PersistentMailbox :=
  {| mb_dir := mb_dir self; options := options self; index := index self; dirty := dirty self;
     queued := queued self; sizes := sizes self; channel := channel self; health := health self;
     writes_done := writes_done self; in_flight := b |}.
Definition set_health (h : HealthProbe) (n : nat) (self : PersistentMailbox) : PersistentMailbox :=
  {| mb_dir := mb_dir self; options := options self; index := index self; dirty := dirty self;
     queued := queued self; sizes := sizes self; channel := channel self; health := h;
     writes_done := n; in_flight := in_flight self |}.

(** ** The sink's side *)

Definition mb_clip_pending (self : PersistentMailbox) (room_id recipient : string) (clip : PendingClip)
    (now : Z) : PersistentMailbox :=
  match mb_validate_room_id room_id with
  | Err _ => self
  | Ok _ =>
      let snapshot := {| recipient_fp := recipient; origin_fp := origin_device clip;
                         s_ciphertext_b64 := ciphertext_b64 clip; ts_ms := now |} in
      let self := set_dirty (<[room_id := snapshot]> (dirty self)) self in
      if bool_decide (room_id ∈ queued self) then self
      else set_queue ({[room_id]} ∪ queued self) (channel self ++ [room_id]) self
  end.

Definition mb_load_pending (self : PersistentMailbox) (room_id : string) (now : Z) :
    list (string * PendingClip) :=
  let snapshot := match dirty self !! room_id with Some s => Some s | None => index self !! room_id end in
  match snapshot with
  | Some s => if is_expired (ts_ms s) now (ttl_ms (ttl (options self))) then []
              else [(recipient_fp s, to_pending_clip s)]
  | None => []
  end.

#[global] Instance persistent_sink : MailboxSink PersistentMailbox := {|
  clip_pending := mb_clip_pending;
  clip_consumed := fun self _ _ => self;
  load_pending := mb_load_pending;
  health_probe := fun self => Some (health self) |}.

(** ** The publication worker *)

Section worker.
Context {T : Type} {JM : Json DiskMailbox}.

Definition write_snapshot (self : PersistentMailbox) (room_id : string) (snapshot : Snapshot) :
    io T (result Z io_error) :=
  match to_vec_pretty (to_disk snapshot room_id) with
  | Err _ => mret (Err OtherError)
  | Ok encoded =>
      let size := Z.of_nat (length encoded) in
      let prospective := (total (sizes self) - default 0 (sizes self !! room_id) + size)%Z in
      if (mb_max_bytes (options self) <? prospective)%Z then mret (Err QuotaExceeded)
      else
        let temp := snapshot_temp (mb_dir self) room_id in
        let path := snapshot_path (mb_dir self) room_id in
        _ ←! (_ ←! open_truncate temp;
              _ ←! write_sync_rename temp path encoded;
              open_sync_dir (mb_dir self));
        mret (Ok size)
  end.

(** [publish] up to the write, and after it. *)
Definition publish_take (self : PersistentMailbox) (room_id : string) :
    option (Snapshot * PersistentMailbox) :=
  match dirty self !! room_id with
  | None => None
  | Some snapshot =>
      Some (snapshot, set_in_flight true (set_dirty (delete room_id (dirty self)) self))
  end.

Definition publish_finish (self : PersistentMailbox) (retry : gset string) (room_id : string)
    (snapshot : Snapshot) (r : result Z io_error) : PersistentMailbox * gset string :=
  let self := set_in_flight false self in
  match r with
  | Ok size =>
      let self := set_index (<[room_id := snapshot]> (index self)) (<[room_id := size]> (sizes self)) self in
      (set_health (mark_healthy (health self)) (S (writes_done self)) self, retry)
  | Err e =>
      let self := set_health (mark_degraded e (health self)) (writes_done self) self in
      (set_dirty (match dirty self !! room_id with
                  | Some _ => dirty self
                  | None => <[room_id := snapshot]> (dirty self)
                  end) self, {[room_id]} ∪ retry)
  end.

(** [publish] run without interruption. *)
Definition publish (self : PersistentMailbox) (retry : gset string) (room_id : string) :
    io T (PersistentMailbox * gset string) :=
  match publish_take self room_id with
  | None => mret (self, retry)
  | Some (snapshot, self) =>
      r ← write_snapshot self room_id snapshot;
      mret (publish_finish self retry room_id snapshot r)
  end.

Definition unqueue (room_id : string) (self : PersistentMailbox) : PersistentMailbox :=
  set_queue (queued self ∖ {[room_id]}) (channel self) self.

(** The retry arm's loop, and one turn of [run_worker] on each arm. *)
Fixpoint publish_all (self : PersistentMailbox) (retry : gset string) (rooms : list string) :
    io T (PersistentMailbox * gset string) :=
  match rooms with
  | [] => mret (self, retry)
  | room_id :: rooms =>
      out ← publish (unqueue room_id self) retry room_id;
      publish_all out.1 out.2 rooms
  end.

Definition worker_signal (self : PersistentMailbox) (retry : gset string) :
    io T (PersistentMailbox * gset string) :=
  match channel self with
  | [] => mret (self, retry)
  | room_id :: rest => publish_all (set_queue (queued self) rest self) retry [room_id]
  end.

Definition worker_retry (self : PersistentMailbox) (retry : gset string) :
    io T (PersistentMailbox * gset string) :=
  publish_all self ∅ (elements retry).

(** ** The sweeper *)

Definition sweep_collect (self : PersistentMailbox) (now_ms : Z) : list string :=
  (filter (fun kv => is_expired (ts_ms kv.2) now_ms (ttl_ms (ttl (options self))) = true)
    (map_to_list (index self))).*1.

(** The memory's part of one iteration; [false] when the room is gone. *)
Definition sweep_forget (self : PersistentMailbox) (room_id : string) : bool * PersistentMailbox :=
  match index self !! room_id with
  | None => (false, self)
  | Some _ => (true, set_index (delete room_id (index self)) (delete room_id (sizes self)) self)
  end.

Definition sweep_delete (dir room_id : string) : io T unit :=
  _ ← remove_file (snapshot_path dir room_id);
  _ ← open_sync_dir dir;
  mret tt.

Fixpoint sweep_rooms (self : PersistentMailbox) (removed : nat) (rooms : list string) :
    io T (nat * PersistentMailbox) :=
  match rooms with
  | [] => mret (removed, self)
  | room_id :: rooms =>
      match sweep_forget self room_id with
      | (false, self) => sweep_rooms self removed rooms
      | (true, self) =>
          _ ← sweep_delete (mb_dir self) room_id;
          sweep_rooms self (S removed) rooms
      end
  end.

Definition sweep_expired (self : PersistentMailbox) (now_ms : Z) : io T (nat * PersistentMailbox) :=
  sweep_rooms self 0 (sweep_collect self now_ms).

(** ** Opening *)

(** [DirEntry::metadata]'s [len]. *)
Definition metadata_len (p : path) : io T (result Z io_error) :=
  atomic_call (fun d =>
    match live d !! p with
    | Some f => (Ok (Z.of_nat (length (f_data f))), d)
    | None => (Err NotFound, d)
    end).

Definition parse_snapshot {B64 : Base64} (room_id : string) (data : bytes) : result Snapshot io_error :=
  disk ←? map_err (fun _ => InvalidData) (from_slice data);
  if negb (bool_decide (dm_room_id disk = room_id)) then Err InvalidData else into_snapshot disk.

Definition read_snapshot {B64 : Base64} (p : path) (room_id : string) : io T (result Snapshot io_error) :=
  data ←! read p; mret (parse_snapshot room_id data).

(** The room a file name belongs to. *)
Definition room_of_name (name : string) : option string :=
  room_id ← str_of_bytes <$> strip_suffix (as_bytes ".json") (as_bytes name);
  if is_ok (mb_validate_room_id room_id) then Some room_id else None.

Fixpoint scan {B64 : Base64} (dir : string) (now ttl : Z) (ix : gmap string Snapshot) (sz : gmap string Z)
    (names : list string) : io T (result (gmap string Snapshot * gmap string Z) io_error) :=
  match names with
  | [] => mret (Ok (ix, sz))
  | name :: names =>
      match room_of_name name with
      | None => scan dir now ttl ix sz names
      | Some room_id =>
          r ← read_snapshot (Path dir name) room_id;
          match r with
          | Ok snapshot =>
              if is_expired (ts_ms snapshot) now ttl then
                _ ← remove_file (Path dir name); scan dir now ttl ix sz names
              else
                len ←! metadata_len (Path dir name);
                scan dir now ttl (<[room_id := snapshot]> ix) (<[room_id := len]> sz) names
          | Err _ => scan dir now ttl ix sz names
          end
      end
  end.

Definition mailbox_open {B64 : Base64} (dir : string) (opts : MailboxOptions) (now : Z) :
    io T (result PersistentMailbox io_error) :=
  _ ←! create_dir_all;
  names ←! read_dir dir;
  found ←! scan dir now (ttl_ms (ttl opts)) ∅ ∅ names;
  mret (Ok {| mb_dir := dir; options := opts; index := found.1; dirty := ∅; queued := ∅;
              sizes := found.2; channel := []; health := health_default; writes_done := 0;
              in_flight := false |}).
End worker.

(** ** Interleavings

    The worker's program points: [Ready rooms] between two rooms of the retry
    list ([Ready []] is the [select]); [Picked] with a room in hand;
    [Unqueued] after [queued.remove]; [Writing] from the removal from [dirty]
    to the answer of the disk; [Written] with that answer.  [sy_sweep] is what
    the sweeper collected and has not visited.  Ghosts: [sy_latest], the last
    snapshot stored per room; [sy_collected], when the sweeper last collected
    and what was published then; and [sy_swept], for the rooms whose published
    snapshot the sweeper removed since the last clip: when it had collected,
    what was published for the room then, and what it removed. *)

Inductive worker_pc :=
| Ready (rooms : list string)
| Picked (room_id : string) (rooms : list string)
| Unqueued (room_id : string) (rooms : list string)
| Writing (room_id : string) (snapshot : Snapshot) (rooms : list string)
| Written (room_id : string) (snapshot : Snapshot) (r : result Z io_error) (rooms : list string).

Record mailbox_sys := {
  sy_mb : PersistentMailbox; sy_retry : gset string; sy_pc : worker_pc; sy_sweep : list string;
  sy_latest : gmap string Snapshot; sy_collected : Z * gmap string Snapshot;
  sy_swept : gmap string (Z * option Snapshot * option Snapshot)
}.

Definition on_mb (mb : PersistentMailbox) (pc : worker_pc) (retry : gset string) (s : mailbox_sys) : mailbox_sys :=
  {| sy_mb := mb; sy_retry := retry; sy_pc := pc; sy_sweep := sy_sweep s;
     sy_latest := sy_latest s; sy_collected := sy_collected s; sy_swept := sy_swept s |}.

(** The sweeper collects, and visits a room. *)
Definition on_collect (now : Z) (s : mailbox_sys) : mailbox_sys :=
  {| sy_mb := sy_mb s; sy_retry := sy_retry s; sy_pc := sy_pc s; sy_sweep := sweep_collect (sy_mb s) now;
     sy_latest := sy_latest s; sy_collected := (now, index (sy_mb s)); sy_swept := sy_swept s |}.

Definition on_sweep (room : string) (rooms : list string) (s : mailbox_sys) : mailbox_sys :=
  let '(removed, mb) := sweep_forget (sy_mb s) room in
  {| sy_mb := mb; sy_retry := sy_retry s; sy_pc := sy_pc s; sy_sweep := rooms;
     sy_latest := sy_latest s; sy_collected := sy_collected s;
     sy_swept := if removed : bool
                 then <[room := ((sy_collected s).1, (sy_collected s).2 !! room, index (sy_mb s) !! room)]> (sy_swept s)
                 else sy_swept s |}.

(** A clip arrives: the ghost remembers it when the mailbox takes it. *)
Definition on_clip_pending (room recipient : string) (clip : PendingClip) (now : Z) (s : mailbox_sys) :
    mailbox_sys :=
  let mb := mb_clip_pending (sy_mb s) room recipient clip now in
  let taken := is_ok (mb_validate_room_id room) in
  {| sy_mb := mb; sy_retry := sy_retry s; sy_pc := sy_pc s; sy_sweep := sy_sweep s;
     sy_latest := if taken then <[room := {| recipient_fp := recipient; origin_fp := origin_device clip;
                    s_ciphertext_b64 := ciphertext_b64 clip; ts_ms := now |}]> (sy_latest s)
                  else sy_latest s;
     sy_collected := sy_collected s;
     sy_swept := if taken then delete room (sy_swept s) else sy_swept s |}.

Section steps.
Context {JM : Json DiskMailbox}.

Inductive mailbox_step : mailbox_sys -> mailbox_sys -> Prop :=
| step_clip s room recipient clip now :
    mailbox_step s (on_clip_pending room recipient clip now s)
| step_recv s room rest :
    sy_pc s = Ready [] -> channel (sy_mb s) = room :: rest ->
    mailbox_step s (on_mb (set_queue (queued (sy_mb s)) rest (sy_mb s)) (Picked room []) (sy_retry s) s)
| step_retry s rooms :
    sy_pc s = Ready [] -> sy_retry s <> ∅ -> rooms ≡ₚ elements (sy_retry s) ->
    mailbox_step s (on_mb (sy_mb s) (Ready rooms) ∅ s)
| step_next s room rooms :
    sy_pc s = Ready (room :: rooms) ->
    mailbox_step s (on_mb (sy_mb s) (Picked room rooms) (sy_retry s) s)
| step_unqueue s room rooms :
    sy_pc s = Picked room rooms ->
    mailbox_step s (on_mb (unqueue room (sy_mb s)) (Unqueued room rooms) (sy_retry s) s)
| step_none s room rooms :
    sy_pc s = Unqueued room rooms -> publish_take (sy_mb s) room = None ->
    mailbox_step s (on_mb (sy_mb s) (Ready rooms) (sy_retry s) s)
| step_take s room rooms snapshot mb :
    sy_pc s = Unqueued room rooms -> publish_take (sy_mb s) room = Some (snapshot, mb) ->
    mailbox_step s (on_mb mb (Writing room snapshot rooms) (sy_retry s) s)
| step_write s room snapshot rooms r (w w' : world unit) :
    sy_pc s = Writing room snapshot rooms -> write_snapshot (sy_mb s) room snapshot w = (Done r, w') ->
    mailbox_step s (on_mb (sy_mb s) (Written room snapshot r rooms) (sy_retry s) s)
| step_finish s room snapshot r rooms mb retry :
    sy_pc s = Written room snapshot r rooms ->
    publish_finish (sy_mb s) (sy_retry s) room snapshot r = (mb, retry) ->
    mailbox_step s (on_mb mb (Ready rooms) retry s)
| step_collect s now :
    sy_sweep s = [] -> mailbox_step s (on_collect now s)
| step_sweep s room rooms : sy_sweep s = room :: rooms -> mailbox_step s (on_sweep room rooms s).

Definition sys_start (mb : PersistentMailbox) : mailbox_sys :=
  {| sy_mb := mb; sy_retry := ∅; sy_pc := Ready []; sy_sweep := []; sy_latest := index mb;
     sy_collected := (0%Z, ∅); sy_swept := ∅ |}.

(** The snapshot the worker holds, and the rooms it still has to visit. *)
Definition in_hand (pc : worker_pc) : option (string * Snapshot) :=
  match pc with
  | Writing room s _ | Written room s _ _ => Some (room, s)
  | _ => None
  end.

Definition todo (pc : worker_pc) : list string :=
  match pc with
  | Ready rooms | Writing _ _ rooms | Written _ _ _ rooms => rooms
  | Picked room rooms | Unqueued room rooms => room :: rooms
  end.

Definition scheduled (s : mailbox_sys) (room : string) : Prop :=
  room ∈ channel (sy_mb s) \/ room ∈ sy_retry s \/ room ∈ todo (sy_pc s).

(** The sweeper removed the published snapshot [snap] of a room: it had
    collected the room at a time when the snapshot published for it was
    expired, and that was [snap] or one that [snap] replaced before the
    sweeper came to the room. *)
Definition swept_away (s : mailbox_sys) (room : string) (snap : Snapshot) : Prop :=
  exists now old, sy_swept s !! room = Some (now, Some old, Some snap) /\
    is_expired (ts_ms old) now (ttl_ms (ttl (options (sy_mb s)))) = true.

(** Where the last snapshot of a room is. *)
Definition located (s : mailbox_sys) (room : string) (snap : Snapshot) : Prop :=
  dirty (sy_mb s) !! room = Some snap \/
  (dirty (sy_mb s) !! room = None /\
    (in_hand (sy_pc s) = Some (room, snap) \/
     (forall snap', in_hand (sy_pc s) <> Some (room, snap')) /\
     (index (sy_mb s) !! room = Some snap \/ (index (sy_mb s) !! room = None /\ swept_away s room snap)))).

(** What the sweeper has still to visit was expired when it collected. *)
Definition sweep_ok (s : mailbox_sys) : Prop :=
  forall room, room ∈ sy_sweep s -> exists old, (sy_collected s).2 !! room = Some old /\
    is_expired (ts_ms old) (sy_collected s).1 (ttl_ms (ttl (options (sy_mb s)))) = true.

Definition sys_inv (s : mailbox_sys) : Prop :=
  (forall room, room ∈ queued (sy_mb s) ->
     room ∈ channel (sy_mb s) \/ exists rooms, sy_pc s = Picked room rooms) /\
  (forall room, is_Some (dirty (sy_mb s) !! room) -> scheduled s room) /\
  (forall room snap, sy_latest s !! room = Some snap -> located s room snap) /\ sweep_ok s.

Lemma sys_inv_start mb : dirty mb = ∅ -> queued mb = ∅ -> sys_inv (sys_start mb).
Proof.
  intros Hd Hq. split_and!; simpl.
  - intros room. rewrite Hq. set_solver.
  - intros room. rewrite Hd. by intros [? ?%lookup_empty_Some].
  - intros room snap Hs. right. simpl. rewrite Hd. split; [done|]. right. by split; [|left].
  - intros room []%elem_of_nil.
Qed.

Lemma sys_inv_clip room recipient clip now s :
  sys_inv s -> sys_inv (on_clip_pending room recipient clip now s).
Proof.
  intros (Hq & Hd & Hl & Hsw). unfold on_clip_pending, mb_clip_pending.
  destruct (mb_validate_room_id room) as [[]|e]; simpl; [|by split_and!].
  assert (forall r, room <> r -> delete room (sy_swept s) !! r = sy_swept s !! r) as Hdel
    by (intros; by apply lookup_delete_ne).
  unfold sys_inv, scheduled, located, swept_away; simpl. case_bool_decide as Hin; simpl; split_and!; try done.
  - intros r [<- |Hr]%lookup_insert_is_Some; [|by apply Hd, (proj2 Hr)].
    destruct (Hq room Hin) as [?|[rooms ->]]; [by left|]. right; right. by left.
  - intros r snap [[<- <-]|[Hne Hs]]%lookup_insert_Some; [left; by rewrite lookup_insert_eq|].
    specialize (Hl r snap Hs). unfold located, swept_away in Hl. by rewrite lookup_insert_ne, Hdel by done.
  - intros r [->%elem_of_singleton|Hr]%elem_of_union; [left; set_solver|].
    destruct (Hq r Hr) as [?|?]; [left; set_solver|by right].
  - intros r [<- |Hr]%lookup_insert_is_Some; [left; set_solver|].
    destruct (Hd r (proj2 Hr)) as [?|?]; [left; set_solver|by right].
  - intros r snap [[<- <-]|[Hne Hs]]%lookup_insert_Some; [left; by rewrite lookup_insert_eq|].
    specialize (Hl r snap Hs). unfold located, swept_away in Hl. by rewrite lookup_insert_ne, Hdel by done.
Qed.

(** A step of the worker that only moves it: rooms stay scheduled, and what
    it holds stays. *)
Lemma sys_inv_move mb pc retry s :
  sys_inv s -> dirty mb = dirty (sy_mb s) -> index mb = index (sy_mb s) ->
  in_hand pc = in_hand (sy_pc s) -> options mb = options (sy_mb s) ->
  (forall room, room ∈ queued mb -> room ∈ channel mb \/ exists rooms, pc = Picked room rooms) ->
  (forall room, is_Some (dirty mb !! room) -> scheduled s room -> scheduled (on_mb mb pc retry s) room) ->
  sys_inv (on_mb mb pc retry s).
Proof.
  intros (Hq & Hd & Hl & Hsw) Hdirty Hindex Hhand Hopts Hqueue Hsched. split_and!; simpl; [done| | |].
  - intros room Hr. apply Hsched; [done|]. apply Hd. by rewrite <-Hdirty.
  - intros room snap Hs. specialize (Hl room snap Hs). unfold located, swept_away in *; simpl.
    by rewrite Hdirty, Hindex, Hhand, Hopts.
  - unfold sweep_ok in *; simpl. by rewrite Hopts.
Qed.

Lemma sys_inv_take s room rooms snapshot mb :
  sys_inv s -> sy_pc s = Unqueued room rooms -> publish_take (sy_mb s) room = Some (snapshot, mb) ->
  sys_inv (on_mb mb (Writing room snapshot rooms) (sy_retry s) s).
Proof.
  intros (Hq & Hd & Hl & Hsw) Hpc. unfold publish_take.
  destruct (dirty (sy_mb s) !! room) as [snap|] eqn:Hdirty; [|done]. intros [= <- <-].
  unfold sys_inv, scheduled, located in *; simpl in *. split_and!; [| | |done].
  - intros r Hr. destruct (Hq r Hr) as [?|[rs ?]]; [by left|congruence].
  - intros r (Hne & Hr)%lookup_delete_is_Some. rewrite Hpc in Hd.
    destruct (Hd r Hr) as [?|[?|[-> |?]%elem_of_cons]]; auto. done.
  - intros r snap' Hs. specialize (Hl r snap' Hs). rewrite Hpc in Hl. simpl in Hl.
    destruct (decide (r = room)) as [-> |Hne].
    + rewrite lookup_delete_eq. right. split; [done|]. left. rewrite Hdirty in Hl.
      destruct Hl as [?|[? _]]; congruence.
    + rewrite lookup_delete_ne by done. destruct Hl as [?|[? [?|[_ ?]]]]; [by left|done|].
      right. split; [done|]. right. split; [congruence|done].
Qed.

Lemma sys_inv_finish s room snapshot r rooms mb retry :
  sys_inv s -> sy_pc s = Written room snapshot r rooms ->
  publish_finish (sy_mb s) (sy_retry s) room snapshot r = (mb, retry) ->
  sys_inv (on_mb mb (Ready rooms) retry s).
Proof.
  intros (Hq & Hd & Hl & Hsw) Hpc. unfold publish_finish. destruct r as [size|e]; intros [= <- <-];
    unfold sys_inv, scheduled, located in *; simpl in *; rewrite Hpc in *; simpl in *; split_and!; try exact Hsw.
  - intros r Hr. destruct (Hq r Hr) as [?|[rs ?]]; [by left|congruence].
  - done.
  - intros r snap' Hs. destruct (Hl r snap' Hs) as [?|[Hn [[= -> ->]|[Hne Hix]]]]; [by left| |];
      right; (split; [done|]); right; (split; [done|]).
    + left. by rewrite lookup_insert_eq.
    + rewrite lookup_insert_ne by (intros ->; by apply (Hne snapshot)). done.
  - intros r Hr. destruct (Hq r Hr) as [?|[rs ?]]; [by left|congruence].
  - intros r Hr. destruct (decide (r = room)) as [-> |Hne]; [right; left; set_solver|].
    destruct (dirty (sy_mb s) !! room); [|rewrite lookup_insert_ne in Hr by done];
      (destruct (Hd r Hr) as [?|[?|?]]; [by left|right; left; set_solver|by right; right]).
  - intros r snap' Hs. destruct (Hl r snap' Hs) as [Hr|[Hn [[= -> ->]|[Hne Hix]]]].
    + left. destruct (dirty (sy_mb s) !! room) eqn:Hroom; [done|].
      rewrite lookup_insert_ne by (intros ->; congruence). done.
    + left. rewrite Hn. by rewrite lookup_insert_eq.
    + right. assert (r <> room) by (intros ->; by apply (Hne snapshot)).
      split; [|by right]. by destruct (dirty (sy_mb s) !! room); [|rewrite lookup_insert_ne].
Qed.

Lemma sys_inv_collect now s : sys_inv s -> sys_inv (on_collect now s).
Proof.
  intros (Hq & Hd & Hl & Hsw). split_and!; [done..|]. intros room. unfold on_collect, sweep_collect; simpl.
  intros ([r snap] & -> & [Hexp Hin%elem_of_map_to_list]%list_elem_of_filter)%list_elem_of_fmap. by exists snap.
Qed.

Lemma sys_inv_sweep s room rooms :
  sys_inv s -> sy_sweep s = room :: rooms -> sys_inv (on_sweep room rooms s).
Proof.
  intros (Hq & Hd & Hl & Hsw) Hrooms. unfold on_sweep, sweep_forget.
  destruct (Hsw room) as (old & Hold & Hexp); [rewrite Hrooms; by left|].
  assert (forall r, r ∈ rooms -> r ∈ sy_sweep s) as Hrest by (rewrite Hrooms; by right).
  destruct (index (sy_mb s) !! room) as [snap0|] eqn:Hix.
  2: { split_and!; [done..|]. intros r Hr. by apply Hsw, Hrest. }
  unfold sys_inv, scheduled, located, swept_away in *; simpl. split_and!; [done..| |intros r Hr; by apply Hsw, Hrest].
  intros r snap Hs. destruct (Hl r snap Hs) as [?|[? [?|[? Hor]]]]; [by left|by right; split; [|left]|].
  right. split; [done|]. right. split; [done|].
  destruct (decide (r = room)) as [-> |Hne].
  - right. split; [apply lookup_delete_eq|]. exists (sy_collected s).1, old. split; [|done].
    rewrite lookup_insert_eq, Hold. destruct Hor as [Hr|[Hr _]]; congruence.
  - by rewrite !lookup_delete_ne, lookup_insert_ne by done.
Qed.

Lemma sys_inv_step s s' : sys_inv s -> mailbox_step s s' -> sys_inv s'.
Proof.
  intros Hinv Hstep. pose proof Hinv as (Hq & Hd & _ & _).
  assert (forall room, room ∈ queued (sy_mb s) -> (forall rooms, sy_pc s <> Picked room rooms) ->
    room ∈ channel (sy_mb s)) as Hq'.
  { intros room Hr Hp. destruct (Hq room Hr) as [?|[rooms ?]]; [done|]. by destruct (Hp rooms). }
  destruct Hstep as [s room recipient clip now|s room rest Hpc Hch|s rooms Hpc Hne Hperm|s room rooms Hpc
    |s room rooms Hpc|s room rooms Hpc Htake|s room rooms snap mb Hpc Htake|s room snap rooms r w w' Hpc _
    |s room snap r rooms mb retry Hpc Hfin|s now _|s room rooms Hrooms].
  - by apply sys_inv_clip.
  - apply sys_inv_move; rewrite ?Hpc; try done; unfold scheduled; simpl; rewrite ?Hpc, ?Hch in *; simpl.
    + intros r Hr. specialize (Hq' r Hr). set_solver.
    + set_solver.
  - apply sys_inv_move; rewrite ?Hpc; try done; unfold scheduled; simpl; rewrite ?Hpc in *; simpl.
    + intros r Hr. left. by apply Hq'.
    + intros r _ [?|[Hr|Hr]]; [by left| |set_solver]. right; right. rewrite Hperm. by apply elem_of_elements.
  - apply sys_inv_move; rewrite ?Hpc; try done; unfold scheduled; simpl; rewrite ?Hpc in *; simpl; [|done].
    intros r Hr. left. by apply Hq'.
  - apply sys_inv_move; rewrite ?Hpc; try done; unfold scheduled; simpl; rewrite ?Hpc in *; simpl; [|done].
    intros r [Hr Hne]%elem_of_difference. left. apply Hq'; [done|]. set_solver.
  - apply sys_inv_move; rewrite ?Hpc; try done; unfold scheduled; simpl; rewrite ?Hpc in *; simpl.
    + intros r Hr. left. by apply Hq'.
    + intros r Hr [?|[?|[-> |?]%elem_of_cons]]; auto. unfold publish_take in Htake.
      destruct Hr as [x Hx]. by rewrite Hx in Htake.
  - by eapply sys_inv_take.
  - apply sys_inv_move; rewrite ?Hpc; try done; unfold scheduled; simpl; rewrite ?Hpc in *; simpl; [|done].
    intros r' Hr. left. by apply Hq'.
  - by eapply sys_inv_finish.
  - by apply sys_inv_collect.
  - by eapply sys_inv_sweep.
Qed.

Lemma step_options s s' : mailbox_step s s' -> options (sy_mb s') = options (sy_mb s).
Proof.
  intros []; simpl; try done; unfold on_sweep, mb_clip_pending, publish_take, publish_finish, sweep_forget in *.
  - destruct (mb_validate_room_id room); [|done]. simpl. by case_bool_decide.
  - destruct (dirty (sy_mb s0) !! room); by simplify_eq.
  - destruct r; by simplify_eq.
  - by destruct (index (sy_mb s0) !! room).
Qed.

Lemma sys_reach s0 s :
  sys_inv s0 -> rtc mailbox_step s0 s -> sys_inv s /\ options (sy_mb s) = options (sy_mb s0).
Proof.
  intros H0 Hrtc. induction Hrtc as [s|s0 s1 s Hstep _ IH]; [done|].
  rewrite <-(step_options _ _ Hstep). apply IH. by eapply sys_inv_step.
Qed.
End steps.

(** ** The storage quota *)

Lemma total_delete m room n : m !! room = Some n -> total m = (n + total (delete room m))%Z.
Proof. intros H. unfold total. rewrite (map_fold_delete_L _ _ room n); [done|lia|done]. Qed.

Lemma total_insert m room n : total (<[room := n]> m) = (total m - default 0 (m !! room) + n)%Z.
Proof.
  rewrite (total_delete _ room n) by apply lookup_insert_eq. rewrite delete_insert_eq.
  destruct (m !! room) as [old|] eqn:Hm; simpl.
  - rewrite (total_delete m room old) by done. lia.
  - rewrite delete_id by done. lia.
Qed.

Section quota.
Context {JM : Json DiskMailbox} {B64 : Base64}.

(** [n] is the length of the file that holds the snapshot: the encoding that
    was written, or, for a snapshot of [found], what was read at opening. *)
Definition accounted (found : gmap string Snapshot) (room : string) (snap : Snapshot) (n : Z) : Prop :=
  exists data : bytes, n = Z.of_nat (length data) /\
    (to_vec_pretty (to_disk snap room) = Ok data \/
     (found !! room = Some snap /\ parse_snapshot room data = Ok snap)).

(** The sizes are those of the published snapshots, one each. *)
Definition ledger_ok (found ix : gmap string Snapshot) (sz : gmap string Z) : Prop :=
  forall room, match ix !! room, sz !! room with
               | Some snap, Some n => accounted found room snap n
               | None, None => True
               | _, _ => False
               end.

Lemma accounted_nonneg found room snap n : accounted found room snap n -> (0 <= n)%Z.
Proof. intros (data & -> & _). lia. Qed.

Lemma ledger_insert found ix sz room snap n :
  ledger_ok found ix sz -> accounted found room snap n -> ledger_ok found (<[room := snap]> ix) (<[room := n]> sz).
Proof.
  intros H Hn r. destruct (decide (room = r)) as [<- |Hne]; [by rewrite !lookup_insert_eq|].
  rewrite !lookup_insert_ne by done. apply H.
Qed.

Lemma ledger_delete found ix sz room :
  ledger_ok found ix sz -> ledger_ok found (delete room ix) (delete room sz).
Proof.
  intros H r. destruct (decide (room = r)) as [<- |Hne]; [by rewrite !lookup_delete_eq|].
  rewrite !lookup_delete_ne by done. apply H.
Qed.

Lemma ledger_nonneg found ix sz room n : ledger_ok found ix sz -> sz !! room = Some n -> (0 <= n)%Z.
Proof.
  intros H Hn. specialize (H room). rewrite Hn in H.
  destruct (ix !! room); [by eapply accounted_nonneg|done].
Qed.

Definition quota_inv (found : gmap string Snapshot) (bound : Z) (s : mailbox_sys) : Prop :=
  ledger_ok found (index (sy_mb s)) (sizes (sy_mb s)) /\
  (total (sizes (sy_mb s)) <= bound)%Z /\ (mb_max_bytes (options (sy_mb s)) <= bound)%Z /\
  match sy_pc s with
  | Written room snap (Ok size) _ =>
      accounted found room snap size /\
      (total (sizes (sy_mb s)) - default 0 (sizes (sy_mb s) !! room) + size <= bound)%Z
  | _ => True
  end.

Lemma write_snapshot_size {T} found mb room snap (w w' : world T) size :
  write_snapshot mb room snap w = (Done (Ok size), w') ->
  accounted found room snap size /\
  (total (sizes mb) - default 0 (sizes mb !! room) + size <= mb_max_bytes (options mb))%Z.
Proof.
  unfold write_snapshot. destruct (to_vec_pretty _) as [data|e] eqn:Hdata; [|done].
  case_bool; [done|]. bool_to_prop. unfold try_io at 1, mbind, io_bind.
  destruct (try_io _ _ _ w) as [[[[]|e]|] w1]; intros [= <- <-]. split; [|lia]. exists data. auto.
Qed.

(** Forgetting a room lowers the total, whichever size is left out of it. *)
Lemma total_forget found ix sz room r :
  ledger_ok found ix sz ->
  (total (delete room sz) <= total sz /\
   total (delete room sz) - default 0 (delete room sz !! r) <= total sz - default 0 (sz !! r))%Z.
Proof.
  intros H. destruct (sz !! room) as [n|] eqn:Hs; [|rewrite delete_id by done; lia].
  pose proof (ledger_nonneg _ _ _ _ _ H Hs). rewrite (total_delete _ room n Hs). split; [lia|].
  destruct (decide (r = room)) as [-> |Hne]; [rewrite lookup_delete_eq, Hs; simpl; lia|].
  rewrite lookup_delete_ne by done. lia.
Qed.

Lemma quota_inv_step found bound s s' : quota_inv found bound s -> mailbox_step s s' -> quota_inv found bound s'.
Proof.
  intros (Hled & Htot & Hmax & Hpc) Hstep.
  destruct Hstep as [s room recipient clip now|s room rest Hp Hch|s rooms Hp Hne Hperm|s room rooms Hp
    |s room rooms Hp|s room rooms Hp Htake|s room rooms snap mb Hp Htake|s room snap rooms r w w' Hp Hw
    |s room snap r rooms mb retry Hp Hfin|s now _|s room rooms _];
    try (rewrite Hp in Hpc); unfold quota_inv; simpl; try by split_and!.
  - unfold mb_clip_pending. destruct (mb_validate_room_id room); simpl; [|by split_and!].
    case_bool_decide; by split_and!.
  - unfold publish_take in Htake. destruct (dirty (sy_mb s) !! room); simplify_eq. by split_and!.
  - split_and!; [done..|]. destruct r as [size|e]; [|done].
    apply (write_snapshot_size found) in Hw as [? ?]. split; [done|lia].
  - unfold publish_finish in Hfin. destruct r as [size|e]; simplify_eq; simpl; [|by split_and!].
    destruct Hpc as [Hacc Hsum]. rewrite total_insert. split_and!; [by apply ledger_insert|lia..|done].
  - unfold on_sweep, sweep_forget. destruct (index (sy_mb s) !! room); simpl; [|by split_and!].
    pose proof (fun r => total_forget found _ _ room r Hled) as Hrest. split_and!; [by apply ledger_delete| |done|].
    + destruct (Hrest room). lia.
    + destruct (sy_pc s) as [| | | |room' snap [size|] rooms']; try done.
      destruct (Hrest room'), Hpc. split; [done|lia].
Qed.

Lemma quota_reach found bound s0 s : quota_inv found bound s0 -> rtc mailbox_step s0 s -> quota_inv found bound s.
Proof. intros H Hrtc. induction Hrtc; eauto using quota_inv_step. Qed.
End quota.

(** ** Opening an existing directory *)

(** What a directory holds for a room. *)
Definition stored {JM : Json DiskMailbox} {B64 : Base64} (room : string) (o : option bytes) : option Snapshot :=
  o ≫= fun data => ok (parse_snapshot room data).

Definition stored_at {JM : Json DiskMailbox} {B64 : Base64} (dir room : string) (d : disk) : option Snapshot :=
  stored room (contents (live d !! snapshot_path dir room)).

Definition unexpired (now ttl : Z) (o : option Snapshot) : option Snapshot :=
  s ← o; if is_expired (ts_ms s) now ttl then None else Some s.

Lemma json_name_inj room room' : room +:+ ".json" = room' +:+ ".json" -> room = room'.
Proof.
  intros H. apply as_bytes_inj. apply (f_equal as_bytes) in H. rewrite !as_bytes_app in H.
  by apply (inj (.++ as_bytes ".json")) in H.
Qed.

Lemma room_of_name_Some name room :
  room_of_name name = Some room <-> name = room +:+ ".json" /\ lower_hex 32 room = true.
Proof.
  unfold room_of_name, mb_validate_room_id.
  assert (forall r : bytes, strip_suffix (as_bytes ".json") (as_bytes name) = Some r <->
    name = str_of_bytes r +:+ ".json") as Hstrip.
  { intros r. rewrite strip_suffix_Some. split; intros H.
    - apply as_bytes_inj. by rewrite as_bytes_app, as_bytes_str.
    - by rewrite H, as_bytes_app, as_bytes_str. }
  destruct (strip_suffix (as_bytes ".json") (as_bytes name)) as [r|] eqn:Hs; cbn [fmap option_fmap option_map mbind option_bind].
  - pose proof (proj1 (Hstrip r) eq_refl) as ->.
    destruct (lower_hex 32 (str_of_bytes r)) eqn:Hhex; simpl.
    + split; [by intros [= <-]|]. intros [H _]. f_equal. by apply json_name_inj.
    + split; [done|]. intros [H H']. apply json_name_inj in H. congruence.
  - split; [done|]. intros [-> _]. specialize (Hstrip (as_bytes room)).
    rewrite str_as_bytes in Hstrip. discriminate (proj2 Hstrip eq_refl).
Qed.

Lemma parse_snapshot_room {JM : Json DiskMailbox} {B64 : Base64} room data s :
  parse_snapshot room data = Ok s -> lower_hex 32 room = true.
Proof.
  intros (disk & _ & H)%rbind_Ok. case_bool_decide as Hr; simpl in H; [|done]. unfold into_snapshot in H.
  case_bool; [done|]. apply rbind_Ok in H as (? & H & _). unfold mb_validate_room_id in H.
  rewrite <-Hr. by destruct (lower_hex 32 (dm_room_id disk)).
Qed.

(** Calls that the environment lets through. *)
Definition calm {T} (w : world T) : Prop := w_faults w = [].

Section calm.
Context {T : Type}.
Implicit Types (w : world T).

Lemma set_disk_same w : set_disk (w_disk w) w = w.
Proof. by destruct w. Qed.

Lemma atomic_calm {A} (good : disk -> result A io_error * disk) w :
  calm w -> atomic_call good w = (Done (good (w_disk w)).1, set_disk (good (w_disk w)).2 w).
Proof.
  destruct w as [d fs u n tr]. unfold calm; simpl. intros ->.
  unfold atomic_call, fs_call, pop_fault; simpl. by destruct (good d).
Qed.

Lemma read_calm p w :
  calm w -> read p w = (Done match live (w_disk w) !! p with Some f => Ok (f_data f) | None => Err NotFound end, w).
Proof.
  intros Hc. unfold read. rewrite atomic_calm by done.
  destruct (live (w_disk w) !! p); simpl; by rewrite set_disk_same.
Qed.

Lemma metadata_calm p w f :
  calm w -> live (w_disk w) !! p = Some f ->
  metadata_len p w = (Done (Ok (Z.of_nat (length (f_data f)))), w).
Proof. intros Hc Hf. unfold metadata_len. rewrite atomic_calm by done. rewrite Hf. simpl. by rewrite set_disk_same. Qed.

Lemma remove_calm p w f :
  calm w -> live (w_disk w) !! p = Some f ->
  remove_file p w = (Done (Ok tt), set_disk (set_live (delete p (live (w_disk w))) (w_disk w)) w).
Proof. intros Hc Hf. unfold remove_file. rewrite atomic_calm by done. by rewrite Hf. Qed.
End calm.

Section opening.
Context {T : Type} {JM : Json DiskMailbox} {B64 : Base64}.
Context (dir : string) (now ttl : Z).
Implicit Types (w : world T).

(** The room's snapshot and file size, unless it is expired. *)
Definition entry_of (room : string) (d : disk) : option (Snapshot * Z) :=
  s ← unexpired now ttl (stored_at dir room d);
  f ← live d !! snapshot_path dir room;
  Some (s, Z.of_nat (length (f_data f))).

(** What [f] finds for the rooms of a list of names, on top of [m]. *)
Fixpoint collect {A} (f : string -> option A) (names : list string) (m : gmap string A) : gmap string A :=
  match names with
  | [] => m
  | name :: names =>
      collect f names
        match room_of_name name ≫= fun room => a ← f room; Some (room, a) with
        | Some (room, a) => <[room := a]> m
        | None => m
        end
  end.

Lemma collect_ext {A} (f g : string -> option A) names m :
  (forall room, room +:+ ".json" ∈ names -> f room = g room) -> collect f names m = collect g names m.
Proof.
  revert m; induction names as [|name names IH]; intros m H; simpl; [done|].
  rewrite IH by (intros room Hr; apply H; by right).
  destruct (room_of_name name) as [room|] eqn:Hroom; [|done]. simpl.
  apply room_of_name_Some in Hroom as [-> _]. by rewrite H by (by left).
Qed.

Lemma collect_lookup {A} (f : string -> option A) names m room :
  (forall r, is_Some (f r) -> lower_hex 32 r = true) ->
  collect f names m !! room =
    if bool_decide (room +:+ ".json" ∈ names) then match f room with Some a => Some a | None => m !! room end
    else m !! room.
Proof.
  intros Hf. revert m; induction names as [|name names IH]; intros m; cbn [collect].
  { by rewrite bool_decide_eq_false_2 by apply not_elem_of_nil. }
  rewrite IH. clear IH. destruct (decide (name = room +:+ ".json")) as [-> |Hne].
  - rewrite (bool_decide_eq_true_2 (_ ∈ _ :: _)) by (by left).
    destruct (f room) as [a|] eqn:Ha.
    + rewrite (proj2 (room_of_name_Some _ room)) by (split; [done|by apply Hf]). simpl. rewrite Ha. simpl.
      rewrite lookup_insert_eq. by case_bool_decide.
    + destruct (room_of_name _) as [r|] eqn:Hr; simpl; [|by case_bool_decide].
      apply room_of_name_Some in Hr as [Hr _]. apply json_name_inj in Hr as <-. rewrite Ha. simpl.
      by case_bool_decide.
  - assert (match room_of_name name ≫= fun r => a ← f r; Some (r, a) with
            | Some (r, a) => <[r := a]> m | None => m end !! room = m !! room) as ->.
    { destruct (room_of_name name) as [r|] eqn:Hr; simpl; [|done]. apply room_of_name_Some in Hr as [-> _].
      destruct (f r); simpl; [|done]. apply lookup_insert_ne. by intros ->. }
    replace (bool_decide (room +:+ ".json" ∈ name :: names)) with (bool_decide (room +:+ ".json" ∈ names)); [done|].
    apply bool_decide_ext. rewrite elem_of_cons. naive_solver.
Qed.

(** [w'] is [w] without files of expired snapshots. *)
Definition reclaimed w w' : Prop :=
  calm w' /\ forall q, live (w_disk w') !! q = live (w_disk w) !! q \/
    live (w_disk w') !! q = None /\
    exists room s, q = snapshot_path dir room /\ stored_at dir room (w_disk w) = Some s /\
      is_expired (ts_ms s) now ttl = true.

Lemma snapshot_path_inj room room' : snapshot_path dir room = snapshot_path dir room' -> room = room'.
Proof. intros [= H]. by apply json_name_inj. Qed.

Lemma stored_at_file room d f :
  live d !! snapshot_path dir room = Some f -> stored_at dir room d = ok (parse_snapshot room (f_data f)).
Proof. unfold stored_at, stored. by intros ->. Qed.

Lemma entry_of_same room w w' :
  live (w_disk w') !! snapshot_path dir room = live (w_disk w) !! snapshot_path dir room ->
  entry_of room (w_disk w') = entry_of room (w_disk w).
Proof. unfold entry_of, stored_at. by intros ->. Qed.

(** One directory entry of a room. *)
Lemma scan_entry ix sz room names w :
  calm w -> lower_hex 32 room = true ->
  exists w', scan dir now ttl ix sz ((room +:+ ".json") :: names) w =
    scan dir now ttl
      (match entry_of room (w_disk w) with Some (s, _) => <[room := s]> ix | None => ix end)
      (match entry_of room (w_disk w) with Some (_, n) => <[room := n]> sz | None => sz end) names w' /\
    calm w' /\
    (forall q, q <> snapshot_path dir room -> live (w_disk w') !! q = live (w_disk w) !! q) /\
    live (w_disk w') !! snapshot_path dir room =
      match stored_at dir room (w_disk w) with
      | Some s => if is_expired (ts_ms s) now ttl then None else live (w_disk w) !! snapshot_path dir room
      | None => live (w_disk w) !! snapshot_path dir room
      end.
Proof.
  intros Hc Hroom. cbn [scan]. rewrite (proj2 (room_of_name_Some _ room)) by done.
  change (Path dir (room +:+ ".json")) with (snapshot_path dir room).
  unfold read_snapshot, try_io, mbind, io_bind at 1, io_bind at 1. rewrite read_calm by done.
  unfold entry_of. destruct (live (w_disk w) !! snapshot_path dir room) as [f|] eqn:Hf.
  2: { exists w. unfold stored_at, stored. rewrite Hf. by split_and!. }
  rewrite (stored_at_file _ _ _ Hf). unfold mret at 1, io_ret at 1.
  destruct (parse_snapshot room (f_data f)) as [s|e]; simpl; [|by exists w; split_and!].
  destruct (is_expired (ts_ms s) now ttl) eqn:Hexp; simpl.
  - unfold io_bind. rewrite (remove_calm _ _ f) by done.
    eexists. split; [done|]. simpl. split_and!; [done| |by rewrite lookup_delete_eq].
    intros q Hq. by rewrite lookup_delete_ne.
  - unfold io_bind. rewrite (metadata_calm _ _ f) by done. exists w. by split_and!.
Qed.

Lemma entry_of_room room d : is_Some (entry_of room d) -> lower_hex 32 room = true.
Proof.
  unfold entry_of, stored_at, stored. intros [x H].
  destruct (live d !! snapshot_path dir room) as [f|]; simpl in H; [|done].
  destruct (parse_snapshot room (f_data f)) eqn:Hp; simpl in H; [|done]. by eapply parse_snapshot_room.
Qed.

(** A file goes at its own entry, or later, or not at all. *)
Lemma reclaimed_trans room w w1 w' :
  (forall q, q <> snapshot_path dir room -> live (w_disk w1) !! q = live (w_disk w) !! q) ->
  live (w_disk w1) !! snapshot_path dir room =
    match stored_at dir room (w_disk w) with
    | Some s => if is_expired (ts_ms s) now ttl then None else live (w_disk w) !! snapshot_path dir room
    | None => live (w_disk w) !! snapshot_path dir room
    end ->
  reclaimed w1 w' -> reclaimed w w'.
Proof.
  intros Hother Hself [Hc' Hrec]. split; [done|]. intros q. destruct (Hrec q) as [-> |(Hn & r & s & -> & Hs & He)].
  - destruct (decide (q = snapshot_path dir room)) as [-> |Hq]; [|left; by apply Hother].
    rewrite Hself. destruct (stored_at dir room (w_disk w)) as [s|] eqn:Hs; [|by left].
    destruct (is_expired (ts_ms s) now ttl) eqn:He; [|by left]. right. split; [done|]. by exists room, s.
  - right. split; [done|]. exists r, s. split_and!; [done| |done]. unfold stored_at in *.
    destruct (decide (r = room)) as [-> |Hr].
    + rewrite Hself in Hs. destruct (stored room (contents (live (w_disk w) !! snapshot_path dir room))) as [s'|] eqn:Hs'.
      * destruct (is_expired (ts_ms s') now ttl); [by simpl in Hs|]. congruence.
      * by rewrite Hs' in Hs.
    + rewrite Hother in Hs; [done|]. by intros ?%snapshot_path_inj.
Qed.

Lemma scan_calm ix sz names w :
  calm w -> NoDup names ->
  exists w', scan dir now ttl ix sz names w =
      (Done (Ok (collect (fun room => fst <$> entry_of room (w_disk w)) names ix,
                 collect (fun room => snd <$> entry_of room (w_disk w)) names sz)), w') /\
    reclaimed w w'.
Proof.
  revert ix sz w; induction names as [|name names IH]; intros ix sz w Hc Hnd.
  { exists w. split; [done|]. split; [done|by left]. }
  apply NoDup_cons in Hnd as [Hname Hnd].
  destruct (room_of_name name) as [room|] eqn:Hroom.
  2: { cbn [scan collect]. rewrite Hroom. by apply IH. }
  pose proof Hroom as [-> Hhex]%room_of_name_Some.
  destruct (scan_entry ix sz room names w Hc Hhex) as (w1 & -> & Hc1 & Hother & Hself).
  match goal with |- context [scan _ _ _ ?ix1 ?sz1 names w1] =>
    destruct (IH ix1 sz1 w1 Hc1 Hnd) as (w' & -> & Hrec)
  end.
  exists w'.
  split; [|by eapply reclaimed_trans].
  assert (forall A (f : Snapshot * Z -> A) m,
    collect (fun r => f <$> entry_of r (w_disk w1)) names m =
    collect (fun r => f <$> entry_of r (w_disk w)) names m) as Hsame.
  { intros A f m. apply collect_ext. intros r Hr. f_equal. apply entry_of_same, Hother.
    intros ->%snapshot_path_inj. done. }
  cbn [collect]. rewrite !Hsame, Hroom. simpl. by destruct (entry_of room (w_disk w)) as [[s n]|].
Qed.
End opening.

Lemma read_dir_calm {T} dir (w : world T) :
  calm w -> exists names, read_dir dir w = (Done (Ok names), w) /\ NoDup names /\
    forall name, name ∈ names <-> is_Some (live (w_disk w) !! Path dir name).
Proof.
  intros Hc. pose proof (wpc_read_dir dir w) as Hspec. unfold wpc in Hspec.
  unfold read_dir in *. rewrite atomic_calm in * by done. simpl in *. rewrite set_disk_same in *.
  destruct Hspec as [_ Hspec]. eexists; split_and!; [done| |by apply Hspec].
  apply NoDup_fmap_2_strong; [|apply NoDup_filter, NoDup_elements].
  intros [d1 n1] [d2 n2] [H1 _]%list_elem_of_filter [H2 _]%list_elem_of_filter Hn.
  unfold in_dir in *; simpl in *. congruence.
Qed.

Lemma entry_of_unexpired `{Json DiskMailbox, Base64} dir now ttl room d :
  fst <$> entry_of dir now ttl room d = unexpired now ttl (stored_at dir room d).
Proof.
  unfold entry_of, stored_at, stored.
  destruct (live d !! snapshot_path dir room) as [f|]; simpl; [|done].
  destruct (parse_snapshot room (f_data f)) as [s|e]; simpl; [|done]. by destruct (is_expired _ _ _).
Qed.

(** ** Publishing *)

Section publishing.
Context {T : Type} {JM : Json DiskMailbox} {B64 : Base64}.
Implicit Types (w : world T) (mb : PersistentMailbox).

(** What the actors put into the mailbox. *)
Definition snapshot_ok (room : string) (s : Snapshot) : Prop :=
  lower_hex 32 room = true /\ lower_hex 64 (recipient_fp s) = true /\ lower_hex 64 (origin_fp s) = true /\
  (exists b, s_ciphertext_b64 s = b64_encode b) /\ (0 < ts_ms s)%Z.

Lemma parse_written room s data :
  snapshot_ok room s -> to_vec_pretty (to_disk s room) = Ok data -> parse_snapshot room data = Ok s.
Proof.
  intros (H1 & H2 & H3 & [b Hb] & Ht) Hv. unfold parse_snapshot. rewrite (json_pretty _ _ Hv). simpl.
  rewrite bool_decide_eq_true_2 by done. simpl. unfold into_snapshot, mb_validate_room_id, validate_fingerprint; simpl.
  rewrite H1, H2, H3, Hb, b64_roundtrip. simpl. rewrite bool_decide_eq_true_2 by done. simpl.
  destruct (Z.leb_spec (ts_ms s) 0); [lia|]. rewrite <-Hb. by destruct s.
Qed.

(** Both copies of the directory hold snapshots of [room] among [P]. *)
Definition slot (P : option Snapshot -> Prop) (dir room : string) (d : disk) : Prop :=
  stable (fun o => P (stored room o)) (snapshot_path dir room) d.

Lemma snapshot_temp_ne dir room room' : snapshot_temp dir room <> snapshot_path dir room'.
Proof.
  intros H%(f_equal (fun p => last (as_bytes (p_name p)))). unfold snapshot_temp, snapshot_path in H.
  cbn [p_name] in H. rewrite !as_bytes_app, !last_app in H. discriminate.
Qed.

Lemma wpc_write_snapshot mb room s w P :
  snapshot_ok room s -> slot P (mb_dir mb) room (w_disk w) -> P (Some s) ->
  wpc (write_snapshot mb room s)
    (fun r w' => slot P (mb_dir mb) room (w_disk w') /\
       (is_ok r = true -> slot (eq (Some s)) (mb_dir mb) room (w_disk w')) /\
       within (two (snapshot_temp (mb_dir mb) room) (snapshot_path (mb_dir mb) room)) w w')
    (fun w' => slot P (mb_dir mb) room (w_disk w') /\
       within (two (snapshot_temp (mb_dir mb) room) (snapshot_path (mb_dir mb) room)) w w') w.
Proof.
  intros Hok Hslot HP. unfold write_snapshot.
  destruct (to_vec_pretty (to_disk s room)) as [data|e] eqn:Hv;
    [|apply wpc_ret; split_and!; [done|done|apply within_refl]].
  case_bool; [apply wpc_ret; split_and!; [done|done|apply within_refl]|].
  assert (stored room (Some data) = Some s) as Hnew by (unfold stored; simpl; by rewrite (parse_written room s)).
  assert (forall w', torn (snapshot_temp (mb_dir mb) room) (snapshot_path (mb_dir mb) room) data w w' ->
    slot P (mb_dir mb) room (w_disk w') /\
    within (two (snapshot_temp (mb_dir mb) room) (snapshot_path (mb_dir mb) room)) w w') as Htorn.
  { intros w' Ht. split; [|eapply torn_within; [by left|by right|done]].
    destruct Ht as (_ & _ & Hr). eapply replaced_stable; [exact Hslot| |exact Hr]. by rewrite Hnew. }
  apply wpc_try. eapply wpc_mono; [apply (wpc_truncate_replace _ _ data (snapshot_temp_ne _ _ _))| |done].
  intros [[]|e] w' [[Hs Hw]%Htorn Hc]; [apply wpc_ret|]; split_and!; try done.
  intros _. eapply stable_mono; [|apply committed_stable; auto]. by intros o <-.
Qed.

(** Another room's slot is out of reach. *)
Lemma slot_other P dir room room' w w' :
  room <> room' -> within (two (snapshot_temp dir room) (snapshot_path dir room)) w w' ->
  slot P dir room' (w_disk w) -> slot P dir room' (w_disk w').
Proof.
  intros Hne [_ Hpr] Hs. eapply preserves_stable; [exact Hpr| |exact Hs].
  intros [H|H]; [by eapply snapshot_temp_ne|by apply snapshot_path_inj in H].
Qed.

Lemma slot_restart P dir room d d' : restart d d' -> slot P dir room d -> P (stored_at dir room d').
Proof. intros Hr Hs. by destruct (restart_stable _ _ _ _ Hr Hs) as [[_ ?] _]. Qed.
End publishing.

(** ** What opening returns, failing calls or not *)

Section fresh.
Context {T : Type} {JM : Json DiskMailbox} {B64 : Base64}.

(** The length of a file that is there. *)
Lemma wpc_metadata_len p (w : world T) :
  wpc (metadata_len p)
    (fun r w' => match r with
                 | Ok n => exists f, live (w_disk w) !! p = Some f /\ n = Z.of_nat (length (f_data f))
                 | Err _ => True
                 end) (fun _ => True) w.
Proof.
  apply wpc_atomic_call; [|done]. intros w' r d Hg _. split; [|done].
  destruct (live (w_disk w) !! p) as [f|]; simplify_eq; [by exists f|done].
Qed.

(** A snapshot that was read, and the size of its file. *)
Definition read_ok (room : string) (snap : Snapshot) (n : Z) : Prop :=
  exists data : bytes, n = Z.of_nat (length data) /\ parse_snapshot room data = Ok snap.

Definition found_ok (r : result (gmap string Snapshot * gmap string Z) io_error) : Prop :=
  match r with
  | Ok found => forall room, match found.1 !! room, found.2 !! room with
                             | Some snap, Some n => read_ok room snap n
                             | None, None => True
                             | _, _ => False
                             end
  | Err _ => True
  end.

Lemma scan_found_ok dir now ttl names ix sz :
  found_ok (Ok (ix, sz)) -> returns (T := T) found_ok (scan dir now ttl ix sz names).
Proof.
  revert ix sz; induction names as [|name names IH]; intros ix sz Hok; cbn [scan]; [by apply returns_ret|].
  destruct (room_of_name name) as [room|]; [|by apply IH].
  intros w. apply wpc_bind, wpc_try. eapply wpc_mono; [apply wpc_read| |done].
  intros [data|e] w1 [Hm Hdata]; [|by apply IH]. apply wpc_ret.
  destruct (parse_snapshot room data) as [snap|e] eqn:Hparse; [|by apply IH]. case_bool.
  - revert w1 Hm. clear Hdata. intros w1 _. revert w1. apply returns_bind. intros _. by apply IH.
  - apply wpc_try. eapply wpc_mono; [apply wpc_metadata_len| |done].
    intros [n|e'] w2 Hn; [|done]. apply IH. destruct Hn as (f & Hf & ->), Hm as (Hd & _).
    rewrite Hd in Hf. rewrite Hf in Hdata. injection Hdata as Hdata.
    intros r; cbn [fst snd]. destruct (decide (room = r)) as [<- |Hne].
    + rewrite !lookup_insert_eq. exists data. by rewrite Hdata.
    + rewrite !lookup_insert_ne by done. apply (Hok r).
Qed.

Lemma mailbox_open_fresh dir opts now (w w' : world T) mb :
  mailbox_open dir opts now w = (Done (Ok mb), w') ->
  dirty mb = ∅ /\ queued mb = ∅ /\ options mb = opts /\ ledger_ok (index mb) (index mb) (sizes mb).
Proof.
  assert (returns (T := T) (fun r => match r with Ok mb => dirty mb = ∅ /\ queued mb = ∅ /\ options mb = opts /\
    ledger_ok (index mb) (index mb) (sizes mb) | Err _ => True end) (mailbox_open dir opts now)) as Hret.
  { intros w0. apply wpc_try. eapply wpc_mono; [apply (wpc_within_atomic (fun _ => False)), preserves_refl| |done].
    intros [[]|e] w1 _; [|done]. apply wpc_try. eapply wpc_mono; [apply wpc_read_dir| |done].
    intros [names|e] w2 _; [|done]. apply wpc_try.
    eapply wpc_mono; [apply (scan_found_ok _ _ _ _ ∅ ∅); intros r; cbn [fst snd]; by rewrite !lookup_empty| |done].
    intros [found|e] w3 Hs; [|done]. apply wpc_ret. split_and!; [done..|]. intros r; simpl.
    specialize (Hs r). destruct (found.1 !! r) as [snap|] eqn:Hr, (found.2 !! r); try done.
    destruct Hs as (data & -> & Hp). exists data. auto. }
  intros Hrun. specialize (Hret w). unfold wpc in Hret. by rewrite Hrun in Hret.
Qed.
End fresh.

(** ** The properties *)

Section theorems.
Context {T : Type} {JM : Json DiskMailbox} {B64 : Base64}.

(** C7. Where the last clip stored for a room is, in every interleaving of
    the room actors, the publication worker and the sweeper and whatever the
    disk answers.  It is what a restarted actor loads, unless it has expired,
    with two exceptions: while the worker writes it, it is in the worker's
    hands; and the sweeper may have removed it after it was published, but
    only in a sweep that had collected the room at a time when the snapshot
    then published for it (this one, or one it replaced) had expired.  And a
    clip waiting to be published is always on the worker's way: when the
    worker idles with nothing signalled and nothing to retry, none waits. *)
Theorem mailbox_keeps_latest dir opts opened (w w' : world T) mb s :
  mailbox_open dir opts opened w = (Done (Ok mb), w') -> rtc mailbox_step (sys_start mb) s ->
  (forall room snap now, sy_latest s !! room = Some snap ->
     mb_load_pending (sy_mb s) room now =
       (if is_expired (ts_ms snap) now (ttl_ms (ttl opts)) then []
        else [(recipient_fp snap, to_pending_clip snap)]) \/
     in_hand (sy_pc s) = Some (room, snap) \/
     exists collected old, sy_swept s !! room = Some (collected, Some old, Some snap) /\
       is_expired (ts_ms old) collected (ttl_ms (ttl opts)) = true) /\
  (sy_pc s = Ready [] -> channel (sy_mb s) = [] -> sy_retry s = ∅ -> dirty (sy_mb s) = ∅).
Proof.
  intros (Hd & Hq & Hopt & _)%mailbox_open_fresh Hrtc.
  destruct (sys_reach (sys_start mb) s) as [(_ & Hsched & Hl & _) Ho]; [by apply sys_inv_start|done|].
  simpl in Ho. split.
  - intros room snap now Hs. unfold mb_load_pending. rewrite Ho, Hopt.
    destruct (Hl room snap Hs) as [->|[-> [?|[_ [->|[_ Hsw]]]]]]; auto.
    unfold swept_away in Hsw. rewrite Ho, Hopt in Hsw. auto.
  - intros Hpc Hch Hretry. apply map_empty. intros room.
    destruct (dirty (sy_mb s) !! room) eqn:Hr; [|done].
    destruct (Hsched room) as [H|[H|H]]; [by eexists| | |].
    + rewrite Hch in H. set_solver.
    + rewrite Hretry in H. set_solver.
    + rewrite Hpc in H. set_solver.
Qed.


(** Opening a directory without failing calls loads exactly the valid,
    unexpired snapshots in it, each under the room its file is named after
    and with its size; corrupt and foreign files are skipped, and only files
    of expired snapshots are deleted. *)
Theorem mailbox_open_exact dir opts now (w : world T) :
  w_faults w = [] ->
  exists mb w', mailbox_open dir opts now w = (Done (Ok mb), w') /\
    (forall room, index mb !! room = unexpired now (ttl_ms (ttl opts)) (stored_at dir room (w_disk w))) /\
    (forall room, sizes mb !! room = snd <$> entry_of dir now (ttl_ms (ttl opts)) room (w_disk w)) /\
    reclaimed dir now (ttl_ms (ttl opts)) w w'.
Proof.
  intros Hc. unfold mailbox_open, create_dir_all, try_io, mbind, io_bind.
  rewrite atomic_calm by done. simpl. rewrite set_disk_same.
  destruct (read_dir_calm dir w Hc) as (names & -> & Hnd & Hnames).
  destruct (scan_calm dir now (ttl_ms (ttl opts)) ∅ ∅ names w Hc Hnd) as (w' & -> & Hrec).
  eexists _, w'. split; [done|]. simpl.
  assert (forall A (f : Snapshot * Z -> A) room,
    collect (fun r => f <$> entry_of dir now (ttl_ms (ttl opts)) r (w_disk w)) names ∅ !! room =
    f <$> entry_of dir now (ttl_ms (ttl opts)) room (w_disk w)) as Hcol.
  { intros A f room. rewrite collect_lookup.
    - case_bool_decide as Hin.
      + by destruct (entry_of dir now (ttl_ms (ttl opts)) room (w_disk w)); [|rewrite lookup_empty].
      + rewrite lookup_empty. unfold entry_of, stored_at.
        destruct (live (w_disk w) !! snapshot_path dir room) eqn:Hl; [|done].
        destruct Hin. apply Hnames. by eexists.
    - intros r Hr%fmap_is_Some. by eapply entry_of_room. }
  split_and!; [|by intros; apply Hcol|done]. intros room. by rewrite Hcol, entry_of_unexpired.
Qed.

(** Publication is atomic under crashes and power loss.  While a snapshot
    is published a restart finds the room's previous snapshot or the new one,
    complete; once [publish] has returned with the health probe green it finds
    the new one.  The slots of all other rooms are as they were, and a failed
    publication keeps the snapshot for the retry. *)
Theorem publish_crash_atomic mb retry room s old (w : world T) :
  dirty mb !! room = Some s -> snapshot_ok room s -> slot (eq old) (mb_dir mb) room (w_disk w) ->
  wpc (publish mb retry room)
    (fun out w' =>
       (forall d, restart (w_disk w') d -> stored_at (mb_dir mb) room d = old \/
                                           stored_at (mb_dir mb) room d = Some s) /\
       (forall room' other, room <> room' -> slot (eq other) (mb_dir mb) room' (w_disk w) ->
          forall d, restart (w_disk w') d -> stored_at (mb_dir mb) room' d = other) /\
       if is_healthy (health out.1)
       then index out.1 !! room = Some s /\
            forall d, restart (w_disk w') d -> stored_at (mb_dir mb) room d = Some s
       else dirty out.1 !! room = Some s /\ room ∈ out.2)
    (fun w' =>
       (forall d, restart (w_disk w') d -> stored_at (mb_dir mb) room d = old \/
                                           stored_at (mb_dir mb) room d = Some s) /\
       (forall room' other, room <> room' -> slot (eq other) (mb_dir mb) room' (w_disk w) ->
          forall d, restart (w_disk w') d -> stored_at (mb_dir mb) room' d = other)) w.
Proof.
  intros Hd Hok Hslot. unfold publish, publish_take. rewrite Hd. apply wpc_bind.
  set (mb' := set_in_flight true _). change (mb_dir mb) with (mb_dir mb') in *.
  eapply wpc_mono; [apply (wpc_write_snapshot mb' room s w (fun o => o = old \/ o = Some s)); [done| |by right]| |].
  - eapply stable_mono; [|exact Hslot]. intros o <-. by left.
  - intros r w1 (Hs & Hnew & Hw). apply wpc_ret. split_and!.
    + intros d Hr. by apply (slot_restart (fun o => o = old \/ o = Some s) _ _ _ _ Hr).
    + intros room' other Hne Ho d Hr. symmetry. eapply slot_restart; [exact Hr|]. by eapply slot_other.
    + unfold publish_finish. destruct r as [size|e]; simpl.
      * rewrite lookup_insert_eq. split; [done|]. intros d Hr. symmetry.
        eapply slot_restart; [exact Hr|]. by apply Hnew.
      * rewrite lookup_delete_eq, lookup_insert_eq. split; [done|set_solver].
  - intros w1 [Hs Hw]. split.
    + intros d Hr. by apply (slot_restart (fun o => o = old \/ o = Some s) _ _ _ _ Hr).
    + intros room' other Hne Ho d Hr. symmetry. eapply slot_restart; [exact Hr|]. by eapply slot_other.
Qed.
End theorems.

(** ** Witnesses, and two interleavings that miss the latest clip *)

Module MailboxToy.
Import Toy.

#[local] Program Instance DiskMailbox_countable : Countable DiskMailbox :=
  inj_countable' (fun d => (dm_version d, dm_room_id d, dm_recipient_fp d, dm_origin_fp d,
      dm_ciphertext_b64 d, dm_ts_ms d))
    (fun '(v, r, f, o, c, t) => {| dm_version := v; dm_room_id := r; dm_recipient_fp := f;
      dm_origin_fp := o; dm_ciphertext_b64 := c; dm_ts_ms := t |}) _.
Next Obligation. by intros []. Qed.

#[local] Instance mailbox_json : Json DiskMailbox := toy_json DiskMailbox.
#[local] Existing Instance toy_base64.

Definition hex (c : byte) (n : nat) : string := str_of_bytes (replicate n c).
Definition room : string := hex "a"%byte 32.
Definition bob_fp : string := hex "2"%byte 64.
Definition clip (text : string) : PendingClip :=
  {| origin_device := hex "1"%byte 64; ciphertext_b64 := text |}.
Definition snap (text : string) (now : Z) : Snapshot :=
  {| recipient_fp := bob_fp; origin_fp := hex "1"%byte 64; s_ciphertext_b64 := text; ts_ms := now |}.

Definition blank : world unit := World (Disk ∅ ∅) [] (fun _ => "u") 0 [].

Definition empty_mailbox : PersistentMailbox :=
  {| mb_dir := "m"; options := options_default; index := ∅; dirty := ∅; queued := ∅; sizes := ∅;
     channel := []; health := health_default; writes_done := 0; in_flight := false |}.

Lemma open_blank : mailbox_open "m" options_default 1 blank = (Done (Ok empty_mailbox), blank).
Proof. vm_compute. reflexivity. Qed.

Definition with_clip : PersistentMailbox := mb_clip_pending empty_mailbox room bob_fp (clip "old") 5.

Lemma snap_ok text now : (0 < now)%Z -> snapshot_ok room (snap text now).
Proof.
  intros Hnow. split_and!; [by vm_compute..| |done]. exists (as_bytes text). symmetry. exact (str_as_bytes text).
Qed.

Lemma mailbox_keeps_latest_witness :
  let s := on_clip_pending room bob_fp (clip "old") 5 (sys_start empty_mailbox) in
  mb_load_pending (sy_mb s) room 6 = [(bob_fp, clip "old")] \/
  in_hand (sy_pc s) = Some (room, snap "old" 5) \/
  exists collected old, sy_swept s !! room = Some (collected, Some old, Some (snap "old" 5)) /\
    is_expired (ts_ms old) collected MAILBOX_TTL = true.
Proof.
  intros s.
  assert (sy_latest s !! room = Some (snap "old" 5)) as Hl by (vm_compute; reflexivity).
  exact (proj1 (mailbox_keeps_latest "m" options_default 1 blank blank empty_mailbox s open_blank
    (rtc_once _ _ (step_clip _ _ _ _ _))) room (snap "old" 5) 6%Z Hl).
Defined.

(** A directory with one published snapshot. *)
Definition after_publish : outcome (PersistentMailbox * gset string) * world unit :=
  publish with_clip ∅ room blank.
Definition one_file : world unit := after_publish.2.

Lemma mailbox_open_exact_witness :
  exists mb w', mailbox_open "m" options_default 6 one_file = (Done (Ok mb), w') /\
    index mb !! room = unexpired 6 MAILBOX_TTL (stored_at "m" room (w_disk one_file)).
Proof.
  destruct (mailbox_open_exact "m" options_default 6 one_file) as (mb & w' & Hrun & Hix & _);
    [vm_compute; reflexivity|].
  exists mb, w'. split; [exact Hrun|exact (Hix room)].
Defined.

Lemma publish_crash_atomic_witness :
  wpc (publish with_clip ∅ room)
    (fun out w' => is_healthy (health out.1) = true ->
       forall d, restart (w_disk w') d -> stored_at "m" room d = Some (snap "old" 5)) (fun _ => True) blank.
Proof.
  eapply wpc_mono; [apply (publish_crash_atomic with_clip ∅ room (snap "old" 5) None)| |].
  - vm_compute; reflexivity.
  - apply snap_ok. lia.
  - split; split; vm_compute; reflexivity || exact I.
  - intros out w' (_ & _ & H) Hh. rewrite Hh in H. exact (proj2 H).
  - intros; exact I.
Defined.

(** The worker takes up a room: [recv], [queued.remove], [dirty.remove]. *)
Definition take_up (s : mailbox_sys) : mailbox_sys :=
  let s := on_mb (set_queue (queued (sy_mb s)) [] (sy_mb s)) (Picked room []) (sy_retry s) s in
  let s := on_mb (unqueue room (sy_mb s)) (Unqueued room []) (sy_retry s) s in
  match publish_take (sy_mb s) room with
  | Some (snapshot, mb) => on_mb mb (Writing room snapshot []) (sy_retry s) s
  | None => s
  end.

Lemma take_up_steps s snapshot :
  sy_pc s = Ready [] -> channel (sy_mb s) = [room] -> dirty (sy_mb s) !! room = Some snapshot ->
  rtc mailbox_step s (take_up s).
Proof.
  intros Hpc Hch Hd. eapply rtc_l; [by apply (step_recv s room [])|].
  eapply rtc_l; [by eapply step_unqueue|]. apply rtc_once. unfold take_up.
  set (mb := unqueue _ _). assert (publish_take mb room =
    Some (snapshot, set_in_flight true (set_dirty (delete room (dirty mb)) mb))) as Ht.
  { unfold publish_take. by change (dirty mb) with (dirty (sy_mb s)); rewrite Hd. }
  cbn zeta. cbn [on_mb sy_mb]. fold mb. rewrite Ht. by eapply step_take.
Qed.

Definition first_clip : mailbox_sys := on_clip_pending room bob_fp (clip "old") 5 (sys_start empty_mailbox).

(** The mailbox opened on the directory with the old snapshot. *)
Definition reopened : PersistentMailbox :=
  match (mailbox_open "m" options_default 6 one_file).1 with Done (Ok mb) => mb | _ => empty_mailbox end.

(** The old snapshot expires and is collected; a new clip arrives and is
    published; then the sweeper goes through its list. *)
Definition late : Z := MAILBOX_TTL + 10.
Definition collected : mailbox_sys := on_collect late (sys_start reopened).
Definition arrived : mailbox_sys := on_clip_pending room bob_fp (clip "new") late collected.
Definition answer : result Z io_error :=
  match (write_snapshot (sy_mb (take_up arrived)) room (snap "new" late) one_file).1 with
  | Done r => r
  | Crashed => Err OtherError
  end.
Definition written : mailbox_sys :=
  on_mb (sy_mb (take_up arrived)) (Written room (snap "new" late) answer []) ∅ (take_up arrived).
Definition finished : mailbox_sys :=
  on_mb (publish_finish (sy_mb written) ∅ room (snap "new" late) answer).1 (Ready [])
        (publish_finish (sy_mb written) ∅ room (snap "new" late) answer).2 written.
Definition swept : mailbox_sys := on_sweep room [] finished.

Lemma finished_reached : rtc mailbox_step (sys_start reopened) finished.
Proof.
  eapply rtc_l; [by apply (step_collect _ late)|].
  eapply rtc_l; [by apply (step_clip _ room bob_fp (clip "new") late)|].
  etrans; [apply (take_up_steps arrived (snap "new" late)); vm_compute; reflexivity|].
  assert (sy_pc (take_up arrived) = Writing room (snap "new" late) []) as H1 by (vm_compute; reflexivity).
  eapply rtc_l.
  { apply (step_write _ room (snap "new" late) [] answer one_file
      (write_snapshot (sy_mb (take_up arrived)) room (snap "new" late) one_file).2 H1).
    vm_compute; reflexivity. }
  assert (sy_retry (take_up arrived) = ∅) as H2 by (vm_compute; reflexivity). rewrite H2. fold written.
  apply rtc_once, (step_finish written room (snap "new" late) answer [] _ _ eq_refl (surjective_pairing _)).
Qed.

Lemma swept_reached : rtc mailbox_step (sys_start reopened) swept.
Proof.
  etrans; [apply finished_reached|]. apply rtc_once, step_sweep. vm_compute; reflexivity.
Qed.

Lemma open_reopened :
  mailbox_open "m" options_default 6 one_file =
    (Done (Ok reopened), (mailbox_open "m" options_default 6 one_file).2).
Proof.
  rewrite (surjective_pairing (mailbox_open "m" options_default 6 one_file)) at 1. by f_equal.
Qed.


(** A finding: two ways a restarted actor misses the latest clip although
    it has not expired.  While the worker writes a snapshot it is neither in
    [dirty] nor in [index], so [load_pending] returns nothing (or an older
    clip).  And a sweep that collected a room's expired snapshot removes the
    room by name: a clip published in between is removed with it, and nothing
    is left to publish it again. *)
Theorem latest_clip_missed :
  (mailbox_open "m" options_default 1 blank).1 = Done (Ok empty_mailbox) /\
  (exists s, rtc mailbox_step (sys_start empty_mailbox) s /\
     sy_latest s !! room = Some (snap "old" 5) /\ is_expired 5 6 MAILBOX_TTL = false /\
     mb_load_pending (sy_mb s) room 6 = []) /\
  (mailbox_open "m" options_default 6 one_file).1 = Done (Ok reopened) /\
  (exists s, rtc mailbox_step (sys_start reopened) s /\
     sy_latest s !! room = Some (snap "new" late) /\ is_expired late late MAILBOX_TTL = false /\
     mb_load_pending (sy_mb s) room late = [] /\
     sy_pc s = Ready [] /\ channel (sy_mb s) = [] /\ sy_retry s = ∅).
Proof.
  split; [vm_compute; reflexivity|]. split; [|split; [vm_compute; reflexivity|]].
  - exists (take_up first_clip). split.
    + eapply rtc_l; [apply (step_clip _ room bob_fp (clip "old") 5)|].
      apply (take_up_steps first_clip (snap "old" 5)); vm_compute; reflexivity.
    + split_and!; vm_compute; reflexivity.
  - exists swept. split; [apply swept_reached|]. split_and!; vm_compute; reflexivity.
Qed.
End MailboxToy.
