(* ===== verification/Outbox.v ===== *)
(** * Connection outboxes (the first half of [crates/server/src/room.rs])

    A connection's bounded outbound queue.  The handle's clones, the
    connection's writer and outstanding reservations share one channel and one
    byte counter: an outbox is an object of the store [outboxes], a handle its
    address.  A method that calls [expect] on a failed encoding is [None], the
    panic of the source.  A call is one step here; [OutboxRace] splits the
    calls at their atomic operations. *)

From S2P Require Import Prelude Interfaces Protocol.
From Stdlib Require Import Strings.Byte.

Set Default Goal Selector "!".
#[local] Open Scope clip_scope.

Inductive Outbound := OFrame (encoded : bytes) | OClose.

#[global] Instance Outbound_eq_decision : EqDecision Outbound.
Proof. solve_decision. Defined.

(** [ob_queue] and [ob_reserved] fill the channel's [ob_cap] slots; [ob_closed]
    once the writer has dropped the receiver; [ob_forced] is the permit stored
    in [force_close]. *)
Record Outbox := {
  ob_queue : list Outbound; ob_reserved : nat; ob_pending : Z; ob_cap : nat; ob_max : Z;
  ob_forced : bool; ob_closed : bool
}.

Abbreviation OutboxHandle := nat.
Abbreviation outboxes := (gmap nat Outbox).

Definition outbox (max_frames : nat) (max_bytes : Z) : Outbox := {|
  ob_queue := []; ob_reserved := 0; ob_pending := 0; ob_cap := max_frames; ob_max := max_bytes;
  ob_forced := false; ob_closed := false |}.

Definition ob_set (q : list Outbound) (reserved : nat) (pending : Z) (forced : bool) (o : Outbox) : Outbox := {|
  ob_queue := q; ob_reserved := reserved; ob_pending := pending; ob_cap := ob_cap o; ob_max := ob_max o;
  ob_forced := forced; ob_closed := ob_closed o |}.

Definition frame_size (b : bytes) : Z := Z.of_nat (length b).

(** The channel has a free slot and a receiver. *)
Definition has_slot (o : Outbox) : bool :=
  negb (ob_closed o) && bool_decide (length (ob_queue o) + ob_reserved o < ob_cap o).

Definition try_frame (o : Outbox) (encoded : bytes) : bool * Outbox :=
  let size := frame_size encoded in
  if (ob_max o <? ob_pending o + size)%Z then (false, o)
  else if negb (has_slot o) then (false, o)
  else (true, ob_set (ob_queue o ++ [OFrame encoded]) (ob_reserved o) (ob_pending o + size) (ob_forced o) o).

(** A reservation holds a slot and the bytes of its frame until it is sent or dropped. *)
Definition reserve_frame (o : Outbox) (encoded : bytes) : option Outbox :=
  let size := frame_size encoded in
  if (ob_max o <? ob_pending o + size)%Z then None
  else if negb (has_slot o) then None
  else Some (ob_set (ob_queue o) (S (ob_reserved o)) (ob_pending o + size) (ob_forced o) o).

Definition reserved_send (o : Outbox) (encoded : bytes) : Outbox :=
  ob_set (ob_queue o ++ [OFrame encoded]) (pred (ob_reserved o)) (ob_pending o) (ob_forced o) o.

Definition reserved_drop (o : Outbox) (encoded : bytes) : Outbox :=
  ob_set (ob_queue o) (pred (ob_reserved o)) (ob_pending o - frame_size encoded) (ob_forced o) o.

Definition ob_close (o : Outbox) : Outbox :=
  if has_slot o then ob_set (ob_queue o ++ [OClose]) (ob_reserved o) (ob_pending o) (ob_forced o) o
  else ob_set (ob_queue o) (ob_reserved o) (ob_pending o) true o.

(** [OutboxReceiver::recv]: [select!] takes either arm that is ready. *)
Inductive recv_step : Outbox -> Outbound -> Outbox -> Prop :=
| recv_forced o :
    ob_forced o = true ->
    recv_step o OClose (ob_set (ob_queue o) (ob_reserved o) (ob_pending o) false o)
| recv_frame o encoded q :
    ob_queue o = OFrame encoded :: q ->
    recv_step o (OFrame encoded) (ob_set q (ob_reserved o) (ob_pending o - frame_size encoded) (ob_forced o) o)
| recv_close o q :
    ob_queue o = OClose :: q ->
    recv_step o OClose (ob_set q (ob_reserved o) (ob_pending o) (ob_forced o) o).

(** The writer has dropped the receiver. *)
Definition receiver_gone (o : Outbox) : Outbox := {|
  ob_queue := ob_queue o; ob_reserved := ob_reserved o; ob_pending := ob_pending o; ob_cap := ob_cap o;
  ob_max := ob_max o; ob_forced := ob_forced o; ob_closed := true |}.

(** ** Through a handle *)

Definition upd (out : outboxes) (h : OutboxHandle) (f : Outbox -> Outbox) : outboxes := alter f h out.

Section handles.
Context {B64 : Base64} {JF : Json Frame}.

Definition send_frame (out : outboxes) (h : OutboxHandle) (frame : Frame) : option (bool * outboxes) :=
  match encode_frame frame with
  | Err _ => None
  | Ok encoded =>
      Some match out !! h with
           | Some o => let '(sent, o) := try_frame o encoded in (sent, <[h := o]> out)
           | None => (false, out)
           end
  end.

(** The reservation is its encoded frame. *)
Definition try_reserve_frame (out : outboxes) (h : OutboxHandle) (frame : Frame) :
    option (option bytes * outboxes) :=
  match encode_frame frame with
  | Err _ => None
  | Ok encoded =>
      Some match out !! h ≫= fun o => reserve_frame o encoded with
           | Some o => (Some encoded, <[h := o]> out)
           | None => (None, out)
           end
  end.

Definition reservation_send (h : OutboxHandle) (encoded : bytes) (out : outboxes) : outboxes :=
  upd out h (fun o => reserved_send o encoded).
Definition reservation_drop (h : OutboxHandle) (encoded : bytes) (out : outboxes) : outboxes :=
  upd out h (fun o => reserved_drop o encoded).
Definition close (h : OutboxHandle) (out : outboxes) : outboxes := upd out h ob_close.

Definition error_and_close (out : outboxes) (h : OutboxHandle) (code message : string) : option outboxes :=
  match send_frame out h (ErrorFrame code message) with
  | None => None
  | Some (_, out) => Some (close h out)
  end.
End handles.

(** ** The budget *)

Definition item_size (x : Outbound) : Z := match x with OFrame b => frame_size b | OClose => 0 end.
Definition sum_sizes (l : list Outbound) : Z := foldr (fun x n => item_size x + n)%Z 0%Z l.
Definition sum_held (l : list bytes) : Z := foldr (fun b n => frame_size b + n)%Z 0%Z l.

(** The counters are exact, with the reservations in [held] outstanding, and
    within the limits. *)
Definition outbox_ok (held : list bytes) (o : Outbox) : Prop :=
  ob_pending o = (sum_sizes (ob_queue o) + sum_held held)%Z /\ ob_reserved o = length held /\
  (ob_pending o <= ob_max o)%Z /\ length (ob_queue o) + ob_reserved o <= ob_cap o.

Lemma sum_sizes_app l k : sum_sizes (l ++ k) = (sum_sizes l + sum_sizes k)%Z.
Proof. induction l as [|x l IH]; simpl; [done|]. lia. Qed.

Lemma frame_size_nonneg b : (0 <= frame_size b)%Z.
Proof. unfold frame_size. lia. Qed.

Lemma sum_held_nonneg l : (0 <= sum_held l)%Z.
Proof. induction l as [|b l IH]; simpl; [lia|]. pose proof (frame_size_nonneg b). lia. Qed.

Lemma has_slot_true o :
  has_slot o = true -> ob_closed o = false /\ length (ob_queue o) + ob_reserved o < ob_cap o.
Proof. unfold has_slot. intros ?. bool_to_prop. done. Qed.

Lemma outbox_new_ok max_frames max_bytes : (0 <= max_bytes)%Z -> outbox_ok [] (outbox max_frames max_bytes).
Proof. intros. split_and!; simpl; lia. Qed.

Lemma try_frame_ok held o b sent o' : outbox_ok held o -> try_frame o b = (sent, o') -> outbox_ok held o'.
Proof.
  intros (H1 & H2 & H3 & H4). unfold try_frame. case_bool; [intros [= <- <-]; by split_and!|].
  destruct (has_slot o) eqn:Hs; simpl; intros [= <- <-]; [|by split_and!].
  apply has_slot_true in Hs as [_ Hs]. bool_to_prop. unfold outbox_ok; simpl.
  rewrite sum_sizes_app, length_app. simpl. split_and!; lia.
Qed.

Lemma reserve_frame_ok held o b o' : outbox_ok held o -> reserve_frame o b = Some o' -> outbox_ok (b :: held) o'.
Proof.
  intros (H1 & H2 & H3 & H4). unfold reserve_frame. case_bool; [done|].
  destruct (has_slot o) eqn:Hs; simpl; intros [= <-]. apply has_slot_true in Hs as [_ Hs]. bool_to_prop.
  unfold outbox_ok; simpl. split_and!; lia.
Qed.

Lemma reserved_send_ok held o b : outbox_ok (b :: held) o -> outbox_ok held (reserved_send o b).
Proof.
  intros (H1 & H2 & H3 & H4). unfold outbox_ok; simpl in *. rewrite sum_sizes_app, length_app. simpl.
  split_and!; lia.
Qed.

Lemma reserved_drop_ok held o b : outbox_ok (b :: held) o -> outbox_ok held (reserved_drop o b).
Proof.
  intros (H1 & H2 & H3 & H4). pose proof (frame_size_nonneg b). unfold outbox_ok; simpl in *. split_and!; lia.
Qed.

Lemma ob_close_ok held o : outbox_ok held o -> outbox_ok held (ob_close o).
Proof.
  intros (H1 & H2 & H3 & H4). unfold ob_close. destruct (has_slot o) eqn:Hs; [|by split_and!].
  apply has_slot_true in Hs as [_ Hs]. unfold outbox_ok; simpl. rewrite sum_sizes_app, length_app. simpl.
  split_and!; lia.
Qed.

Lemma recv_step_ok held o x o' : outbox_ok held o -> recv_step o x o' -> outbox_ok held o'.
Proof.
  intros (H1 & H2 & H3 & H4) Hr. unfold outbox_ok.
  destruct Hr as [o _|o b q Hq|o q Hq]; simpl; [by split_and!|..]; rewrite Hq in *; simpl in *;
    try (pose proof (frame_size_nonneg b)); split_and!; lia.
Qed.

(** All outboxes of a store. *)
Definition all_ok (out : outboxes) : Prop := map_Forall (fun _ o => outbox_ok [] o) out.

(** The store, when the only reservations are those in [held] at [h]. *)
Definition held_ok (h : OutboxHandle) (held : list bytes) (out : outboxes) : Prop :=
  map_Forall (fun h' o => outbox_ok (if bool_decide (h' = h) then held else []) o) out.

Lemma held_ok_nil h out : held_ok h [] out <-> all_ok out.
Proof. unfold held_ok, all_ok, map_Forall. split; intros H i o Hi; specialize (H i o Hi); by case_bool_decide. Qed.

Lemma held_ok_alter h held held' f out :
  (forall o, outbox_ok held o -> outbox_ok held' (f o)) -> held_ok h held out -> held_ok h held' (upd out h f).
Proof.
  intros Hf H i o. unfold upd. intros [[<- [o' [Ho' ->]]]|[Hne Ho]]%lookup_alter_Some.
  - specialize (H h o' Ho'). simpl in H. rewrite bool_decide_eq_true_2 in H |- * by done. by apply Hf.
  - specialize (H i o Ho). simpl in H. by rewrite bool_decide_eq_false_2 in H |- * by done.
Qed.

Lemma all_ok_insert out h o : all_ok out -> outbox_ok [] o -> all_ok (<[h := o]> out).
Proof. intros. by apply map_Forall_insert_2. Qed.

Section handle_lemmas.
Context {B64 : Base64} {JF : Json Frame}.

Lemma send_frame_ok out h f sent out' : all_ok out -> send_frame out h f = Some (sent, out') -> all_ok out'.
Proof.
  intros Hok. unfold send_frame. destruct (encode_frame f) as [b|]; [|done].
  destruct (out !! h) as [o|] eqn:Ho; [|by intros [= <- <-]].
  destruct (try_frame o b) as [r o'] eqn:Ht. intros [= <- <-]. apply all_ok_insert; [done|].
  eapply try_frame_ok; [|exact Ht]. by eapply Hok.
Qed.

Lemma close_ok out h : all_ok out -> all_ok (close h out).
Proof. rewrite <-!(held_ok_nil h). apply held_ok_alter. apply ob_close_ok. Qed.

Lemma error_and_close_ok out h code message out' :
  all_ok out -> error_and_close out h code message = Some out' -> all_ok out'.
Proof.
  intros Hok. unfold error_and_close. destruct (send_frame _ _ _) as [[b out1]|] eqn:Hs; [|done].
  intros [= <-]. apply close_ok. by eapply send_frame_ok.
Qed.

Lemma try_reserve_ok out h held f r out' :
  held_ok h held out -> try_reserve_frame out h f = Some (r, out') ->
  held_ok h (match r with Some b => b :: held | None => held end) out'.
Proof.
  intros Hok. unfold try_reserve_frame. destruct (encode_frame f) as [b|]; [|done].
  destruct (out !! h) as [o|] eqn:Ho; simpl; [|by intros [= <- <-]].
  destruct (reserve_frame o b) as [o'|] eqn:Hr; intros [= <- <-]; [|done].
  intros i x [[<- <-]|[Hne Hi]]%lookup_insert_Some.
  - rewrite bool_decide_eq_true_2 by done. eapply reserve_frame_ok; [|exact Hr].
    specialize (Hok h o Ho). simpl in Hok. by rewrite bool_decide_eq_true_2 in Hok.
  - specialize (Hok i x Hi). simpl in Hok. by rewrite bool_decide_eq_false_2 in Hok |- * by done.
Qed.
End handle_lemmas.
