(* ===== verification/OutboxRace.v ===== *)
(** * Concurrent use of an outbox ([crates/server/src/room.rs])

    [Outbox] takes a call of [try_frame], of [try_reserve_frame], of
    [ReservedFrame]'s drop and of [recv] as one step.  In the code each is two
    or three operations on shared objects, the byte counter and the channel,
    and calls of other clones of the handle run in between.  Here every such
    operation is a step of its own: [fetch_add] with the value it returned,
    the send or reservation on the channel, and the [fetch_sub] that gives the
    bytes back.  The counter is then transiently above what the channel holds,
    and a call may be refused that would have fitted; what is accepted, and
    what the outbox holds, is what the calls in one step produce.  The inbox of
    a room ([RoomHandle::try_send]) takes its bytes the same way. *)

From S2P Require Import Prelude Interfaces Protocol Outbox.
From Stdlib Require Import Strings.Byte.

Set Default Goal Selector "!".
#[local] Open Scope clip_scope.

(** ** Calls in one step *)

(** An outbox, its outstanding reservations, and the calls that were accepted,
    [true] for a reservation. *)
Abbreviation atomic_state := (Outbox * list bytes * list (bool * bytes))%type.

Inductive atomic_step : atomic_state -> atomic_state -> Prop :=
| at_frame o held acc b o' :
    try_frame o b = (true, o') -> atomic_step (o, held, acc) (o', held, acc ++ [(false, b)])
| at_reserve o held acc b o' :
    reserve_frame o b = Some o' -> atomic_step (o, held, acc) (o', b :: held, acc ++ [(true, b)])
| at_send o held held' acc b :
    held ≡ₚ b :: held' -> atomic_step (o, held, acc) (reserved_send o b, held', acc)
| at_drop o held held' acc b :
    held ≡ₚ b :: held' -> atomic_step (o, held, acc) (reserved_drop o b, held', acc)
| at_recv o held acc x o' : recv_step o x o' -> atomic_step (o, held, acc) (o', held, acc)
| at_close o held acc : atomic_step (o, held, acc) (ob_close o, held, acc)
| at_force o held acc :
    atomic_step (o, held, acc) (ob_set (ob_queue o) (ob_reserved o) (ob_pending o) true o, held, acc)
| at_gone o held acc : atomic_step (o, held, acc) (receiver_gone o, held, acc).

(** ** The operations of the calls *)

(** A call of [try_frame] ([sn_reserve] false) or [try_reserve_frame] after its
    [fetch_add], which returned [sn_previous]; [sn_full] once the channel has
    refused it. *)
Record sender := { sn_reserve : bool; sn_frame : bytes; sn_previous : Z; sn_full : bool }.

(** The shared objects ([ob_pending] is the counter), the reservations that
    are held, the calls that are under way, the frames the writer has taken
    and not yet given back the bytes of, and the number of reservations that
    are being dropped and still have their slot. *)
Record race := {
  rc_box : Outbox; rc_held : list bytes; rc_senders : list sender; rc_popped : list bytes; rc_releasing : nat;
  rc_accepted : list (bool * bytes)
}.

Definition race_start (max_frames : nat) (max_bytes : Z) : race :=
  {| rc_box := outbox max_frames max_bytes; rc_held := []; rc_senders := []; rc_popped := []; rc_releasing := 0;
     rc_accepted := [] |}.

Definition add_pending (n : Z) (o : Outbox) : Outbox :=
  ob_set (ob_queue o) (ob_reserved o) (ob_pending o + n) (ob_forced o) o.

(** [previous + size > self.max_bytes]. *)
Definition over_budget (o : Outbox) (x : sender) : bool := (ob_max o <? sn_previous x + frame_size (sn_frame x))%Z.

(** [fetch_add]. *)
Definition race_add (reserve : bool) (b : bytes) (s : race) : race :=
  {| rc_box := add_pending (frame_size b) (rc_box s); rc_held := rc_held s;
     rc_senders := rc_senders s ++
       [{| sn_reserve := reserve; sn_frame := b; sn_previous := ob_pending (rc_box s); sn_full := false |}];
     rc_popped := rc_popped s; rc_releasing := rc_releasing s; rc_accepted := rc_accepted s |}.

(** [fetch_sub] of a refused call, which returns. *)
Definition race_undo (x : sender) (senders : list sender) (s : race) : race :=
  {| rc_box := add_pending (- frame_size (sn_frame x)) (rc_box s); rc_held := rc_held s; rc_senders := senders;
     rc_popped := rc_popped s; rc_releasing := rc_releasing s; rc_accepted := rc_accepted s |}.

(** [tx.try_send] or [try_reserve_owned]: on success the call returns. *)
Definition race_channel (x : sender) (before after : list sender) (s : race) : race :=
  if has_slot (rc_box s) then
    {| rc_box := if sn_reserve x
                 then ob_set (ob_queue (rc_box s)) (S (ob_reserved (rc_box s))) (ob_pending (rc_box s)) (ob_forced (rc_box s)) (rc_box s)
                 else ob_set (ob_queue (rc_box s) ++ [OFrame (sn_frame x)]) (ob_reserved (rc_box s)) (ob_pending (rc_box s)) (ob_forced (rc_box s)) (rc_box s);
       rc_held := if sn_reserve x then sn_frame x :: rc_held s else rc_held s; rc_senders := before ++ after;
       rc_popped := rc_popped s; rc_releasing := rc_releasing s;
       rc_accepted := rc_accepted s ++ [(sn_reserve x, sn_frame x)] |}
  else
    {| rc_box := rc_box s; rc_held := rc_held s;
       rc_senders := before ++ {| sn_reserve := sn_reserve x; sn_frame := sn_frame x; sn_previous := sn_previous x; sn_full := true |} :: after;
       rc_popped := rc_popped s; rc_releasing := rc_releasing s; rc_accepted := rc_accepted s |}.

Definition on_box (o : Outbox) (held : list bytes) (popped : list bytes) (releasing : nat) (s : race) : race :=
  {| rc_box := o; rc_held := held; rc_senders := rc_senders s; rc_popped := popped; rc_releasing := releasing;
     rc_accepted := rc_accepted s |}.

Inductive race_step : race -> race -> Prop :=
| race_fetch_add reserve b s : race_step s (race_add reserve b s)
| race_refused x before after s :
    rc_senders s = before ++ x :: after -> over_budget (rc_box s) x = true \/ sn_full x = true ->
    race_step s (race_undo x (before ++ after) s)
| race_try x before after s :
    rc_senders s = before ++ x :: after -> over_budget (rc_box s) x = false -> sn_full x = false ->
    race_step s (race_channel x before after s)
| race_send b held s :
    rc_held s ≡ₚ b :: held -> race_step s (on_box (reserved_send (rc_box s) b) held (rc_popped s) (rc_releasing s) s)
| race_drop b held s :
    rc_held s ≡ₚ b :: held ->
    race_step s (on_box (add_pending (- frame_size b) (rc_box s)) held (rc_popped s) (S (rc_releasing s)) s)
| race_slot n s :
    rc_releasing s = S n ->
    race_step s (on_box (ob_set (ob_queue (rc_box s)) (pred (ob_reserved (rc_box s))) (ob_pending (rc_box s)) (ob_forced (rc_box s)) (rc_box s))
                        (rc_held s) (rc_popped s) n s)
| race_pop b q s :
    ob_queue (rc_box s) = OFrame b :: q ->
    race_step s (on_box (ob_set q (ob_reserved (rc_box s)) (ob_pending (rc_box s)) (ob_forced (rc_box s)) (rc_box s))
                        (rc_held s) (b :: rc_popped s) (rc_releasing s) s)
| race_popped b popped s :
    rc_popped s = b :: popped ->
    race_step s (on_box (add_pending (- frame_size b) (rc_box s)) (rc_held s) popped (rc_releasing s) s)
| race_recv_close o s :
    recv_step (rc_box s) OClose o -> race_step s (on_box o (rc_held s) (rc_popped s) (rc_releasing s) s)
| race_close s : race_step s (on_box (ob_close (rc_box s)) (rc_held s) (rc_popped s) (rc_releasing s) s)
| race_gone s : race_step s (on_box (receiver_gone (rc_box s)) (rc_held s) (rc_popped s) (rc_releasing s) s).

(** ** What is settled *)

Definition sum_senders (l : list sender) : Z := foldr (fun x n => frame_size (sn_frame x) + n)%Z 0%Z l.
Definition passing (o : Outbox) (l : list sender) : Z :=
  foldr (fun x n => (if over_budget o x then 0 else frame_size (sn_frame x)) + n)%Z 0%Z l.

(** The bytes of calls under way, and the outbox without them. *)
Definition in_transit (s : race) : Z := (sum_senders (rc_senders s) + sum_held (rc_popped s))%Z.
Definition settled (s : race) : Outbox :=
  ob_set (ob_queue (rc_box s)) (ob_reserved (rc_box s) - rc_releasing s) (ob_pending (rc_box s) - in_transit s)
    (ob_forced (rc_box s)) (rc_box s).

Record race_inv (max_frames : nat) (max_bytes : Z) (s : race) : Prop := {
  ri_reach : rtc atomic_step (outbox max_frames max_bytes, [], []) (settled s, rc_held s, rc_accepted s);
  ri_bytes : ob_pending (rc_box s) = (sum_sizes (ob_queue (rc_box s)) + sum_held (rc_held s) + in_transit s)%Z;
  ri_slots : ob_reserved (rc_box s) = length (rc_held s) + rc_releasing s;
  ri_budget : (sum_sizes (ob_queue (rc_box s)) + sum_held (rc_held s) + passing (rc_box s) (rc_senders s) <= ob_max (rc_box s))%Z;
  ri_cap : length (ob_queue (rc_box s)) + ob_reserved (rc_box s) <= ob_cap (rc_box s)
}.

Lemma sum_senders_app l k : sum_senders (l ++ k) = (sum_senders l + sum_senders k)%Z.
Proof. induction l as [|x l IH]; simpl; [done|lia]. Qed.
Lemma passing_app o l k : passing o (l ++ k) = (passing o l + passing o k)%Z.
Proof. induction l as [|x l IH]; simpl; [done|lia]. Qed.
Lemma passing_max o o' l : ob_max o' = ob_max o -> passing o' l = passing o l.
Proof. intros H. unfold passing, over_budget. by rewrite H. Qed.
Lemma passing_range o l : (0 <= passing o l <= sum_senders l)%Z.
Proof.
  induction l as [|x l IH]; simpl; [lia|]. pose proof (frame_size_nonneg (sn_frame x)).
  destruct (over_budget o x); lia.
Qed.
Lemma sum_held_perm l k : l ≡ₚ k -> sum_held l = sum_held k.
Proof. induction 1; simpl; lia. Qed.
Lemma sum_sizes_nonneg l : (0 <= sum_sizes l)%Z.
Proof. induction l as [|[b|] l IH]; simpl; [lia| |lia]. pose proof (frame_size_nonneg b). lia. Qed.

Section simulation.
Context (max_frames : nat) (max_bytes : Z).
#[local] Abbreviation inv := (race_inv max_frames max_bytes).

Lemma ob_ext o o' :
  ob_queue o = ob_queue o' -> ob_reserved o = ob_reserved o' -> ob_pending o = ob_pending o' -> ob_cap o = ob_cap o' ->
  ob_max o = ob_max o' -> ob_forced o = ob_forced o' -> ob_closed o = ob_closed o' -> o = o'.
Proof. destruct o, o'; simpl. by intros -> -> -> -> -> -> ->. Qed.

(** An operation that leaves what is settled alone. *)
Lemma inv_silent s s' :
  inv s -> settled s' = settled s -> rc_held s' = rc_held s -> rc_accepted s' = rc_accepted s ->
  ob_pending (rc_box s') = (sum_sizes (ob_queue (rc_box s')) + sum_held (rc_held s') + in_transit s')%Z ->
  ob_reserved (rc_box s') = length (rc_held s') + rc_releasing s' ->
  (passing (rc_box s') (rc_senders s') <= passing (rc_box s) (rc_senders s))%Z ->
  ob_reserved (rc_box s') <= ob_reserved (rc_box s) -> inv s'.
Proof.
  intros [H1 H2 H3 H4 H5] Hset Hheld Hacc Hp Hr Hpass Hres.
  assert (ob_queue (rc_box s') = ob_queue (rc_box s) /\ ob_max (rc_box s') = ob_max (rc_box s) /\
    ob_cap (rc_box s') = ob_cap (rc_box s)) as (Eq & Em & Ec) by (unfold settled, ob_set in Hset; by injection Hset).
  split; [by rewrite Hset, Hheld, Hacc|done|done| |].
  - rewrite Eq, Em, Hheld. lia.
  - rewrite Eq, Ec. lia.
Qed.

(** An operation that is a call in one step. *)
Lemma inv_atomic s s' :
  inv s -> atomic_step (settled s, rc_held s, rc_accepted s) (settled s', rc_held s', rc_accepted s') ->
  ob_pending (rc_box s') = (sum_sizes (ob_queue (rc_box s')) + sum_held (rc_held s') + in_transit s')%Z ->
  ob_reserved (rc_box s') = length (rc_held s') + rc_releasing s' ->
  (sum_sizes (ob_queue (rc_box s')) + sum_held (rc_held s') + passing (rc_box s') (rc_senders s') <= ob_max (rc_box s'))%Z ->
  length (ob_queue (rc_box s')) + ob_reserved (rc_box s') <= ob_cap (rc_box s') -> inv s'.
Proof. intros [H1 H2 H3 H4 H5] Hstep Hp Hr Hb Hc. split; [|done..]. by eapply rtc_r. Qed.

Lemma inv_add reserve b s : inv s -> inv (race_add reserve b s).
Proof.
  intros Hi. pose proof Hi as [H1 H2 H3 H4 H5]. pose proof (frame_size_nonneg b). split; simpl; try done.
  - replace (settled (race_add reserve b s)) with (settled s); [done|]. unfold settled, in_transit; simpl.
    apply ob_ext; simpl; try done. rewrite sum_senders_app. simpl. lia.
  - unfold in_transit in *; simpl. rewrite sum_senders_app. simpl. lia.
  - rewrite (passing_max (rc_box s)) by done. rewrite passing_app. simpl. unfold over_budget; simpl.
    pose proof (passing_range (rc_box s) (rc_senders s)). pose proof (sum_held_nonneg (rc_popped s)).
    unfold in_transit in H2. destruct (Z.ltb_spec (ob_max (rc_box s)) (ob_pending (rc_box s) + frame_size b)); lia.
Qed.

Lemma inv_undo x before after s : rc_senders s = before ++ x :: after -> inv s -> inv (race_undo x (before ++ after) s).
Proof.
  intros Hs Hi. pose proof Hi as [H1 H2 H3 H4 H5]. pose proof (frame_size_nonneg (sn_frame x)).
  assert (sum_senders (rc_senders s) = frame_size (sn_frame x) + sum_senders (before ++ after))%Z as Es
    by (rewrite Hs, !sum_senders_app; simpl; lia).
  apply (inv_silent s); simpl; try done.
  - unfold settled, in_transit; simpl. apply ob_ext; simpl; try done. lia.
  - unfold in_transit in *; simpl. lia.
  - rewrite Hs, (passing_max (rc_box s)), !passing_app by done. simpl. destruct (over_budget _ x); lia.
Qed.

(** A call that passed the budget finds room in what is settled. *)
Lemma settled_room x before after s :
  rc_senders s = before ++ x :: after -> over_budget (rc_box s) x = false -> has_slot (rc_box s) = true -> inv s ->
  (ob_max (settled s) <? ob_pending (settled s) + frame_size (sn_frame x))%Z = false /\ has_slot (settled s) = true.
Proof.
  intros Hs Hx Hslot [H1 H2 H3 H4 H5]. split.
  - simpl. apply Z.ltb_ge. rewrite Hs, passing_app in H4. simpl in H4. rewrite Hx in H4.
    pose proof (passing_range (rc_box s) before). pose proof (passing_range (rc_box s) after). lia.
  - apply has_slot_true in Hslot as [Hc Hl]. unfold has_slot; simpl. rewrite Hc. simpl.
    apply bool_decide_eq_true_2. lia.
Qed.

Lemma inv_channel x before after s :
  rc_senders s = before ++ x :: after -> over_budget (rc_box s) x = false -> inv s -> inv (race_channel x before after s).
Proof.
  intros Hs Hx Hi. pose proof Hi as [H1 H2 H3 H4 H5].
  assert (sum_senders (rc_senders s) = frame_size (sn_frame x) + sum_senders (before ++ after))%Z as Es
    by (rewrite Hs, !sum_senders_app; simpl; lia).
  unfold race_channel. destruct (has_slot (rc_box s)) eqn:Hslot.
  2: { apply (inv_silent s); simpl; try done.
       - unfold settled, in_transit; simpl. apply ob_ext; simpl; try done. rewrite Es, !sum_senders_app. simpl. lia.
       - unfold in_transit in *; simpl. rewrite Es, sum_senders_app in H2. rewrite sum_senders_app. simpl. lia.
       - rewrite Hs, !passing_app. simpl. unfold over_budget; simpl. lia. }
  destruct (settled_room x before after s Hs Hx Hslot Hi) as [Hroom Hslot'].
  apply has_slot_true in Hslot as [_ Hlen]. rewrite Hs, passing_app in H4. simpl in H4. rewrite Hx in H4.
  destruct (sn_reserve x); apply (inv_atomic s); simpl; try done.
  - apply at_reserve. unfold reserve_frame. rewrite Hroom, Hslot'. simpl. f_equal. unfold settled, in_transit; simpl.
    apply ob_ext; simpl; (done || lia).
  - unfold in_transit in *; simpl. lia.
  - lia.
  - rewrite (passing_max (rc_box s)), passing_app by done. lia.
  - lia.
  - apply at_frame. unfold try_frame. rewrite Hroom, Hslot'. simpl. f_equal. unfold settled, in_transit; simpl.
    apply ob_ext; simpl; (done || lia).
  - unfold in_transit in *; simpl. rewrite sum_sizes_app. simpl. lia.
  - rewrite (passing_max (rc_box s)), passing_app, sum_sizes_app by done. simpl. lia.
  - rewrite length_app. simpl. lia.
Qed.
Ltac same_outbox := unfold settled, in_transit, reserved_send, reserved_drop, receiver_gone; apply ob_ext; simpl; (done || lia).

Lemma inv_held s s' b held :
  rc_held s ≡ₚ b :: held -> inv s -> rc_held s' = held -> rc_accepted s' = rc_accepted s -> rc_senders s' = rc_senders s ->
  rc_popped s' = rc_popped s -> rc_box s' = reserved_send (rc_box s) b /\ rc_releasing s' = rc_releasing s \/
  rc_box s' = add_pending (- frame_size b) (rc_box s) /\ rc_releasing s' = S (rc_releasing s) -> inv s'.
Proof.
  intros Hb Hi Eh Ea Es Ep Hor. pose proof Hi as [H1 H2 H3 H4 H5].
  pose proof (sum_held_perm _ _ Hb) as Hsum. pose proof (Permutation_length Hb) as Hlen. simpl in Hsum, Hlen.
  pose proof (frame_size_nonneg b). apply (inv_atomic s); [done|..]; rewrite ?Eh, ?Ea.
  - destruct Hor as [[Eb Er]|[Eb Er]].
    + replace (settled s') with (reserved_send (settled s) b); [by apply at_send|].
      unfold settled, in_transit. rewrite Eb, Er, Es, Ep. same_outbox.
    + replace (settled s') with (reserved_drop (settled s) b); [by apply at_drop|].
      unfold settled, in_transit. rewrite Eb, Er, Es, Ep. same_outbox.
  - unfold in_transit in *. rewrite Es, Ep. destruct Hor as [[-> _]|[-> _]]; simpl; rewrite ?sum_sizes_app; simpl; lia.
  - destruct Hor as [[-> ->]|[-> ->]]; simpl; lia.
  - rewrite Es. destruct Hor as [[-> _]|[-> _]]; rewrite (passing_max (rc_box s)) by done; simpl; rewrite ?sum_sizes_app; simpl; lia.
  - destruct Hor as [[-> _]|[-> _]]; simpl; rewrite ?length_app; simpl; lia.
Qed.

Lemma inv_receiver s s' :
  inv s -> rc_held s' = rc_held s -> rc_accepted s' = rc_accepted s -> rc_senders s' = rc_senders s ->
  rc_releasing s' = rc_releasing s -> ob_reserved (rc_box s') = ob_reserved (rc_box s) ->
  ob_max (rc_box s') = ob_max (rc_box s) -> ob_cap (rc_box s') = ob_cap (rc_box s) ->
  atomic_step (settled s, rc_held s, rc_accepted s) (settled s', rc_held s, rc_accepted s) ->
  (ob_pending (rc_box s') - in_transit s' - sum_sizes (ob_queue (rc_box s')) =
   ob_pending (rc_box s) - in_transit s - sum_sizes (ob_queue (rc_box s)))%Z ->
  (sum_sizes (ob_queue (rc_box s')) <= sum_sizes (ob_queue (rc_box s)))%Z ->
  length (ob_queue (rc_box s')) + ob_reserved (rc_box s) <= ob_cap (rc_box s) -> inv s'.
Proof.
  intros Hi Eh Ea Es Er Ec Em Ecap Hstep Hp Hle Hl. pose proof Hi as [H1 H2 H3 H4 H5].
  apply (inv_atomic s); [done|by rewrite Eh, Ea|rewrite Eh; lia|rewrite Ec, Eh, Er; done| |by rewrite Ec, Ecap].
  rewrite (passing_max (rc_box s)), Eh, Es, Em by done. lia.
Qed.

Lemma inv_step s s' : inv s -> race_step s s' -> inv s'.
Proof.
  intros Hi Hstep. pose proof Hi as [H1 H2 H3 H4 H5].
  destruct Hstep as [reserve b s|x before after s Hs _|x before after s Hs Hx _|b held s Hb|b held s Hb|n s Hn|b q s Hq
    |b popped s Hp|o s Hr|s|s].
  - by apply inv_add.
  - by apply inv_undo.
  - by apply inv_channel.
  - by apply (inv_held s _ b held); try done; left.
  - by apply (inv_held s _ b held); try done; right.
  - apply (inv_silent s); simpl; try done; [same_outbox|lia|lia].
  - apply (inv_receiver s); simpl; try done.
    + apply (at_recv _ _ _ (OFrame b)). match goal with |- recv_step _ _ ?t => replace t with
        (ob_set q (ob_reserved (settled s)) (ob_pending (settled s) - frame_size b) (ob_forced (settled s)) (settled s)) end;
        [by apply recv_frame|same_outbox].
    + unfold in_transit; simpl. rewrite Hq. simpl. lia.
    + rewrite Hq. simpl. pose proof (frame_size_nonneg b). lia.
    + rewrite Hq in H5. simpl in H5. lia.
  - apply (inv_silent s); simpl; try done; [|unfold in_transit in *; simpl in *; rewrite Hp in H2; simpl in H2; lia].
    unfold settled, in_transit; simpl. rewrite Hp. simpl. same_outbox.
  - inversion Hr as [o' Hf|o' b q Hq|o' q Hq]; subst; (apply (inv_receiver s); simpl; try done).
    + apply (at_recv _ _ _ OClose). exact (recv_forced (settled s) Hf).
    + apply (at_recv _ _ _ OClose). exact (recv_close (settled s) q Hq).
    + rewrite Hq. simpl. unfold in_transit; simpl. lia.
    + rewrite Hq. simpl. lia.
    + rewrite Hq in H5. simpl in H5. lia.
  - unfold ob_close. destruct (has_slot (rc_box s)) eqn:Hslot.
    + pose proof Hslot as [Hc Hl]%has_slot_true.
      assert (has_slot (settled s) = true) as Hset.
      { unfold has_slot; simpl. rewrite Hc. simpl. apply bool_decide_eq_true_2. lia. }
      apply (inv_receiver s); simpl; try done; rewrite ?sum_sizes_app, ?length_app; simpl; try lia.
      * match goal with |- atomic_step _ (?t, _, _) => replace t with (ob_close (settled s)) end; [apply at_close|].
        unfold ob_close. rewrite Hset. same_outbox.
      * unfold in_transit; simpl. lia.
    + apply (inv_receiver s); simpl; try done. exact (at_force (settled s) (rc_held s) (rc_accepted s)).
  - apply (inv_receiver s); simpl; try done. exact (at_gone (settled s) (rc_held s) (rc_accepted s)).
Qed.

Lemma inv_reach s : (0 <= max_bytes)%Z -> rtc race_step (race_start max_frames max_bytes) s -> inv s.
Proof.
  intros Hm Hrun. eapply (rtc_ind_r inv); [|intros s1 s2 _ Hstep Hi; by eapply inv_step|exact Hrun].
  by split; simpl; try (done || lia).
Qed.
End simulation.

(** ** A call that runs alone *)

Definition idle (s : race) : Prop := rc_senders s = [] /\ rc_popped s = [] /\ rc_releasing s = 0.

Definition answered (o : Outbox) (held : list bytes) (accepted : list (bool * bytes)) : race :=
  {| rc_box := o; rc_held := held; rc_senders := []; rc_popped := []; rc_releasing := 0; rc_accepted := accepted |}.

Lemma alone_frame s b r o' :
  idle s -> try_frame (rc_box s) b = (r, o') ->
  rtc race_step s (answered o' (rc_held s) (rc_accepted s ++ if r then [(false, b)] else [])).
Proof.
  destruct s as [o held senders popped releasing acc]. unfold idle; simpl. intros (-> & -> & ->) Ht.
  set (s := {| rc_box := o |}). set (x := {| sn_reserve := false; sn_frame := b; sn_previous := ob_pending o; sn_full := false |}).
  assert (add_pending (- frame_size b) (add_pending (frame_size b) o) = o) as Hback by (apply ob_ext; simpl; (done || lia)).
  assert (over_budget (rc_box (race_add false b s)) x = (ob_max o <? ob_pending o + frame_size b)%Z) as Ho by done.
  assert (has_slot (rc_box (race_add false b s)) = has_slot o) as Hs by done.
  eapply rtc_l; [apply (race_fetch_add false b s)|]. unfold try_frame in Ht.
  destruct (ob_max o <? ob_pending o + frame_size b)%Z eqn:Hb.
  { injection Ht as <- <-. apply rtc_once. pose proof (race_refused x [] [] (race_add false b s) eq_refl (or_introl Ho)) as H.
    unfold race_undo in H. simpl in H. rewrite Hback in H. by rewrite app_nil_r. }
  pose proof (race_try x [] [] (race_add false b s) eq_refl Ho eq_refl) as H. unfold race_channel in H. rewrite Hs in H.
  destruct (has_slot o); simpl in Ht; injection Ht as <- <-; [by apply rtc_once|].
  eapply rtc_l; [exact H|]. apply rtc_once. simpl.
  match goal with |- race_step ?t _ =>
    pose proof (race_refused {| sn_reserve := false; sn_frame := b; sn_previous := ob_pending o; sn_full := true |} [] [] t
      eq_refl (or_intror eq_refl)) as H' end.
  unfold race_undo in H'. simpl in H'. rewrite Hback in H'. by rewrite app_nil_r.
Qed.

(** ** The property *)

(** C40. Concurrent senders of one outbox get what calls in one step would
    give.  However the operations of [try_frame], [try_reserve_frame], a
    reservation's drop, the writer's [recv] and [close] interleave, the calls
    that were accepted are accepted, in the same order, by some sequence of
    calls that each run in one step, which leaves the same queue and the same
    reservations; so the frames queued and reserved stay within the budget and
    the channel, although the shared counter may exceed the budget by the bytes
    of calls under way.  A call may be refused because of such bytes; one that
    runs alone gives the very answer of [try_frame] in one step. *)
Theorem racing_senders_atomic max_frames max_bytes s :
  (0 <= max_bytes)%Z -> rtc race_step (race_start max_frames max_bytes) s ->
  rtc atomic_step (outbox max_frames max_bytes, [], []) (settled s, rc_held s, rc_accepted s) /\
  outbox_ok (rc_held s) (settled s) /\
  (idle s -> settled s = rc_box s) /\
  (forall b r o', idle s -> try_frame (rc_box s) b = (r, o') ->
     rtc race_step s (answered o' (rc_held s) (rc_accepted s ++ if r then [(false, b)] else []))).
Proof.
  intros Hm Hrun. destruct (inv_reach max_frames max_bytes s Hm Hrun) as [H1 H2 H3 H4 H5].
  split_and!; [done| | |by intros; apply alone_frame].
  - unfold outbox_ok; simpl. pose proof (passing_range (rc_box s) (rc_senders s)). split_and!; lia.
  - intros (Es & Ep & Er). unfold settled, in_transit. rewrite Es, Ep, Er. apply ob_ext; simpl; (done || lia).
Qed.

(** Two senders race for a budget of five bytes: the second sees the first
    one's bytes and is refused while the first is under way. *)
Module OutboxRaceToy.
Definition four : bytes := replicate 4 "x"%byte.
Definition two : bytes := replicate 2 "y"%byte.
Definition racing : race := race_add false two (race_add false four (race_start 8 5)).
Definition overtaken : race :=
  race_undo {| sn_reserve := false; sn_frame := two; sn_previous := 4; sn_full := false |}
    [{| sn_reserve := false; sn_frame := four; sn_previous := 0; sn_full := false |}] racing.
Definition first_in : race :=
  race_channel {| sn_reserve := false; sn_frame := four; sn_previous := 0; sn_full := false |} [] [] overtaken.

Lemma racing_senders_atomic_witness :
  ob_pending (rc_box racing) = 6%Z /\ rc_accepted first_in = [(false, four)] /\
  rtc atomic_step (outbox 8 5, [], []) (settled first_in, rc_held first_in, rc_accepted first_in) /\
  outbox_ok (rc_held first_in) (settled first_in).
Proof.
  split; [reflexivity|]. split; [reflexivity|].
  destruct (racing_senders_atomic 8 5 first_in) as (H1 & H2 & _).
  - lia.
  - eapply rtc_l; [apply (race_fetch_add false four)|]. eapply rtc_l; [apply (race_fetch_add false two)|].
    eapply rtc_l; [apply (race_refused {| sn_reserve := false; sn_frame := two; sn_previous := 4; sn_full := false |}
      [{| sn_reserve := false; sn_frame := four; sn_previous := 0; sn_full := false |}] []); [reflexivity|left; reflexivity]|].
    apply rtc_once.
    apply (race_try {| sn_reserve := false; sn_frame := four; sn_previous := 0; sn_full := false |} [] []); reflexivity.
  - split; [exact H1|exact H2].
Defined.
End OutboxRaceToy.
