(* ===== verification/Room.v ===== *)
(** * Rooms (the second half of [crates/server/src/room.rs])

    One actor per room serializes joins, clips and disconnects.  [on_join],
    [on_clip] and [on_disconnect] are the actor's handlers, [actor_turn] one
    turn of its loop, [rooms_join], [rooms_clip] and [rooms_disconnect] what a
    connection calls.  The registry and the mailbox sink are used through
    their classes.  A handler that panics reports it: the task dies, and with
    it the receiving end of the inbox.  The test gates are left out. *)

From S2P Require Import Prelude Fs Interfaces Protocol Registry Config Mailbox Outbox.
From Stdlib Require Import Strings.Byte.

Set Default Goal Selector "!".
#[local] Open Scope clip_scope.

Abbreviation ConnectionId := Z.

Inductive RoomEvent :=
| RJoin (fp device_id : string) (connection_id : ConnectionId) (outbox : OutboxHandle)
| RClip (sender_fp : string) (connection_id : ConnectionId) (ciphertext : string) (encoded_size : Z)
| RDisconnect (fp : string) (connection_id : ConnectionId).

Definition payload_size (e : RoomEvent) : Z :=
  match e with RClip _ _ _ size => size | RJoin _ _ _ _ | RDisconnect _ _ => 0 end.

(** The receiving end of a room's channel, with the shared byte counter. *)
Record Inbox := { ib_events : list RoomEvent; ib_bytes : Z }.

(** [RoomHandle::try_send]: [fetch_add], the test of the bound, the send and
    on failure [fetch_sub], in one step; [OutboxRace] has these operations
    apart, for the outbox. *)
Definition inbox_try_send (lim : Limits) (ib : Inbox) (event : RoomEvent) : option Inbox :=
  let size := payload_size event in
  if (inbox_max_bytes lim <? ib_bytes ib + size)%Z then None
  else if bool_decide (inbox_max_events lim <= length (ib_events ib)) then None
  else Some {| ib_events := ib_events ib ++ [event]; ib_bytes := ib_bytes ib + size |}.

Record OnlineMember := { connection_id : ConnectionId; member_outbox : OutboxHandle }.

Record RoomActor := {
  a_room_id : string; member_fps : list string; online : gmap string OnlineMember;
  mailbox_pending : gmap string PendingClip
}.

Definition set_online (o : gmap string OnlineMember) (a : RoomActor) : RoomActor :=
  {| a_room_id := a_room_id a; member_fps := member_fps a; online := o; mailbox_pending := mailbox_pending a |}.
Definition set_pending (p : gmap string PendingClip) (a : RoomActor) : RoomActor :=
  {| a_room_id := a_room_id a; member_fps := member_fps a; online := online a; mailbox_pending := p |}.

(** How a turn ends: the loop goes on, the actor returns, or its task panics. *)
Inductive turn := Continue | Exit | Panic.

#[global] Instance turn_eq_decision : EqDecision turn.
Proof. solve_decision. Defined.

Section actor.
Context {T R M : Type} {RT : Registry T R} {MS : MailboxSink M} {B64 : Base64} {JF : Json Frame}.

(** What an actor's turn reads and writes. *)
Record room_env := { re_actor : RoomActor; re_out : outboxes; re_registry : R; re_mailbox : M }.

Definition with_actor (a : RoomActor) (out : outboxes) (self : room_env) : room_env :=
  {| re_actor := a; re_out := out; re_registry := re_registry self; re_mailbox := re_mailbox self |}.

Definition with_out (out : outboxes) (self : room_env) : room_env := with_actor (re_actor self) out self.

(** A join replaces the old connection of its fingerprint and takes the
    pending clip into the bootstrap frame. *)
Definition join_replace (self : room_env) (fp : string) : room_env :=
  match online (re_actor self) !! fp with
  | Some old => with_actor (set_online (delete fp (online (re_actor self))) (re_actor self))
                  (close (member_outbox old) (re_out self)) self
  | None => self
  end.

Definition join_bootstrap (self : room_env) (fp : string) : room_env * Frame :=
  let a := re_actor self in
  match mailbox_pending a !! fp with
  | Some clip =>
      ({| re_actor := set_pending (delete fp (mailbox_pending a)) a; re_out := re_out self;
          re_registry := re_registry self;
          re_mailbox := clip_consumed (re_mailbox self) (a_room_id a) fp |},
       Clip (a_room_id a) (ciphertext_b64 clip) (origin_device clip) true)
  | None => (self, MailboxEmpty)
  end.

(** With both success frames reserved: activate the room, then send the
    frames and register the member, or drop them and report. *)
Definition join_activate (self : room_env) (fp : string) (conn : ConnectionId) (h : OutboxHandle)
    (join_ok boot : bytes) (now : Z) : io T (room_env * turn) :=
  answer ← activate_on_first_join (re_registry self) (a_room_id (re_actor self)) fp now;
  let self := {| re_actor := re_actor self; re_out := re_out self; re_registry := answer.2;
                 re_mailbox := re_mailbox self |} in
  mret match answer.1 with
       | Err _ =>
           let out := reservation_drop h boot (reservation_drop h join_ok (re_out self)) in
           match error_and_close out h "registry_failed" "room activation could not be persisted" with
           | None => (with_out out self, Panic)
           | Some out => (with_out out self, Continue)
           end
       | Ok _ =>
           let out := reservation_send h boot (reservation_send h join_ok (re_out self)) in
           let member := {| connection_id := conn; member_outbox := h |} in
           (with_actor (set_online (<[fp := member]> (online (re_actor self))) (re_actor self)) out self, Continue)
       end.

Definition on_join (self : room_env) (fp device_id : string) (conn : ConnectionId) (h : OutboxHandle) (now : Z) :
    io T (room_env * turn) :=
  let '(self, bootstrap) := join_bootstrap (join_replace self fp) fp in
  match try_reserve_frame (re_out self) h JoinOk with
  | None => mret (self, Panic)
  | Some (None, out) => mret (with_out out self, Continue)
  | Some (Some join_ok, out) =>
      match try_reserve_frame out h bootstrap with
      | None => mret (with_out (reservation_drop h join_ok out) self, Panic)
      | Some (None, out) => mret (with_out (reservation_drop h join_ok out) self, Continue)
      | Some (Some boot, out) => join_activate (with_out out self) fp conn h join_ok boot now
      end
  end.

(** One recipient of a live clip. *)
Definition route (self : room_env) (sender_fp ciphertext : string) (now : Z) (recipient : string) :
    room_env * turn :=
  let a := re_actor self in
  let frame := Clip (a_room_id a) ciphertext sender_fp false in
  match online a !! recipient with
  | Some member =>
      match send_frame (re_out self) (member_outbox member) frame with
      | None => (self, Panic)
      | Some (true, out) => (with_actor a out self, Continue)
      | Some (false, out) =>
          match send_frame out (member_outbox member)
                  (ErrorFrame "outbox_overflow" "outbound queue exceeded") with
          | None => (with_actor a out self, Panic)
          | Some (_, out) =>
              (with_actor (set_online (delete recipient (online a)) a) (close (member_outbox member) out) self,
               Continue)
          end
      end
  | None =>
      let pending := {| origin_device := sender_fp; ciphertext_b64 := ciphertext |} in
      ({| re_actor := set_pending (<[recipient := pending]> (mailbox_pending a)) a; re_out := re_out self;
          re_registry := re_registry self;
          re_mailbox := clip_pending (re_mailbox self) (a_room_id a) recipient pending now |}, Continue)
  end.

Fixpoint route_all (self : room_env) (sender_fp ciphertext : string) (now : Z) (recipients : list string) :
    room_env * turn :=
  match recipients with
  | [] => (self, Continue)
  | recipient :: recipients =>
      if bool_decide (recipient = sender_fp) then route_all self sender_fp ciphertext now recipients
      else
        match route self sender_fp ciphertext now recipient with
        | (self, Continue) => route_all self sender_fp ciphertext now recipients
        | (self, t) => (self, t)
        end
  end.

Definition on_clip (self : room_env) (sender_fp : string) (conn : ConnectionId) (ciphertext : string) (now : Z) :
    room_env * turn :=
  match online (re_actor self) !! sender_fp with
  | None => (self, Continue)
  | Some sender =>
      if negb (connection_id sender =? conn)%Z then (self, Continue)
      else route_all self sender_fp ciphertext now (member_fps (re_actor self))
  end.

Definition on_disconnect (self : room_env) (fp : string) (conn : ConnectionId) : room_env :=
  let a := re_actor self in
  match online a !! fp with
  | Some member =>
      if (connection_id member =? conn)%Z then with_actor (set_online (delete fp (online a)) a) (re_out self) self
      else self
  | None => self
  end.

(** The body of the actor's loop, for the event it received. *)
Definition handle_event (self : room_env) (event : RoomEvent) (now : Z) : io T (room_env * turn) :=
  match event with
  | RJoin fp device_id conn h => on_join self fp device_id conn h now
  | RClip sender_fp conn ciphertext _ => mret (on_clip self sender_fp conn ciphertext now)
  | RDisconnect fp conn =>
      let self := on_disconnect self fp conn in
      mret (self, if bool_decide (online (re_actor self) = ∅) then Exit else Continue)
  end.
End actor.
Arguments room_env : clear implicits.

(** ** The room table

    Actors are the live tasks, with their inboxes; a handle of the table is
    the identity of an actor, and stale when the actor is gone. *)

Section rooms.
Context {T R M : Type} {RT : Registry T R} {MS : MailboxSink M} {B64 : Base64} {JF : Json Frame}.
Context (lim : Limits).

Record Rooms := {
  rs_map : gmap string nat; rs_actors : gmap nat (RoomActor * Inbox); rs_next : nat;
  rs_out : outboxes; rs_registry : R; rs_mailbox : M
}.

Definition set_map (m : gmap string nat) (s : Rooms) : Rooms :=
  {| rs_map := m; rs_actors := rs_actors s; rs_next := rs_next s; rs_out := rs_out s;
     rs_registry := rs_registry s; rs_mailbox := rs_mailbox s |}.
Definition set_actors (a : gmap nat (RoomActor * Inbox)) (s : Rooms) : Rooms :=
  {| rs_map := rs_map s; rs_actors := a; rs_next := rs_next s; rs_out := rs_out s;
     rs_registry := rs_registry s; rs_mailbox := rs_mailbox s |}.
Definition set_out (o : outboxes) (s : Rooms) : Rooms :=
  {| rs_map := rs_map s; rs_actors := rs_actors s; rs_next := rs_next s; rs_out := o;
     rs_registry := rs_registry s; rs_mailbox := rs_mailbox s |}.

Definition rooms_new (registry : R) (mailbox : M) : Rooms :=
  {| rs_map := ∅; rs_actors := ∅; rs_next := 0; rs_out := ∅; rs_registry := registry; rs_mailbox := mailbox |}.

(** [collect] into a map: the last entry of a key wins. *)
Definition collect_pending (l : list (string * PendingClip)) : gmap string PendingClip :=
  foldl (fun m kv => <[kv.1 := kv.2]> m) ∅ l.

Definition spawn (s : Rooms) (room_id : string) (fps : list string) (now : Z) : nat * Rooms :=
  let actor := {| a_room_id := room_id; member_fps := fps; online := ∅;
                  mailbox_pending := collect_pending (load_pending (rs_mailbox s) room_id now) |} in
  (rs_next s,
   {| rs_map := <[room_id := rs_next s]> (rs_map s);
      rs_actors := <[rs_next s := (actor, {| ib_events := []; ib_bytes := 0 |})]> (rs_actors s);
      rs_next := S (rs_next s); rs_out := rs_out s; rs_registry := rs_registry s; rs_mailbox := rs_mailbox s |}).

(** [handle.try_send(event)]: [None] when it is refused. *)
Definition send_to (s : Rooms) (id : nat) (event : RoomEvent) : option Rooms :=
  match rs_actors s !! id with
  | None => None
  | Some (a, ib) =>
      match inbox_try_send lim ib event with
      | None => None
      | Some ib => Some (set_actors (<[id := (a, ib)]> (rs_actors s)) s)
      end
  end.

(** [remove_if(room_id, |_, old| old.same_actor(&handle))]. *)
Definition remove_if (s : Rooms) (room_id : string) (id : nat) : Rooms :=
  if bool_decide (rs_map s !! room_id = Some id) then set_map (delete room_id (rs_map s)) s else s.

Fixpoint join_attempts (n : nat) (s : Rooms) (room_id : string) (fps : list string) (event : RoomEvent) (now : Z) :
    bool * Rooms :=
  match n with
  | 0 => (false, s)
  | S n =>
      let '(id, s) := match rs_map s !! room_id with
                      | Some id => (id, s)
                      | None => spawn s room_id fps now
                      end in
      match send_to s id event with
      | Some s => (true, s)
      | None =>
          if bool_decide (rs_actors s !! id = None)
          then join_attempts n (remove_if s room_id id) room_id fps event now
          else (false, s)
      end
  end.

Definition rooms_join (s : Rooms) (room_id : string) (fps : list string) (fp device_id : string)
    (conn : ConnectionId) (h : OutboxHandle) (now : Z) : bool * Rooms :=
  join_attempts 2 s room_id fps (RJoin fp device_id conn h) now.

Definition rooms_clip (s : Rooms) (room_id sender_fp : string) (conn : ConnectionId) (ciphertext : string)
    (encoded_size : Z) : bool * Rooms :=
  match rs_map s !! room_id with
  | None => (false, s)
  | Some id =>
      match send_to s id (RClip sender_fp conn ciphertext encoded_size) with
      | Some s => (true, s)
      | None => (false, s)
      end
  end.

Definition rooms_disconnect (s : Rooms) (room_id fp : string) (conn : ConnectionId) : Rooms :=
  match rs_map s !! room_id with
  | None => s
  | Some id => default s (send_to s id (RDisconnect fp conn))
  end.

(** One turn of [RoomActor::run] for the actor [id]: receive, release the
    bytes, handle; a returning actor first leaves the table. *)
Definition actor_turn (s : Rooms) (id : nat) (now : Z) : io T Rooms :=
  match rs_actors s !! id with
  | Some (a, {| ib_events := event :: events; ib_bytes := n |}) =>
      let ib := {| ib_events := events; ib_bytes := n - payload_size event |} in
      out ← handle_event {| re_actor := a; re_out := rs_out s; re_registry := rs_registry s;
                            re_mailbox := rs_mailbox s |} event now;
      let env := out.1 in
      let s := {| rs_map := rs_map s; rs_actors := rs_actors s; rs_next := rs_next s; rs_out := re_out env;
                  rs_registry := re_registry env; rs_mailbox := re_mailbox env |} in
      mret match out.2 with
           | Continue => set_actors (<[id := (re_actor env, ib)]> (rs_actors s)) s
           | Exit => set_actors (delete id (rs_actors s)) (remove_if s (a_room_id a) id)
           | Panic => set_actors (delete id (rs_actors s)) s
           end
  | _ => mret s
  end.

(** Everything that moves the state: a new connection's outbox, the calls of
    the connections, the turns of the actors, the writers, and a writer that
    drops its receiver. *)
Inductive rooms_step : Rooms -> Rooms -> Prop :=
| step_outbox s h :
    rs_out s !! h = None ->
    rooms_step s (set_out (<[h := outbox (outbox_max_frames lim) (outbox_max_bytes lim)]> (rs_out s)) s)
| step_join s room_id fps fp device_id conn h now :
    rooms_step s (rooms_join s room_id fps fp device_id conn h now).2
| step_rclip s room_id sender_fp conn ciphertext size :
    (0 <= size)%Z -> rooms_step s (rooms_clip s room_id sender_fp conn ciphertext size).2
| step_disconnect s room_id fp conn :
    rooms_step s (rooms_disconnect s room_id fp conn)
| step_turn s id now (w w' : world T) s' :
    actor_turn s id now w = (Done s', w') -> rooms_step s s'
| step_writer s h o x o' :
    rs_out s !! h = Some o -> recv_step o x o' -> rooms_step s (set_out (<[h := o']> (rs_out s)) s)
| step_writer_gone s h o :
    rs_out s !! h = Some o ->
    rooms_step s (set_out (<[h := receiver_gone o]> (rs_out s)) s).
End rooms.
Arguments Rooms : clear implicits.

(** ** The invariant *)

(** A member that is online has no clip waiting. *)
Definition actor_ok (a : RoomActor) : Prop :=
  forall fp, is_Some (online a !! fp) -> mailbox_pending a !! fp = None.

Definition sum_payloads (l : list RoomEvent) : Z := foldr (fun e n => payload_size e + n)%Z 0%Z l.

Definition inbox_ok (lim : Limits) (ib : Inbox) : Prop :=
  ib_bytes ib = sum_payloads (ib_events ib) /\ Forall (fun e => 0 <= payload_size e)%Z (ib_events ib) /\
  (ib_bytes ib <= inbox_max_bytes lim)%Z /\ length (ib_events ib) <= inbox_max_events lim.

(** Accounts are exact and within limits, and the table routes a room to its
    one live actor. *)
Definition relay_ok {R M} (lim : Limits) (s : Rooms R M) : Prop :=
  all_ok (rs_out s) /\
  map_Forall (fun id x => actor_ok x.1 /\ inbox_ok lim x.2 /\ rs_map s !! a_room_id x.1 = Some id /\
                          id < rs_next s) (rs_actors s).

Lemma sum_payloads_app l k : sum_payloads (l ++ k) = (sum_payloads l + sum_payloads k)%Z.
Proof. induction l as [|x l IH]; simpl; [done|]. lia. Qed.

Lemma inbox_try_send_ok lim ib e ib' :
  inbox_ok lim ib -> (0 <= payload_size e)%Z -> inbox_try_send lim ib e = Some ib' -> inbox_ok lim ib'.
Proof.
  intros (H1 & H2 & H3 & H4) He. unfold inbox_try_send. case_bool; [done|].
  case_bool_decide; [done|]. intros [= <-]. bool_to_prop. unfold inbox_ok; simpl.
  rewrite sum_payloads_app, length_app. simpl. split_and!; [lia| |lia|lia].
  apply Forall_app. split; [done|]. by repeat constructor.
Qed.

Lemma inbox_pop_ok lim e events n :
  inbox_ok lim {| ib_events := e :: events; ib_bytes := n |} ->
  inbox_ok lim {| ib_events := events; ib_bytes := n - payload_size e |}.
Proof.
  unfold inbox_ok; simpl. intros (-> & [He Hes]%Forall_cons & H3 & H4). split_and!; [lia|done|lia|lia].
Qed.

Section preservation.
Context {T R M : Type} {RT : Registry T R} {MS : MailboxSink M} {B64 : Base64} {JF : Json Frame}.
Implicit Types (self : room_env R M).

Definition env_ok (room_id : string) self : Prop :=
  a_room_id (re_actor self) = room_id /\ actor_ok (re_actor self) /\ all_ok (re_out self).

(** A join takes the member's pending clip before it is registered. *)
Lemma actor_ok_leave a fp : actor_ok a -> actor_ok (set_online (delete fp (online a)) a).
Proof. intros Ha fp' [x Hx]. simpl in Hx. apply lookup_delete_Some in Hx as [_ Hx]. apply Ha. by eexists. Qed.

Lemma actor_ok_take a fp : actor_ok a -> actor_ok (set_pending (delete fp (mailbox_pending a)) a).
Proof. intros Ha fp' Hfp. simpl. apply lookup_delete_None. right. by apply Ha. Qed.

Lemma actor_ok_enter a fp m :
  actor_ok a -> mailbox_pending a !! fp = None -> actor_ok (set_online (<[fp := m]> (online a)) a).
Proof.
  intros Ha Hfp fp' Hf. simpl in Hf. apply lookup_insert_is_Some in Hf as [<- |[_ Hf]]; [done|]. by apply Ha.
Qed.

Lemma actor_ok_wait a fp c :
  actor_ok a -> online a !! fp = None -> actor_ok (set_pending (<[fp := c]> (mailbox_pending a)) a).
Proof.
  intros Ha Hfp fp' Hf. simpl in *. rewrite lookup_insert_ne; [by apply Ha|]. intros <-.
  destruct Hf. congruence.
Qed.

Lemma reservation_drop_ok h b held out : held_ok h (b :: held) out -> held_ok h held (reservation_drop h b out).
Proof. apply held_ok_alter. intros o. apply reserved_drop_ok. Qed.

Lemma reservation_send_ok h b held out : held_ok h (b :: held) out -> held_ok h held (reservation_send h b out).
Proof. apply held_ok_alter. intros o. apply reserved_send_ok. Qed.

(** The order of two reservations of one outbox does not matter to its account. *)
Lemma held_ok_swap h b c held out : held_ok h (b :: c :: held) out -> held_ok h (c :: b :: held) out.
Proof.
  intros H i o Hi. specialize (H i o Hi). simpl in H. case_bool_decide; [|done].
  destruct H as (H1 & H2 & H3 & H4). unfold outbox_ok in *; simpl in *. split_and!; [lia|done..].
Qed.

Lemma join_prepare_ok self fp room_id :
  env_ok room_id self ->
  env_ok room_id (join_bootstrap (join_replace self fp) fp).1 /\
  mailbox_pending (re_actor (join_bootstrap (join_replace self fp) fp).1) !! fp = None.
Proof.
  intros (Hr & Ha & Hout). assert (env_ok room_id (join_replace self fp)) as (Hr1 & Ha1 & Hout1).
  { unfold join_replace. destruct (online (re_actor self) !! fp); [|by split_and!].
    split_and!; simpl; [done|by apply actor_ok_leave|by apply close_ok]. }
  unfold join_bootstrap. destruct (mailbox_pending _ !! fp) as [clip|] eqn:Hp; simpl; [|by split; [split_and!|]].
  split; [split_and!; [done|by apply actor_ok_take|done]|]. by rewrite lookup_delete_eq.
Qed.

Lemma join_activate_ok self fp conn h jb bb now room_id :
  a_room_id (re_actor self) = room_id -> actor_ok (re_actor self) ->
  mailbox_pending (re_actor self) !! fp = None -> held_ok h [bb; jb] (re_out self) ->
  returns (T := T) (fun x => env_ok room_id x.1 /\ x.2 <> Exit) (join_activate self fp conn h jb bb now).
Proof.
  intros Hr Ha Hp Hout. apply returns_bind. intros [[b|e] reg]; apply returns_ret; simpl.
  - split; [|done]. split_and!; simpl; [done|by apply actor_ok_enter|].
    apply (held_ok_nil h), reservation_send_ok, reservation_send_ok. by apply held_ok_swap.
  - assert (all_ok (reservation_drop h bb (reservation_drop h jb (re_out self)))) as Hdrop.
    { apply (held_ok_nil h), reservation_drop_ok, reservation_drop_ok. by apply held_ok_swap. }
    destruct (error_and_close _ h _ _) as [out|] eqn:He; (split; [|done]); split_and!; simpl; try done.
    by eapply error_and_close_ok.
Qed.

Lemma on_join_ok self fp device_id conn h now room_id :
  env_ok room_id self -> returns (T := T) (fun x => env_ok room_id x.1 /\ x.2 <> Exit) (on_join self fp device_id conn h now).
Proof.
  intros Henv. destruct (join_prepare_ok self fp room_id Henv) as [(Hr & Ha & Hout) Hp].
  unfold on_join. destruct (join_bootstrap _ fp) as [self1 bootstrap]; simpl in *.
  destruct (try_reserve_frame (re_out self1) h JoinOk) as [[[jb|] out1]|] eqn:H1.
  3: { apply returns_ret. by split; [split_and!|]. }
  all: apply (held_ok_nil h) in Hout; apply (try_reserve_ok _ _ _ _ _ _ Hout) in H1.
  2: { apply returns_ret. split; [split_and!; [done..|by apply (held_ok_nil h)]|done]. }
  assert (all_ok (reservation_drop h jb out1)) as Hdrop by (by apply (held_ok_nil h), reservation_drop_ok).
  destruct (try_reserve_frame out1 h bootstrap) as [[[bb|] out2]|] eqn:H2.
  3: { apply returns_ret. by split; [split_and!|]. }
  all: apply (try_reserve_ok _ _ _ _ _ _ H1) in H2.
  2: { apply returns_ret. split; [split_and!; [done..|by apply (held_ok_nil h), reservation_drop_ok]|done]. }
  by apply join_activate_ok.
Qed.

Lemma route_ok self sender ct now fp room_id :
  env_ok room_id self -> env_ok room_id (route self sender ct now fp).1 /\ (route self sender ct now fp).2 <> Exit.
Proof.
  intros (Hr & Ha & Hout). unfold route. destruct (online (re_actor self) !! fp) as [m|] eqn:Hm.
  2: { split; [split_and!; simpl; [done|by apply actor_ok_wait|done]|done]. }
  destruct (send_frame _ _ _) as [[[|] out1]|] eqn:H1; [| |by split; [split_and!|]];
    apply (send_frame_ok _ _ _ _ _ Hout) in H1; [by split; [split_and!|]|].
  destruct (send_frame _ _ _) as [[b out2]|] eqn:H2; [|by split; [split_and!|]].
  apply (send_frame_ok _ _ _ _ _ H1) in H2.
  split; [split_and!; simpl; [done|by apply actor_ok_leave|by apply close_ok]|done].
Qed.

Lemma route_all_ok self sender ct now fps room_id :
  env_ok room_id self ->
  env_ok room_id (route_all self sender ct now fps).1 /\ (route_all self sender ct now fps).2 <> Exit.
Proof.
  revert self; induction fps as [|fp fps IH]; intros self Henv; simpl; [done|].
  case_bool_decide; [by apply IH|]. pose proof (route_ok self sender ct now fp room_id Henv) as Hr.
  destruct (route self sender ct now fp) as [self1 []], Hr as [Hr1 Hr2]; [by apply IH|by simpl in Hr2|done].
Qed.

Lemma handle_event_ok self event now room_id :
  env_ok room_id self -> returns (T := T) (fun x => env_ok room_id x.1) (handle_event self event now).
Proof.
  intros Henv. destruct event as [fp device_id conn h|fp conn ct size|fp conn]; simpl.
  - intros w. eapply wpc_mono; [by apply on_join_ok| |done]. by intros x w' [].
  - apply returns_ret. unfold on_clip. destruct (online (re_actor self) !! fp); [|done].
    case_bool; [done|]. by apply route_all_ok.
  - apply returns_ret. simpl. unfold on_disconnect. destruct (online (re_actor self) !! fp); [|done].
    case_bool; [|done]. destruct Henv as (? & ? & ?). split_and!; [done|by apply actor_ok_leave|done].
Qed.
End preservation.

Section invariant.
Context {T R M : Type} {RT : Registry T R} {MS : MailboxSink M} {B64 : Base64} {JF : Json Frame}.
Context (lim : Limits).
Implicit Types (s : Rooms R M).

Lemma relay_ok_set_out out s : relay_ok lim s -> all_ok out -> relay_ok lim (set_out out s).
Proof. by intros [_ Ha] Hout. Qed.

Lemma spawn_ok s room_id fps now :
  (0 <= inbox_max_bytes lim)%Z -> relay_ok lim s -> rs_map s !! room_id = None ->
  relay_ok lim (spawn s room_id fps now).2.
Proof.
  intros Hlim [Hout Ha] Hn. split; [done|]. simpl. apply map_Forall_insert_2.
  - split_and!; [|split_and!; simpl; [done|by constructor|done|lia]|by rewrite lookup_insert_eq|lia].
    intros fp [x Hx]. simpl in Hx. by rewrite lookup_empty in Hx.
  - intros id [a ib] Hi. destruct (Ha id (a, ib) Hi) as (H1 & H2 & H3 & H4). simpl in *.
    split_and!; [done|done| |lia]. rewrite lookup_insert_ne; [done|]. intros ->. congruence.
Qed.

Lemma send_to_ok s id event s' :
  relay_ok lim s -> (0 <= payload_size event)%Z -> send_to lim s id event = Some s' -> relay_ok lim s'.
Proof.
  intros [Hout Ha] He. unfold send_to. destruct (rs_actors s !! id) as [[a ib]|] eqn:Hi; [|done].
  destruct (inbox_try_send lim ib event) as [ib'|] eqn:Hs; [|done]. intros [= <-]. split; [done|]. simpl.
  apply map_Forall_insert_2; [|done]. destruct (Ha id _ Hi) as (H1 & H2 & H3 & H4).
  split_and!; [done|by eapply inbox_try_send_ok|done|done].
Qed.

Lemma remove_if_rest s room_id id :
  rs_out (remove_if s room_id id) = rs_out s /\ rs_actors (remove_if s room_id id) = rs_actors s /\
  rs_next (remove_if s room_id id) = rs_next s.
Proof. unfold remove_if. by case_bool_decide. Qed.

(** The table may forget a handle whose actor is gone. *)
Lemma remove_if_ok s room_id id :
  relay_ok lim s -> rs_actors s !! id = None -> relay_ok lim (remove_if s room_id id).
Proof.
  intros [Hout Ha] Hid. unfold remove_if. case_bool_decide as Hm; [|done]. split; [done|]. simpl.
  intros id' x Hx. destruct (Ha id' x Hx) as (H1 & H2 & H3 & H4). split_and!; [done|done| |done].
  rewrite lookup_delete_ne; [done|]. intros ->. congruence.
Qed.

Lemma join_attempts_ok n s room_id fps event now :
  (0 <= inbox_max_bytes lim)%Z -> relay_ok lim s -> (0 <= payload_size event)%Z ->
  relay_ok lim (join_attempts lim n s room_id fps event now).2.
Proof.
  intros Hlim. revert s; induction n as [|n IH]; intros s Hs He; simpl; [done|].
  assert (relay_ok lim (match rs_map s !! room_id with
    | Some id => (id, s) | None => spawn s room_id fps now end).2) as Hs1.
  { destruct (rs_map s !! room_id) eqn:Hm; [done|]. by apply spawn_ok. }
  destruct (match rs_map s !! room_id with Some id => (id, s) | None => _ end) as [id s1]; simpl in Hs1.
  destruct (send_to lim s1 id event) as [s2|] eqn:Hsend; [by eapply send_to_ok|].
  case_bool_decide; [|done]. apply IH; [|done]. by apply remove_if_ok.
Qed.

Lemma actor_turn_ok s id now (w w' : world T) s' :
  relay_ok lim s -> actor_turn s id now w = (Done s', w') -> relay_ok lim s'.
Proof.
  intros [Hout Ha]. unfold actor_turn.
  destruct (rs_actors s !! id) as [[a [[|event events] n]]|] eqn:Hi; [by intros [= <- <-]| |by intros [= <- <-]].
  destruct (Ha id _ Hi) as (H1 & H2 & H3 & H4). simpl in *. apply inbox_pop_ok in H2.
  set (env := {| re_actor := a |}).
  assert (env_ok (a_room_id a) env) as Henv by done.
  pose proof (handle_event_ok (T := T) env event now _ Henv w) as Hev. unfold wpc in Hev.
  unfold mbind, io_bind. destruct (handle_event env event now w) as [[[env' t]|] w1]; [|done].
  destruct Hev as (Hr' & Ha' & Hout'). intros [= <- <-]. simpl in *.
  assert (forall id' x, delete id (rs_actors s) !! id' = Some x -> id' <> id /\ rs_actors s !! id' = Some x) as Hdel.
  { intros id' x [Hne Hx]%lookup_delete_Some. done. }
  destruct t.
  - split; [done|]. apply map_Forall_insert_2; [|done]. split_and!; simpl; [done|done|by rewrite Hr'|done].
  - match goal with |- relay_ok _ (set_actors _ (remove_if ?s1 _ _)) =>
      destruct (remove_if_rest s1 (a_room_id a) id) as (E1 & E2 & E3) end.
    split; simpl; [by rewrite E1|]. rewrite E3. simpl.
    intros id' x [Hne Hx]%Hdel. destruct (Ha id' x Hx) as (G1 & G2 & G3 & G4). split_and!; try done.
    unfold remove_if; simpl. case_bool_decide; simpl; [|done]. rewrite lookup_delete_ne; [done|].
    intros Heq. rewrite Heq in H3. congruence.
  - split; [done|]. intros id' x [Hne Hx]%Hdel. by apply (Ha id' x Hx).
Qed.

Lemma rooms_step_ok s s' :
  (0 <= inbox_max_bytes lim)%Z -> (0 <= outbox_max_bytes lim)%Z ->
  relay_ok lim s -> rooms_step (T := T) lim s s' -> relay_ok lim s'.
Proof.
  intros Hib Hob Hs Hstep. destruct Hstep as [s h Hh|s room_id fps fp dev conn h now|s room_id fp conn ct size Hsz
    |s room_id fp conn|s id now w w' s' Ht|s h o x o' Ho Hr|s h o Ho].
  - apply relay_ok_set_out; [done|]. apply all_ok_insert; [exact (proj1 Hs)|]. by apply outbox_new_ok.
  - apply join_attempts_ok; [done..|simpl; lia].
  - unfold rooms_clip. destruct (rs_map s !! room_id); [|done].
    destruct (send_to _ _ _ _) eqn:Hse; [|done]. eapply send_to_ok; [exact Hs| |exact Hse]; done.
  - unfold rooms_disconnect. destruct (rs_map s !! room_id); [|done].
    destruct (send_to _ _ _ _) eqn:Hse; simpl; [|done]. eapply send_to_ok; [exact Hs| |exact Hse]; simpl; lia.
  - by eapply actor_turn_ok.
  - apply relay_ok_set_out; [done|]. destruct Hs as [Hs _]. apply all_ok_insert; [done|].
    eapply recv_step_ok; [by eapply Hs|done].
  - apply relay_ok_set_out; [done|]. destruct Hs as [Hs _]. apply all_ok_insert; [done|]. by apply (Hs h o).
Qed.

(** Every reachable state of the rooms keeps its limits and its routing.
    Each outbox holds at most its frames and bytes, with the byte counter
    exact; each inbox at most its events and bytes, likewise; a member that is
    online has no clip waiting in the actor's mailbox; and a room has at most
    one live actor, the one the table routes to. *)
Theorem rooms_invariant registry mailbox s :
  (0 <= inbox_max_bytes lim)%Z -> (0 <= outbox_max_bytes lim)%Z ->
  rtc (rooms_step (T := T) lim) (rooms_new registry mailbox) s ->
  (forall h o, rs_out s !! h = Some o ->
     length (ob_queue o) <= ob_cap o /\ ob_pending o = sum_sizes (ob_queue o) /\ (ob_pending o <= ob_max o)%Z) /\
  (forall id a ib, rs_actors s !! id = Some (a, ib) ->
     length (ib_events ib) <= inbox_max_events lim /\ ib_bytes ib = sum_payloads (ib_events ib) /\
     (ib_bytes ib <= inbox_max_bytes lim)%Z /\ actor_ok a) /\
  (forall id id' a a' ib ib', rs_actors s !! id = Some (a, ib) -> rs_actors s !! id' = Some (a', ib') ->
     a_room_id a = a_room_id a' -> id = id' /\ rs_map s !! a_room_id a = Some id).
Proof.
  intros Hib Hob Hrtc. assert (relay_ok lim s) as [Hout Ha].
  { assert (relay_ok lim (rooms_new registry mailbox)) as H0 by (split; apply map_Forall_empty).
    revert H0. clear -Hrtc Hib Hob. induction Hrtc; [done|]. eauto using rooms_step_ok. }
  split_and!.
  - intros h o Ho. destruct (Hout h o Ho) as (H1 & H2 & H3 & H4). simpl in *. split_and!; [lia|lia|done].
  - intros id a ib Hi. destruct (Ha id _ Hi) as (H1 & (H2 & H3 & H4 & H5) & _). done.
  - intros id id' a a' ib ib' Hi Hi' Heq. destruct (Ha id _ Hi) as (_ & _ & H1 & _).
    destruct (Ha id' _ Hi') as (_ & _ & H2 & _). simpl in *. split; [|done]. congruence.
Qed.
End invariant.

(** ** Sequences of events *)

Section sequences.
Context {T R M : Type} {RT : Registry T R} {MS : MailboxSink M} {B64 : Base64} {JF : Json Frame}.
Implicit Types (self : room_env R M).

(** The actor's loop on queued events, each with the time of its turn. *)
Fixpoint run_events self (events : list (RoomEvent * Z)) : io T (room_env R M * turn) :=
  match events with
  | [] => mret (self, Continue)
  | (event, now) :: events =>
      out ← handle_event self event now;
      match out.2 with Continue => run_events out.1 events | _ => mret out end
  end.

Lemma run_events_cons self event now events w self1 w1 :
  handle_event self event now w = (Done (self1, Continue), w1) ->
  run_events self ((event, now) :: events) w = run_events self1 events w1.
Proof. intros H. simpl. unfold mbind, io_bind. by rewrite H. Qed.

Lemma run_events_app self events events' w self1 w1 :
  run_events self events w = (Done (self1, Continue), w1) ->
  run_events self (events ++ events') w = run_events self1 events' w1.
Proof.
  revert self w; induction events as [|[e t] events IH]; intros self w; simpl; [by intros [= <- <-]|].
  unfold mbind, io_bind. destruct (handle_event self e t w) as [[[self2 []]|] w2]; simpl; try done. apply IH.
Qed.

(** Two members, the sender [a] online. *)
Context (a b : string) (ca : ConnectionId).

Definition pair_online self : Prop :=
  a <> b /\ (member_fps (re_actor self) = [a; b] \/ member_fps (re_actor self) = [b; a]) /\
  exists m, online (re_actor self) !! a = Some m /\ connection_id m = ca.

Lemma on_clip_pair self ct now : pair_online self -> on_clip self a ca ct now = route self a ct now b.
Proof.
  intros (Hne & Hfps & m & Hm & Hc). unfold on_clip. rewrite Hm, Hc, Z.eqb_refl. simpl.
  destruct Hfps as [-> | ->]; simpl.
  - rewrite bool_decide_eq_true_2, bool_decide_eq_false_2 by done.
    by destruct (route self a ct now b) as [self1 []].
  - rewrite bool_decide_eq_false_2 by done. destruct (route self a ct now b) as [self1 []]; [|done..].
    by rewrite bool_decide_eq_true_2.
Qed.

(** What clips to an offline member leave alone. *)
Definition mail_only self self' : Prop :=
  re_out self' = re_out self /\ re_registry self' = re_registry self /\
  a_room_id (re_actor self') = a_room_id (re_actor self) /\
  member_fps (re_actor self') = member_fps (re_actor self) /\
  online (re_actor self') = online (re_actor self).

Definition clip_events (clips : list (string * Z * Z)) : list (RoomEvent * Z) :=
  (fun c => (RClip a ca c.1.1 c.1.2, c.2)) <$> clips.

Lemma clips_offline self clips w :
  pair_online self -> online (re_actor self) !! b = None ->
  exists self', run_events self (clip_events clips) w = (Done (self', Continue), w) /\ mail_only self self' /\
    mailbox_pending (re_actor self') !! b =
      match last clips with
      | Some c => Some {| origin_device := a; ciphertext_b64 := c.1.1 |}
      | None => mailbox_pending (re_actor self) !! b
      end.
Proof.
  revert self w; induction clips as [|[[ct size] now] clips IH]; intros self w Hpair Hoff.
  { by exists self. }
  set (self1 := (route self a ct now b).1).
  assert (handle_event self (RClip a ca ct size) now w = (Done (self1, Continue), w)) as Hh.
  { cbn [handle_event]. rewrite on_clip_pair by done. unfold self1, route. by rewrite Hoff. }
  assert (mail_only self self1) as Hm by (unfold self1, route; rewrite Hoff; by split_and!).
  assert (mailbox_pending (re_actor self1) !! b = Some {| origin_device := a; ciphertext_b64 := ct |}) as Hp.
  { unfold self1, route. rewrite Hoff. simpl. apply lookup_insert_eq. }
  destruct Hm as (M1 & M2 & M3 & M4 & M5).
  destruct (IH self1 w) as (self' & Hrun & (N1 & N2 & N3 & N4 & N5) & Hp').
  { unfold pair_online. rewrite M4, M5. exact Hpair. }
  { by rewrite M5. }
  exists self'. split_and!; try congruence.
  - unfold clip_events. rewrite fmap_cons. by rewrite (run_events_cons _ _ _ _ _ _ _ Hh).
  - split_and!; congruence.
  - rewrite Hp', Hp. rewrite last_cons. by destruct (last clips).
Qed.

(** An outbox with more frames queued. *)
Definition queue_more (es : list bytes) (o : Outbox) : Outbox :=
  ob_set (ob_queue o ++ (OFrame <$> es)) (ob_reserved o) (ob_pending o + sum_held es)%Z (ob_forced o) o.

Definition fits (es : list bytes) (o : Outbox) : Prop :=
  ob_closed o = false /\ (ob_pending o + sum_held es <= ob_max o)%Z /\
  length (ob_queue o) + ob_reserved o + length es <= ob_cap o.

Lemma fits_slot e es o : fits (e :: es) o -> (ob_max o <? ob_pending o + frame_size e)%Z = false /\ has_slot o = true.
Proof.
  intros (Hc & Hb & Hl). pose proof (sum_held_nonneg es). simpl in *. split; [apply Z.ltb_ge; lia|].
  unfold has_slot. rewrite Hc. simpl. apply bool_decide_eq_true. lia.
Qed.

Lemma fits_tail e es o : fits (e :: es) o -> fits es (queue_more [e] o).
Proof.
  intros (Hc & Hb & Hl). unfold fits, queue_more. simpl in *. rewrite length_app. simpl. split_and!; [done|lia|lia].
Qed.

Lemma queue_more_app es es' o : queue_more es' (queue_more es o) = queue_more (es ++ es') o.
Proof.
  unfold queue_more, ob_set; simpl. rewrite fmap_app, <-app_assoc. f_equal.
  assert (sum_held (es ++ es') = sum_held es + sum_held es')%Z; [|lia].
  induction es as [|e es IH]; simpl; [done|]. lia.
Qed.

Lemma clips_online self clips es h o m w :
  pair_online self -> online (re_actor self) !! b = Some m -> member_outbox m = h ->
  re_out self !! h = Some o -> fits es o ->
  Forall2 (fun c e => encode_frame (Clip (a_room_id (re_actor self)) c.1.1 a false) = Ok e) clips es ->
  exists self', run_events self (clip_events clips) w = (Done (self', Continue), w) /\
    re_out self' = <[h := queue_more es o]> (re_out self) /\ re_actor self' = re_actor self.
Proof.
  intros Hpair Hm Hh. revert self es o w Hpair Hm.
  induction clips as [|[[ct size] now] clips IH]; intros self es o w Hpair Hm Ho Hfit Henc.
  { apply Forall2_nil_inv_l in Henc as ->. exists self. split_and!; [done| |done].
    rewrite insert_id; [done|]. rewrite Ho. f_equal. unfold queue_more; simpl.
    rewrite app_nil_r, Z.add_0_r. by destruct o. }
  apply Forall2_cons_inv_l in Henc as (e & es' & He & Henc & ->). simpl in He.
  destruct (fits_slot _ _ _ Hfit) as [Hmax Hslot].
  set (self1 := with_actor (re_actor self) (<[h := queue_more [e] o]> (re_out self)) self).
  assert (handle_event self (RClip a ca ct size) now w = (Done (self1, Continue), w)) as Hev.
  { cbn [handle_event]. rewrite on_clip_pair by done. unfold route, send_frame. rewrite Hm, He, Hh, Ho.
    unfold try_frame. rewrite Hmax, Hslot. simpl. unfold self1, queue_more. simpl. by rewrite Z.add_0_r. }
  destruct (IH self1 es' (queue_more [e] o) w) as (self' & Hrun & Hout & Hact); [done|done| |by apply fits_tail|done|].
  { unfold self1; simpl. apply lookup_insert_eq. }
  exists self'. split_and!; [|rewrite Hout; unfold self1; simpl|done].
  - unfold clip_events. rewrite fmap_cons. by rewrite (run_events_cons _ _ _ _ _ _ _ Hev).
  - rewrite insert_insert_eq. f_equal. apply (queue_more_app [e] es').
Qed.

(** The bootstrap frame of the member: its pending clip, or none. *)
Definition bootstrap_of (room_id : string) (pending : option PendingClip) : Frame :=
  match pending with
  | Some clip => Clip room_id (ciphertext_b64 clip) (origin_device clip) true
  | None => MailboxEmpty
  end.

Lemma join_bootstrap_spec self fp :
  exists self1, join_bootstrap self fp =
      (self1, bootstrap_of (a_room_id (re_actor self)) (mailbox_pending (re_actor self) !! fp)) /\
    mail_only self self1 /\ mailbox_pending (re_actor self1) !! fp = None.
Proof.
  unfold join_bootstrap. destruct (mailbox_pending (re_actor self) !! fp) as [clip|] eqn:Hp; simpl.
  - eexists. split; [done|]. simpl. rewrite lookup_delete_eq. by split_and!.
  - exists self. by split_and!.
Qed.

Lemma reserve_fits out h o e es f :
  encode_frame f = Ok e -> out !! h = Some o -> fits (e :: es) o ->
  let o1 := ob_set (ob_queue o) (S (ob_reserved o)) (ob_pending o + frame_size e) (ob_forced o) o in
  try_reserve_frame out h f = Some (Some e, <[h := o1]> out) /\ fits es o1.
Proof.
  intros He Ho Hfit o1. destruct (fits_slot _ _ _ Hfit) as [Hmax Hslot]. split.
  - unfold try_reserve_frame. rewrite He, Ho. simpl. unfold reserve_frame. by rewrite Hmax, Hslot.
  - destruct Hfit as (Hc & Hb & Hl). unfold fits; simpl in *. split_and!; [done|lia|lia].
Qed.

Lemma join_fresh self dev cb h o ej eb now w w' x reg :
  online (re_actor self) !! b = None -> re_out self !! h = Some o -> fits [ej; eb] o ->
  encode_frame JoinOk = Ok ej ->
  encode_frame (bootstrap_of (a_room_id (re_actor self)) (mailbox_pending (re_actor self) !! b)) = Ok eb ->
  activate_on_first_join (re_registry self) (a_room_id (re_actor self)) b now w = (Done (Ok x, reg), w') ->
  exists self1, handle_event self (RJoin b dev cb h) now w = (Done (self1, Continue), w') /\
    re_out self1 = <[h := queue_more [ej; eb] o]> (re_out self) /\
    a_room_id (re_actor self1) = a_room_id (re_actor self) /\
    member_fps (re_actor self1) = member_fps (re_actor self) /\
    online (re_actor self1) = <[b := {| connection_id := cb; member_outbox := h |}]> (online (re_actor self)) /\
    mailbox_pending (re_actor self1) !! b = None.
Proof.
  intros Hoff Ho Hfit Hej Heb Hact. cbn [handle_event]. unfold on_join, join_replace. rewrite Hoff.
  destruct (join_bootstrap_spec self b) as (self1 & -> & (M1 & M2 & M3 & M4 & M5) & Hp).
  rewrite M1. destruct (reserve_fits _ h o ej [eb] _ Hej Ho Hfit) as [-> Hfit1].
  match goal with |- context [<[h := ?o1]> (re_out self)] =>
    destruct (reserve_fits (<[h := o1]> (re_out self)) h o1 eb [] _ Heb (lookup_insert_eq _ _ _) Hfit1) as [-> _]
  end.
  unfold join_activate, mbind, io_bind. simpl. rewrite M2, M3, Hact. eexists. split; [done|]. simpl.
  unfold reservation_send, upd. rewrite insert_insert_eq, !alter_insert_eq. rewrite M5. split_and!; try done.
  f_equal. unfold queue_more, reserved_send, ob_set; simpl. rewrite <-app_assoc. f_equal; lia.
Qed.

(** C12. A join that succeeds leaves no window in which a clip is lost.  With
    two members, the sender [a] online and [b] offline before its join, clips
    sent before the join collapse into its bootstrap frame (the last one, or
    what was pending before), and those sent after it follow live: the outbox
    of [b] receives exactly [join_ok], one bootstrap frame, and every later
    clip, in order and with the sender's fingerprint as origin.  Assumed: the
    registry activates the room at the join, the frames can be encoded, and
    all of them fit the outbox of [b]. *)
Theorem no_loss_window self before after dev cb h o ej eb es now w w' x reg :
  pair_online self -> online (re_actor self) !! b = None -> re_out self !! h = Some o ->
  let room := a_room_id (re_actor self) in
  let pending := match last before with
                 | Some c => Some {| origin_device := a; ciphertext_b64 := c.1.1 |}
                 | None => mailbox_pending (re_actor self) !! b
                 end in
  encode_frame JoinOk = Ok ej -> encode_frame (bootstrap_of room pending) = Ok eb ->
  Forall2 (fun c e => encode_frame (Clip room c.1.1 a false) = Ok e) after es ->
  fits (ej :: eb :: es) o ->
  activate_on_first_join (re_registry self) room b now w = (Done (Ok x, reg), w') ->
  exists self', run_events self (clip_events before ++ (RJoin b dev cb h, now) :: clip_events after) w =
      (Done (self', Continue), w') /\
    re_out self' = <[h := queue_more (ej :: eb :: es) o]> (re_out self) /\
    online (re_actor self') !! b = Some {| connection_id := cb; member_outbox := h |} /\
    mailbox_pending (re_actor self') !! b = None.
Proof.
  intros Hpair Hoff Ho room pending Hej Heb Henc Hfit Hact.
  destruct (clips_offline self before w Hpair Hoff) as (self1 & Hrun1 & (M1 & M2 & M3 & M4 & M5) & Hp1).
  destruct (join_fresh self1 dev cb h o ej eb now w w' x reg) as (self2 & Hj & J1 & J2 & J3 & J4 & J5).
  { by rewrite M5. }
  { by rewrite M1. }
  { destruct Hfit as (H1 & H2 & H3). pose proof (sum_held_nonneg es). split_and!; simpl in *; [done|lia|lia]. }
  { done. }
  { by rewrite M3, Hp1. }
  { by rewrite M2, M3. }
  destruct Hpair as (Hne & Hfps & m & Hm & Hc).
  destruct (clips_online self2 after es h (queue_more [ej; eb] o) {| connection_id := cb; member_outbox := h |} w')
    as (self' & Hrun & Hout & Hact').
  { split_and!; [done|by rewrite J3, M4|]. exists m. rewrite J4, M5, lookup_insert_ne by done. done. }
  { by rewrite J4, lookup_insert_eq. }
  { done. }
  { by rewrite J1, lookup_insert_eq. }
  { by apply (fits_tail ej), (fits_tail eb) in Hfit; rewrite queue_more_app in Hfit. }
  { by rewrite J2, M3. }
  exists self'. rewrite Hact', J4, lookup_insert_eq. split_and!; [| |done|done].
  - rewrite (run_events_app _ _ _ _ _ _ Hrun1), (run_events_cons _ _ _ _ _ _ _ Hj). exact Hrun.
  - rewrite Hout, J1, M1, insert_insert_eq, queue_more_app. done.
Qed.
End sequences.

Lemma oversize_encode `{Base64} {JF : Json Frame} f :
  (forall t, to_vec_pretty f = Ok t -> (MAX_FRAME_BYTES <= Z.of_nat (length t))%Z) ->
  exists e, encode_frame f = Err e.
Proof.
  intros Ht. destruct (encode_frame f) as [b|e] eqn:He; [|by exists e]. exfalso.
  apply encode_frame_Ok in He as [_ (t & Hv & -> & Hsize)%encode_json_Ok].
  specialize (Ht t Hv). rewrite length_app in Hsize. simpl in Hsize. lia.
Qed.

(** A clip that no longer encodes takes the actor down. *)
Lemma route_panics {R M} `{MailboxSink M, Base64} {JF : Json Frame} (self : room_env R M) sender ct now fp m e :
  online (re_actor self) !! fp = Some m ->
  encode_frame (Clip (a_room_id (re_actor self)) ct sender false) = Err e ->
  route self sender ct now fp = (self, Panic).
Proof. intros Hm He. unfold route, send_frame. by rewrite Hm, He. Qed.

(** A finding: a clip the relay accepted can kill its room's actor.  The
    relay overwrites the origin of a decoded clip with the sender's
    fingerprint and encodes it again; when the text of the result passes the
    frame limit, the [expect] on the encoding panics and the actor is gone,
    although the frame that arrived was within the limit. *)
Theorem oversize_clip_panics {R M} `{MailboxSink M, Base64} {JF : Json Frame} a b ca (self : room_env R M) ct now m :
  pair_online a b ca self -> online (re_actor self) !! b = Some m ->
  (forall t, to_vec_pretty (Clip (a_room_id (re_actor self)) ct a false) = Ok t ->
     (MAX_FRAME_BYTES <= Z.of_nat (length t))%Z) ->
  on_clip self a ca ct now = (self, Panic).
Proof.
  intros Hpair Hm [e He]%oversize_encode. rewrite (on_clip_pair a b) by done. by eapply route_panics.
Qed.

(** ** Stale connections *)

(** The member's current connection is another one. *)
Definition stale {R M} (self : room_env R M) (event : RoomEvent) : Prop :=
  match event with
  | RJoin _ _ _ _ => False
  | RClip fp conn _ _ | RDisconnect fp conn =>
      exists m, online (re_actor self) !! fp = Some m /\ connection_id m <> conn
  end.

(** A new join makes the old connection's events no-ops: any run of clips
    and disconnects that carry a replaced connection's number leaves the room,
    every outbox, the registry and the mailbox exactly as they were, and the
    actor keeps running. *)
Theorem stale_events_ignored {T R M} `{Registry T R, MailboxSink M, Base64, Json Frame}
    (self : room_env R M) events (w : world T) :
  Forall (fun e => stale self e.1) events -> run_events self events w = (Done (self, Continue), w).
Proof.
  induction events as [|[e now] events IH]; [done|]. intros [Hs Hss]%Forall_cons.
  rewrite (run_events_cons _ _ _ _ _ self w); [by apply IH|]. simpl in Hs.
  destruct e as [fp dev conn h|fp conn ct size|fp conn]; [done| |];
    destruct Hs as (m & Hm & Hne%Z.eqb_neq); cbn [handle_event].
  - unfold on_clip. rewrite Hm, Hne. done.
  - assert (on_disconnect self fp conn = self) as -> by (unfold on_disconnect; by rewrite Hm, Hne).
    rewrite bool_decide_eq_false_2; [done|]. intros Hon. by rewrite Hon, lookup_empty in Hm.
Qed.

(** ** Witnesses, and two ways an accepted request is lost *)

Module RoomToy.
Import Toy.
#[local] Existing Instance toy_base64.
#[local] Existing Instance ProtocolToy.frame_json.

Definition hex (c : byte) (n : nat) : string := str_of_bytes (replicate n c).
Definition room : string := hex "a"%byte 32.
Definition alice_fp : string := hex "1"%byte 64.
Definition bob_fp : string := hex "2"%byte 64.
Definition fps : list string := [alice_fp; bob_fp].
Definition blank : world unit := World (Disk ∅ ∅) [] (fun _ => "u") 0 [].

Definition registry : InMemoryRegistry :=
  {| mem_rooms := {[room := {| members := (alice_fp, bob_fp); created_at_ms := 1; activated_at_ms := None;
                               activated_members := ∅ |}]} |}.

Abbreviation toy_rooms := (Rooms InMemoryRegistry NoopMailboxSink).
Abbreviation toy_step := (rooms_step (T := unit) (R := InMemoryRegistry) (M := NoopMailboxSink) limits_default).

Definition start : toy_rooms := rooms_new registry Noop.
Definition add_outbox (h : nat) (s : toy_rooms) : toy_rooms :=
  set_out (<[h := outbox 64 (48 * 1024 * 1024)]> (rs_out s)) s.
Definition take_turn (id : nat) (s : toy_rooms) : toy_rooms :=
  match (actor_turn (T := unit) s id 9 blank).1 with Done s' => s' | Crashed => s end.

Lemma add_outbox_step h s : rs_out s !! h = None -> toy_step s (add_outbox h s).
Proof. intros Hh. by apply (step_outbox limits_default). Qed.

Definition first_join : toy_rooms :=
  (rooms_join limits_default (add_outbox 1 start) room fps alice_fp "d" 7 1 3).2.

Definition enc (f : Frame) : bytes := match encode_frame f with Ok e => e | Err _ => [] end.

Lemma enc_ok f : is_ok (encode_frame f) = true -> encode_frame f = Ok (enc f).
Proof. unfold enc. by destruct (encode_frame f). Qed.

Definition waiting : room_env InMemoryRegistry NoopMailboxSink :=
  {| re_actor := {| a_room_id := room; member_fps := fps;
                    online := {[alice_fp := {| connection_id := 7; member_outbox := 1 |}]}; mailbox_pending := ∅ |};
     re_out := {[2 := outbox 64 (48 * 1024 * 1024)]}; re_registry := registry; re_mailbox := Noop |}.

Lemma no_loss_window_witness :
  exists self', run_events (T := unit) waiting
      (clip_events alice_fp 7 [("x", 5, 1)%Z] ++ (RJoin bob_fp "d" 8 2, 3%Z) :: clip_events alice_fp 7 [("y", 5, 4)%Z])
      blank = (Done (self', Continue), blank) /\
    ob_queue <$> re_out self' !! 2 =
      Some [OFrame (enc JoinOk); OFrame (enc (Clip room "x" alice_fp true)); OFrame (enc (Clip room "y" alice_fp false))].
Proof.
  destruct (no_loss_window (T := unit) alice_fp bob_fp 7 waiting [("x", 5, 1)%Z] [("y", 5, 4)%Z] "d" 8 2
    (outbox 64 (48 * 1024 * 1024)) (enc JoinOk) (enc (Clip room "x" alice_fp true))
    [enc (Clip room "y" alice_fp false)] 3 blank blank true
    {| mem_rooms := <[room := set_activated {| members := (alice_fp, bob_fp); created_at_ms := 1;
         activated_at_ms := None; activated_members := ∅ |} 3 bob_fp]> (mem_rooms registry) |})
    as (self' & Hrun & Hout & _).
  - split_and!; [by vm_compute|by left|eexists; by split].
  - vm_compute; reflexivity.
  - vm_compute; reflexivity.
  - apply enc_ok. vm_compute; reflexivity.
  - apply (enc_ok (Clip room "x" alice_fp true)). vm_compute; reflexivity.
  - constructor; [|constructor]. apply (enc_ok (Clip room "y" alice_fp false)). vm_compute; reflexivity.
  - split_and!; [done|apply Z.leb_le; vm_compute; reflexivity|apply Nat.leb_le; vm_compute; reflexivity].
  - vm_compute; reflexivity.
  - exists self'. split; [exact Hrun|]. rewrite Hout, lookup_insert_eq. reflexivity.
Defined.

(** Alice joins on connection 7, disconnects, and rejoins on connection 8
    before the actor's next turn. *)
Definition joined : toy_rooms :=
  take_turn 0 (rooms_join limits_default (add_outbox 1 start) room fps alice_fp "d" 7 1 3).2.
Definition leaving : toy_rooms :=
  add_outbox 2 (rooms_disconnect limits_default joined room alice_fp 7).
Definition rejoin : bool * toy_rooms := rooms_join limits_default leaving room fps alice_fp "d" 8 2 4.
Definition after_turn : toy_rooms := take_turn 0 rejoin.2.

Lemma take_turn_step id s :
  match (actor_turn (T := unit) s id 9 blank).1 with Done _ => true | Crashed => false end = true ->
  toy_step s (take_turn id s).
Proof.
  unfold take_turn. intros H. destruct (actor_turn (T := unit) s id 9 blank) as [[s'|] w'] eqn:Ht; [|done].
  simpl. by eapply (step_turn limits_default).
Qed.

Lemma after_turn_reached : rtc toy_step start after_turn.
Proof.
  eapply rtc_l; [by apply (add_outbox_step 1)|].
  eapply rtc_l; [apply (step_join limits_default _ room fps alice_fp "d" 7 1 3)|].
  eapply rtc_l; [apply (take_turn_step 0); vm_compute; reflexivity|]. fold joined.
  eapply rtc_l; [apply (step_disconnect limits_default _ room alice_fp 7)|].
  eapply rtc_l; [apply (add_outbox_step 2); vm_compute; reflexivity|]. fold leaving.
  eapply rtc_l; [apply (step_join limits_default _ room fps alice_fp "d" 8 2 4)|].
  apply rtc_once. apply (take_turn_step 0). vm_compute; reflexivity.
Qed.

(** A finding: a quick reconnect loses its join.  The actor returns as
    soon as a disconnect leaves nobody online, and drops the events queued
    behind it.  A join that was accepted into that inbox gets no [join_ok], no
    bootstrap frame and no error: no actor is left, and its outbox stays empty. *)
Theorem queued_join_dropped :
  rtc toy_step start after_turn /\ rejoin.1 = true /\
  rs_actors after_turn = ∅ /\ (ob_queue <$> rs_out after_turn !! 2) = Some [] /\
  (ob_closed <$> rs_out after_turn !! 2) = Some false.
Proof.
  split; [apply after_turn_reached|]. split_and!; vm_compute; reflexivity.
Qed.

(** Frames whose text grows when the relay fills in the origin. *)
Definition pad_len : nat := Z.to_nat MAX_FRAME_BYTES.
Lemma pad_len_Z : Z.of_nat pad_len = MAX_FRAME_BYTES.
Proof. apply Z2Nat.id. discriminate. Qed.
#[local] Opaque pad_len.

Definition padding (f : Frame) : bytes :=
  match f with
  | Clip _ _ origin _ => if bool_decide (origin = "") then [] else replicate pad_len " "%byte
  | _ => []
  end.

Lemma padding_no_newline f : "010"%byte ∉ padding f.
Proof.
  destruct f; cbn [padding]; try apply not_elem_of_nil. case_bool_decide; [apply not_elem_of_nil|].
  intros [Hb _]%elem_of_replicate. discriminate.
Qed.

Program Definition padded_json : Json Frame := {|
  to_vec := fun f => Ok (pos_bytes (encode f) ++ padding f);
  to_vec_pretty := fun f => Ok (pos_bytes (encode f) ++ padding f);
  from_slice := toy_from_slice |}.
Next Obligation. intros f b [= <-]. apply toy_from_to. Qed.
Next Obligation. intros f b [= <-]. apply toy_from_to. Qed.
Next Obligation. intros f b [= <-]. rewrite <-app_assoc. apply toy_from_to. Qed.
Next Obligation.
  intros f b [= <-]. destruct (pos_bytes_one_line (encode f)) as [Hn Hne]. split.
  - rewrite elem_of_app. intros [?|?]; [done|]. by apply (padding_no_newline f).
  - destruct (pos_bytes (encode f)); [by destruct Hne|done].
Qed.

Definition wire_clip : Frame := Clip room "x" "" false.

Definition both_online : room_env InMemoryRegistry NoopMailboxSink :=
  {| re_actor := {| a_room_id := room; member_fps := fps;
                    online := {[alice_fp := {| connection_id := 7; member_outbox := 1 |};
                                bob_fp := {| connection_id := 8; member_outbox := 2 |}]};
                    mailbox_pending := ∅ |};
     re_out := {[2 := outbox 64 (48 * 1024 * 1024)]}; re_registry := registry; re_mailbox := Noop |}.

Lemma padded_length r c o m t :
  o <> "" -> to_vec_pretty (Json := padded_json) (Clip r c o m) = Ok t ->
  (MAX_FRAME_BYTES <= Z.of_nat (length t))%Z.
Proof.
  intros Ho [= <-]. rewrite bool_decide_eq_false_2 by done. rewrite length_app, length_replicate.
  pose proof pad_len_Z. lia.
Qed.

(** The frame on the wire is short and accepted; its relayed form is too long. *)
Lemma oversize_clip_panics_witness :
  decode_frame (JF := padded_json) (pos_bytes (encode wire_clip)) = Ok wire_clip /\
  on_clip (JF := padded_json) both_online alice_fp 7 "x" 1 = (both_online, Panic).
Proof.
  split.
  - apply decode_frame_Ok. split_and!.
    + apply Z.leb_le. vm_compute; reflexivity.
    + pose proof (toy_from_to wire_clip []) as H. rewrite app_nil_r in H. exact H.
    + split; [vm_compute; reflexivity|]. exists (as_bytes "x"). vm_compute; reflexivity.
  - apply (oversize_clip_panics (JF := padded_json) alice_fp bob_fp 7 both_online "x" 1
      {| connection_id := 8; member_outbox := 2 |}).
    + split_and!; [by vm_compute|by left|by eexists].
    + vm_compute; reflexivity.
    + intros t. apply padded_length. discriminate.
Defined.
End RoomToy.
