(* ===== verification/PairingRelay.v ===== *)
(** * The pairing relay ([crates/server/src/pairing.rs])

    One-time pairing codes.  An offer publishes a code for the offerer's
    connection; a claim consumes it, commits the room to the registry and
    notifies both connections.  The trait [PairingHandler] is a type class
    with the instances [PairingUnavailable] and [PairingRelay].  The mutex
    makes a call atomic; [Panicked] is a call that died on a frame it could
    not encode.  The monotonic clock is the argument [now], the wall clock
    [unix_now]. *)

From S2P Require Import Prelude Fs Interfaces Protocol Crypto Registry Config Outbox Room.
From Stdlib Require Import Strings.Byte.

Set Default Goal Selector "!".
#[local] Open Scope clip_scope.

Definition RELAY_CODE_ALPHABET : bytes := as_bytes "23456789ABCDEFGHJKMNPQRSTVWXYZ".

Definition relay_valid_code (code : string) : bool :=
  bool_decide (String.length code = 6) &&
  forallb (fun b => bool_decide (b ∈ RELAY_CODE_ALPHABET)) (as_bytes code).

Abbreviation Connections := (gmap ConnectionId OutboxHandle).

Record PairingConfig := {
  offer_ttl : Z; max_offers : nat; attempts_per_window : Z; pairing_rate_window : Z
}.

Definition pairing_config_default : PairingConfig :=
  {| offer_ttl := 300 * 1000; max_offers := 100; attempts_per_window := 5; pairing_rate_window := 60 * 1000 |}.

Inductive OfferState := Preparing | Published | Claimed | Terminal.

#[global] Instance OfferState_eq_decision : EqDecision OfferState.
Proof. solve_decision. Defined.

Record Offer := {
  offer_connection : ConnectionId; offer_bundle : PubBundle; offer_fp : string; expires_at : Z;
  offer_state : OfferState
}.

Record RateEntry := { window_start : Z; attempts : Z }.

Record PairingState := { offers : gmap string Offer; rates : gmap IpAddr RateEntry }.

Definition set_state (st : OfferState) (o : Offer) : Offer :=
  {| offer_connection := offer_connection o; offer_bundle := offer_bundle o; offer_fp := offer_fp o;
     expires_at := expires_at o; offer_state := st |}.

(** [offers.get_mut(code)] and an assignment to its state. *)
Definition mark (code : string) (st : OfferState) (s : PairingState) : PairingState :=
  {| offers := alter (set_state st) code (offers s); rates := rates s |}.

Definition pairing_error (code message : string) : Frame := ErrorFrame code message.

(** What a call answers: the [Result] of the method, or a panic. *)
Inductive answer := Answered (r : result unit Frame) | Panicked.

(** The state a call works on: the relay's own, and the shared parts. *)
Record pairing_env (R : Type) := {
  pe_state : PairingState; pe_registry : R; pe_out : outboxes; pe_connections : Connections
}.
Arguments Build_pairing_env {R} _ _ _ _.
Arguments pe_state {R} _.
Arguments pe_registry {R} _.
Arguments pe_out {R} _.
Arguments pe_connections {R} _.

Definition on_state {R} (s : PairingState) (e : pairing_env R) : pairing_env R :=
  {| pe_state := s; pe_registry := pe_registry e; pe_out := pe_out e; pe_connections := pe_connections e |}.
Definition on_out {R} (out : outboxes) (e : pairing_env R) : pairing_env R :=
  {| pe_state := pe_state e; pe_registry := pe_registry e; pe_out := out; pe_connections := pe_connections e |}.
Definition on_registry {R} (r : R) (e : pairing_env R) : pairing_env R :=
  {| pe_state := pe_state e; pe_registry := r; pe_out := pe_out e; pe_connections := pe_connections e |}.

Record PairContext := {
  ctx_connection : ConnectionId; hello_bundle : PubBundle; ctx_outbox : OutboxHandle; ctx_now : Z
}.

(** ** The trait *)

Class PairingHandler (T R P : Type) := {
  on_pair_frame : P -> pairing_env R -> IpAddr -> PairContext -> Frame -> Z -> io T (answer * pairing_env R);
  on_pair_disconnect : P -> pairing_env R -> ConnectionId -> pairing_env R
}.

Inductive PairingUnavailable := Unavailable.

#[global] Instance unavailable_handler {T R} : PairingHandler T R PairingUnavailable := {|
  on_pair_frame := fun _ env _ _ _ _ =>
    mret (Answered (Err (pairing_error "pairing_unavailable" "pairing is not available on this relay")), env);
  on_pair_disconnect := fun _ env _ => env |}.

(** ** The relay *)

Section relay.
Context {T R : Type} {RT : Registry T R} {S256 : Sha256} {B64 : Base64} {JF : Json Frame}.
Context (config : PairingConfig).
Implicit Types (env : pairing_env R).

(** [is_published]. *)
Definition is_published (s : PairingState) (code : string) (now : Z) : bool :=
  match offers s !! code with
  | Some offer => bool_decide (offer_state offer = Published) && (now <? expires_at offer)%Z
  | None => false
  end.

Definition allow_attempt (s : PairingState) (ip : IpAddr) (now : Z) : bool * PairingState :=
  let entry := default {| window_start := now; attempts := 0 |} (rates s !! ip) in
  let entry := if (pairing_rate_window config <=? Z.max 0 (now - window_start entry))%Z
               then {| window_start := now; attempts := 0 |} else entry in
  if (attempts_per_window config <=? attempts entry)%Z
  then (false, {| offers := offers s; rates := <[ip := entry]> (rates s) |})
  else (true, {| offers := offers s;
                 rates := <[ip := {| window_start := window_start entry; attempts := attempts entry + 1 |}]>
                            (rates s) |}).

Definition on_offer env (ctx : PairContext) (code : string) (bundle : PubBundle) : answer * pairing_env R :=
  let refuse c m env := (Answered (Err (pairing_error c m)), env) in
  if negb (relay_valid_code code)
  then refuse "bad_code" "pairing code must use the six-character alphabet" env
  else if negb (bool_decide (bundle = hello_bundle ctx))
  then refuse "bad_auth" "pairing bundle does not match hello" env
  else
    let live := filter (fun kv => ctx_now ctx < expires_at kv.2)%Z (offers (pe_state env)) in
    let env := on_state {| offers := live; rates := rates (pe_state env) |} env in
    if bool_decide (is_Some (live !! code)) then refuse "code_in_use" "pairing code collision" env
    else if bool_decide (max_offers config <= size live)
    then refuse "server_full" "pairing offer limit exceeded" env
    else if bool_decide (pe_connections env !! ctx_connection ctx = None)
    then refuse "peer_unavailable" "pairing connection is stale" env
    else
      let offer := {| offer_connection := ctx_connection ctx; offer_bundle := bundle;
                      offer_fp := bundle_fp bundle; expires_at := ctx_now ctx + offer_ttl config;
                      offer_state := Preparing |} in
      let env := on_state {| offers := <[code := offer]> live; rates := rates (pe_state env) |} env in
      match send_frame (pe_out env) (ctx_outbox ctx) PairOfferOk with
      | None => (Panicked, env)
      | Some (false, out) =>
          refuse "peer_unavailable" "offerer outbound queue is full"
            (on_out out (on_state (mark code Terminal (pe_state env)) env))
      | Some (true, out) =>
          (Answered (Ok tt), on_out out (on_state (mark code Published (pe_state env)) env))
      end.

(** Both notifications of a claim: reserved in the offerer's and then in the
    claimer's outbox, and sent only when both are. *)
Definition notify_both (out : outboxes) (offer_h claim_h : OutboxHandle) (offer_peer claim_peer : Frame) :
    option (result unit Frame * outboxes) :=
  match try_reserve_frame out offer_h offer_peer with
  | None => None
  | Some (None, out) =>
      Some (Err (pairing_error "peer_unavailable" "offerer outbound queue is full"), out)
  | Some (Some offer_r, out) =>
      match try_reserve_frame out claim_h claim_peer with
      | None => None
      | Some (None, out) =>
          Some (Err (pairing_error "peer_unavailable" "claimer outbound queue is full"),
                reservation_drop offer_h offer_r out)
      | Some (Some claim_r, out) =>
          Some (Ok tt, reservation_send claim_h claim_r (reservation_send offer_h offer_r out))
      end
  end.

Definition on_claim env (ctx : PairContext) (code : string) (bundle : PubBundle) (unix_now : Z) :
    io T (answer * pairing_env R) :=
  let refuse c m env := mret (Answered (Err (pairing_error c m)), env) in
  let fail c m env := refuse c m (on_state (mark code Terminal (pe_state env)) env) in
  if negb (relay_valid_code code)
  then refuse "bad_code" "pairing code must use the six-character alphabet" env
  else
    match offers (pe_state env) !! code with
    | None => refuse "code_expired" "pairing code is unavailable" env
    | Some offer =>
        if (expires_at offer <=? ctx_now ctx)%Z || negb (bool_decide (offer_state offer = Published))
        then fail "code_expired" "pairing code is unavailable" env
        else
          let env := on_state (mark code Claimed (pe_state env)) env in
          if negb (bool_decide (bundle = hello_bundle ctx))
          then fail "bad_auth" "pairing bundle does not match hello" env
          else if bool_decide (bundle_fp bundle = offer_fp offer)
          then fail "same_identity" "an identity cannot pair with itself" env
          else
            match pe_connections env !! offer_connection offer with
            | None => fail "peer_unavailable" "offerer disconnected" env
            | Some offer_outbox =>
                committed ← commit_room (pe_registry env) (room_id (offer_bundle offer) bundle)
                              (offer_fp offer, bundle_fp bundle) unix_now;
                let env := on_registry committed.2 env in
                match committed.1 with
                | Err _ => fail "registry_failed" "room registry commit failed" env
                | Ok _ =>
                    match notify_both (pe_out env) offer_outbox (ctx_outbox ctx)
                            (PairPeer bundle) (PairPeer (offer_bundle offer)) with
                    | None => mret (Panicked, env)
                    | Some (r, out) =>
                        mret (Answered r, on_out out (on_state (mark code Terminal (pe_state env)) env))
                    end
                end
            end
    end.

Definition relay_pair_frame env (client_ip : IpAddr) (ctx : PairContext) (frame : Frame) (unix_now : Z) :
    io T (answer * pairing_env R) :=
  let '(allowed, s) := allow_attempt (pe_state env) client_ip (ctx_now ctx) in
  if negb allowed then
    let s := match frame with PairClaim code _ => mark code Terminal s | _ => s end in
    mret (Answered (Err (pairing_error "rate_limited" "pairing attempts exceeded")), on_state s env)
  else
    let env := on_state s env in
    match frame with
    | PairOffer code bundle => mret (on_offer env ctx code bundle)
    | PairClaim code bundle => on_claim env ctx code bundle unix_now
    | _ => mret (Answered (Err (pairing_error "bad_frame" "expected a pairing frame")), env)
    end.

Definition relay_disconnect env (conn : ConnectionId) : pairing_env R :=
  on_state {| offers := (fun o => if bool_decide (offer_connection o = conn) &&
                                     negb (bool_decide (offer_state o = Terminal))
                                  then set_state Terminal o else o) <$> offers (pe_state env);
              rates := rates (pe_state env) |} env.
End relay.

(** [PairingRelay] is its configuration: the state is in the environment. *)
Record PairingRelay := { relay_config : PairingConfig }.

#[global] Instance relay_handler {T R} `{Registry T R, Sha256, Base64, Json Frame} :
    PairingHandler T R PairingRelay := {|
  on_pair_frame := fun self => relay_pair_frame (relay_config self);
  on_pair_disconnect := fun _ => relay_disconnect |}.

(** ** One-time codes *)

(** The frame is the next one in the outbox at [h]. *)
Definition delivered_to `{Base64, Json Frame} (out out' : outboxes) (h : OutboxHandle) (f : Frame) : Prop :=
  exists o o' b, out !! h = Some o /\ out' !! h = Some o' /\ encode_frame f = Ok b /\
                 ob_queue o' = ob_queue o ++ [OFrame b].

(** What an observer sees: a code offered on a connection, a claim that
    answered [Ok], with the connections at the time and the outboxes before
    and after, a connection gone.  [open_offers] are the codes that were
    offered and neither claimed nor abandoned since. *)

Record exchange := {
  ex_code : string; ex_claimer : PubBundle; ex_outbox : OutboxHandle;
  ex_connections : gmap ConnectionId OutboxHandle; ex_before : outboxes; ex_after : outboxes
}.

Inductive pair_event :=
| Offered (code : string) (conn : ConnectionId) (bundle : PubBundle)
| Paired (x : exchange)
| Gone (conn : ConnectionId).

Abbreviation open_map := (gmap string (ConnectionId * PubBundle)).

Definition note (m : open_map) (e : pair_event) : open_map :=
  match e with
  | Offered code conn bundle => <[code := (conn, bundle)]> m
  | Paired x => delete (ex_code x) m
  | Gone conn => filter (fun kv => kv.2.1 <> conn) m
  end.

Definition open_offers (trace : list pair_event) : open_map := foldl note ∅ trace.

(** A pairing consumes an open offer, of another identity, and hands each
    side the bundle of the other. *)
Definition exchanged `{Sha256, Base64, Json Frame} (m : open_map) (x : exchange) : Prop :=
  exists conn offerer h, m !! ex_code x = Some (conn, offerer) /\ bundle_fp offerer <> bundle_fp (ex_claimer x) /\
    ex_connections x !! conn = Some h /\
    (h <> ex_outbox x ->
     delivered_to (ex_before x) (ex_after x) h (PairPeer (ex_claimer x)) /\
     delivered_to (ex_before x) (ex_after x) (ex_outbox x) (PairPeer offerer)).

Fixpoint well_paired `{Sha256, Base64, Json Frame} (m : open_map) (trace : list pair_event) : Prop :=
  match trace with
  | [] => True
  | e :: trace => match e with Paired x => exchanged m x | _ => True end /\ well_paired (note m e) trace
  end.

Section one_time.
Context {T R : Type} {RT : Registry T R} {S256 : Sha256} {B64 : Base64} {JF : Json Frame}.
Context (config : PairingConfig).
Implicit Types (env : pairing_env R).

Lemma notify_both_ok out h c f g out' :
  h <> c -> notify_both out h c f g = Some (Ok tt, out') -> delivered_to out out' h f /\ delivered_to out out' c g.
Proof.
  intros Hne. unfold notify_both, try_reserve_frame. destruct (encode_frame f) as [b|] eqn:Hf; [|done].
  destruct (out !! h) as [o|] eqn:Ho; simpl; [|done].
  destruct (reserve_frame o b) as [o'|] eqn:Hr; simpl; [|done].
  destruct (encode_frame g) as [b'|] eqn:Hg; [|done].
  rewrite lookup_insert_ne by done. destruct (out !! c) as [p|] eqn:Hp; simpl; [|done].
  destruct (reserve_frame p b') as [p'|] eqn:Hr'; [|done]. intros [= <-].
  unfold reservation_send, upd. split.
  - exists o, (reserved_send o' b), b. split_and!; [done| |done|].
    + rewrite lookup_alter_ne, lookup_alter_eq, lookup_insert_ne, lookup_insert_eq by done. done.
    + unfold reserve_frame in Hr. repeat case_bool; destruct (has_slot o); try done. by injection Hr as <-.
  - exists p, (reserved_send p' b'), b'. split_and!; [done| |done|].
    + rewrite lookup_alter_eq, lookup_alter_ne, lookup_insert_eq by done. done.
    + unfold reserve_frame in Hr'. repeat case_bool; destruct (has_slot p); try done. by injection Hr' as <-.
Qed.

(** The event of a call that answered. *)
Definition events_of env (ctx : PairContext) (frame : Frame) (r : result unit Frame) env' : list pair_event :=
  match frame, r with
  | PairOffer code bundle, Ok _ => [Offered code (ctx_connection ctx) bundle]
  | PairClaim code bundle, Ok _ =>
      [Paired {| ex_code := code; ex_claimer := bundle; ex_outbox := ctx_outbox ctx;
                 ex_connections := pe_connections env; ex_before := pe_out env; ex_after := pe_out env' |}]
  | _, _ => []
  end.

(** Calls, disconnects, and anything the rest of the server does to the
    shared parts. *)
Inductive pair_step : pairing_env R * list pair_event -> pairing_env R * list pair_event -> Prop :=
| pstep_frame env trace ip ctx frame unix_now (w w' : world T) r env' :
    relay_pair_frame config env ip ctx frame unix_now w = (Done (Answered r, env'), w') ->
    pair_step (env, trace) (env', trace ++ events_of env ctx frame r env')
| pstep_gone env trace conn :
    pair_step (env, trace) (relay_disconnect env conn, trace ++ [Gone conn])
| pstep_others env trace registry out connections :
    pair_step (env, trace)
      ({| pe_state := pe_state env; pe_registry := registry; pe_out := out; pe_connections := connections |}, trace).

Definition offers_ok (m : open_map) (s : PairingState) : Prop :=
  (forall code o, offers s !! code = Some o -> offer_fp o = bundle_fp (offer_bundle o) /\
     (offer_state o = Published -> m !! code = Some (offer_connection o, offer_bundle o))) /\
  size (offers s) <= max_offers config /\
  map_Forall (fun _ e => attempts e <= attempts_per_window config)%Z (rates s).

Lemma well_paired_snoc m trace e :
  well_paired m (trace ++ [e]) <-> well_paired m trace /\ well_paired (foldl note m trace) [e].
Proof.
  revert m; induction trace as [|e' trace IH]; intros m; cbn [app well_paired foldl]; [tauto|].
  rewrite IH. cbn [well_paired]. tauto.
Qed.

Lemma size_alter {A} (f : A -> A) (m : gmap string A) k : size (alter f k m) = size m.
Proof. by rewrite <- !size_dom, dom_alter_L. Qed.

Lemma offers_ok_mark m s code st :
  st <> Published -> offers_ok m s -> offers_ok m (mark code st s).
Proof.
  intros Hst (Ho & Hs & Hr). split_and!; [|by simpl; rewrite size_alter|done].
  intros c o Hl. simpl in Hl.
  apply lookup_alter_Some in Hl as [[<- [o' [Ho' ->]]]|[Hne Hc]]; [|by apply Ho].
  destruct (Ho _ o' Ho') as [Hfp _]. split; [done|]. intros H. by destruct Hst.
Qed.

Lemma offers_ok_claimed m s code :
  (forall o, offers s !! code = Some o -> offer_state o <> Published) -> offers_ok m s ->
  offers_ok (delete code m) s.
Proof.
  intros Hn (Ho & Hs & Hr). split_and!; [|done|done]. intros c o Hc. destruct (Ho c o Hc) as [Hfp Hp].
  split; [done|]. intros Hst. rewrite lookup_delete_ne; [by apply Hp|]. intros <-. by apply (Hn o).
Qed.

Lemma mark_not_published s code st o :
  st <> Published -> offers (mark code st s) !! code = Some o -> offer_state o <> Published.
Proof.
  intros Hst. simpl. rewrite lookup_alter_eq. destruct (offers s !! code); simpl; [|done].
  by intros [= <-].
Qed.

Lemma allow_attempt_ok m s ip now b s' :
  (0 <= attempts_per_window config)%Z -> offers_ok m s -> allow_attempt config s ip now = (b, s') ->
  offers_ok m s' /\ offers s' = offers s.
Proof.
  intros Hmax (Ho & Hs & Hr). unfold allow_attempt.
  set (entry := if (pairing_rate_window config <=? _)%Z then _ else _).
  assert (attempts entry <= attempts_per_window config)%Z as He.
  { unfold entry. case_bool; [done|]. destruct (rates s !! ip) eqn:Hi; simpl; [by eapply Hr|done]. }
  case_bool; intros [= <- <-]; bool_to_prop; (split; [|done]); split_and!; try done; simpl;
    apply map_Forall_insert_2; try done; simpl; lia.
Qed.

Lemma on_offer_ok m env ctx code bundle r env' :
  offers_ok m (pe_state env) -> on_offer config env ctx code bundle = (Answered r, env') ->
  offers_ok (match r with Ok _ => <[code := (ctx_connection ctx, bundle)]> m | Err _ => m end) (pe_state env').
Proof.
  intros (Ho & Hs & Hr). unfold on_offer.
  destruct (relay_valid_code code); simpl; [|by intros [= <- <-]].
  case_bool_decide; simpl; [|by intros [= <- <-]].
  set (live := filter _ _).
  assert (offers_ok m {| offers := live; rates := rates (pe_state env) |}) as (Ho1 & Hs1 & Hr1).
  { split_and!; simpl; [| |done].
    - intros c o [Hc _]%map_lookup_filter_Some. by apply Ho.
    - etrans; [|exact Hs]. apply map_subseteq_size, map_filter_subseteq. }
  case_bool_decide as Hin; [by intros [= <- <-]|].
  assert (live !! code = None) as Hn by (by apply eq_None_not_Some).
  case_bool_decide; [by intros [= <- <-]|]. case_bool_decide; [by intros [= <- <-]|].
  destruct (send_frame _ _ _) as [[[|] out]|]; intros [= <- <-]; simpl.
  - split_and!; simpl; [|rewrite size_alter, map_size_insert_None by done; lia|done].
    intros c o [[<- [o' [[[_ <-]|[? _]]%lookup_insert_Some ->]]]|[Hne [[? _]|[_ Hc]]%lookup_insert_Some]]%lookup_alter_Some;
      try done; simpl.
    + by rewrite lookup_insert_eq.
    + rewrite lookup_insert_ne by done. by apply Ho1.
  - split_and!; simpl; [|rewrite size_alter, map_size_insert_None by done; lia|done].
    intros c o [[<- [o' [[[_ <-]|[? _]]%lookup_insert_Some ->]]]|[Hne [[? _]|[_ Hc]]%lookup_insert_Some]]%lookup_alter_Some;
      try done. by apply Ho1.
Qed.

Lemma on_claim_ok m env ctx code bundle unix_now :
  offers_ok m (pe_state env) ->
  returns (T := T) (fun out =>
    match out.1 with
    | Answered (Ok _) => offers_ok (delete code m) (pe_state out.2) /\
        exists o h, offers (pe_state env) !! code = Some o /\ offer_state o = Published /\
          bundle_fp (offer_bundle o) <> bundle_fp bundle /\ pe_connections env !! offer_connection o = Some h /\
          (h <> ctx_outbox ctx ->
           delivered_to (pe_out env) (pe_out out.2) h (PairPeer bundle) /\
           delivered_to (pe_out env) (pe_out out.2) (ctx_outbox ctx) (PairPeer (offer_bundle o)))
    | Answered (Err _) => offers_ok m (pe_state out.2)
    | Panicked => True
    end) (on_claim env ctx code bundle unix_now).
Proof.
  intros Hok. unfold on_claim.
  destruct (relay_valid_code code); simpl; [|by apply returns_ret].
  destruct (offers (pe_state env) !! code) as [o|] eqn:Ho; [|by apply returns_ret].
  destruct (_ || _) eqn:Hp; [apply returns_ret; by apply offers_ok_mark|].
  apply orb_false_elim in Hp as [_ Hp%negb_false_iff%bool_decide_eq_true].
  pose proof (offers_ok_mark m _ code Claimed ltac:(done) Hok) as Hc.
  case_bool_decide; simpl; [|apply returns_ret; by apply offers_ok_mark].
  case_bool_decide as Hid; simpl; [apply returns_ret; by apply offers_ok_mark|].
  destruct (pe_connections env !! offer_connection o) as [h|] eqn:Hconn; [|apply returns_ret; by apply offers_ok_mark].
  apply returns_bind. intros [[r|] reg]; simpl; [|apply returns_ret; by apply offers_ok_mark].
  destruct (notify_both _ _ _ _ _) as [[[[]|e] out]|] eqn:Hnotify; apply returns_ret; simpl; [| |done].
  - split; [|].
    + apply offers_ok_claimed; [intros o'; by apply mark_not_published|by apply offers_ok_mark].
    + exists o, h. split_and!; [done|done| |done|intros Hne; by eapply notify_both_ok]. destruct Hok as [Hfp _].
      rewrite (proj1 (Hfp _ _ Ho)) in Hid. intros E. by rewrite E in Hid.
  - by apply offers_ok_mark.
Qed.

Lemma offers_ok_gone m env conn :
  offers_ok m (pe_state env) -> offers_ok (note m (Gone conn)) (pe_state (relay_disconnect env conn)).
Proof.
  intros (Ho & Hs & Hr). split_and!; [|by simpl; rewrite map_size_fmap|done].
  intros code o Hl. simpl in Hl. apply lookup_fmap_Some in Hl as (o' & <- & Hl).
  destruct (Ho _ _ Hl) as [Hfp Hp]. destruct (bool_decide _ && _) eqn:Hb; simpl; [done|].
  split; [done|]. intros Hst. apply map_lookup_filter_Some_2; [by apply Hp|]. simpl. intros E.
  by rewrite bool_decide_eq_true_2, Hst in Hb by done.
Qed.

Lemma pair_step_ok s s' :
  (0 <= attempts_per_window config)%Z -> pair_step s s' ->
  well_paired ∅ s.2 /\ offers_ok (open_offers s.2) (pe_state s.1) ->
  well_paired ∅ s'.2 /\ offers_ok (open_offers s'.2) (pe_state s'.1).
Proof.
  intros Hmax Hstep [Hw Hok].
  destruct Hstep as [env trace ip ctx frame unix_now w w' r env' Hrun|env trace conn|]; simpl in *; [| |done].
  - unfold relay_pair_frame in Hrun.
    destruct (allow_attempt config (pe_state env) ip (ctx_now ctx)) as [b s] eqn:Ha.
    destruct (allow_attempt_ok _ _ _ _ _ _ Hmax Hok Ha) as [Hs Heq].
    destruct b; simpl in Hrun.
    + destruct frame; try (injection Hrun as <- <- <-; simpl; by rewrite app_nil_r).
      * injection Hrun as Hrun Hw'. pose proof (on_offer_ok (open_offers trace) (on_state s env) _ _ _ _ _ Hs Hrun) as Hs'.
        destruct r as [[]|]; simpl; [|by rewrite app_nil_r].
        split; [apply well_paired_snoc; by split|]. unfold open_offers. by rewrite foldl_snoc.
      * pose proof (on_claim_ok (open_offers trace) (on_state s env) ctx code pub_bundle unix_now Hs w) as Hc.
        unfold wpc in Hc. rewrite Hrun in Hc. simpl in Hc. rewrite Heq in Hc.
        destruct r as [[]|]; simpl; [|by rewrite app_nil_r].
        destruct Hc as [Hc (o & h & Ho & Hp & Hne & Hconn & Hex)].
        split; [|unfold open_offers; by rewrite foldl_snoc].
        apply well_paired_snoc. split; [done|]. simpl. split; [|done].
        exists (offer_connection o), (offer_bundle o), h. destruct Hok as [Hof _]. split_and!; try done. by apply (Hof _ _ Ho).
    + injection Hrun as <- <- <-.
      destruct frame; simpl; rewrite app_nil_r; (split; [done|]); try done; by apply offers_ok_mark.
  - split; [apply well_paired_snoc; by split|]. unfold open_offers. rewrite foldl_snoc. by apply offers_ok_gone.
Qed.

(** C17. A pairing code is one-time: in any run of the relay, every claim that
    succeeds consumes an offer of that code that was published, not yet
    claimed and not abandoned by a disconnect, by another identity; the outbox
    of the offering connection is given the claimer's bundle, and the
    claimer's outbox, where it is another, the bundle that was offered.  The offers and each
    address's attempts stay within their limits. *)
Theorem pairing_codes_one_time env env' trace :
  (0 <= attempts_per_window config)%Z -> pe_state env = {| offers := ∅; rates := ∅ |} ->
  rtc pair_step (env, []) (env', trace) ->
  well_paired ∅ trace /\ size (offers (pe_state env')) <= max_offers config /\
  (forall ip e, rates (pe_state env') !! ip = Some e -> attempts e <= attempts_per_window config)%Z.
Proof.
  intros Hmax H0 Hrun.
  assert (well_paired ∅ trace /\ offers_ok (open_offers trace) (pe_state env')) as [Hw (_ & Hs & Hr)]; [|by split_and!].
  enough (forall s s', rtc pair_step s s' -> well_paired ∅ s.2 /\ offers_ok (open_offers s.2) (pe_state s.1) ->
            well_paired ∅ s'.2 /\ offers_ok (open_offers s'.2) (pe_state s'.1)) as H.
  { apply (H _ _ Hrun). simpl. rewrite H0. split; [done|]. unfold offers_ok; simpl.
    split_and!; [|rewrite map_size_empty; lia|apply map_Forall_empty].
    intros c o Hc. by apply lookup_empty_Some in Hc. }
  induction 1 as [|s s1 s2 Hst _ IH]; [done|]. intros H. apply IH. by eapply pair_step_ok.
Qed.
End one_time.

(** ** Claims are all or nothing *)

Section claims.
Context {T R : Type} {RT : Registry T R} {RS : RegistrySpec T R} {S256 : Sha256} {B64 : Base64} {JF : Json Frame}.
Context (config : PairingConfig).
Implicit Types (env : pairing_env R).

Lemma reserve_drop_id o b o' : reserve_frame o b = Some o' -> reserved_drop o' b = o.
Proof.
  unfold reserve_frame. case_bool; [done|]. destruct (has_slot o); [|done]. intros [= <-].
  destruct o; unfold reserved_drop, ob_set; simpl. f_equal; lia.
Qed.

Lemma notify_both_err out h c f g e out' : notify_both out h c f g = Some (Err e, out') -> out' = out.
Proof.
  unfold notify_both, try_reserve_frame. destruct (encode_frame f) as [b|]; [|done].
  destruct (out !! h) as [o|] eqn:Ho; simpl; [|by intros [= <- <-]].
  destruct (reserve_frame o b) as [o'|] eqn:Hr; simpl; [|by intros [= <- <-]].
  destruct (encode_frame g) as [b'|]; [|done].
  destruct (_ ≫= _); [done|]. intros [= <- <-]. unfold reservation_drop, upd.
  rewrite alter_insert_eq. rewrite (reserve_drop_id _ _ _ Hr). by apply insert_id.
Qed.

Definition burnt (code : string) env : Prop :=
  forall o, offers (pe_state env) !! code = Some o -> offer_state o <> Published.

(** What a claim of [code] by [bundle] may end in. *)
Definition claim_outcome env (ctx : PairContext) (code : string) (bundle : PubBundle)
    (out : answer * pairing_env R) : Prop :=
  let '(a, env') := out in
  burnt code env' /\ reg_ok (pe_registry env') /\
  match a with
  | Answered (Ok _) =>
      exists o h, offers (pe_state env) !! code = Some o /\ offer_state o = Published /\
        (ctx_now ctx < expires_at o)%Z /\ pe_connections env !! offer_connection o = Some h /\
        lookup_members (pe_registry env') (room_id (offer_bundle o) bundle) =
          canonical_pair (offer_fp o, bundle_fp bundle) /\
        (h <> ctx_outbox ctx ->
         delivered_to (pe_out env) (pe_out env') h (PairPeer bundle) /\
         delivered_to (pe_out env) (pe_out env') (ctx_outbox ctx) (PairPeer (offer_bundle o)))
  | Answered (Err _) => pe_out env' = pe_out env
  | Panicked => True
  end.

Lemma on_claim_outcome env ctx code bundle unix_now :
  relay_valid_code code = true -> reg_ok (pe_registry env) ->
  returns (T := T) (claim_outcome env ctx code bundle) (on_claim env ctx code bundle unix_now).
Proof.
  intros Hv Hreg. unfold on_claim. rewrite Hv; simpl.
  destruct (offers (pe_state env) !! code) as [o|] eqn:Ho.
  2:{ apply returns_ret. split_and!; [|done|done]. intros o. by rewrite Ho. }
  assert (forall c s, burnt code (on_state (mark code Terminal s) c)) as Hb.
  { intros c s o'. by apply mark_not_published. }
  destruct (_ || _) eqn:Hp; [by apply returns_ret|].
  apply orb_false_elim in Hp as [Hexp Hp%negb_false_iff%bool_decide_eq_true]. bool_to_prop.
  case_bool_decide; simpl; [|by apply returns_ret]. case_bool_decide as Hid; simpl; [by apply returns_ret|].
  destruct (pe_connections env !! offer_connection o) as [h|] eqn:Hc; [|by apply returns_ret].
  eapply returns_bind_post; [by apply spec_commit|]. intros [r reg] (Hreg' & _ & Hm); simpl in *.
  destruct r as [r|]; simpl in *; [|by apply returns_ret].
  destruct (notify_both _ _ _ _ _) as [[[[]|] out]|] eqn:Hn; apply returns_ret; simpl; (split; [|split; [done|]]).
  - apply Hb.
  - exists o, h. split_and!; try done. intros Hne. by eapply notify_both_ok.
  - apply Hb.
  - by eapply notify_both_err.
  - intros o'. by apply mark_not_published.
  - done.
Qed.

(** A claim burns its code whatever it answers, panics included, and is
    all or nothing towards the two devices.  If it answers [Ok], the code was
    published and not expired, the registry holds the room with exactly the
    two identities as members, and each side's outbox got the other's bundle;
    if it answers an error, no outbox has changed, the first reservation
    having been given back. *)
Theorem claim_both_or_neither env ip ctx code bundle unix_now :
  relay_valid_code code = true -> reg_ok (pe_registry env) ->
  returns (T := T) (claim_outcome env ctx code bundle)
    (relay_pair_frame config env ip ctx (PairClaim code bundle) unix_now).
Proof.
  intros Hv Hreg. unfold relay_pair_frame.
  destruct (allow_attempt config (pe_state env) ip (ctx_now ctx)) as [b s] eqn:Ha.
  assert (offers s = offers (pe_state env)) as Hs by (unfold allow_attempt in Ha; case_match; by injection Ha as <- <-).
  destruct b; simpl.
  - pose proof (on_claim_outcome (on_state s env) ctx code bundle unix_now Hv Hreg) as H.
    unfold claim_outcome in *. simpl in H. by rewrite Hs in H.
  - apply returns_ret. split_and!; [|done|done]. intros o. by apply mark_not_published.
Qed.
End claims.

Module PairingRelayToy.
Import Toy.
#[local] Existing Instance toy_base64.
#[local] Existing Instance toy_sha256.
#[local] Existing Instance ProtocolToy.frame_json.

Definition key (c : byte) : bytes := replicate 32 c.
Definition alice : PubBundle := {| sign_pk := key "a"%byte; dh_pk := key "b"%byte |}.
Definition bob : PubBundle := {| sign_pk := key "c"%byte; dh_pk := key "d"%byte |}.
Definition code : string := "ABCDEF".
Definition ip : IpAddr := IpV4 (replicate 4 x01).

Definition start : pairing_env InMemoryRegistry :=
  {| pe_state := {| offers := ∅; rates := ∅ |}; pe_registry := {| mem_rooms := ∅ |};
     pe_out := {[1 := outbox 64 100000; 2 := outbox 64 100000]}; pe_connections := {[7%Z := 1; 8%Z := 2]} |}.

Definition offering : PairContext :=
  {| ctx_connection := 7%Z; hello_bundle := alice; ctx_outbox := 1; ctx_now := 10%Z |}.
Definition claiming : PairContext :=
  {| ctx_connection := 8%Z; hello_bundle := bob; ctx_outbox := 2; ctx_now := 20%Z |}.

Definition run env ctx frame : outcome (answer * pairing_env InMemoryRegistry) * world unit :=
  relay_pair_frame pairing_config_default env ip ctx frame 5 RoomToy.blank.
Definition after env ctx frame : pairing_env InMemoryRegistry :=
  match (run env ctx frame).1 with Done (_, env) => env | Crashed => env end.
Definition accepted env ctx frame : bool :=
  match (run env ctx frame).1 with Done (Answered (Ok _), _) => true | _ => false end.

Lemma accepted_step env trace ctx frame :
  accepted env ctx frame = true ->
  pair_step (T := unit) pairing_config_default (env, trace) (after env ctx frame, trace ++ events_of env ctx frame (Ok tt) (after env ctx frame)).
Proof.
  unfold accepted, after. destruct (run env ctx frame) as [[[[[[]|]|] env']|] w] eqn:Hr; try done.
  intros _. by eapply (pstep_frame _ _ _ ip _ _ 5 RoomToy.blank).
Qed.

Definition offered : pairing_env InMemoryRegistry := after start offering (PairOffer code alice).

Definition paired : pairing_env InMemoryRegistry := after offered claiming (PairClaim code bob).
Definition bob_claims : exchange :=
  {| ex_code := code; ex_claimer := bob; ex_outbox := 2; ex_connections := pe_connections offered;
     ex_before := pe_out offered; ex_after := pe_out paired |}.

Lemma pairing_codes_one_time_witness : well_paired ∅ [Offered code 7 alice; Paired bob_claims].
Proof.
  refine (proj1 (pairing_codes_one_time (T := unit) pairing_config_default start paired _ _ eq_refl _)); [done|].
  eapply rtc_l; [apply (accepted_step start [] offering (PairOffer code alice)); vm_compute; reflexivity|].
  apply rtc_once. exact (accepted_step offered [Offered code 7 alice] claiming (PairClaim code bob) ltac:(vm_compute; reflexivity)).
Defined.

Lemma claim_both_or_neither_witness :
  claim_outcome (T := unit) (RS := memory_registry_spec) offered claiming code bob
    (Answered (Ok tt), after offered claiming (PairClaim code bob)).
Proof.
  assert (accepted offered claiming (PairClaim code bob) = true) as Ha by (vm_compute; reflexivity).
  assert (pe_registry offered = {| mem_rooms := ∅ |}) as Hreg by (vm_compute; reflexivity).
  pose proof (claim_both_or_neither (T := unit) (RS := memory_registry_spec) pairing_config_default offered ip
    claiming code bob 5 eq_refl ltac:(rewrite Hreg; apply rooms_ok_empty) RoomToy.blank) as H.
  unfold wpc in H. change (relay_pair_frame _ _ _ _ _ _ _) with (run offered claiming (PairClaim code bob)) in H.
  unfold accepted, after in *. by destruct (run offered claiming (PairClaim code bob)) as [[[[[[]|]|] env']|] w].
Defined.
End PairingRelayToy.
