(* ===== verification/Connection.v ===== *)
(** * A connection of the relay ([crates/server/src/connection.rs])

    The per-connection task: [step] is the server side of the protocol state
    machine, [handle_join] the authentication of a join, [read_turn] one
    iteration of the read loop, [connect] and [finish] the two ends of
    [handle_connection], and [write_turn] one iteration of the writer task.
    The shared state is [ServerState]; the rooms hold the outboxes, the
    registry and the mailbox.  Random bytes and both clocks are arguments.
    A [None] or [StepPanic] is a task that died; the log lines are left out,
    and so is the writer gate, which only tests install. *)

From S2P Require Import Prelude Fs Interfaces Protocol Crypto Registry Config RateLimit Mailbox Outbox Room.
From S2P Require Import PairingRelay.
From Stdlib Require Import Strings.Byte.

Set Default Goal Selector "!".
#[local] Open Scope clip_scope.

Inductive Phase :=
| PreHello
| PhaseReady (nonce : option bytes) (pub_bundle : PubBundle)
| PhaseJoined.

Inductive Step := StepContinue | StepJoined (room_id fp : string) | StepClose | StepPanic.

Record Connection := {
  cx_outbox : OutboxHandle; cx_client_ip : IpAddr; cx_id : ConnectionId; phase : Phase;
  joined : option (string * string)
}.

Definition set_phase (p : Phase) (c : Connection) : Connection :=
  {| cx_outbox := cx_outbox c; cx_client_ip := cx_client_ip c; cx_id := cx_id c; phase := p;
     joined := joined c |}.

(** [self.phase = Phase::Joined; self.joined = Some(..)]. *)
Definition set_joined (j : string * string) (c : Connection) : Connection :=
  {| cx_outbox := cx_outbox c; cx_client_ip := cx_client_ip c; cx_id := cx_id c; phase := PhaseJoined;
     joined := Some j |}.

(** [Instant::now] and the wall clock, in milliseconds. *)
Record clock := { mono : Z; unix : Z }.

(** What [stream.next()] yields: a message, or the end of the stream. *)
Inductive Message := Text (text : string) | Binary (data : bytes) | CloseMessage | Ping | Pong.

(** [waited] is how long the stream stays silent first, [None] for ever. *)
Record arrival := { waited : option Z; item : option Message }.

Inductive flow := Next | Break | Wait | Dead.

Definition error_frame (code message : string) : Frame := ErrorFrame code message.

Record ServerState (R M P : Type) := {
  sv_config : ServerConfig; sv_pairing : P; sv_offers : PairingState; sv_rooms : Rooms R M;
  sv_connections : Connections; sv_permits : nat; sv_rate_limits : IpRateLimiter; sv_next_id : Z
}.
Arguments Build_ServerState {R M P} _ _ _ _ _ _ _ _.
Arguments sv_config {R M P} _.
Arguments sv_pairing {R M P} _.
Arguments sv_offers {R M P} _.
Arguments sv_rooms {R M P} _.
Arguments sv_connections {R M P} _.
Arguments sv_permits {R M P} _.
Arguments sv_rate_limits {R M P} _.
Arguments sv_next_id {R M P} _.

Section connection.
Context {T R M P : Type} {RT : Registry T R} {MS : MailboxSink M} {PH : PairingHandler T R P}.
Context {S256 : Sha256} {ED : Ed25519} {B64 : Base64} {JF : Json Frame}.
Implicit Types (sv : ServerState R M P) (cx : Connection).

Definition put_rooms (r : Rooms R M) sv : ServerState R M P :=
  {| sv_config := sv_config sv; sv_pairing := sv_pairing sv; sv_offers := sv_offers sv; sv_rooms := r;
     sv_connections := sv_connections sv; sv_permits := sv_permits sv; sv_rate_limits := sv_rate_limits sv;
     sv_next_id := sv_next_id sv |}.
Definition put_limits (l : IpRateLimiter) sv : ServerState R M P :=
  {| sv_config := sv_config sv; sv_pairing := sv_pairing sv; sv_offers := sv_offers sv; sv_rooms := sv_rooms sv;
     sv_connections := sv_connections sv; sv_permits := sv_permits sv; sv_rate_limits := l;
     sv_next_id := sv_next_id sv |}.
Definition put_connections (c : Connections) sv : ServerState R M P :=
  {| sv_config := sv_config sv; sv_pairing := sv_pairing sv; sv_offers := sv_offers sv; sv_rooms := sv_rooms sv;
     sv_connections := c; sv_permits := sv_permits sv; sv_rate_limits := sv_rate_limits sv;
     sv_next_id := sv_next_id sv |}.

Definition sv_out sv : outboxes := rs_out (sv_rooms sv).
Definition put_out (out : outboxes) sv : ServerState R M P := put_rooms (set_out out (sv_rooms sv)) sv.

(** What the pairing handler sees of the state, and what it leaves. *)
Definition pair_view sv : pairing_env R :=
  {| pe_state := sv_offers sv; pe_registry := rs_registry (sv_rooms sv); pe_out := sv_out sv;
     pe_connections := sv_connections sv |}.
Definition put_pair (e : pairing_env R) sv : ServerState R M P :=
  let r := sv_rooms sv in
  {| sv_config := sv_config sv; sv_pairing := sv_pairing sv; sv_offers := pe_state e;
     sv_rooms := {| rs_map := rs_map r; rs_actors := rs_actors r; rs_next := rs_next r; rs_out := pe_out e;
                    rs_registry := pe_registry e; rs_mailbox := rs_mailbox r |};
     sv_connections := pe_connections e; sv_permits := sv_permits sv; sv_rate_limits := sv_rate_limits sv;
     sv_next_id := sv_next_id sv |}.

(** [let _ = outbox.send_frame(frame); outbox.close();] and [Step::Close]. *)
Definition close_with sv cx (frame : Frame) : Step * ServerState R M P * Connection :=
  match send_frame (sv_out sv) (cx_outbox cx) frame with
  | None => (StepPanic, sv, cx)
  | Some (_, out) => (StepClose, put_out (close (cx_outbox cx) out) sv, cx)
  end.

Definition handle_join sv cx (challenge : option bytes) (room_id device_id_frame : string)
    (pub_bundle : PubBundle) (sig_b64 : string) (clk : clock) :
    result (string * string) Frame * ServerState R M P :=
  match challenge with
  | None => (Err (error_frame "bad_auth" "no active join challenge"), sv)
  | Some nonce =>
      let '(allowed, counted) := check_join (sv_rate_limits sv) (cx_client_ip cx) (mono clk) in
      let sv := put_limits counted sv in
      if negb allowed then (Err (error_frame "rate_limited" "join attempts exceeded"), sv)
      else
        match b64_decode sig_b64 with
        | Err _ => (Err (error_frame "bad_auth" "sig_b64 must decode to 64 bytes"), sv)
        | Ok signature =>
            if negb (bool_decide (length signature = 64))
            then (Err (error_frame "bad_auth" "sig_b64 must decode to 64 bytes"), sv)
            else
              match join_sig_msg nonce room_id device_id_frame (bundle_bytes pub_bundle) with
              | Err _ => (Err (error_frame "bad_auth" "join signature input is invalid"), sv)
              | Ok message =>
                  if negb (is_ok (verify (sign_pk pub_bundle) message signature))
                  then (Err (error_frame "bad_auth" "join signature verification failed"), sv)
                  else if negb (bool_decide (device_id (sign_pk pub_bundle) = device_id_frame))
                  then (Err (error_frame "bad_auth" "device_id does not match the signing key"), sv)
                  else
                    let members := lookup_members (rs_registry (sv_rooms sv)) room_id in
                    let fp := bundle_fp pub_bundle in
                    if bool_decide (members = [])
                    then (Err (error_frame "bad_auth" "room is not registered"), sv)
                    else if negb (bool_decide (fp ∈ members))
                    then (Err (error_frame "room_full" "room already has two identities"), sv)
                    else
                      let '(accepted, rooms) := rooms_join (limits (sv_config sv)) (sv_rooms sv) room_id members fp
                                                  device_id_frame (cx_id cx) (cx_outbox cx) (unix clk) in
                      let sv := put_rooms rooms sv in
                      if negb accepted then (Err (error_frame "server_full" "room inbox exceeded"), sv)
                      else (Ok (room_id, fp), sv)
              end
        end
  end.

(** [drawn] is what [OsRng.fill_bytes] leaves in the nonce. *)
Definition step sv cx (frame : Frame) (raw_len : Z) (drawn : bytes) (clk : clock) :
    io T (Step * ServerState R M P * Connection) :=
  let closing code message := mret (close_with sv cx (error_frame code message)) in
  match phase cx, frame with
  | PreHello, Hello hello_device_id pub_bundle _ =>
      if negb (bool_decide (device_id (sign_pk pub_bundle) = hello_device_id))
      then closing "bad_auth" "hello device_id does not match signing key"
      else
        mret match send_frame (sv_out sv) (cx_outbox cx) (HelloOk PROTOCOL_VERSION (b64_encode drawn)) with
             | None => (StepPanic, sv, cx)
             | Some (false, out) => (StepClose, put_out out sv, cx)
             | Some (true, out) =>
                 (StepContinue, put_out out sv, set_phase (PhaseReady (Some drawn) pub_bundle) cx)
             end
  | PreHello, _ => closing "bad_frame" "expected hello as the first frame"
  | PhaseReady _ pub_bundle, PairOffer _ _ | PhaseReady _ pub_bundle, PairClaim _ _ =>
      out ← on_pair_frame (sv_pairing sv) (pair_view sv) (cx_client_ip cx)
              {| ctx_connection := cx_id cx; hello_bundle := pub_bundle; ctx_outbox := cx_outbox cx;
                 ctx_now := mono clk |} frame (unix clk);
      let sv := put_pair out.2 sv in
      mret match out.1 with
           | Answered (Ok _) => (StepContinue, sv, cx)
           | Answered (Err error_frame) => close_with sv cx error_frame
           | Panicked => (StepPanic, sv, cx)
           end
  | PhaseReady nonce hello_bundle, Join room_id device_id pub_bundle sig_b64 =>
      let cx := set_phase (PhaseReady None hello_bundle) cx in
      let '(r, sv) := handle_join sv cx nonce room_id device_id pub_bundle sig_b64 clk in
      mret match r with
           | Ok (room_id, fp) => (StepJoined room_id fp, sv, cx)
           | Err error_frame => close_with sv cx error_frame
           end
  | PhaseReady _ _, _ => closing "bad_frame" "frame is illegal before join"
  | PhaseJoined, Clip room_id ciphertext_b64 _ _ =>
      match joined cx with
      | None => mret (StepPanic, sv, cx)
      | Some (joined_room, fp) =>
          if negb (bool_decide (room_id = joined_room))
          then closing "bad_frame" "clip room does not match the joined room"
          else
            let '(accepted, rooms) := rooms_clip (limits (sv_config sv)) (sv_rooms sv) joined_room fp (cx_id cx)
                                        ciphertext_b64 raw_len in
            let sv := put_rooms rooms sv in
            mret (if negb accepted then close_with sv cx (error_frame "inbox_overflow" "room inbox exceeded")
                  else (StepContinue, sv, cx))
      end
  | PhaseJoined, _ => closing "bad_frame" "frame is illegal after join"
  end.

(** The deadline of [stream.next()] in each phase. *)
Definition deadline (l : Limits) (p : Phase) : option Z :=
  match p with
  | PreHello => Some (handshake_deadline l)
  | PhaseReady _ _ => Some (join_idle_deadline l)
  | PhaseJoined => None
  end.

(** [None] while there is nothing to do; [Some None] when the deadline or the
    stream ended the loop. *)
Definition await (l : Limits) (p : Phase) (a : arrival) : option (option Message) :=
  match deadline l p, waited a with
  | Some d, Some t => if (t <=? d)%Z then Some (item a) else Some None
  | Some _, None => Some None
  | None, Some _ => Some (item a)
  | None, None => None
  end.

(** The flow that the result of a closing call stands for. *)
Definition ended (r : Step * ServerState R M P * Connection) : flow * ServerState R M P * Connection :=
  let '(s, sv, cx) := r in
  match s with
  | StepContinue => (Next, sv, cx)
  | StepJoined room_id fp => (Next, sv, set_joined (room_id, fp) cx)
  | StepClose => (Break, sv, cx)
  | StepPanic => (Dead, sv, cx)
  end.

Definition read_turn sv cx (a : arrival) (drawn : bytes) (clk : clock) :
    io T (flow * ServerState R M P * Connection) :=
  match await (limits (sv_config sv)) (phase cx) a with
  | None => mret (Wait, sv, cx)
  | Some None => mret (Break, sv, cx)
  | Some (Some (Binary _)) =>
      mret (ended (close_with sv cx (error_frame "bad_frame" "binary frames are not accepted")))
  | Some (Some (Text text)) =>
      let raw_len := Z.of_nat (String.length text) in
      let '(allowed, l) := add_bytes (sv_rate_limits sv) (cx_client_ip cx) raw_len (mono clk) in
      let sv := put_limits l sv in
      if negb allowed
      then mret (ended (close_with sv cx (error_frame "rate_limited" "per-IP byte budget exceeded")))
      else
        match decode_frame (as_bytes text) with
        | Err error => mret (ended (close_with sv cx (to_error_frame error)))
        | Ok frame => r ← step sv cx frame raw_len drawn clk; mret (ended r)
        end
  | Some (Some CloseMessage) => mret (Break, sv, cx)
  | Some (Some Ping) | Some (Some Pong) => mret (Next, sv, cx)
  end.

(** The start of [handle_connection]; [h] is the new outbox. *)
Definition connect sv (client_ip : IpAddr) (id : ConnectionId) (h : OutboxHandle) : ServerState R M P * Connection :=
  let l := limits (sv_config sv) in
  (put_connections (<[id := h]> (sv_connections sv))
     (put_out (<[h := outbox (outbox_max_frames l) (outbox_max_bytes l)]> (sv_out sv)) sv),
   {| cx_outbox := h; cx_client_ip := client_ip; cx_id := id; phase := PreHello; joined := None |}).

(** Its end, once the read loop is left. *)
Definition finish sv cx : ServerState R M P :=
  let sv := match joined cx with
            | Some (room_id, fp) => put_rooms (rooms_disconnect (limits (sv_config sv)) (sv_rooms sv) room_id fp
                                                 (cx_id cx)) sv
            | None => sv
            end in
  let sv := put_pair (on_pair_disconnect (sv_pairing sv) (pair_view sv) (cx_id cx)) sv in
  put_connections (delete (cx_id cx) (sv_connections sv)) sv.
End connection.

(** ** The writer task *)

(** What goes out on the websocket. *)
Inductive wire := WText (text : string) | WClose.

(** One iteration of [run_writer] on what [rx.recv()] returned; [sent] says
    whether the sink took the message.  The flag is whether the loop goes on. *)
Definition write_turn (received : option Outbound) (sent : bool) : list wire * bool :=
  match received with
  | Some (OFrame b) =>
      match from_utf8 b with
      | None => ([], false)
      | Some text => if sent then ([WText text], true) else ([], false)
      end
  | Some OClose | None => (if sent then [WClose] else [], false)
  end.

(** One outbox with its writer, and as a ghost the frames the outbox
    accepted, in order. *)
Record pipe := { p_box : Outbox; p_wire : list wire; p_accepted : list bytes; p_running : bool }.

Inductive pipe_step : pipe -> pipe -> Prop :=
| pipe_send p b o :
    try_frame (p_box p) b = (true, o) ->
    pipe_step p {| p_box := o; p_wire := p_wire p; p_accepted := p_accepted p ++ [b]; p_running := p_running p |}
| pipe_reserve p b o :
    reserve_frame (p_box p) b = Some o ->
    pipe_step p {| p_box := o; p_wire := p_wire p; p_accepted := p_accepted p; p_running := p_running p |}
| pipe_reserved_send p b :
    pipe_step p {| p_box := reserved_send (p_box p) b; p_wire := p_wire p; p_accepted := p_accepted p ++ [b];
                   p_running := p_running p |}
| pipe_reserved_drop p b :
    pipe_step p {| p_box := reserved_drop (p_box p) b; p_wire := p_wire p; p_accepted := p_accepted p;
                   p_running := p_running p |}
| pipe_close p :
    pipe_step p {| p_box := ob_close (p_box p); p_wire := p_wire p; p_accepted := p_accepted p;
                   p_running := p_running p |}
| pipe_write p x o sent :
    p_running p = true -> recv_step (p_box p) x o ->
    pipe_step p {| p_box := if (write_turn (Some x) sent).2 then o else receiver_gone o;
                   p_wire := p_wire p ++ (write_turn (Some x) sent).1; p_accepted := p_accepted p;
                   p_running := (write_turn (Some x) sent).2 |}
| pipe_hangup p sent :
    p_running p = true -> ob_queue (p_box p) = [] ->
    pipe_step p {| p_box := receiver_gone (p_box p); p_wire := p_wire p ++ (write_turn None sent).1;
                   p_accepted := p_accepted p; p_running := (write_turn None sent).2 |}.

(** The frames in a queue. *)
Definition frames_in (q : list Outbound) : list bytes :=
  omap (fun x => match x with OFrame b => Some b | OClose => None end) q.

(** [written] are the frames on the wire; [close] is there at most once, last. *)
Definition pipe_ok (p : pipe) : Prop :=
  exists texts (closed : bool), p_wire p = (WText <$> texts) ++ (if closed then [WClose] else []) /\
    (p_running p = true -> closed = false) /\
    exists rest, p_accepted p = (as_bytes <$> texts) ++ rest /\
      (p_running p = true -> rest = frames_in (ob_queue (p_box p))).

Lemma pipe_grows p box b :
  pipe_ok p -> (p_running p = true -> frames_in (ob_queue box) = frames_in (ob_queue (p_box p)) ++ [b]) ->
  pipe_ok {| p_box := box; p_wire := p_wire p; p_accepted := p_accepted p ++ [b]; p_running := p_running p |}.
Proof.
  intros (texts & cl & Hw & Hc & rest & Ha & Hr) Hq. exists texts, cl. split_and!; [done|done|]. simpl.
  exists (rest ++ [b]). split; [by rewrite Ha, (assoc_L _)|]. intros Hrun. by rewrite (Hq Hrun), (Hr Hrun).
Qed.

Lemma pipe_same p box :
  pipe_ok p -> (p_running p = true -> frames_in (ob_queue box) = frames_in (ob_queue (p_box p))) ->
  pipe_ok {| p_box := box; p_wire := p_wire p; p_accepted := p_accepted p; p_running := p_running p |}.
Proof.
  intros (texts & cl & Hw & Hc & rest & Ha & Hr) Hq. exists texts, cl. split_and!; [done|done|]. simpl.
  exists rest. split; [done|]. intros Hrun. by rewrite (Hq Hrun), (Hr Hrun).
Qed.

(** The writer's last turn: nothing, or the close marker. *)
Lemma pipe_stops p box (tail : list wire) :
  pipe_ok p -> p_running p = true -> tail = [] \/ tail = [WClose] ->
  pipe_ok {| p_box := box; p_wire := p_wire p ++ tail; p_accepted := p_accepted p; p_running := false |}.
Proof.
  intros (texts & cl & Hw & Hc & rest & Ha & Hr) Hrun Ht. rewrite (Hc Hrun), app_nil_r in Hw.
  exists texts, (match tail with [] => false | _ => true end). simpl. split_and!; [|done|by exists rest].
  rewrite Hw. by destruct Ht as [-> | ->].
Qed.

Lemma frames_in_snoc q b : frames_in (q ++ [OFrame b]) = frames_in q ++ [b].
Proof. unfold frames_in. by rewrite omap_app. Qed.

Lemma from_utf8_bytes b s : from_utf8 b = Some s -> as_bytes s = b.
Proof. unfold from_utf8. destruct (utf8_valid b); [|done]. intros [= <-]. apply as_bytes_str. Qed.

Lemma pipe_step_ok p p' : pipe_ok p -> pipe_step p p' -> pipe_ok p'.
Proof.
  intros Hok Hstep. destruct Hstep as [p b o Ht|p b o Hr|p b|p b|p|p x o sent Hrun Hr|p sent Hrun Hq].
  - apply pipe_grows; [done|]. intros _. unfold try_frame in Ht. destruct (_ <? _)%Z; [done|].
    destruct (negb _); [done|]. injection Ht as <-. apply frames_in_snoc.
  - apply pipe_same; [done|]. intros _. unfold reserve_frame in Hr. destruct (_ <? _)%Z; [done|].
    destruct (negb _); [done|]. by injection Hr as <-.
  - apply pipe_grows; [done|]. intros _. apply frames_in_snoc.
  - by apply pipe_same.
  - apply pipe_same; [done|]. intros _. unfold ob_close. destruct (has_slot _); [|done]. simpl.
    unfold frames_in. rewrite omap_app. simpl. by rewrite app_nil_r.
  - inversion Hr as [o' Hf|o' b q Hq|o' q Hq]; subst; simpl.
    + apply pipe_stops; [done|done|]. destruct sent; auto.
    + destruct (from_utf8 b) as [text|] eqn:Hu; [|apply pipe_stops; auto]. destruct sent; [|apply pipe_stops; auto].
      destruct Hok as (texts & cl & Hw & Hc & rest & Ha & Hrest). rewrite (Hc Hrun), app_nil_r in Hw.
      specialize (Hrest Hrun). simpl in *. exists (texts ++ [text]), false. simpl. split_and!; [|done|].
      * by rewrite Hw, fmap_app, app_nil_r.
      * exists (frames_in q). split; [|done]. rewrite Ha, Hrest, Hq, fmap_app. simpl.
        by rewrite (from_utf8_bytes _ _ Hu), <- (assoc_L _).
    + apply pipe_stops; [done|done|]. destruct sent; auto.
  - simpl. apply pipe_stops; [done|done|]. destruct sent; auto.
Qed.

(** A connection's writer puts on the wire the frames its outbox accepted,
    whole, each once and in the order they were accepted, whatever sends,
    reservations, closes and forced closes are interleaved with it; at most
    one close follows, and nothing after it.  While the writer runs, what is
    not on the wire yet is exactly what the queue holds. *)
Theorem writer_in_order max_frames max_bytes p :
  rtc pipe_step {| p_box := outbox max_frames max_bytes; p_wire := []; p_accepted := []; p_running := true |} p ->
  exists texts rest (closed : bool),
    p_wire p = (WText <$> texts) ++ (if closed then [WClose] else []) /\
    p_accepted p = (as_bytes <$> texts) ++ rest /\
    (p_running p = true -> closed = false /\ rest = frames_in (ob_queue (p_box p))).
Proof.
  intros Hrun. assert (pipe_ok p) as (texts & cl & Hw & Hc & rest & Ha & Hr).
  { eapply (rtc_ind_r pipe_ok); [|intros; by eapply pipe_step_ok|exact Hrun].
    exists [], false. split_and!; [done|done|]. by exists []. }
  exists texts, rest, cl. split_and!; [done|done|]. intros H. by split; [apply Hc|apply Hr].
Qed.

Lemma writer_in_order_witness :
  exists p, p_wire p = [WText "a"; WClose] /\ p_running p = false /\
    exists texts rest, p_accepted p = (as_bytes <$> texts) ++ rest /\ p_wire p = (WText <$> texts) ++ [WClose].
Proof.
  set (o0 := outbox 4 100). set (o1 := (try_frame o0 (as_bytes "a")).2). set (o2 := ob_close o1).
  set (o3 := ob_set [OClose] 0 0 false o2). set (o4 := ob_set [] 0 0 false o3).
  set (p := {| p_box := receiver_gone o4; p_wire := [WText "a"; WClose]; p_accepted := [as_bytes "a"];
               p_running := false |}).
  destruct (writer_in_order 4 100 p) as (texts & rest & cl & Hw & Ha & _).
  - apply (rtc_l _ _ {| p_box := o1; p_wire := []; p_accepted := [as_bytes "a"]; p_running := true |});
      [by apply (pipe_send (Build_pipe o0 [] [] true))|].
    apply (rtc_l _ _ {| p_box := o2; p_wire := []; p_accepted := [as_bytes "a"]; p_running := true |});
      [apply (pipe_close (Build_pipe o1 [] [as_bytes "a"] true))|].
    apply (rtc_l _ _ {| p_box := o3; p_wire := [WText "a"]; p_accepted := [as_bytes "a"]; p_running := true |}).
    + apply (pipe_write (Build_pipe o2 [] [as_bytes "a"] true) (OFrame (as_bytes "a")) o3 true); [done|].
      by apply (recv_frame o2 (as_bytes "a") [OClose]).
    + apply rtc_once. apply (pipe_write (Build_pipe o3 [WText "a"] [as_bytes "a"] true) OClose o4 true); [done|].
      by apply (recv_close o3 []).
  - exists p. split_and!; [done|done|]. exists texts, rest. split; [done|]. rewrite Hw. destruct cl; [done|].
    exfalso. rewrite app_nil_r in Hw. destruct texts as [|? [|? []]]; discriminate Hw.
Defined.
