(* ===== verification/Server.v ===== *)
(** * The relay server ([crates/server/src/server.rs])

    [server_new], [ws_handler] and [healthz_handler], and the whole relay as
    one transition system: the accept path, the upgrades, the read loops and
    ends of the connections, the turns of the room actors, the writers, the
    registry's sweeper and the mailbox's background work, interleaved in any
    order.  The log records what authentication rests on: the challenges
    issued and the joins attempted. *)

From S2P Require Import Prelude Fs Interfaces Protocol Crypto Registry Config RateLimit Mailbox Outbox Room.
From S2P Require Import PairingRelay Connection.
From Stdlib Require Import Strings.Byte.

Set Default Goal Selector "!".
#[local] Open Scope clip_scope.

(** ** What the server relies on in a pairing handler *)

Class PairingSpec (T R P : Type) {PH : PairingHandler T R P} := {
  pair_frame_spec : forall self env ip ctx frame now, all_ok (pe_out env) ->
    returns (T := T) (fun x => all_ok (pe_out x.2) /\ pe_connections x.2 = pe_connections env)
      (on_pair_frame self env ip ctx frame now);
  pair_disconnect_spec : forall self env conn,
    pe_out (on_pair_disconnect self env conn) = pe_out env /\
    pe_connections (on_pair_disconnect self env conn) = pe_connections env
}.

Inductive StatusCode := OK | SERVICE_UNAVAILABLE.

Record response := { status : StatusCode; body : string }.

(** What the authentication of joins leaves behind. *)
Inductive log_event :=
| Challenged (conn : ConnectionId) (nonce : bytes)
| Attempted (conn : ConnectionId) (h : OutboxHandle) (room_id device_id : string) (pub_bundle : PubBundle)
    (sig_b64 : string) (members : list string).

Section server.
Context {T R M P : Type} {RT : Registry T R} {MS : MailboxSink M} {PH : PairingHandler T R P}.
Context {S256 : Sha256} {ED : Ed25519} {B64 : Base64} {JF : Json Frame}.
Implicit Types (sv : ServerState R M P) (cx : Connection).

Definition server_new (config : ServerConfig) (registry : R) (pairing : P) (mailbox : M) : ServerState R M P :=
  {| sv_config := config; sv_pairing := pairing; sv_offers := {| offers := ∅; rates := ∅ |};
     sv_rooms := rooms_new registry mailbox; sv_connections := ∅;
     sv_permits := max_connections (limits config); sv_rate_limits := limiter_new (limits config);
     sv_next_id := 1 |}.

Definition healthz_handler sv : response :=
  match health_probe (rs_mailbox (sv_rooms sv)) with
  | Some probe => if negb (is_healthy probe)
                  then {| status := SERVICE_UNAVAILABLE; body := "degraded" +:+ str_of_bytes ["010"%byte] |}
                  else {| status := OK; body := "ok" +:+ str_of_bytes ["010"%byte] |}
  | None => {| status := OK; body := "ok" +:+ str_of_bytes ["010"%byte] |}
  end.

Definition put_permits (n : nat) (next : Z) sv : ServerState R M P :=
  {| sv_config := sv_config sv; sv_pairing := sv_pairing sv; sv_offers := sv_offers sv; sv_rooms := sv_rooms sv;
     sv_connections := sv_connections sv; sv_permits := n; sv_rate_limits := sv_rate_limits sv;
     sv_next_id := next |}.

(** The permit comes back when its owner is dropped. *)
Definition release sv : ServerState R M P := put_permits (S (sv_permits sv)) (sv_next_id sv) sv.

(** The client address and the id an upgrade gets, or the refusal; [None]
    when the request's task panics in [client_ip].  [forwarded] is the header
    as far as it is text. *)
Definition ws_handler sv (peer : IpAddr) (forwarded : option string) :
    option (result (IpAddr * ConnectionId) response * ServerState R M P) :=
  match client_ip (sv_config sv) peer forwarded with
  | None => None
  | Some ip =>
      Some match sv_permits sv with
           | 0 => (Err {| status := SERVICE_UNAVAILABLE; body := "server_full" |}, sv)
           | S n => (Ok (ip, sv_next_id sv), put_permits n ((sv_next_id sv + 1) mod 2 ^ 64)%Z sv)
           end
  end.

(** ** The running relay *)

Record system := {
  sys_sv : ServerState R M P;
  sys_upgrading : gmap ConnectionId IpAddr;
  sys_live : gmap ConnectionId Connection;
  sys_draining : gset ConnectionId;
  sys_dead : gset ConnectionId;
  sys_accepted : Z;
  sys_log : list log_event
}.

Definition boot (config : ServerConfig) (registry : R) (pairing : P) (mailbox : M) : system :=
  {| sys_sv := server_new config registry pairing mailbox; sys_upgrading := ∅; sys_live := ∅;
     sys_draining := ∅; sys_dead := ∅; sys_accepted := 0; sys_log := [] |}.

Definition with_sv (f : ServerState R M P -> ServerState R M P) (y : system) : system :=
  {| sys_sv := f (sys_sv y); sys_upgrading := sys_upgrading y; sys_live := sys_live y;
     sys_draining := sys_draining y; sys_dead := sys_dead y; sys_accepted := sys_accepted y;
     sys_log := sys_log y |}.

(** What a read adds to the log: the nonce of an answered hello, and a join
    with the members its room has then. *)
Definition observed sv cx (a : arrival) (drawn : bytes) (cx' : Connection) : list log_event :=
  match phase cx, await (limits (sv_config sv)) (phase cx) a with
  | PreHello, _ => match phase cx' with PhaseReady _ _ => [Challenged (cx_id cx) drawn] | _ => [] end
  | PhaseReady _ _, Some (Some (Text text)) =>
      match decode_frame (as_bytes text) with
      | Ok (Join room_id device_id pub_bundle sig_b64) =>
          [Attempted (cx_id cx) (cx_outbox cx) room_id device_id pub_bundle sig_b64
             (lookup_members (rs_registry (sv_rooms sv)) room_id)]
      | _ => []
      end
  | _, _ => []
  end.

(** The system after a read that left [sv] and [cx]. *)
Definition after_read (y : system) (id : ConnectionId) (fl : flow) sv cx (log : list log_event) : system :=
  {| sys_sv := match fl with Next | Wait => sv | Break => finish sv cx | Dead => release sv end;
     sys_upgrading := sys_upgrading y;
     sys_live := match fl with Next | Wait => <[id := cx]> (sys_live y) | _ => delete id (sys_live y) end;
     sys_draining := match fl with Break => {[id]} ∪ sys_draining y | _ => sys_draining y end;
     sys_dead := match fl with Dead => {[id]} ∪ sys_dead y | _ => sys_dead y end;
     sys_accepted := sys_accepted y; sys_log := sys_log y ++ log |}.

Definition put_registry (r : R) sv : ServerState R M P :=
  let s := sv_rooms sv in
  put_rooms {| rs_map := rs_map s; rs_actors := rs_actors s; rs_next := rs_next s; rs_out := rs_out s;
               rs_registry := r; rs_mailbox := rs_mailbox s |} sv.
Definition put_mailbox (m : M) sv : ServerState R M P :=
  let s := sv_rooms sv in
  put_rooms {| rs_map := rs_map s; rs_actors := rs_actors s; rs_next := rs_next s; rs_out := rs_out s;
               rs_registry := rs_registry s; rs_mailbox := m |} sv.

Inductive system_step : system -> system -> Prop :=
| sys_accept y peer forwarded ip id sv :
    ws_handler (sys_sv y) peer forwarded = Some (Ok (ip, id), sv) ->
    system_step y
      {| sys_sv := sv; sys_upgrading := <[id := ip]> (sys_upgrading y); sys_live := sys_live y;
         sys_draining := sys_draining y; sys_dead := sys_dead y; sys_accepted := sys_accepted y + 1;
         sys_log := sys_log y |}
| sys_upgrade y id ip h :
    sys_upgrading y !! id = Some ip -> sv_out (sys_sv y) !! h = None ->
    system_step y
      {| sys_sv := (connect (sys_sv y) ip id h).1; sys_upgrading := delete id (sys_upgrading y);
         sys_live := <[id := (connect (sys_sv y) ip id h).2]> (sys_live y);
         sys_draining := sys_draining y; sys_dead := sys_dead y; sys_accepted := sys_accepted y;
         sys_log := sys_log y |}
| sys_upgrade_failed y id ip :
    sys_upgrading y !! id = Some ip ->
    system_step y
      {| sys_sv := release (sys_sv y); sys_upgrading := delete id (sys_upgrading y); sys_live := sys_live y;
         sys_draining := sys_draining y; sys_dead := sys_dead y; sys_accepted := sys_accepted y;
         sys_log := sys_log y |}
| sys_read y id cx a drawn clk (w w' : world T) fl sv' cx' :
    sys_live y !! id = Some cx ->
    read_turn (sys_sv y) cx a drawn clk w = (Done (fl, sv', cx'), w') ->
    system_step y (after_read y id fl sv' cx' (observed (sys_sv y) cx a drawn cx'))
| sys_drained y id :
    id ∈ sys_draining y ->
    system_step y
      {| sys_sv := release (sys_sv y); sys_upgrading := sys_upgrading y; sys_live := sys_live y;
         sys_draining := sys_draining y ∖ {[id]}; sys_dead := sys_dead y; sys_accepted := sys_accepted y;
         sys_log := sys_log y |}
| sys_actor y id now (w w' : world T) rooms :
    actor_turn (sv_rooms (sys_sv y)) id now w = (Done rooms, w') ->
    system_step y (with_sv (put_rooms rooms) y)
| sys_writer y h o x o' :
    sv_out (sys_sv y) !! h = Some o -> recv_step o x o' ->
    system_step y (with_sv (fun sv => put_out (<[h := o']> (sv_out sv)) sv) y)
| sys_writer_gone y h o :
    sv_out (sys_sv y) !! h = Some o ->
    system_step y (with_sv (fun sv => put_out (<[h := receiver_gone o]> (sv_out sv)) sv) y)
| sys_sweep y cutoff (w w' : world T) r registry :
    prune_unactivated (rs_registry (sv_rooms (sys_sv y))) cutoff w = (Done (r, registry), w') ->
    system_step y (with_sv (put_registry registry) y)
| sys_mailbox y m : system_step y (with_sv (put_mailbox m) y).
End server.
Arguments system : clear implicits.

(** ** The two handlers meet the specification *)

Lemma notify_both_all_ok `{Base64, Json Frame} out h c f g r out' :
  all_ok out -> notify_both out h c f g = Some (r, out') -> all_ok out'.
Proof.
  intros Hok Hn. destruct r as [[]|e]; [|by apply notify_both_err in Hn as ->].
  unfold notify_both in Hn. rewrite <- (held_ok_nil h) in Hok.
  destruct (try_reserve_frame out h f) as [[[b|] out1]|] eqn:H1; try done.
  pose proof (try_reserve_ok _ _ _ _ _ _ Hok H1) as Hok1.
  destruct (try_reserve_frame out1 c g) as [[[b'|] out2]|] eqn:H2; try done. injection Hn as <-.
  destruct (decide (h = c)) as [<-|Hne].
  - pose proof (try_reserve_ok _ _ _ _ _ _ Hok1 H2) as Hok2. rewrite <- (held_ok_nil h).
    by apply reservation_send_ok, reservation_send_ok, held_ok_swap.
  - unfold try_reserve_frame in H2. destruct (encode_frame g) as [b2|]; [|done].
    destruct (out1 !! c) as [o|] eqn:Ho; simpl in H2; [|done].
    destruct (reserve_frame o b2) as [o'|] eqn:Hr; [|done]. injection H2 as -> <-.
    unfold reservation_send, upd. rewrite alter_insert_ne, alter_insert_eq by done.
    apply all_ok_insert.
    + rewrite <- (held_ok_nil h). by apply reservation_send_ok.
    + apply reserved_send_ok. eapply reserve_frame_ok; [|exact Hr]. specialize (Hok1 c o Ho). simpl in Hok1.
      by rewrite bool_decide_eq_false_2 in Hok1.
Qed.

#[global] Program Instance unavailable_spec {T R} : PairingSpec T R PairingUnavailable.
Next Obligation. intros T R self env ip ctx frame now Hok. by apply returns_ret. Qed.
Next Obligation. done. Qed.

Section relay_spec.
Context {T R : Type} {RT : Registry T R} {S256 : Sha256} {B64 : Base64} {JF : Json Frame}.

Lemma on_offer_spec config (env : pairing_env R) ctx code bundle :
  all_ok (pe_out env) ->
  all_ok (pe_out (on_offer config env ctx code bundle).2) /\
  pe_connections (on_offer config env ctx code bundle).2 = pe_connections env.
Proof.
  intros Hok. unfold on_offer. destruct (relay_valid_code code); simpl; [|done].
  repeat (case_bool_decide; simpl; [try done|try done]).
  destruct (send_frame _ _ _) as [[[] out]|] eqn:Hs; simpl; (split; [|done]);
    [by eapply send_frame_ok..|done].
Qed.

Lemma on_claim_spec (env : pairing_env R) ctx code bundle now :
  all_ok (pe_out env) ->
  returns (T := T) (fun x => all_ok (pe_out x.2) /\ pe_connections x.2 = pe_connections env)
    (on_claim env ctx code bundle now).
Proof.
  intros Hok. unfold on_claim. destruct (relay_valid_code code); simpl; [|by apply returns_ret].
  destruct (offers (pe_state env) !! code) as [o|]; [|by apply returns_ret].
  destruct (_ || _); [by apply returns_ret|]. case_bool_decide; simpl; [|by apply returns_ret].
  case_bool_decide; simpl; [by apply returns_ret|].
  destruct (pe_connections env !! offer_connection o); [|by apply returns_ret].
  apply returns_bind. intros [[r|] reg]; simpl; [|by apply returns_ret].
  destruct (notify_both _ _ _ _ _) as [[r' out]|] eqn:Hn; apply returns_ret; simpl; [|done].
  split; [|done]. by eapply notify_both_all_ok.
Qed.

#[global] Program Instance relay_spec : PairingSpec T R PairingRelay.
Next Obligation.
  intros self env ip ctx frame now Hok. simpl. unfold relay_pair_frame.
  destruct (allow_attempt _ _ _ _) as [[] s]; simpl; [|by apply returns_ret].
  destruct frame; try by apply returns_ret.
  - apply returns_ret. by apply (on_offer_spec _ (on_state s env)).
  - by apply (on_claim_spec (on_state s env)).
Qed.
Next Obligation. done. Qed.
End relay_spec.

(** ** Who a room deals with

    [A conn h room fp] stands for: the connection [conn], with outbox [h], is
    entitled to act as [fp] in [room].  Joins and clips in an actor's inbox,
    and its online members, are all entitled in its room. *)

Section entitled.
Context {T R M : Type} {RT : Registry T R} {MS : MailboxSink M} {B64 : Base64} {JF : Json Frame}.
Context (A : ConnectionId -> OutboxHandle -> string -> string -> Prop) (lim : Limits).
Implicit Types (s : Rooms R M) (self : room_env R M).

Definition event_auth (room_id : string) (e : RoomEvent) : Prop :=
  match e with
  | RJoin fp _ conn h => A conn h room_id fp
  | RClip fp conn _ _ => exists h, A conn h room_id fp
  | RDisconnect _ _ => True
  end.

Definition actor_auth (x : RoomActor * Inbox) : Prop :=
  Forall (event_auth (a_room_id x.1)) (ib_events x.2) /\
  map_Forall (fun fp m => A (connection_id m) (member_outbox m) (a_room_id x.1) fp) (online x.1).

Definition rooms_auth s : Prop :=
  map_Forall (fun id x => actor_auth x /\ id < rs_next s) (rs_actors s) /\
  forall room_id id, rs_map s !! room_id = Some id ->
    id < rs_next s /\ forall x, rs_actors s !! id = Some x -> a_room_id x.1 = room_id.

Lemma spawn_auth s room_id fps now : rooms_auth s -> rooms_auth (spawn s room_id fps now).2.
Proof.
  intros [Ha Hm]. split; simpl.
  - apply map_Forall_insert_2; [split; [split; [constructor|apply map_Forall_empty]|lia]|].
    intros id x Hx. destruct (Ha id x Hx). split; [done|lia].
  - intros r id [[<- <-]|[Hne Hr]]%lookup_insert_Some.
    + split; [lia|]. intros x. rewrite lookup_insert_eq. by intros [= <-].
    + destruct (Hm r id Hr) as [Hlt Hid]. split; [lia|]. intros x. rewrite lookup_insert_ne by lia. apply Hid.
Qed.

Lemma send_to_auth s room_id id e s' :
  rooms_auth s -> rs_map s !! room_id = Some id -> event_auth room_id e -> send_to lim s id e = Some s' ->
  rooms_auth s'.
Proof.
  intros [Ha Hm] Hr He. unfold send_to. destruct (rs_actors s !! id) as [[a ib]|] eqn:Hi; [|done].
  unfold inbox_try_send. destruct (_ <? _)%Z; [done|]. case_bool_decide; [done|]. intros [= <-].
  destruct (Ha _ _ Hi) as [[H1 H2] H3]. destruct (Hm _ _ Hr) as [_ Hid]. split; simpl.
  - apply map_Forall_insert_2; [|done]. split; [|done]. split; [|done]. simpl. apply Forall_app. split; [done|].
    constructor; [|constructor]. specialize (Hid _ Hi). simpl in Hid. by rewrite Hid.
  - intros r id' Hr'. destruct (Hm _ _ Hr') as [Hlt Hx]. split; [done|].
    intros x [[<- <-]|[Hne Hx']]%lookup_insert_Some; [by apply (Hx (a, ib))|by apply Hx].
Qed.

Lemma remove_if_auth s room_id id : rooms_auth s -> rooms_auth (remove_if s room_id id).
Proof.
  intros [Ha Hm]. unfold remove_if. case_bool_decide; [|done]. split; [done|]. simpl.
  intros r id' [_ Hr]%lookup_delete_Some. by apply Hm.
Qed.

Lemma join_attempts_auth n s room_id fps e now :
  rooms_auth s -> event_auth room_id e -> rooms_auth (join_attempts lim n s room_id fps e now).2.
Proof.
  intros Hs He. revert s Hs; induction n as [|n IH]; intros s Hs; simpl; [done|].
  assert (exists id s1, match rs_map s !! room_id with Some id => (id, s) | None => spawn s room_id fps now end
            = (id, s1) /\ rooms_auth s1 /\ rs_map s1 !! room_id = Some id) as (id & s1 & -> & Hs1 & Hr).
  { destruct (rs_map s !! room_id) as [id|] eqn:Hr; [by exists id, s|].
    eexists _, _. split; [done|]. split; [by apply (spawn_auth s room_id fps now)|]. simpl. apply lookup_insert_eq. }
  destruct (send_to lim s1 id e) as [s2|] eqn:Hsend; [by eapply send_to_auth|].
  case_bool_decide; [|done]. by apply IH, remove_if_auth.
Qed.

Lemma clip_auth s room_id fp conn ct size :
  rooms_auth s -> (exists h, A conn h room_id fp) -> rooms_auth (rooms_clip lim s room_id fp conn ct size).2.
Proof.
  intros Hs Hf. unfold rooms_clip. destruct (rs_map s !! room_id) as [id|] eqn:Hr; [|done].
  destruct (send_to _ _ _ _) eqn:Hse; [|done]. eapply send_to_auth; [exact Hs|exact Hr| |exact Hse]; exact Hf.
Qed.

Lemma disconnect_auth s room_id fp conn : rooms_auth s -> rooms_auth (rooms_disconnect lim s room_id fp conn).
Proof.
  intros Hs. unfold rooms_disconnect. destruct (rs_map s !! room_id) as [id|] eqn:Hr; [|done].
  destruct (send_to _ _ _ _) eqn:Hse; [|done]. eapply send_to_auth; [exact Hs|exact Hr| |exact Hse]; exact I.
Qed.

(** A turn admits nobody but the member of the join it handles. *)
Definition admits self (e : RoomEvent) (self' : room_env R M) : Prop :=
  a_room_id (re_actor self') = a_room_id (re_actor self) /\
  forall fp m, online (re_actor self') !! fp = Some m ->
    online (re_actor self) !! fp = Some m \/ exists dev, e = RJoin fp dev (connection_id m) (member_outbox m).

Lemma route_all_admits self fp ct now e rs : admits self e (route_all self fp ct now rs).1.
Proof.
  enough (forall self', admits self e self' -> admits self e (route_all self' fp ct now rs).1) as H.
  { apply H. split; [done|]. by left. }
  induction rs as [|r rs IH]; intros self' Hs; simpl; [done|]. case_bool_decide; [by apply IH|].
  assert (admits self e (route self' fp ct now r).1) as Hr.
  { destruct Hs as [Hid Hon]. unfold route. destruct (online _ !! r); [|done].
    destruct (send_frame _ _ _) as [[[] out]|]; [done| |done].
    destruct (send_frame _ _ _) as [[? ?]|]; [|done]. split; [done|]. simpl.
    intros f m [_ Hm]%lookup_delete_Some. by apply Hon. }
  destruct (route self' fp ct now r) as [self1 []]; by try apply IH.
Qed.

Lemma join_prepare_admits self fp e : admits self e (join_bootstrap (join_replace self fp) fp).1.
Proof.
  assert (admits self e (join_replace self fp)) as H.
  { unfold join_replace. destruct (online _ !! fp); (split; [done|]); simpl; [|by left].
    intros f m [_ Hm]%lookup_delete_Some. by left. }
  unfold join_bootstrap. by destruct (mailbox_pending _ !! fp).
Qed.

Lemma handle_event_admits self e now :
  returns (T := T) (fun x => admits self e x.1) (handle_event self e now).
Proof.
  destruct e as [fp dev conn h|fp conn ct size|fp conn]; simpl.
  - pose proof (join_prepare_admits self fp (RJoin fp dev conn h)) as Hp. unfold on_join.
    destruct (join_bootstrap _ _) as [self1 boot]; simpl in Hp.
    destruct (try_reserve_frame (re_out self1) h JoinOk) as [[[b|] out]|]; [| |by apply returns_ret].
    + destruct (try_reserve_frame out h boot) as [[[b'|] out']|]; [| |by apply returns_ret].
      * apply returns_bind. intros [[r|] reg]; apply returns_ret; simpl.
        -- destruct Hp as [Hid Hon]. split; [done|]. simpl.
           intros f m [[<- <-]|[_ Hm]]%lookup_insert_Some; [right; by eexists|by apply Hon].
        -- by destruct (error_and_close _ _ _ _).
      * by apply returns_ret.
    + by apply returns_ret.
  - apply returns_ret. unfold on_clip. destruct (online _ !! fp); [|split; [done|by left]].
    destruct (negb _); [split; [done|by left]|]. apply route_all_admits.
  - apply returns_ret. simpl. unfold on_disconnect. destruct (online _ !! fp); [|split; [done|by left]].
    destruct (_ =? _)%Z; [|split; [done|by left]]. split; [done|]. simpl.
    intros f m [_ Hm]%lookup_delete_Some. by left.
Qed.

Lemma actor_turn_auth s id now (w w' : world T) s' :
  rooms_auth s -> actor_turn s id now w = (Done s', w') -> rooms_auth s'.
Proof.
  intros [Ha Hm]. unfold actor_turn.
  destruct (rs_actors s !! id) as [[a [[|e events] n]]|] eqn:Hi; [by intros [= <- <-]| |by intros [= <- <-]].
  destruct (Ha id _ Hi) as [[[He Hes]%Forall_cons Hon] Hlt]. simpl in *.
  set (env := {| re_actor := a |}). pose proof (handle_event_admits env e now w) as Hev. unfold wpc in Hev.
  unfold mbind, io_bind. destruct (handle_event env e now w) as [[[env' t]|] w1]; [|done].
  destruct Hev as [Hid Hnew]. intros [= <- <-]. simpl in *.
  assert (forall id' x, delete id (rs_actors s) !! id' = Some x -> rs_actors s !! id' = Some x) as Hdel.
  { by intros id' x [_ Hx]%lookup_delete_Some. }
  destruct t.
  - split; simpl.
    + apply map_Forall_insert_2; [|done]. split; [|done]. split; simpl; [by rewrite Hid|]. rewrite Hid.
      intros f m [Hf|[dev ->]]%Hnew; [by apply (Hon f m)|done].
    + intros r id' Hr. destruct (Hm _ _ Hr) as [Hl Hx]. split; [done|].
      intros x [[<- <-]|[_ Hx']]%lookup_insert_Some; [|by apply Hx]. simpl. rewrite Hid. apply (Hx _ Hi).
  - match goal with |- rooms_auth (set_actors _ (remove_if ?s1 _ _)) =>
      destruct (remove_if_rest s1 (a_room_id a) id) as (_ & _ & E3) end.
    split; simpl; [rewrite E3; intros id' x Hx%Hdel; by apply Ha|].
    intros r id' Hr. rewrite E3. simpl. unfold remove_if in Hr; simpl in Hr. case_bool_decide; simpl in Hr.
    1: apply lookup_delete_Some in Hr as [_ Hr].
    all: destruct (Hm _ _ Hr) as [Hl Hx]; split; [done|]; intros x Hx'%Hdel; by apply Hx.
  - split; simpl; [intros id' x Hx%Hdel; by apply Ha|].
    intros r id' Hr. destruct (Hm _ _ Hr) as [Hl Hx]. split; [done|]. intros x Hx'%Hdel. by apply Hx.
Qed.
End entitled.

(** ** Authentication *)

Section auth.
Context {T R M P : Type} {RT : Registry T R} {MS : MailboxSink M} {PH : PairingHandler T R P}.
Context {PS : PairingSpec T R P}.
Context {S256 : Sha256} {ED : Ed25519} {B64 : Base64} {JF : Json Frame}.
Implicit Types (sv : ServerState R M P) (cx : Connection) (log : list log_event).

(** The join frame carries a signature, under the key of a bundle whose
    fingerprint is among [members], of the message built from [nonce], the
    room, the device id of that key and the bundle. *)
Definition authentic (nonce : bytes) (room_id device : string) (bundle : PubBundle) (sig_b64 : string)
    (members : list string) (fp : string) : Prop :=
  exists signature message,
    b64_decode sig_b64 = Ok signature /\ length signature = 64 /\
    join_sig_msg nonce room_id device (bundle_bytes bundle) = Ok message /\
    verify (sign_pk bundle) message signature = Ok tt /\
    device_id (sign_pk bundle) = device /\ fp = bundle_fp bundle /\ fp ∈ members.

(** The connection answered its own challenge for [room_id] as [fp]. *)
Definition admitted_by log (conn : ConnectionId) (h : OutboxHandle) (room_id fp : string) : Prop :=
  exists nonce device bundle sig_b64 members,
    Challenged conn nonce ∈ log /\ Attempted conn h room_id device bundle sig_b64 members ∈ log /\
    authentic nonce room_id device bundle sig_b64 members fp.

Definition conn_auth log cx : Prop :=
  match phase cx with
  | PreHello => joined cx = None
  | PhaseReady challenge _ =>
      joined cx = None /\ forall nonce, challenge = Some nonce -> Challenged (cx_id cx) nonce ∈ log
  | PhaseJoined =>
      exists room_id fp, joined cx = Some (room_id, fp) /\
        admitted_by log (cx_id cx) (cx_outbox cx) room_id fp
  end.

Definition core sv := (sv_config sv, sv_pairing sv, sv_connections sv, sv_permits sv, sv_next_id sv).

Definition good (A : ConnectionId -> OutboxHandle -> string -> string -> Prop) sv : Prop :=
  relay_ok (limits (sv_config sv)) (sv_rooms sv) /\ rooms_auth A (sv_rooms sv).

Lemma admitted_mono log log' conn h room fp :
  log ⊆ log' -> admitted_by log conn h room fp -> admitted_by log' conn h room fp.
Proof.
  intros Hsub (n & d & b & sg & ms & H1 & H2 & H3). exists n, d, b, sg, ms.
  split_and!; [by apply Hsub|by apply Hsub|done].
Qed.

Lemma conn_auth_mono log log' cx : log ⊆ log' -> conn_auth log cx -> conn_auth log' cx.
Proof.
  intros Hsub. unfold conn_auth. destruct (phase cx) as [|c b|]; [done| |].
  - intros [Hj Hc]. split; [done|]. intros n Hn. by apply Hsub, Hc.
  - intros (r & f & Hj & Ha). exists r, f. split; [done|]. by eapply admitted_mono.
Qed.

Lemma good_mono (A B : ConnectionId -> OutboxHandle -> string -> string -> Prop) sv :
  (forall c h r f, A c h r f -> B c h r f) -> good A sv -> good B sv.
Proof.
  intros HAB [Hr [Ha Hm]]. split; [done|]. split; [|done]. intros id x Hx.
  destruct (Ha id x Hx) as [[H1 H2] H3]. split; [|done]. split.
  - eapply Forall_impl; [exact H1|]. intros []; simpl; [by apply HAB| |done]. intros [h Hh]. exists h. by apply HAB.
  - intros f m Hf. by apply HAB, (H2 f m).
Qed.

Lemma good_put_out A out sv : all_ok out -> good A sv -> good A (put_out out sv).
Proof. intros Hout [Hr Ha]. split; [by apply relay_ok_set_out|done]. Qed.

Lemma close_with_good A sv cx f s sv' cx' :
  good A sv -> close_with sv cx f = (s, sv', cx') ->
  good A sv' /\ core sv' = core sv /\ cx' = cx /\ (s = StepClose \/ s = StepPanic).
Proof.
  intros Hg. unfold close_with. destruct (send_frame _ _ _) as [[b out]|] eqn:Hs; intros [= <- <- <-].
  - split_and!; [|done|done|by left]. apply good_put_out; [|done]. apply close_ok. eapply send_frame_ok; [|exact Hs].
    by apply Hg.
  - split_and!; [done..|by right].
Qed.

Lemma handle_join_good A sv cx challenge room dev bundle sg clk r sv' :
  (0 <= inbox_max_bytes (limits (sv_config sv)))%Z -> good A sv ->
  handle_join sv cx challenge room dev bundle sg clk = (r, sv') ->
  (forall nonce fp, challenge = Some nonce ->
     authentic nonce room dev bundle sg (lookup_members (rs_registry (sv_rooms sv)) room) fp ->
     A (cx_id cx) (cx_outbox cx) room fp) ->
  good A sv' /\ core sv' = core sv /\
  forall room' fp, r = Ok (room', fp) -> room' = room /\ A (cx_id cx) (cx_outbox cx) room fp.
Proof.
  intros Hib Hg. unfold handle_join. destruct challenge as [nonce|]; [|by intros [= <- <-]].
  destruct (check_join _ _ _) as [[] l]; simpl; [|by intros [= <- <-]].
  destruct (b64_decode sg) as [signature|] eqn:Hd; [|by intros [= <- <-]].
  case_bool_decide as Hl; simpl; [|by intros [= <- <-]].
  destruct (join_sig_msg _ _ _ _) as [msg|] eqn:Hmsg; [|by intros [= <- <-]].
  destruct (verify _ _ _) as [[]|] eqn:Hv; simpl; [|by intros [= <- <-]].
  case_bool_decide as Hdev; simpl; [|by intros [= <- <-]].
  case_bool_decide; [by intros [= <- <-]|]. case_bool_decide as Hin; simpl; [|by intros [= <- <-]].
  destruct (rooms_join _ _ _ _ _ _ _ _ _) as [ok rooms] eqn:Hj. intros Hr HA.
  assert (A (cx_id cx) (cx_outbox cx) room (bundle_fp bundle)) as Ha.
  { apply (HA nonce); [done|]. by exists signature, msg. }
  assert (good A (put_rooms rooms (put_limits l sv))) as Hg'.
  { destruct Hg as [H1 H2]. change rooms with (ok, rooms).2. rewrite <- Hj.
    split; [apply join_attempts_ok; [done..|simpl; lia]|by apply join_attempts_auth]. }
  destruct ok; injection Hr as <- <-; (split_and!; [done|done|]); [|done]. by intros ? ? [= <- <-].
Qed.

(** *** One turn of a read loop *)

(** The attempt a frame amounts to. *)
Definition attempt_of sv cx (frame : Frame) : option log_event :=
  match phase cx, frame with
  | PhaseReady _ _, Join room_id device_id pub_bundle sig_b64 =>
      Some (Attempted (cx_id cx) (cx_outbox cx) room_id device_id pub_bundle sig_b64
              (lookup_members (rs_registry (sv_rooms sv)) room_id))
  | _, _ => None
  end.

(** How a turn may move the phase: a hello opens [PhaseReady], an attempt
    ends in [PhaseJoined] or ends the loop. *)
Definition moved (attempt : option log_event) cx (fl : flow) cx' : Prop :=
  match phase cx with
  | PreHello => phase cx' = PreHello \/ exists n b, phase cx' = PhaseReady n b
  | PhaseReady _ _ =>
      (attempt = None \/ fl = Break \/ fl = Dead) /\ (exists n b, phase cx' = PhaseReady n b) \/
      phase cx' = PhaseJoined
  | PhaseJoined => phase cx' = PhaseJoined
  end.

Definition turn_post log sv cx (attempt : option log_event) (drawn : bytes)
    (r : flow * ServerState R M P * Connection) : Prop :=
  let '(fl, sv', cx') := r in
  core sv' = core sv /\ (cx_id cx' = cx_id cx /\ cx_outbox cx' = cx_outbox cx) /\ moved attempt cx fl cx' /\
  forall log', log ⊆ log' -> (phase cx = PreHello -> phase cx' <> PreHello -> Challenged (cx_id cx) drawn ∈ log') ->
    (forall e, attempt = Some e -> e ∈ log') -> good (admitted_by log') sv' /\ conn_auth log' cx'.

Lemma same_post log sv sv' cx attempt drawn fl :
  good (admitted_by log) sv' -> conn_auth log cx -> core sv' = core sv ->
  attempt = None \/ fl = Break \/ fl = Dead -> turn_post log sv cx attempt drawn (fl, sv', cx).
Proof.
  intros Hg Hc Hcore Hm. split_and!; [done..| |].
  - unfold moved. destruct (phase cx); [by left|left; split; [done|by eexists _, _]|done].
  - intros log' Hsub _ _. split; [|by eapply conn_auth_mono]. eapply good_mono; [|exact Hg].
    intros c h r f. by apply admitted_mono.
Qed.

Lemma closing_post log sv sv0 cx f attempt drawn :
  good (admitted_by log) sv -> conn_auth log cx -> core sv = core sv0 ->
  turn_post log sv0 cx attempt drawn (ended (close_with sv cx f)).
Proof.
  intros Hg Hc Hcore. destruct (close_with sv cx f) as [[s sv'] cx'] eqn:Hcl.
  apply (close_with_good _ _ _ _ _ _ _ Hg) in Hcl as (Hg' & Hcore' & -> & Hs).
  destruct Hs as [-> | ->]; simpl; apply same_post; auto; congruence.
Qed.

Lemma hello_post log sv cx f drawn b attempt :
  good (admitted_by log) sv -> conn_auth log cx -> phase cx = PreHello ->
  turn_post log sv cx attempt drawn
    (ended match send_frame (sv_out sv) (cx_outbox cx) f with
           | None => (StepPanic, sv, cx)
           | Some (false, out) => (StepClose, put_out out sv, cx)
           | Some (true, out) => (StepContinue, put_out out sv, set_phase (PhaseReady (Some drawn) b) cx)
           end).
Proof.
  intros Hg Hc Hp. destruct (send_frame _ _ _) as [[sent out]|] eqn:Hs; [|by apply same_post; auto].
  assert (good (admitted_by log) (put_out out sv)) as Hg'.
  { apply good_put_out; [|done]. eapply send_frame_ok; [|exact Hs]. by apply Hg. }
  destruct sent; [|by apply same_post; auto]. simpl. split_and!; [done..| |].
  - unfold moved. rewrite Hp. right. by eexists _, _.
  - intros log' Hsub Hch _. split; [eapply good_mono; [|exact Hg']; intros c h r fp; by apply admitted_mono|].
    unfold conn_auth in *. rewrite Hp in Hc. simpl. split; [done|]. intros n [= <-]. by apply Hch.
Qed.

Lemma join_post log sv cx nonce hb room dev bundle sg clk drawn :
  (0 <= inbox_max_bytes (limits (sv_config sv)))%Z -> good (admitted_by log) sv -> conn_auth log cx ->
  phase cx = PhaseReady nonce hb ->
  turn_post log sv cx (attempt_of sv cx (Join room dev bundle sg)) drawn
    (ended (let cx := set_phase (PhaseReady None hb) cx in
            let '(r, sv) := handle_join sv cx nonce room dev bundle sg clk in
            match r with
            | Ok (room_id, fp) => (StepJoined room_id fp, sv, cx)
            | Err error_frame => close_with sv cx error_frame
            end)).
Proof.
  intros Hib Hg Hc Hp. set (cx1 := set_phase _ cx). cbv zeta. unfold conn_auth in Hc. rewrite Hp in Hc. destruct Hc as [Hj Hn].
  destruct (handle_join sv cx1 nonce room dev bundle sg clk) as [r sv'] eqn:Hjoin.
  assert (forall log', log ⊆ log' -> (forall e, attempt_of sv cx (Join room dev bundle sg) = Some e -> e ∈ log') ->
    good (admitted_by log') sv' /\ core sv' = core sv /\
    forall room' fp, r = Ok (room', fp) -> room' = room /\ admitted_by log' (cx_id cx) (cx_outbox cx) room fp) as HJ.
  { intros log' Hsub Hat. eapply (handle_join_good (admitted_by log') _ cx1); [done| |exact Hjoin|].
    - eapply good_mono; [|exact Hg]. intros c h r' f. by apply admitted_mono.
    - intros n fp -> Ha. eexists n, dev, bundle, sg, _. split_and!; [by apply Hsub, Hn| |exact Ha].
      apply Hat. unfold attempt_of. by rewrite Hp. }
  assert (core sv' = core sv) as Hcore.
  { edestruct (HJ (log ++ option_list (attempt_of sv cx (Join room dev bundle sg)))) as (_ & H & _); [| |exact H].
    - by apply list_subseteq_app_l.
    - intros e ->. apply elem_of_app. right. by left. }
  destruct r as [[room' fp]|ef]; simpl.
  - unfold turn_post. split_and!; [done..| |].
    + unfold moved. rewrite Hp. by right.
    + intros log' Hsub _ Hat. destruct (HJ log' Hsub Hat) as (Hg' & _ & Hok). split; [done|].
      destruct (Hok _ _ eq_refl) as [-> Ha]. unfold conn_auth; simpl. by exists room, fp.
  - destruct (close_with sv' cx1 ef) as [[s sv''] cx'] eqn:Hcl.
    assert (sv'' = sv'' /\ cx' = cx1 /\ (s = StepClose \/ s = StepPanic) /\ core sv'' = core sv') as (_ & -> & Hs & Hcore').
    { revert Hcl. unfold close_with. destruct (send_frame _ _ _) as [[? ?]|]; intros [= <- <- <-]; auto. }
    assert (turn_post log sv cx (attempt_of sv cx (Join room dev bundle sg)) drawn
              (match s with StepPanic => Dead | _ => Break end, sv'', cx1)) as Hpost.
    { unfold turn_post. split_and!; [congruence|done|done| |].
      - unfold moved. rewrite Hp. left. split; [right; destruct Hs as [-> | ->]; auto|by eexists _, _].
      - intros log' Hsub _ Hat. destruct (HJ log' Hsub Hat) as (Hg' & _ & _).
        apply (close_with_good _ _ _ _ _ _ _ Hg') in Hcl as (Hg'' & _ & _ & _). split; [done|].
        unfold conn_auth; simpl. split; [done|]. by intros n [=]. }
    by destruct Hs as [-> | ->].
Qed.

Lemma pair_post log sv cx attempt drawn (x : answer * pairing_env R) :
  good (admitted_by log) sv -> conn_auth log cx -> attempt = None ->
  all_ok (pe_out x.2) -> pe_connections x.2 = sv_connections sv ->
  turn_post log sv cx attempt drawn
    (ended (let sv := put_pair x.2 sv in
            match x.1 with
            | Answered (Ok _) => (StepContinue, sv, cx)
            | Answered (Err error_frame) => close_with sv cx error_frame
            | Panicked => (StepPanic, sv, cx)
            end)).
Proof.
  intros [Hr Ha] Hc -> Hout Hconn. cbv zeta.
  assert (good (admitted_by log) (put_pair x.2 sv)) as Hg by (split; [by destruct Hr|done]).
  assert (core (put_pair x.2 sv) = core sv) as Hcore by (unfold core; simpl; by rewrite Hconn).
  destruct x as [[[]|] env]; [apply same_post; auto|by apply closing_post|apply same_post; auto].
Qed.

Lemma step_post log sv cx frame raw_len drawn clk :
  (0 <= inbox_max_bytes (limits (sv_config sv)))%Z -> (0 <= raw_len)%Z ->
  good (admitted_by log) sv -> conn_auth log cx ->
  returns (T := T) (fun r => turn_post log sv cx (attempt_of sv cx frame) drawn (ended r))
    (step sv cx frame raw_len drawn clk).
Proof.
  intros Hib Hraw Hg Hc. unfold step. destruct (phase cx) as [|nonce hb|] eqn:Hp.
  - destruct frame; try (apply returns_ret; by apply closing_post).
    case_bool_decide; simpl; apply returns_ret; [by apply hello_post|by apply closing_post].
  - destruct frame; try (apply returns_ret; by apply closing_post).
    1-2: eapply returns_bind_post; [apply pair_frame_spec, Hg|]; intros x [Hout Hconn]; apply returns_ret;
      apply pair_post; [done|done|by unfold attempt_of; rewrite Hp|done|done].
    pose proof (join_post log sv cx nonce hb room_id device_id pub_bundle sig_b64 clk drawn Hib Hg Hc Hp) as Hj.
    cbv zeta in Hj. destruct (handle_join _ _ _ _ _ _ _ _) as [r sv']. by apply returns_ret.
  - destruct frame; try (apply returns_ret; by apply closing_post).
    pose proof Hc as Hc'. unfold conn_auth in Hc. rewrite Hp in Hc. destruct Hc as (room & fp & Hj & Had). rewrite Hj.
    case_bool_decide; simpl; [|apply returns_ret; by apply closing_post].
    destruct (rooms_clip _ _ _ _ _ _ _) as [ok rooms] eqn:Hcl.
    assert (good (admitted_by log) (put_rooms rooms sv)) as Hg'.
    { destruct Hg as [H1 H2]. change rooms with (ok, rooms).2. rewrite <- Hcl. split.
      - unfold rooms_clip. destruct (rs_map _ !! _); [|done]. destruct (send_to _ _ _ _) eqn:Hs; [|done].
        eapply send_to_ok; [exact H1| |exact Hs]. done.
      - apply clip_auth; [done|]. by eexists. }
    apply returns_ret. destruct ok; simpl; [|by apply closing_post].
    apply (same_post _ _ _ _ _ _ Next); [done..|left]. unfold attempt_of. by rewrite Hp.
Qed.

(** The attempt behind an arrival, if its text is let through to [step]. *)
Definition attempt_in sv cx (a : arrival) : option log_event :=
  match await (limits (sv_config sv)) (phase cx) a with
  | Some (Some (Text text)) =>
      match decode_frame (as_bytes text) with Ok frame => attempt_of sv cx frame | Err _ => None end
  | _ => None
  end.

Lemma read_turn_post log sv cx a drawn clk :
  (0 <= inbox_max_bytes (limits (sv_config sv)))%Z -> good (admitted_by log) sv -> conn_auth log cx ->
  returns (T := T) (turn_post log sv cx (attempt_in sv cx a) drawn) (read_turn sv cx a drawn clk).
Proof.
  intros Hib Hg Hc. unfold read_turn, attempt_in.
  destruct (await _ _ a) as [[[text|data| | |]|]|] eqn:Ha;
    try (apply returns_ret; first [by apply closing_post|apply same_post; auto]).
  destruct (add_bytes _ _ _ _) as [[] l]; simpl; [|apply returns_ret; by apply closing_post].
  destruct (decode_frame _) as [frame|]; [|apply returns_ret; by apply closing_post].
  eapply returns_bind_post; [by eapply (step_post log (put_limits l sv)); [|lia|..]|].
  intros r Hr. by apply returns_ret.
Qed.

Lemma finish_good A sv cx :
  (0 <= inbox_max_bytes (limits (sv_config sv)))%Z -> good A sv ->
  good A (finish sv cx) /\
  core (finish sv cx) =
    (sv_config sv, sv_pairing sv, delete (cx_id cx) (sv_connections sv), sv_permits sv, sv_next_id sv).
Proof.
  intros Hib Hg. unfold finish. set (sv1 := match joined cx with Some _ => _ | None => sv end).
  assert (good A sv1 /\ core sv1 = core sv) as [Hg1 Hcore].
  { unfold sv1. destruct (joined cx) as [[room fp]|]; [|done]. split; [|done]. destruct Hg as [H1 H2]. split.
    - unfold rooms_disconnect; simpl. destruct (rs_map _ !! _); [|done]. destruct (send_to _ _ _ _) eqn:Hs; [|done].
      eapply send_to_ok; [exact H1| |exact Hs]. simpl; lia.
    - by apply disconnect_auth. }
  destruct (pair_disconnect_spec (sv_pairing sv1) (pair_view sv1) (cx_id cx)) as [Hout Hconn].
  destruct Hg1 as [[H1 H1'] H2]. split.
  - split; [|done]. split; [|done]. simpl. by rewrite Hout.
  - unfold core in *. simpl. rewrite Hconn. simpl. by injection Hcore as -> -> -> -> ->.
Qed.

(** *** The invariant of the running relay *)

Implicit Types (y : system R M P).

Definition fresh (id : ConnectionId) y : Prop :=
  sys_upgrading y !! id = None /\ sys_live y !! id = None /\ (id ∉ sys_draining y) /\ (id ∉ sys_dead y).

(** Every id is in at most one stage of its life, every stage but the dead
    holds a permit, and the table of connections is that of the live ones. *)
Record quota_ok (config : ServerConfig) y : Prop := {
  q_config : sv_config (sys_sv y) = config;
  q_next : sv_next_id (sys_sv y) = (1 + sys_accepted y)%Z;
  q_fresh : forall id, (sv_next_id (sys_sv y) <= id)%Z -> fresh id y;
  q_upgrading : forall id ip, sys_upgrading y !! id = Some ip ->
    sys_live y !! id = None /\ (id ∉ sys_draining y) /\ (id ∉ sys_dead y);
  q_live : forall id cx, sys_live y !! id = Some cx ->
    (id ∉ sys_draining y) /\ (id ∉ sys_dead y) /\ cx_id cx = id /\
    sv_connections (sys_sv y) !! id = Some (cx_outbox cx);
  q_table : forall id h, sv_connections (sys_sv y) !! id = Some h -> is_Some (sys_live y !! id) \/ id ∈ sys_dead y;
  q_permits : sv_permits (sys_sv y) + size (sys_upgrading y) + size (sys_live y) + size (sys_draining y) =
    max_connections (limits config)
}.

Lemma observed_attempt sv cx a drawn cx' e : attempt_in sv cx a = Some e -> observed sv cx a drawn cx' = [e].
Proof.
  unfold attempt_in, observed, attempt_of. destruct (await _ _ a) as [[[]|]|]; try done.
  destruct (decode_frame _) as [[]|]; destruct (phase cx); try done. by intros [= <-].
Qed.

Lemma observed_shape sv cx a drawn cx' :
  observed sv cx a drawn cx' = [] \/
  (phase cx = PreHello /\ (exists n b, phase cx' = PhaseReady n b) /\
   observed sv cx a drawn cx' = [Challenged (cx_id cx) drawn]) \/
  exists e n b h room dev bundle sg ms, phase cx = PhaseReady n b /\ attempt_in sv cx a = Some e /\
    e = Attempted (cx_id cx) h room dev bundle sg ms /\ observed sv cx a drawn cx' = [e].
Proof.
  unfold observed, attempt_in, attempt_of. destruct (phase cx) as [|n b|] eqn:Hp.
  - destruct (phase cx') eqn:Hp'; [by left| |by left]. right; left. split_and!; [done|by eexists _, _|done].
  - destruct (await _ _ a) as [[[]|]|]; try by left. destruct (decode_frame _) as [[]|]; try by left.
    right; right. eexists _, n, b, _, _, _, _, _, _. by split_and!.
  - by left.
Qed.

Lemma size_delete_S {V} (m : gmap ConnectionId V) id x : m !! id = Some x -> size m = S (size (delete id m)).
Proof.
  intros Hx. rewrite map_size_delete_Some by (by eexists). assert (size m <> 0); [|lia].
  apply map_size_ne_0_lookup. by exists id; eexists.
Qed.

Lemma quota_next config y id cx cx' sv' log :
  quota_ok config y -> sys_live y !! id = Some cx -> core sv' = core (sys_sv y) ->
  cx_id cx' = cx_id cx -> cx_outbox cx' = cx_outbox cx ->
  quota_ok config (after_read y id Next sv' cx' log) /\ quota_ok config (after_read y id Wait sv' cx' log).
Proof.
  intros [Hc Hn Hf Hu Hl Ht Hp] Hid Hcore Hi Ho. injection Hcore as E1 E2 E3 E4 E5.
  enough (quota_ok config (after_read y id Next sv' cx' log)) by (split; [done|]; by destruct H).
  assert (forall id', (<[id := cx']> (sys_live y) !! id' = None) <-> sys_live y !! id' = None) as Hnone.
  { intros id'. destruct (decide (id = id')) as [<-|]; [by rewrite lookup_insert_eq, Hid|by rewrite lookup_insert_ne]. }
  split; simpl; rewrite ?E1, ?E3, ?E4, ?E5; [done|done| | | | |].
  - intros id' Hid'. destruct (Hf id' Hid') as (?&?&?&?). split_and!; try done. simpl. by apply Hnone.
  - intros id' ip Hip. destruct (Hu _ _ Hip) as (?&?&?). split_and!; try done. by apply Hnone.
  - intros id' c [[<- <-]|[_ Hc']]%lookup_insert_Some; [|by apply Hl].
    destruct (Hl _ _ Hid) as (?&?&?&?). split_and!; try done; congruence.
  - intros id' h Hh. destruct (Ht _ _ Hh) as [[c Hc']|]; [left|by right].
    destruct (decide (id = id')) as [<-|]; [rewrite lookup_insert_eq|rewrite lookup_insert_ne by done]; by eexists.
  - rewrite map_size_insert_Some by (by eexists). done.
Qed.

(** The id leaves the live connections for [stage]. *)
Lemma quota_leave config y y' id cx :
  quota_ok config y -> sys_live y !! id = Some cx -> sys_live y' = delete id (sys_live y) ->
  sys_upgrading y' = sys_upgrading y -> sys_accepted y' = sys_accepted y ->
  sv_config (sys_sv y') = sv_config (sys_sv y) -> sv_next_id (sys_sv y') = sv_next_id (sys_sv y) ->
  (sys_draining y' = {[id]} ∪ sys_draining y /\ sys_dead y' = sys_dead y /\
   sv_permits (sys_sv y') = sv_permits (sys_sv y) /\
   sv_connections (sys_sv y') = delete id (sv_connections (sys_sv y))) \/
  (sys_draining y' = sys_draining y /\ sys_dead y' = {[id]} ∪ sys_dead y /\
   sv_permits (sys_sv y') = S (sv_permits (sys_sv y)) /\
   sv_connections (sys_sv y') = sv_connections (sys_sv y)) ->
  quota_ok config y'.
Proof.
  intros [Hc Hn Hf Hu Hl Ht Hp] Hid El Eu Ea Ec En Hstage.
  destruct (Hl _ _ Hid) as (Hd & Hde & _ & _).
  assert (forall id', id' <> id -> (id' ∉ sys_draining y) -> (id' ∉ sys_dead y) ->
            (id' ∉ sys_draining y') /\ (id' ∉ sys_dead y')) as Hout.
  { clear -Hstage. intros id' Hne H1 H2. destruct Hstage as [(-> & -> & _)|(-> & -> & _)]; set_solver. }
  assert (sys_upgrading y !! id = None) as Hup.
  { apply eq_None_not_Some. intros [ip Hip]. destruct (Hu _ _ Hip) as [H _]. by rewrite Hid in H. }
  pose proof (size_delete_S (sys_live y) id cx Hid) as Hsz.
  split; rewrite ?Ec, ?En, ?Ea, ?El, ?Eu; try done.
  - intros id' Hid'. destruct (Hf id' Hid') as (?&Hn'&?&?).
    destruct (Hout id') as [? ?]; [|done..|]; [intros ->; by rewrite Hid in Hn'|].
    split_and!; rewrite ?El, ?Eu; [done|by apply lookup_delete_None; right|done|done].
  - intros id' ip Hip. assert (id' <> id) as Hne by (intros ->; by rewrite Hip in Hup).
    destruct (Hu _ _ Hip) as (?&?&?). destruct (Hout id') as [? ?]; [done..|].
    split_and!; [by apply lookup_delete_None; right|done|done].
  - intros id' c [Hne Hc']%lookup_delete_Some. destruct (Hl _ _ Hc') as (?&?&?&?).
    destruct (Hout id') as [? ?]; [done..|]. split_and!; try done.
    destruct Hstage as [(_ & _ & _ & ->)|(_ & _ & _ & ->)]; [by rewrite lookup_delete_ne|done].
  - intros id' h Hh. destruct Hstage as [(_ & -> & _ & E)|(_ & -> & _ & E)]; rewrite E in Hh.
    + apply lookup_delete_Some in Hh as [Hne Hh]. destruct (Ht _ _ Hh) as [[c Hc']|]; [left|by right].
      rewrite lookup_delete_ne by done. by eexists.
    + destruct (Ht _ _ Hh) as [[c Hc']|]; [|right; set_solver]. destruct (decide (id' = id)) as [->|]; [right; set_solver|left].
      rewrite lookup_delete_ne by done. by eexists.
  - destruct Hstage as [(-> & _ & -> & _)|(-> & _ & -> & _)]; [rewrite size_union, size_singleton by set_solver|]; lia.
Qed.

Lemma quota_accept config y peer forwarded ip id sv :
  quota_ok config y -> (0 <= sys_accepted y)%Z -> (2 + sys_accepted y < 2 ^ 64)%Z ->
  ws_handler (sys_sv y) peer forwarded = Some (Ok (ip, id), sv) ->
  id = sv_next_id (sys_sv y) /\ sv_rooms sv = sv_rooms (sys_sv y) /\
  quota_ok config
    {| sys_sv := sv; sys_upgrading := <[id := ip]> (sys_upgrading y); sys_live := sys_live y;
       sys_draining := sys_draining y; sys_dead := sys_dead y; sys_accepted := sys_accepted y + 1;
       sys_log := sys_log y |}.
Proof.
  intros [Hc Hn Hf Hu Hl Ht Hp] H0 Hbound. unfold ws_handler. destruct (client_ip _ _ _) as [ip'|]; [|done].
  destruct (sv_permits (sys_sv y)) as [|n] eqn:Hper; [done|]. intros [= -> <- <-].
  destruct (Hf (sv_next_id (sys_sv y)) ltac:(lia)) as (F1 & F2 & F3 & F4).
  split_and!; [done|done|]. rewrite Z.mod_small in * by lia.
  split; simpl; [done|lia| |..|].
  - intros id Hid. destruct (Hf id ltac:(lia)) as (?&?&?&?). split_and!; simpl; [|done..].
    rewrite lookup_insert_ne by lia. done.
  - intros id ip' [[<- _]|[_ Hip]]%lookup_insert_Some; [done|by eapply Hu].
  - done.
  - done.
  - rewrite map_size_insert_None by done. lia.
Qed.

Lemma quota_upgrade config y id ip h :
  quota_ok config y -> sys_upgrading y !! id = Some ip ->
  quota_ok config
    {| sys_sv := (connect (sys_sv y) ip id h).1; sys_upgrading := delete id (sys_upgrading y);
       sys_live := <[id := (connect (sys_sv y) ip id h).2]> (sys_live y);
       sys_draining := sys_draining y; sys_dead := sys_dead y; sys_accepted := sys_accepted y;
       sys_log := sys_log y |}.
Proof.
  intros [Hc Hn Hf Hu Hl Ht Hp] Hid. destruct (Hu _ _ Hid) as (U1 & U2 & U3).
  pose proof (size_delete_S (sys_upgrading y) id ip Hid) as Hsz.
  split; simpl; [done|done|..].
  - intros id' Hid'. destruct (Hf id' Hid') as (F1&F2&?&?).
    assert (id <> id') as Hne by (intros <-; by rewrite Hid in F1).
    split_and!; simpl; [by rewrite lookup_delete_ne|by rewrite lookup_insert_ne|done|done].
  - intros id' ip' [Hne Hip]%lookup_delete_Some. rewrite lookup_insert_ne by done. by eapply Hu.
  - intros id' cx [[<- <-]|[Hne Hcx]]%lookup_insert_Some; simpl; [by rewrite lookup_insert_eq|].
    rewrite lookup_insert_ne by done. by apply Hl.
  - intros id' h' [[<- <-]|[Hne Hh]]%lookup_insert_Some; [left; rewrite lookup_insert_eq; by eexists|].
    rewrite lookup_insert_ne by done. by eapply Ht.
  - rewrite map_size_insert_None by done. lia.
Qed.

Lemma quota_upgrade_failed config y id ip :
  quota_ok config y -> sys_upgrading y !! id = Some ip ->
  quota_ok config
    {| sys_sv := release (sys_sv y); sys_upgrading := delete id (sys_upgrading y); sys_live := sys_live y;
       sys_draining := sys_draining y; sys_dead := sys_dead y; sys_accepted := sys_accepted y;
       sys_log := sys_log y |}.
Proof.
  intros [Hc Hn Hf Hu Hl Ht Hp] Hid.
  pose proof (size_delete_S (sys_upgrading y) id ip Hid) as Hsz.
  split; simpl; [done|done|..]; try done.
  - intros id' Hid'. destruct (Hf id' Hid') as (?&?&?&?). split_and!; simpl; [|done..]. by apply lookup_delete_None; right.
  - intros id' ip' [Hne Hip]%lookup_delete_Some. by eapply Hu.
  - lia.
Qed.

Lemma quota_drained config y id :
  quota_ok config y -> id ∈ sys_draining y ->
  quota_ok config
    {| sys_sv := release (sys_sv y); sys_upgrading := sys_upgrading y; sys_live := sys_live y;
       sys_draining := sys_draining y ∖ {[id]}; sys_dead := sys_dead y; sys_accepted := sys_accepted y;
       sys_log := sys_log y |}.
Proof.
  intros [Hc Hn Hf Hu Hl Ht Hp] Hid.
  assert (size (sys_draining y) = S (size (sys_draining y ∖ {[id]}))) as Hsz.
  { rewrite (union_difference_L {[id]} (sys_draining y)) at 1 by set_solver.
    rewrite size_union, size_singleton by set_solver. lia. }
  split; simpl; [done|done|..]; try done.
  - intros id' Hid'. destruct (Hf id' Hid') as (?&?&?&?). split_and!; simpl; [done|done|set_solver|done].
  - intros id' ip' Hip. destruct (Hu _ _ Hip) as (?&?&?). split_and!; [done|set_solver|done].
  - intros id' cx Hcx. destruct (Hl _ _ Hcx) as (?&?&?&?). split_and!; [set_solver|done..].
  - lia.
Qed.

(** The log names each connection at most once per kind of event. *)
Definition challenged_ids log : list ConnectionId :=
  omap (fun e => match e with Challenged c _ => Some c | Attempted _ _ _ _ _ _ _ => None end) log.
Definition attempted_ids log : list ConnectionId :=
  omap (fun e => match e with Attempted c _ _ _ _ _ _ => Some c | Challenged _ _ => None end) log.

(** Ids that occur once, all of connections that are past a point of their life. *)
Definition past (at_point : Phase -> Prop) (ids : list ConnectionId) y : Prop :=
  NoDup ids /\
  forall id, id ∈ ids -> (id < sv_next_id (sys_sv y))%Z /\ sys_upgrading y !! id = None /\
    forall cx, sys_live y !! id = Some cx -> at_point (phase cx).

Definition log_ok y : Prop :=
  past (fun p => p <> PreHello) (challenged_ids (sys_log y)) y /\
  past (fun p => p = PhaseJoined) (attempted_ids (sys_log y)) y.

Definition sys_ok (config : ServerConfig) y : Prop :=
  (0 <= sys_accepted y)%Z /\ quota_ok config y /\ good (admitted_by (sys_log y)) (sys_sv y) /\
  map_Forall (fun _ cx => conn_auth (sys_log y) cx) (sys_live y) /\ log_ok y.

(** A step that adds nothing to the log and moves no connection back. *)
Lemma log_ok_same y y' :
  log_ok y -> sys_log y' = sys_log y -> (sv_next_id (sys_sv y) <= sv_next_id (sys_sv y'))%Z ->
  (forall id, (id < sv_next_id (sys_sv y))%Z -> sys_upgrading y !! id = None -> sys_upgrading y' !! id = None) ->
  (forall id cx, sys_live y' !! id = Some cx -> sys_live y !! id = Some cx \/ is_Some (sys_upgrading y !! id)) ->
  log_ok y'.
Proof.
  intros Hlog El En Hup Hlive.
  assert (forall Q ids, past Q ids y -> past Q ids y') as H; [|unfold log_ok; rewrite El; by destruct Hlog; auto].
  intros Q ids [Hnd Hpast]. split; [done|]. intros id Hid. destruct (Hpast _ Hid) as (?&Hu&Hl).
  split_and!; [lia|by apply Hup|]. intros cx [Hcx|[ip Hip]]%Hlive; [by apply Hl|by rewrite Hu in Hip].
Qed.

Lemma past_read (at_point : Phase -> Prop) ids new y y' id cx cx' (stays : Prop) :
  past at_point ids y -> sys_live y !! id = Some cx -> (id < sv_next_id (sys_sv y))%Z ->
  sys_upgrading y !! id = None ->
  sv_next_id (sys_sv y') = sv_next_id (sys_sv y) -> sys_upgrading y' = sys_upgrading y ->
  (forall id' c, sys_live y' !! id' = Some c ->
     (id' <> id /\ sys_live y !! id' = Some c) \/ (id' = id /\ c = cx' /\ stays)) ->
  (at_point (phase cx) -> at_point (phase cx')) ->
  new = [] \/ (new = [id] /\ ~ at_point (phase cx) /\ (stays -> at_point (phase cx'))) ->
  past at_point (ids ++ new) y'.
Proof.
  intros [Hnd Hpast] Hid Hlt Hup En Eu Hlive Hkeep Hnew. split.
  - apply NoDup_app. split; [done|]. destruct Hnew as [-> |(-> & Hnot & _)].
    + split; [by intros ? _ ?%not_elem_of_nil|constructor].
    + split; [|apply NoDup_singleton]. intros x Hx ->%list_elem_of_singleton.
      destruct (Hpast _ Hx) as (_&_&Hl). by apply Hnot, Hl.
  - rewrite En, Eu. intros id' [Hin|Hin]%elem_of_app.
    + destruct (Hpast _ Hin) as (?&?&Hl). split_and!; [done|done|].
      intros c [[_ Hc]|(-> & -> & _)]%Hlive; [by apply Hl|by apply Hkeep, Hl].
    + destruct Hnew as [-> |(-> & _ & Hst)]; [by apply not_elem_of_nil in Hin|].
      apply list_elem_of_singleton in Hin as ->. split_and!; [done|done|].
      intros c [[? _]|(_ & -> & Hs)]%Hlive; [done|by apply Hst].
Qed.

Lemma log_ok_read y id cx cx' fl sv' sv (a : arrival) drawn :
  log_ok y -> sys_live y !! id = Some cx -> cx_id cx = id -> (id < sv_next_id (sys_sv y))%Z ->
  sys_upgrading y !! id = None -> moved (attempt_in sv cx a) cx fl cx' ->
  sv_next_id (sys_sv (after_read y id fl sv' cx' (observed sv cx a drawn cx'))) = sv_next_id (sys_sv y) ->
  log_ok (after_read y id fl sv' cx' (observed sv cx a drawn cx')).
Proof.
  intros [Hc Ha] Hid Hcid Hlt Hup Hmv En. set (y' := after_read _ _ _ _ _ _) in *.
  assert (forall id' c, sys_live y' !! id' = Some c ->
            (id' <> id /\ sys_live y !! id' = Some c) \/ (id' = id /\ c = cx' /\ (fl = Next \/ fl = Wait))) as Hlive.
  { intros id' c. unfold y'. simpl. clear. destruct fl.
    1,3: intros [[<- <-]|[? ?]]%lookup_insert_Some; [right; by auto|left; by auto].
    all: intros [? ?]%lookup_delete_Some; left; by auto. }
  unfold log_ok. change (sys_log y') with (sys_log y ++ observed sv cx a drawn cx').
  unfold challenged_ids, attempted_ids. rewrite !omap_app.
  pose proof (observed_shape sv cx a drawn cx') as Hshape.
  split; (eapply past_read; [eassumption|exact Hid|done|done|done|done|exact Hlive| |]);
    unfold moved in Hmv; rewrite Hcid in Hshape.
  - clear -Hmv. destruct (phase cx); [done|..]; intros _; [|by rewrite Hmv].
    by destruct Hmv as [[_ (n&b&->)]| ->].
  - clear -Hmv Hshape. destruct Hshape as [-> |[(-> & (n&b&->) & ->)|(e&n&b&h&r&d&bu&sg&ms&Hp&Hat&->&->)]]; simpl;
      [by left|right|by left]. split_and!; [done|naive_solver|done].
  - clear -Hmv. intros Hp. by rewrite Hp in Hmv.
  - clear -Hmv Hshape. destruct Hshape as [-> |[(-> & (n&b&->) & ->)|(e&n&b&h&r&d&bu&sg&ms&Hp&Hat&->&->)]]; simpl;
      [by left|by left|right]. rewrite Hp, Hat in Hmv. rewrite Hp. split_and!; [done|done|].
    destruct Hmv as [[[|[-> | ->]] _]|]; [done|by intros [|]..|done].
Qed.

Lemma sys_ok_read config y id cx a drawn clk (w w' : world T) fl sv' cx' :
  (0 <= inbox_max_bytes (limits config))%Z -> sys_ok config y -> sys_live y !! id = Some cx ->
  read_turn (sys_sv y) cx a drawn clk w = (Done (fl, sv', cx'), w') ->
  sys_ok config (after_read y id fl sv' cx' (observed (sys_sv y) cx a drawn cx')).
Proof.
  intros Hib (H0 & Hq & Hg & Hcx & Hlog) Hid Hrun.
  destruct (q_live _ _ Hq _ _ Hid) as (_ & _ & Hcid & _).
  pose proof (read_turn_post (sys_log y) (sys_sv y) cx a drawn clk
    ltac:(by rewrite (q_config _ _ Hq)) Hg (Hcx _ _ Hid) w) as Hpost.
  unfold wpc in Hpost. rewrite Hrun in Hpost. destruct Hpost as (Hcore & [Hi Ho] & Hmv & Hlog').
  set (log' := sys_log y ++ observed (sys_sv y) cx a drawn cx').
  assert (good (admitted_by log') sv' /\ conn_auth log' cx') as [Hg' Hc'].
  { apply Hlog'; [by apply list_subseteq_app_l|..].
    - intros Hp Hp'. apply elem_of_app. right. unfold observed, moved in *. rewrite Hp in *.
      destruct Hmv as [|(n & b & ->)]; [done|]. by left.
    - intros e He. apply elem_of_app. right. rewrite (observed_attempt _ _ _ _ _ _ He). by left. }
  assert (map_Forall (fun _ cx => conn_auth log' cx) (sys_live y)) as Hcx'.
  { intros i c Hi'. eapply conn_auth_mono; [|by eapply Hcx]. by apply list_subseteq_app_l. }
  pose proof Hcore as Hcore0. injection Hcore as E1 E2 E3 E4 E5.
  destruct (finish_good (admitted_by log') sv' cx' ltac:(by rewrite E1, (q_config _ _ Hq)) Hg') as [Hgf Hcf].
  injection Hcf as F1 F2 F3 F4 F5. split_and!; [done| | | |].
  - destruct fl; [by eapply quota_next| |by eapply quota_next|];
      (eapply quota_leave; [exact Hq|exact Hid|done..| | |]); simpl; try congruence.
    + left. by rewrite F3, F4, E3, E4, Hi, Hcid.
    + right. by rewrite E4.
  - change (sys_log (after_read _ _ _ _ _ _)) with log'. by destruct fl.
  - change (sys_log (after_read _ _ _ _ _ _)) with log'. simpl.
    destruct fl; [by apply map_Forall_insert_2|by apply map_Forall_delete|by apply map_Forall_insert_2|by apply map_Forall_delete].
  - eapply log_ok_read; [done|exact Hid|done| | |exact Hmv|].
    + destruct (decide (sv_next_id (sys_sv y) <= id)%Z) as [Hle|]; [|lia].
      destruct (q_fresh _ _ Hq _ Hle) as (_ & H & _). by rewrite Hid in H.
    + apply eq_None_not_Some. intros [ip Hip]. destruct (q_upgrading _ _ Hq _ _ Hip) as [H _]. by rewrite Hid in H.
    + simpl. destruct fl; simpl; congruence.
Qed.

(** Steps of the rooms, the writers and the background tasks. *)
Lemma sys_ok_with config y f :
  sys_ok config y -> core (f (sys_sv y)) = core (sys_sv y) ->
  (forall A, good A (sys_sv y) -> good A (f (sys_sv y))) -> sys_ok config (with_sv f y).
Proof.
  intros (H0 & [Hc Hn Hf Hu Hl Ht Hp] & Hg & Hcx & Hlog) Hcore HG. injection Hcore as E1 E2 E3 E4 E5.
  split_and!; [done| |by apply HG|done|].
  - split; simpl; rewrite ?E1, ?E3, ?E4, ?E5; done.
  - eapply log_ok_same; [exact Hlog|done|simpl; rewrite E5; done|done|by left].
Qed.

Lemma good_rooms A rooms sv :
  relay_ok (limits (sv_config sv)) rooms -> rooms_auth A rooms -> good A (put_rooms rooms sv).
Proof. by split. Qed.

Lemma system_step_ok config y y' :
  (0 <= inbox_max_bytes (limits config))%Z -> (0 <= outbox_max_bytes (limits config))%Z ->
  sys_ok config y -> (1 + sys_accepted y' < 2 ^ 64)%Z -> system_step (T := T) y y' -> sys_ok config y'.
Proof.
  intros Hib Hob Hok Hb Hstep. pose proof Hok as (H0 & Hq & Hg & Hcx & Hlog). destruct Hstep; simpl in Hb.
  - destruct (quota_accept _ _ _ _ _ _ _ Hq H0 ltac:(lia) H) as (-> & Hr & Hq').
    pose proof (q_config _ _ Hq') as Ec. simpl in Ec. pose proof (q_next _ _ Hq') as En. simpl in En.
    split_and!; simpl; [lia|done| |done|].
    + unfold good. rewrite Hr, Ec, <- (q_config _ _ Hq). done.
    + pose proof (q_next _ _ Hq). eapply log_ok_same; simpl; [done|done|lia| |by left].
      intros i Hi Hui. rewrite lookup_insert_ne by lia. done.
  - split_and!; simpl; [done|by apply quota_upgrade| | |].
    + apply (good_put_out (admitted_by _)); [|done]. apply all_ok_insert; [apply Hg|].
      apply outbox_new_ok. by rewrite (q_config _ _ Hq).
    + by apply map_Forall_insert_2.
    + eapply log_ok_same; simpl; [done|done|lia| |].
      * intros i _ Hi. by apply lookup_delete_None; right.
      * intros i c [[<- <-]|[_ Hc]]%lookup_insert_Some; [right; by eexists|by left].
  - split_and!; simpl; [done|by eapply quota_upgrade_failed|done|done|].
    eapply log_ok_same; simpl; [done|done|lia| |by left]. intros i _ Hi. by apply lookup_delete_None; right.
  - by eapply sys_ok_read.
  - split_and!; simpl; [done|by apply quota_drained|done|done|].
    eapply log_ok_same; simpl; [done|done|lia|done|by left].
  - apply sys_ok_with; [done|done|]. intros A [H1 H2]. apply good_rooms; [by eapply actor_turn_ok|by eapply actor_turn_auth].
  - apply sys_ok_with; [done|done|]. intros A HA. apply good_put_out; [|done].
    apply all_ok_insert; [apply HA|]. eapply recv_step_ok; [|done]. by eapply (proj1 (proj1 HA)).
  - apply sys_ok_with; [done|done|]. intros A HA. apply good_put_out; [|done].
    apply all_ok_insert; [apply HA|]. by apply (proj1 (proj1 HA) h o).
  - by apply sys_ok_with.
  - by apply sys_ok_with.
Qed.

Lemma accepted_grows y y' : system_step (T := T) y y' -> (sys_accepted y <= sys_accepted y')%Z.
Proof. destruct 1; simpl; lia. Qed.

Lemma reachable_ok config registry pairing mailbox y :
  (0 <= inbox_max_bytes (limits config))%Z -> (0 <= outbox_max_bytes (limits config))%Z ->
  rtc (system_step (T := T)) (boot config registry pairing mailbox) y ->
  (1 + sys_accepted y < 2 ^ 64)%Z -> sys_ok config y.
Proof.
  intros Hib Hob. revert y. apply (rtc_ind_r (fun y => (1 + sys_accepted y < 2 ^ 64)%Z -> sys_ok config y)).
  - intros _. split_and!; [done| |split; [split; apply map_Forall_empty|split; [apply map_Forall_empty|done]]|apply map_Forall_empty|].
    + split; try done. cbn [boot server_new sys_sv sv_permits sys_upgrading sys_live sys_draining].
      rewrite !map_size_empty, size_empty. lia.
    + split; (split; [constructor|]); by intros id ?%not_elem_of_nil.
  - intros y y' _ Hstep IH Hb. pose proof (accepted_grows _ _ Hstep). eapply system_step_ok; [done|done|apply IH; lia|done|done].
Qed.

(** C11. Every reachable state of the whole relay keeps its limits.  Upgrading,
    live and draining connections never exceed the connection quota, every
    live connection is in the table under its own id with its own outbox, and
    the table has no other entries but those of connections whose task died.
    Outboxes and inboxes stay within their frames, events and bytes. *)
Theorem server_limits config registry pairing mailbox y :
  (0 <= inbox_max_bytes (limits config))%Z -> (0 <= outbox_max_bytes (limits config))%Z ->
  rtc (system_step (T := T)) (boot config registry pairing mailbox) y -> (1 + sys_accepted y < 2 ^ 64)%Z ->
  size (sys_upgrading y) + size (sys_live y) + size (sys_draining y) <= max_connections (limits config) /\
  (forall id cx, sys_live y !! id = Some cx ->
     cx_id cx = id /\ sv_connections (sys_sv y) !! id = Some (cx_outbox cx)) /\
  (forall id, is_Some (sv_connections (sys_sv y) !! id) -> is_Some (sys_live y !! id) \/ id ∈ sys_dead y) /\
  (forall h o, sv_out (sys_sv y) !! h = Some o ->
     length (ob_queue o) <= ob_cap o /\ ob_pending o = sum_sizes (ob_queue o) /\ (ob_pending o <= ob_max o)%Z) /\
  (forall i a ib, rs_actors (sv_rooms (sys_sv y)) !! i = Some (a, ib) ->
     length (ib_events ib) <= inbox_max_events (limits config) /\
     (ib_bytes ib <= inbox_max_bytes (limits config))%Z).
Proof.
  intros Hib Hob Hrun Hb. destruct (reachable_ok _ _ _ _ _ Hib Hob Hrun Hb) as (_ & Hq & [[Hout Ha] _] & _ & _).
  pose proof (q_config _ _ Hq) as Ec. split_and!.
  - pose proof (q_permits _ _ Hq). lia.
  - intros id cx Hid. by destruct (q_live _ _ Hq _ _ Hid) as (_ & _ & ? & ?).
  - intros id [h Hh]. by eapply (q_table _ _ Hq).
  - intros h o Ho. destruct (Hout h o Ho) as (H1 & H2 & H3 & H4). simpl in *. split_and!; [lia|lia|done].
  - intros i a ib Hi. destruct (Ha i _ Hi) as (_ & (_ & _ & H3 & H4) & _). rewrite Ec in H3, H4. done.
Qed.

(** C3. Nobody acts in a room without having authenticated for it.  In every
    reachable state of the whole relay, a member online in a room's actor, a
    join waiting in its inbox and the sender of a clip waiting there are each
    a connection that was issued a nonce, and answered it with a signature
    over that nonce, the room, the device id and the bundle, under a key whose
    fingerprint the registry listed for the room; a member's clips go to the
    outbox of that connection.  A connection is challenged at most once and
    makes at most one attempt, so a nonce serves one join. *)
Theorem only_members_act config registry pairing mailbox y :
  (0 <= inbox_max_bytes (limits config))%Z -> (0 <= outbox_max_bytes (limits config))%Z ->
  rtc (system_step (T := T)) (boot config registry pairing mailbox) y -> (1 + sys_accepted y < 2 ^ 64)%Z ->
  (forall i a ib, rs_actors (sv_rooms (sys_sv y)) !! i = Some (a, ib) ->
     (forall fp m, online a !! fp = Some m ->
        admitted_by (sys_log y) (connection_id m) (member_outbox m) (a_room_id a) fp) /\
     (forall fp dev conn h, RJoin fp dev conn h ∈ ib_events ib -> admitted_by (sys_log y) conn h (a_room_id a) fp) /\
     (forall fp conn ct n, RClip fp conn ct n ∈ ib_events ib ->
        exists h, admitted_by (sys_log y) conn h (a_room_id a) fp)) /\
  NoDup (challenged_ids (sys_log y)) /\ NoDup (attempted_ids (sys_log y)).
Proof.
  intros Hib Hob Hrun Hb.
  destruct (reachable_ok _ _ _ _ _ Hib Hob Hrun Hb) as (_ & _ & [_ [Ha _]] & _ & [[Hc _] [Ht _]]).
  split_and!; [|done|done]. intros i a ib Hi. destruct (Ha i _ Hi) as [[He Hon] _]. simpl in *.
  rewrite Forall_forall in He. split_and!.
  - intros fp m Hm. by apply (Hon fp m).
  - intros fp dev conn h Hin. apply (He _ Hin).
  - intros fp conn ct n Hin. apply (He _ Hin).
Qed.
End auth.

Module ServerToy.
Import Toy.
#[local] Existing Instance toy_base64.
#[local] Existing Instance toy_sha256.
#[local] Existing Instance toy_ed25519.
#[local] Existing Instance ProtocolToy.frame_json.

Abbreviation toy_system := (system InMemoryRegistry NoopMailboxSink PairingUnavailable).
Abbreviation toy_step := (system_step (T := unit) (R := InMemoryRegistry) (M := NoopMailboxSink)
  (P := PairingUnavailable)).

Definition config : ServerConfig := {| trusted_proxy := None; limits := limits_default |}.
Definition key (c : byte) : bytes := replicate 32 c.
Definition alice : PubBundle := {| sign_pk := key "a"%byte; dh_pk := key "b"%byte |}.
Definition bob : PubBundle := {| sign_pk := key "c"%byte; dh_pk := key "d"%byte |}.
Definition room : string := room_id alice bob.
Definition registry : InMemoryRegistry :=
  {| mem_rooms := {[room := {| members := (bundle_fp alice, bundle_fp bob); created_at_ms := 1;
                               activated_at_ms := None; activated_members := ∅ |}]} |}.
Definition nonce : bytes := key "n"%byte.
Definition clk : clock := {| mono := 10; unix := 20 |}.

Definition y0 : toy_system := boot config registry Unavailable Noop.

Definition accepted : toy_system :=
  match ws_handler (sys_sv y0) (IpV4 (replicate 4 x01)) None with
  | Some (Ok (ip, id), sv) =>
      {| sys_sv := sv; sys_upgrading := <[id := ip]> (sys_upgrading y0); sys_live := sys_live y0;
         sys_draining := sys_draining y0; sys_dead := sys_dead y0; sys_accepted := sys_accepted y0 + 1;
         sys_log := sys_log y0 |}
  | _ => y0
  end.

Definition upgraded : toy_system :=
  let ip := IpV4 (replicate 4 x01) in
  {| sys_sv := (connect (sys_sv accepted) ip 1 0).1; sys_upgrading := delete 1%Z (sys_upgrading accepted);
     sys_live := <[1%Z := (connect (sys_sv accepted) ip 1 0).2]> (sys_live accepted);
     sys_draining := sys_draining accepted; sys_dead := sys_dead accepted;
     sys_accepted := sys_accepted accepted; sys_log := sys_log accepted |}.

(** Connection 1 reads a frame. *)
Definition reads (y : toy_system) (f : Frame) : toy_system :=
  let a := {| waited := Some 5%Z; item := Some (Text (str_of_bytes (RoomToy.enc f))) |} in
  match sys_live y !! 1%Z with
  | Some cx =>
      match read_turn (T := unit) (sys_sv y) cx a nonce clk RoomToy.blank with
      | (Done (fl, sv', cx'), _) => after_read (T := unit) y 1 fl sv' cx' (observed (T := unit) (sys_sv y) cx a nonce cx')
      | _ => y
      end
  | None => y
  end.

Definition turns (y : toy_system) : toy_system :=
  match actor_turn (T := unit) (sv_rooms (sys_sv y)) 0 30 RoomToy.blank with
  | (Done rooms, _) => with_sv (put_rooms rooms) y
  | _ => y
  end.

Lemma reads_step y f : rtc toy_step y (reads y f).
Proof.
  unfold reads. destruct (sys_live y !! 1%Z) as [cx|] eqn:Hl; [|apply rtc_refl].
  destruct (read_turn _ _ _ _ _ _) as [[[[fl sv'] cx']|] w'] eqn:Hr; [|apply rtc_refl].
  apply rtc_once. by eapply sys_read.
Qed.

Lemma turns_step y : rtc toy_step y (turns y).
Proof.
  unfold turns. destruct (actor_turn _ _ _ _) as [[rooms|] w'] eqn:Hr; [|apply rtc_refl].
  apply rtc_once. by eapply sys_actor.
Qed.

Definition join_frame : Frame :=
  let message := match join_sig_msg nonce room (device_id (sign_pk alice)) (bundle_bytes alice) with
                 | Ok m => m | Err _ => [] end in
  Join room (device_id (sign_pk alice)) alice (b64_encode (ed_sign (key "a"%byte) message)).

Definition joining : toy_system :=
  turns (reads (reads upgraded (Hello (device_id (sign_pk alice)) alice PROTOCOL_VERSION)) join_frame).

Lemma joining_reached : rtc toy_step y0 joining.
Proof.
  unfold joining. etrans; [|apply turns_step]. etrans; [|apply reads_step]. etrans; [|apply reads_step].
  apply (rtc_l _ _ accepted).
  - eapply (sys_accept y0 (IpV4 (replicate 4 x01)) None). vm_compute; reflexivity.
  - apply rtc_once. apply (sys_upgrade accepted 1 (IpV4 (replicate 4 x01)) 0); vm_compute; reflexivity.
Qed.

Definition actor_of (y : toy_system) : option (RoomActor * Inbox) := rs_actors (sv_rooms (sys_sv y)) !! 0.

Lemma joining_online :
  (fun x => online x.1) <$> actor_of joining =
  Some {[bundle_fp alice := {| connection_id := 1; member_outbox := 0 |}]} /\ sys_accepted joining = 1%Z /\
  (fun x => a_room_id x.1) <$> actor_of joining = Some room.
Proof. split_and!; vm_compute; reflexivity. Qed.

Lemma server_limits_witness :
  is_Some (sys_live joining !! 1%Z) /\
  size (sys_upgrading joining) + size (sys_live joining) + size (sys_draining joining) <= 256.
Proof.
  split; [vm_compute; by eexists|].
  refine (proj1 (server_limits (T := unit) config registry Unavailable Noop joining _ _ joining_reached _)); [done|done|].
  rewrite (proj1 (proj2 joining_online)). lia.
Defined.

Lemma only_members_act_witness : admitted_by (sys_log joining) 1 0 room (bundle_fp alice).
Proof.
  destruct joining_online as (Hon & Hacc & Hroom).
  destruct (actor_of joining) as [[a ib]|] eqn:Ha; [|done]. injection Hon as Hon. injection Hroom as <-.
  refine (proj1 (proj1 (only_members_act (T := unit) config registry Unavailable Noop joining _ _ joining_reached _)
    0 a ib Ha) (bundle_fp alice) {| connection_id := 1; member_outbox := 0 |} _); [done|done| |].
  - rewrite Hacc. lia.
  - simpl in Hon. rewrite Hon. apply lookup_singleton_eq.
Defined.
End ServerToy.
