(* ===== verification/PairingClient.v ===== *)
(** * The relay client ([crates/core/src/pairing_client.rs])

    The client side of the relay protocol: the hello, an offer or a claim, the
    join with its one bootstrap frame, and the live link with its reconnects.
    A websocket is what it will deliver and how its sends will end; [s_log]
    is a ghost, the frames exchanged so far.  [sk] is the state and error
    monad of the functions that work on one socket.  Dialling (TCP, TLS, the
    websocket handshake) is an argument: the socket, or the text of the
    error.  Random draws are arguments too. *)

From S2P Require Import Prelude Fs Interfaces Protocol Crypto Pairing.
From Stdlib Require Import Strings.Byte.

Set Default Goal Selector "!".
#[local] Open Scope clip_scope.

Definition PAIRING_CODE_ALPHABET : bytes := as_bytes "23456789ABCDEFGHJKMNPQRSTVWXYZ".

Inductive TransportError :=
| TPairing (e : PairingError) | TProtocol (e : ProtocolError) | TWebSocket (text : string)
| TServer (code message : string) | TNotPaired | TClosed.

(** What [socket.next()] yields, besides the end of the stream. *)
Inductive delivery := DText (text : string) | DClose | DOther | DError (text : string).

Inductive exchange := Sent (f : Frame) | Got (f : Frame).

(** [s_in] ends with the stream; sends beyond [s_out] succeed. *)
Record Socket := { s_in : list delivery; s_out : list (result unit string); s_log : list exchange }.

Definition sk (A : Type) : Type := Socket -> result A TransportError * Socket.

Definition sk_ret {A} (a : A) : sk A := fun s => (Ok a, s).
Definition sk_fail {A} (e : TransportError) : sk A := fun s => (Err e, s).

(** Rust's [?] on the result of a call that works on the socket. *)
Definition sk_bind {A B} (m : sk A) (k : A -> sk B) : sk B := fun s =>
  match m s with
  | (Ok a, s) => k a s
  | (Err e, s) => (Err e, s)
  end.
Notation "x ←~ m ; k" := (sk_bind m (fun x => k)) (at level 20, m at level 100, k at level 200, only parsing).

Definition sk_result {A E} (conv : E -> TransportError) (r : result A E) : sk A := fun s => (map_err conv r, s).

Section client.
Context {T : Type} {B64 : Base64} {S256 : Sha256} {Ed : Ed25519} {X : X25519} {JF : Json Frame}.
Context {JI : Json IdentityDocument} {JQ : Json QrPayload} {JR : Json PairingRecord}.

(** [debug] is [cfg!(debug_assertions)], [frame_debug] the derived [Debug] text of a frame. *)
Context (debug : bool) (frame_debug : Frame -> string).

Definition socket_send_frame (frame : Frame) : sk unit := fun s =>
  match encode_frame frame with
  | Err e => (Err (TProtocol e), s)
  | Ok encoded =>
      match from_utf8 encoded with
      | None => (Err (TProtocol (BadFrame "encoded frame was not UTF-8")), s)
      | Some _ =>
          match s_out s with
          | Err e :: out => (Err (TWebSocket e), {| s_in := s_in s; s_out := out; s_log := s_log s |})
          | Ok _ :: out => (Ok tt, {| s_in := s_in s; s_out := out; s_log := s_log s ++ [Sent frame] |})
          | [] => (Ok tt, {| s_in := s_in s; s_out := []; s_log := s_log s ++ [Sent frame] |})
          end
      end
  end.

Definition socket_receive_frame : sk Frame := fun s =>
  match s_in s with
  | [] => (Err TClosed, s)
  | d :: rest =>
      let s' := {| s_in := rest; s_out := s_out s; s_log := s_log s |} in
      match d with
      | DText text =>
          match decode_frame (as_bytes text) with
          | Ok f => (Ok f, {| s_in := rest; s_out := s_out s; s_log := s_log s ++ [Got f] |})
          | Err e => (Err (TProtocol e), s')
          end
      | DClose => (Err TClosed, s')
      | DOther => (Err (TProtocol (BadFrame "relay sent a non-text websocket frame")), s')
      | DError e => (Err (TWebSocket e), s')
      end
  end.

Definition unexpected (expected : string) (actual : Frame) : TransportError :=
  TProtocol (BadFrame ("expected " +:+ expected +:+ ", received " +:+ frame_debug actual)).

(** The two arms every wait for a reply ends with. *)
Definition refused {A} (expected : string) (f : Frame) : sk A :=
  match f with
  | ErrorFrame code message => sk_fail (TServer code message)
  | f => sk_fail (unexpected expected f)
  end.

Definition decode_challenge (encoded : string) : result bytes TransportError :=
  match b64_decode encoded with
  | Err _ => Err (TProtocol (BadFrame "hello_ok nonce is not base64"))
  | Ok b =>
      if bool_decide (length b = 32) then Ok b
      else Err (TProtocol (BadFrame "hello_ok nonce must be 32 bytes"))
  end.

(** The sockets of the client's structures are the state of [sk]. *)
Record PairingClient := { pcl_server : string; pcl_identity : Identity; pcl_challenge : bytes }.

Record PairingOffer := {
  off_qr : QrPayload; off_offerer : Offerer; off_identity : Identity; off_challenge : bytes
}.

Record PairingChannel := { ch_pending : PendingConfirmation; ch_identity : Identity; ch_challenge : bytes }.

Record LiveLink := { l_identity : Identity; l_record : PairingRecord; bootstrap_clip : option (string * string) }.

Inductive LiveEvent := LiveFrame (f : Frame) | Reconnected (bootstrap : option (string * string)).

Definition handshake (server : string) (identity : Identity) : sk PairingClient :=
  _ ←~ socket_send_frame (Hello (identity_device_id identity) (public_bundle identity) PROTOCOL_VERSION);
  f ←~ socket_receive_frame;
  match f with
  | HelloOk version nonce_b64 =>
      if (version =? PROTOCOL_VERSION)%Z then
        challenge ←~ sk_result id (decode_challenge nonce_b64);
        sk_ret {| pcl_server := server; pcl_identity := identity; pcl_challenge := challenge |}
      else refused "hello_ok" f
  | f => refused "hello_ok" f
  end.

(** [drawn] are the six indices of [gen_range]. *)
Definition generate_pairing_code (drawn : list nat) : string :=
  str_of_bytes ((fun i => default "000"%byte (PAIRING_CODE_ALPHABET !! i)) <$> drawn).

Definition pair_begin (self : PairingClient) (code_drawn : list nat) (nonce_a : bytes) : sk PairingOffer :=
  let code := generate_pairing_code code_drawn in
  let bundle := public_bundle (pcl_identity self) in
  _ ←~ socket_send_frame (PairOffer code bundle);
  f ←~ socket_receive_frame;
  match f with
  | PairOfferOk =>
      qr ←~ sk_result TPairing (qr_new debug (pcl_server self) code bundle nonce_a);
      offerer ←~ sk_result TPairing (offerer_start debug (pcl_identity self) qr);
      sk_ret {| off_qr := qr; off_offerer := offerer; off_identity := pcl_identity self;
                off_challenge := pcl_challenge self |}
  | f => refused "pair_offer_ok" f
  end.

Definition claim_channel (qr : QrPayload) (claimer : Claimer) (client : PairingClient) : sk PairingChannel :=
  _ ←~ socket_send_frame (PairClaim (qr_code qr) (public_bundle (pcl_identity client)));
  f ←~ socket_receive_frame;
  match f with
  | PairPeer peer =>
      pending ←~ sk_result TPairing (claimer_receive_peer claimer (qr_server qr) peer);
      sk_ret {| ch_pending := pending; ch_identity := pcl_identity client; ch_challenge := pcl_challenge client |}
  | f => refused "pair_peer" f
  end.

Definition wait_peer (self : PairingOffer) : sk PairingChannel :=
  f ←~ socket_receive_frame;
  match f with
  | PairPeer peer =>
      pending ←~ sk_result TPairing (offerer_receive_peer (off_offerer self) peer);
      sk_ret {| ch_pending := pending; ch_identity := off_identity self; ch_challenge := off_challenge self |}
  | f => refused "pair_peer" f
  end.

Definition join_live (identity : Identity) (record : PairingRecord) (challenge : bytes) : sk LiveLink :=
  let device := identity_device_id identity in
  let bundle := public_bundle identity in
  message ←~ sk_result (fun e => TPairing (PairingCrypto e))
               (join_sig_msg challenge (rec_room_id record) device (bundle_bytes bundle));
  _ ←~ socket_send_frame (Join (rec_room_id record) device bundle (b64_encode (identity_sign identity message)));
  f ←~ socket_receive_frame;
  match f with
  | JoinOk =>
      g ←~ socket_receive_frame;
      match g with
      | MailboxEmpty => sk_ret {| l_identity := identity; l_record := record; bootstrap_clip := None |}
      | Clip room_id ciphertext _ true =>
          sk_ret {| l_identity := identity; l_record := record; bootstrap_clip := Some (room_id, ciphertext) |}
      | g => refused "bootstrap" g
      end
  | f => refused "join_ok" f
  end.

Definition link_send (frame : Frame) : sk unit := socket_send_frame frame.

Definition link_recv : sk Frame :=
  f ←~ socket_receive_frame;
  match f with
  | Clip _ _ _ false => sk_ret f
  | f => refused "live clip" f
  end.

(** ** With the pairing store

    A call that fails drops its socket; a call that succeeds hands it on. *)

Abbreviation dial := (result Socket string).

Definition on_socket {A} (m : sk A) (s : Socket) : result (A * Socket) TransportError :=
  match m s with
  | (Ok a, s) => Ok (a, s)
  | (Err e, _) => Err e
  end.

(** [connect] and [connect_with_tls]: the identity, the dialled socket, the hello. *)
Definition client_connect (drawn : bytes * bytes) (root server : string) (dialled : dial) :
    io T (result (PairingClient * Socket) TransportError) :=
  identity ←! load_identity drawn root @ TPairing;
  mret match dialled with
       | Err e => Err (TWebSocket e)
       | Ok s => on_socket (handshake server identity) s
       end.

Definition client_claim (drawn : bytes * bytes) (root : string) (qr : QrPayload) (dialled : dial) :
    io T (result (PairingChannel * Socket) TransportError) :=
  identity ←! load_identity drawn root @ TPairing;
  match claimer_start debug identity qr with
  | Err e => mret (Err (TPairing e))
  | Ok claimer =>
      client ←! client_connect drawn root (qr_server qr) dialled;
      mret (on_socket (claim_channel qr claimer client.1) client.2)
  end.

Definition client_join (drawn : bytes * bytes) (root : string) (dialled : dial) :
    io T (result (LiveLink * Socket) TransportError) :=
  record ←! load_pairing debug drawn root @ TPairing;
  match record with
  | None => mret (Err TNotPaired)
  | Some record =>
      client ←! client_connect drawn root (server record) dialled;
      mret (on_socket (join_live (pcl_identity client.1) record (pcl_challenge client.1)) client.2)
  end.

Definition confirm_pair (drawn : bytes * bytes) (self : PairingChannel) (sas root : string) (s : Socket) :
    io T (result (LiveLink * Socket) TransportError) :=
  record ←! confirm debug drawn (ch_pending self) sas root @ TPairing;
  mret (on_socket (join_live (ch_identity self) record (ch_challenge self)) s).

(** [TransportError::Closed | TransportError::WebSocket(_)]. *)
Definition transient (e : TransportError) : bool :=
  match e with TClosed | TWebSocket _ => true | _ => false end.

(** The loop of [reconnect] over the dials to come, [None] while it has not
    ended with them; the delays between the attempts are in [Backoff]. *)
Fixpoint reconnect (drawn : bytes * bytes) (root : string) (dials : list dial) :
    io T (option (result (LiveLink * Socket) TransportError)) :=
  match dials with
  | [] => mret None
  | d :: dials =>
      r ← client_join drawn root d;
      match r with
      | Ok link => mret (Some (Ok link))
      | Err e => if transient e then reconnect drawn root dials else mret (Some (Err e))
      end
  end.

Definition recv_reconnecting (drawn : bytes * bytes) (root : string) (link : LiveLink * Socket)
    (dials : list dial) : io T (option (result (LiveEvent * (LiveLink * Socket)) TransportError)) :=
  match link_recv link.2 with
  | (Ok frame, s) => mret (Some (Ok (LiveFrame frame, (link.1, s))))
  | (Err e, s) =>
      if transient e then
        r ← reconnect drawn root dials;
        mret match r with
             | None => None
             | Some (Ok link) => Some (Ok (Reconnected (bootstrap_clip link.1), link))
             | Some (Err e) => Some (Err e)
             end
      else mret (Some (Err e))
  end.
End client.

(** ** The client keeps the protocol's order *)

Definition exchanged (x : exchange) : Frame := match x with Sent f | Got f => f end.
Definition frames (log : list exchange) : list Frame := exchanged <$> log.

Section order.
Context {B64 : Base64} {S256 : Sha256} {Ed : Ed25519} {X : X25519} {JF : Json Frame}.
Context (debug : bool) (frame_debug : Frame -> string).

(** The frames exchanged are a legal run of the protocol that ends in [st]. *)
Definition legal_log (st : ConnectionState) (s : Socket) : Prop := run_order Connected (frames (s_log s)) = Ok st.

(** Every frame sent was legal where it was sent. *)
Definition sends_legal (log : list exchange) : Prop :=
  forall pre f post, log = pre ++ Sent f :: post -> is_ok (run_order Connected (frames pre ++ [f])) = true.

(** [m], begun in the state [st], sends only legal frames, and succeeds in [st']. *)
Definition drives {A} (st st' : ConnectionState) (m : sk A) : Prop :=
  forall s, legal_log st s -> sends_legal (s_log s) ->
    sends_legal (s_log (m s).2) /\ forall a, (m s).1 = Ok a -> legal_log st' (m s).2.

Lemma sends_legal_snoc log x :
  sends_legal log -> (forall f, x = Sent f -> is_ok (run_order Connected (frames log ++ [f])) = true) ->
  sends_legal (log ++ [x]).
Proof.
  intros Hl Hx pre f post Heq.
  destruct post as [|y post _] using rev_ind.
  - apply app_inj_tail in Heq as [<- ->]. by apply Hx.
  - rewrite app_comm_cons, (assoc_L (++)) in Heq. apply app_inj_tail in Heq as [-> _]. by eapply Hl.
Qed.

Lemma drives_ret {A} st (a : A) : drives st st (sk_ret a).
Proof. by intros s Hl Hs. Qed.

Lemma drives_fail {A} st st' e : drives st st' (sk_fail (A := A) e).
Proof. by intros s Hl Hs. Qed.

Lemma drives_bind {A B} st1 st2 st3 (m : sk A) (k : A -> sk B) :
  drives st1 st2 m -> (forall a, drives st2 st3 (k a)) -> drives st1 st3 (sk_bind m k).
Proof.
  intros Hm Hk s Hl Hs. destruct (Hm s Hl Hs) as [H1 H2]. unfold sk_bind.
  destruct (m s) as [[a|e] s1]; simpl in *; [|done]. by apply Hk; [apply (H2 a)|].
Qed.

Lemma drives_result {A E} st conv (r : result A E) : drives st st (sk_result conv r).
Proof. intros s Hl Hs. by destruct r. Qed.

Lemma drives_send st st' f : legal st (from_frame f) st' -> drives st st' (socket_send_frame f).
Proof.
  intros Hleg s Hl Hs. unfold socket_send_frame. destruct (encode_frame f) as [b|] eqn:He; [|done].
  destruct (from_utf8 b); [|done]. apply encode_frame_Ok in He as [Hwf _].
  assert (run_order Connected (frames (s_log s) ++ [f]) = Ok st') as Hrun.
  { apply run_order_snoc. exists st. by rewrite validate_frame_order_Ok. }
  assert (sends_legal (s_log s ++ [Sent f])) as Hsent.
  { apply sends_legal_snoc; [done|]. intros g [= <-]. by rewrite Hrun. }
  assert (forall i o, legal_log st' {| s_in := i; s_out := o; s_log := s_log s ++ [Sent f] |}) as Hlog.
  { intros i o. unfold legal_log, frames; simpl. by rewrite fmap_app. }
  destruct (s_out s) as [|[]]; simpl; [by split; [|auto]..|done].
Qed.

(** A reply that is legal goes on, any other ends the call. *)
Lemma drives_receive {A} st st' (k : Frame -> sk A) :
  (forall f, (exists st1, legal st (from_frame f) st1 /\ drives st1 st' (k f)) \/ exists e, k f = sk_fail e) ->
  drives st st' (sk_bind socket_receive_frame k).
Proof.
  intros Hk s Hl Hs. unfold sk_bind, socket_receive_frame. destruct (s_in s) as [|d rest]; [done|].
  destruct d as [text| | |]; try done. destruct (decode_frame _) as [f|] eqn:Hd; [|done].
  apply decode_frame_Ok in Hd as (_ & _ & Hwf). set (s1 := {| s_in := rest |}).
  assert (sends_legal (s_log s1)) as Hs1 by (by apply sends_legal_snoc).
  destruct (Hk f) as [(st1 & Hleg & Hd)|[e ->]]; [|done]. apply Hd; [|done].
  unfold legal_log, s1, frames; simpl. rewrite fmap_app. apply run_order_snoc. exists st.
  by rewrite validate_frame_order_Ok.
Qed.

Lemma handshake_drives server i : drives Connected Ready (handshake frame_debug server i).
Proof.
  eapply drives_bind; [apply drives_send; constructor|]. intros _. apply drives_receive.
  intros []; try (right; by eexists). destruct (_ =? _)%Z; [left|right; by eexists].
  exists Ready. split; [constructor|]. eapply drives_bind; [apply drives_result|]. intros c. apply drives_ret.
Qed.

Lemma pair_begin_drives c d n : drives Ready AwaitingPairPeer (pair_begin debug frame_debug c d n).
Proof.
  eapply drives_bind; [apply drives_send; constructor|]. intros _. apply drives_receive.
  intros []; try (right; by eexists). left. exists AwaitingPairPeer. split; [constructor|].
  eapply drives_bind; [apply drives_result|]. intros qr. eapply drives_bind; [apply drives_result|].
  intros o. apply drives_ret.
Qed.

Lemma claim_channel_drives qr cl c : drives Ready ReadyToJoin (claim_channel frame_debug qr cl c).
Proof.
  eapply drives_bind; [apply drives_send; constructor|]. intros _. apply drives_receive.
  intros []; try (right; by eexists). left. exists ReadyToJoin. split; [constructor|].
  eapply drives_bind; [apply drives_result|]. intros p. apply drives_ret.
Qed.

Lemma wait_peer_drives o : drives AwaitingPairPeer ReadyToJoin (wait_peer frame_debug o).
Proof.
  apply drives_receive. intros []; try (right; by eexists). left. exists ReadyToJoin. split; [constructor|].
  eapply drives_bind; [apply drives_result|]. intros p. apply drives_ret.
Qed.

Lemma join_live_drives st i r n : st = Ready \/ st = ReadyToJoin -> drives st Live (join_live frame_debug i r n).
Proof.
  intros Hst. eapply drives_bind; [apply drives_result|]. intros m.
  eapply drives_bind; [apply drives_send; by constructor|]. intros _. apply drives_receive.
  intros []; try (right; by eexists). left. exists Bootstrap. split; [constructor|]. apply drives_receive.
  intros [| | | | | | | |? ? ? []| |]; try (right; by eexists);
    left; exists Live; (split; [constructor; auto|apply drives_ret]).
Qed.

Lemma link_send_drives room ct origin : drives Live Live (link_send (Clip room ct origin false)).
Proof. apply drives_send. constructor. Qed.

Lemma link_recv_drives : drives Live Live (link_recv frame_debug).
Proof.
  apply drives_receive. intros [| | | | | | | |? ? ? []| |]; try (right; by eexists).
  left. exists Live. split; [constructor|apply drives_ret].
Qed.

(** *** The whole life of a client on one socket *)

Inductive life :=
| Dialled | HasClient (c : PairingClient) | HasOffer (o : PairingOffer) | HasChannel (c : PairingChannel)
| HasLink (l : LiveLink) | Over.

Definition advance {A} (m : sk A) (next : A -> life) (s : Socket) : life * Socket :=
  match m s with
  | (Ok a, s) => (next a, s)
  | (Err _, s) => (Over, s)
  end.

(** The calls an owner of each value may make; a record comes from the store
    or from a confirmation.  A failed call consumes its value, except that a
    link survives a failed send and a transient failure of a receive. *)
Inductive life_step : life * Socket -> life * Socket -> Prop :=
| life_hello server i s : life_step (Dialled, s) (advance (handshake frame_debug server i) HasClient s)
| life_offer c d n s : life_step (HasClient c, s) (advance (pair_begin debug frame_debug c d n) HasOffer s)
| life_peer o s : life_step (HasOffer o, s) (advance (wait_peer frame_debug o) HasChannel s)
| life_claim c qr cl s : life_step (HasClient c, s) (advance (claim_channel frame_debug qr cl c) HasChannel s)
| life_rejoin c r s :
    life_step (HasClient c, s) (advance (join_live frame_debug (pcl_identity c) r (pcl_challenge c)) HasLink s)
| life_confirm c r s :
    life_step (HasChannel c, s) (advance (join_live frame_debug (ch_identity c) r (ch_challenge c)) HasLink s)
| life_send l room ct origin s : life_step (HasLink l, s) (HasLink l, (link_send (Clip room ct origin false) s).2)
| life_recv l s : life_step (HasLink l, s) (advance (link_recv frame_debug) (fun _ => HasLink l) s)
| life_recv_failed l e s s' :
    link_recv frame_debug s = (Err e, s') -> transient e = true -> life_step (HasLink l, s) (HasLink l, s').

(** The protocol state each stage stands for. *)
Definition stage (l : life) : option ConnectionState :=
  match l with
  | Dialled => Some Connected | HasClient _ => Some Ready | HasOffer _ => Some AwaitingPairPeer
  | HasChannel _ => Some ReadyToJoin | HasLink _ => Some Live | Over => None
  end.

Definition life_ok (x : life * Socket) : Prop :=
  sends_legal (s_log x.2) /\ forall st, stage x.1 = Some st -> legal_log st x.2.

Lemma advance_ok {A} st st' (m : sk A) (next : A -> life) s :
  drives st st' m -> (forall a, stage (next a) = Some st') -> legal_log st s -> sends_legal (s_log s) ->
  life_ok (advance m next s).
Proof.
  intros Hm Hnext Hl Hs. destruct (Hm s Hl Hs) as [H1 H2]. unfold advance.
  destruct (m s) as [[a|e] s']; split; simpl in *; try done. intros st2. rewrite Hnext. intros [= <-]. by apply (H2 a).
Qed.

(** What leaves the link usable leaves the exchange as it was. *)
Lemma send_failed_log f s e s' : socket_send_frame f s = (Err e, s') -> s_log s' = s_log s.
Proof.
  unfold socket_send_frame. destruct (encode_frame f); [|by intros [= _ <-]].
  destruct (from_utf8 _); [|by intros [= _ <-]]. destruct (s_out s) as [|[]]; try done. by intros [= _ <-].
Qed.

Lemma recv_failed_log s e s' :
  link_recv frame_debug s = (Err e, s') -> transient e = true -> s_log s' = s_log s.
Proof.
  unfold link_recv, sk_bind, socket_receive_frame. destruct (s_in s) as [|[] rest]; try by intros [= <- <-].
  destruct (decode_frame _) as [f|]; [|by intros [= <- <-]].
  destruct f as [| | | | | | | |? ? ? []| |]; by intros [= <- <-].
Qed.

Lemma life_step_ok x y : life_step x y -> life_ok x -> life_ok y.
Proof.
  intros Hstep [Hs Hst].
  destruct Hstep as [| | | | | |l room ct origin s| |l e s s' Hr Ht]; simpl in *.
  9: { apply recv_failed_log in Hr; [|done]. unfold life_ok, legal_log in *; simpl in *. by rewrite Hr. }
  7: { destruct (link_send_drives room ct origin s (Hst _ eq_refl) Hs) as [H1 H2]. split; [done|].
       intros st [= <-]. simpl. destruct (link_send _ s) as [[u|e] s'] eqn:Hsend; [by apply (H2 u)|].
       apply send_failed_log in Hsend. specialize (Hst _ eq_refl). unfold legal_log in *; simpl in *. by rewrite Hsend. }
  all: eapply advance_ok; [|done|by apply Hst|done].
  - apply handshake_drives.
  - apply pair_begin_drives.
  - apply wait_peer_drives.
  - apply claim_channel_drives.
  - apply join_live_drives. by left.
  - apply join_live_drives. by right.
  - apply link_recv_drives.
Qed.

(** C22. Whatever the relay sends, the client keeps to the protocol's state
    table on a socket: every frame it sends is legal where it sends it, and a
    live link exists only after a legal exchange that ends in the state
    [Live].  After a reply that is illegal or unexpected it sends nothing more. *)
Theorem client_keeps_order incoming outcomes l s :
  rtc life_step (Dialled, {| s_in := incoming; s_out := outcomes; s_log := [] |}) (l, s) ->
  (forall pre f post, s_log s = pre ++ Sent f :: post ->
     exists st, run_order Connected (frames pre ++ [f]) = Ok st) /\
  (forall link, l = HasLink link -> run_order Connected (frames (s_log s)) = Ok Live).
Proof.
  intros Hrun. assert (life_ok (l, s)) as [Hs Hst].
  { eapply (rtc_ind_r life_ok); [|intros y z _ Hyz Hy; by eapply life_step_ok|exact Hrun].
    split; simpl; [by intros [] ? ?|by intros st [= <-]]. }
  split.
  - intros pre f post Heq. specialize (Hs _ _ _ Heq). destruct (run_order _ _) as [st|]; [by exists st|done].
  - intros link ->. by apply Hst.
Qed.
End order.

Module PairingClientToy.
Import Toy.
#[local] Existing Instance toy_base64.
#[local] Existing Instance toy_sha256.
#[local] Existing Instance toy_ed25519.
#[local] Existing Instance toy_x25519.
#[local] Existing Instance ProtocolToy.frame_json.

Definition text_of (f : Frame) : delivery :=
  DText (match encode_frame f with Ok b => str_of_bytes b | Err _ => "" end).

Definition alice : Identity := CryptoToy.alice.
Definition record : PairingRecord :=
  {| identity_generation := 1; server := "wss://relay"; rec_room_id := room_id (public_bundle alice) (public_bundle CryptoToy.bob);
     local_bundle_fp := identity_fp alice; peer_bundle := public_bundle CryptoToy.bob;
     peer_bundle_fp := identity_fp CryptoToy.bob |}.

Definition relay_says : list delivery :=
  text_of <$> [HelloOk PROTOCOL_VERSION (b64_encode (replicate 32 "n"%byte)); JoinOk; MailboxEmpty].

Definition dialled : Socket := {| s_in := relay_says; s_out := []; s_log := [] |}.
Definition greeted : life * Socket := advance (handshake (fun _ => "") "wss://relay" alice) HasClient dialled.
Definition client : PairingClient :=
  {| pcl_server := "wss://relay"; pcl_identity := alice; pcl_challenge := replicate 32 "n"%byte |}.
Definition linked : life * Socket :=
  advance (join_live (fun _ => "") (pcl_identity client) record (pcl_challenge client)) HasLink greeted.2.

Lemma client_keeps_order_witness :
  from_frame <$> frames (s_log linked.2) = [EvHello; EvHelloOk; EvJoin; EvJoinOk; EvMailboxEmpty] /\
  run_order Connected (frames (s_log linked.2)) = Ok Live.
Proof.
  split; [vm_compute; reflexivity|].
  assert (linked.1 = HasLink {| l_identity := alice; l_record := record; bootstrap_clip := None |}) as Hl
    by (vm_compute; reflexivity).
  assert (greeted.1 = HasClient client) as Hg by (vm_compute; reflexivity).
  refine (proj2 (client_keeps_order true (fun _ => "") relay_says [] linked.1 linked.2 _) _ Hl).
  apply (rtc_l _ _ greeted); [apply life_hello|]. apply rtc_once.
  rewrite (surjective_pairing greeted), Hg, <- (surjective_pairing linked).
  exact (life_rejoin true (fun _ => "") client record greeted.2).
Defined.
End PairingClientToy.
