(* ===== verification/Backoff.v ===== *)
(** * The delay between attempts

    [backoff_delay_with_jitter] of pairing_client.rs and [retryDelayMillis] of
    [ClipSyncApp.kt], in IEEE 754 double precision: a finite [f64] is its
    value, a rational, and the result of an operation is the exact one rounded
    to 53 bits, half to even.  The values that are rounded here lie between
    0.8 and 36000, far from the ends of the range of exponents, which are
    left out. *)

From S2P Require Import Prelude.
From Stdlib Require Import QArith Qround Qpower Lqa.

Set Default Goal Selector "!".
#[local] Open Scope Q_scope.

(** ** Doubles *)

Inductive f64 := FNan | FInfinite (negative : bool) | FFinite (q : Q).

Definition is_nan (x : f64) : bool := match x with FNan => true | _ => false end.

(** The largest power of two up to a positive [x], as an exponent. *)
Definition exponent (x : Q) : Z :=
  let l := (Z.log2 (Qnum x) - Z.log2 (Zpos (Qden x)))%Z in if Qle_bool (2 ^ l) x then l else (l - 1)%Z.

(** To the nearest integer, half to even. *)
Definition nearest_even (x : Q) : Z :=
  let f := Qfloor x in
  match Qcompare (x - inject_Z f) (1 # 2) with
  | Lt => f
  | Gt => (f + 1)%Z
  | Eq => if Z.even f then f else (f + 1)%Z
  end.

(** The double nearest to a positive [x]: 53 bits from the leading one. *)
Definition round_53 (x : Q) : Q :=
  let k := (52 - exponent x)%Z in inject_Z (nearest_even (x * 2 ^ k)) / 2 ^ k.

(** [0.2] as a literal. *)
Definition fifth : Q := round_53 (1 # 5).

(** [f64::clamp] and [coerceIn], with [-0.2] and [0.2]: a NaN stays one. *)
Definition clamp_jitter (x : f64) : f64 :=
  match x with
  | FNan => FNan
  | FInfinite negative => FFinite (if negative then - fifth else fifth)
  | FFinite q => FFinite (if negb (Qle_bool (- fifth) q) then - fifth else if negb (Qle_bool q fifth) then fifth else q)
  end.

(** [1.0 + jitter], then [(seconds as f64) * 1000.0 * factor]; products of
    small integers are exact. *)
Definition scaled (seconds : Z) (jitter : f64) : f64 :=
  match clamp_jitter jitter with
  | FFinite j => FFinite (round_53 (round_53 (inject_Z seconds * 1000) * round_53 (1 + j)))
  | other => other
  end.

(** ** The core *)

(** [2_u64.saturating_pow(attempt.min(31)).min(30)], which does not saturate. *)
Definition backoff_seconds (attempt : Z) : Z := Z.min (Z.min (2 ^ Z.min attempt 31) (2 ^ 64 - 1)) 30.

(** [f64::round], half away from zero, and [as u64], which saturates and takes a NaN to zero. *)
Definition round_away (x : Q) : Z := if Qle_bool 0 x then Qfloor (x + (1 # 2)) else Qceiling (x - (1 # 2)).
Definition as_u64 (z : Z) : Z := Z.max 0 (Z.min z (2 ^ 64 - 1)).

(** The delay in milliseconds. *)
Definition backoff_delay_with_jitter (attempt : Z) (jitter : f64) : Z :=
  match scaled (backoff_seconds attempt) jitter with
  | FFinite x => as_u64 (round_away x)
  | FInfinite negative => if negative then 0%Z else (2 ^ 64 - 1)%Z
  | FNan => 0%Z
  end.

(** ** Android *)

Definition retry_seconds (attempt : Z) : Z := if (5 <=? attempt)%Z then 30 else Z.shiftl 1 (Z.max attempt 0).

(** [roundToLong]: half up, saturating; [None] is the exception for a NaN. *)
Definition as_long (z : Z) : Z := Z.max (- 2 ^ 63) (Z.min z (2 ^ 63 - 1)).
Definition retry_delay_millis (attempt : Z) (jitter : f64) : option Z :=
  match scaled (retry_seconds attempt) jitter with
  | FFinite x => Some (as_long (Qfloor (x + (1 # 2))))
  | FInfinite negative => Some (if negative then - 2 ^ 63 else 2 ^ 63 - 1)%Z
  | FNan => None
  end.

(** ** The rounding *)

Lemma pow2_pos k : 0 < 2 ^ k.
Proof. by apply Qpower_0_lt. Qed.

Lemma pow2_split a b : 2 ^ (a - b) * 2 ^ b == 2 ^ a.
Proof. rewrite <- Qpower_plus by done. by replace (a - b + b)%Z with a by lia. Qed.

Lemma pow2_inject k : (0 <= k)%Z -> inject_Z (2 ^ k) == 2 ^ k.
Proof. intros Hk. by apply (Zpower_Qpower 2). Qed.

(** Numerator and denominator against powers of two. *)
Lemma quotient_pow2 n d a b :
  (0 <= a)%Z -> (0 <= b)%Z -> (2 ^ a * Zpos d <= n * 2 ^ b)%Z -> 2 ^ (a - b) <= n # d.
Proof.
  intros Ha Hb Hle. apply (Qmult_le_r _ _ (2 ^ b)); [apply pow2_pos|]. rewrite pow2_split, <- !pow2_inject by done.
  unfold Qle. simpl. rewrite !Z.mul_1_r. rewrite Pos2Z.inj_mul, Z.mul_1_r. done.
Qed.

Lemma exponent_le x : 0 < x -> 2 ^ exponent x <= x.
Proof.
  intros Hx. unfold exponent. destruct (Qle_bool _ x) eqn:E; [by apply Qle_bool_iff in E|].
  destruct x as [n d]. unfold Qlt in Hx. cbn [Qnum Qden] in *. rewrite Z.mul_1_r in Hx.
  destruct (Z.log2_spec n) as [H1 _]; [lia|]. destruct (Z.log2_spec (Zpos d)) as [_ H2]; [lia|].
  replace (Z.log2 n - Z.log2 (Zpos d) - 1)%Z with (Z.log2 n - Z.succ (Z.log2 (Zpos d)))%Z by lia.
  pose proof (Z.log2_nonneg n). pose proof (Z.log2_nonneg (Zpos d)).
  apply quotient_pow2; [lia|lia|]. apply Z.mul_le_mono_nonneg; [apply Z.pow_nonneg; lia|done|lia|lia].
Qed.

Lemma nearest_even_close x : - (1 # 2) <= inject_Z (nearest_even x) - x <= 1 # 2.
Proof.
  unfold nearest_even. pose proof (Qfloor_le x) as H1. pose proof (Qlt_floor x) as H2. rewrite inject_Z_plus in H2.
  destruct (Qcompare (x - inject_Z (Qfloor x)) (1 # 2)) eqn:E.
  - apply Qeq_alt in E. destruct (Z.even _); rewrite ?inject_Z_plus; change (inject_Z 1) with 1 in *; lra.
  - apply Qlt_alt in E. change (inject_Z 1) with 1 in *. lra.
  - apply Qgt_alt in E. rewrite inject_Z_plus. change (inject_Z 1) with 1 in *. lra.
Qed.

(** The relative error of one rounding, [2 ^ -53]. *)
Definition ulp : Q := 1 # (2 ^ 53).

Lemma round_53_close x : 0 < x -> x - x * ulp <= round_53 x <= x + x * ulp.
Proof.
  intros Hx. unfold round_53. pose proof (exponent_le x Hx) as He. set (e := exponent x) in *.
  pose proof (nearest_even_close (x * 2 ^ (52 - e))) as [H1 H2]. set (m := inject_Z (nearest_even (x * 2 ^ (52 - e)))) in *.
  pose proof (pow2_pos (52 - e)) as Hp. pose proof (pow2_split 52 e) as Hs.
  assert (2 ^ 52 <= x * 2 ^ (52 - e)) as Hb.
  { rewrite <- Hs. rewrite (Qmult_comm x). apply Qmult_le_l; done. }
  assert (1 # 2 <= x * 2 ^ (52 - e) * ulp) as Hu.
  { apply (Qle_trans _ (2 ^ 52 * ulp)); [vm_compute; discriminate|]. apply Qmult_le_r; [done|done]. }
  split.
  - apply Qle_shift_div_l; [done|]. lra.
  - apply Qle_shift_div_r; [done|]. lra.
Qed.

(** It is the leading bit: what is rounded has 53 bits before the point. *)
Lemma exponent_lt x : 0 < x -> x < 2 ^ (exponent x + 1).
Proof.
  intros Hx. unfold exponent. destruct (Qle_bool _ x) eqn:E.
  - destruct x as [n d]. unfold Qlt in Hx. cbn [Qnum Qden] in *. rewrite Z.mul_1_r in Hx.
    destruct (Z.log2_spec n) as [_ H1]; [lia|]. destruct (Z.log2_spec (Zpos d)) as [H2 _]; [lia|].
    replace (Z.log2 n - Z.log2 (Zpos d) + 1)%Z with (Z.succ (Z.log2 n) - Z.log2 (Zpos d))%Z by lia.
    pose proof (Z.log2_nonneg n). pose proof (Z.log2_nonneg (Zpos d)).
    apply (Qmult_lt_r _ _ (2 ^ Z.log2 (Zpos d))); [apply pow2_pos|]. rewrite pow2_split, <- !pow2_inject by lia.
    unfold Qlt. cbn [Qnum Qden inject_Z Qmult]. rewrite Z.mul_1_r, Pos.mul_1_r.
    apply (Z.le_lt_trans _ (n * Zpos d)); [apply Z.mul_le_mono_nonneg_l; lia|apply Z.mul_lt_mono_pos_r; lia].
  - rewrite Z.sub_add. apply Qnot_le_lt. intros H. apply Qle_bool_iff in H. congruence.
Qed.

(** ** The delays *)

Lemma fifth_close : 0 < fifth <= (1 # 5) + ulp * (1 # 5).
Proof. split; vm_compute; [reflexivity|discriminate]. Qed.

Lemma clamp_jitter_bounds jitter : jitter <> FNan -> exists j, clamp_jitter jitter = FFinite j /\ - fifth <= j <= fifth.
Proof.
  pose proof fifth_close as [H0 _]. intros Hj. destruct jitter as [|negative|q]; [congruence|..].
  - destruct negative; eexists; (split; [reflexivity|]); lra.
  - cbn [clamp_jitter]. destruct (Qle_bool (- fifth) q) eqn:E1; cbn [negb]; [|eexists; split; [reflexivity|]; lra].
    apply Qle_bool_iff in E1. destruct (Qle_bool q fifth) eqn:E2; cbn [negb]; [|eexists; split; [reflexivity|]; lra].
    apply Qle_bool_iff in E2. eexists. split; [reflexivity|]. lra.
Qed.

(** One rounding, with a bound that is easier to compute with. *)
Definition tiny : Q := 1 # 1000000000000000.

Lemma round_53_tiny x : 0 < x -> x * (1 - tiny) <= round_53 x <= x * (1 + tiny).
Proof.
  intros Hx. destruct (round_53_close x Hx) as [H1 H2].
  assert (x * ulp <= x * tiny) as Hu by (apply Qmult_le_l; [done|discriminate]). split; lra.
Qed.

Lemma product_between a b c d x y :
  0 <= a -> 0 <= c -> a <= x <= b -> c <= y <= d -> a * c <= x * y <= b * d.
Proof.
  intros Ha Hc [Hx1 Hx2] [Hy1 Hy2]. split; apply Qmult_le_compat_nonneg; split; lra.
Qed.

(** Three roundings and the literal move the product by less than half a millisecond. *)
Lemma scaled_bounds s jitter :
  (1 <= s <= 30)%Z -> jitter <> FNan ->
  exists x, scaled s jitter = FFinite x /\ inject_Z (800 * s) - (1 # 2) < x < inject_Z (1200 * s) + (1 # 2).
Proof.
  intros [Hs1 Hs2] Hj. destruct (clamp_jitter_bounds jitter Hj) as (j & Ej & Hj1 & Hj2). unfold scaled. rewrite Ej.
  eexists. split; [reflexivity|]. pose proof fifth_close as [_ Hf].
  assert (fifth <= (1 # 5) + tiny) as Hf' by (eapply Qle_trans; [exact Hf|discriminate]).
  rewrite Zle_Qle in Hs1, Hs2. change (inject_Z 1) with 1 in Hs1. change (inject_Z 30) with 30 in Hs2.
  rewrite !inject_Z_mult. change (inject_Z 800) with 800. change (inject_Z 1200) with 1200. set (q := inject_Z s) in *.
  assert (0 < 1 + j) as H0 by (unfold tiny in *; lra).
  pose proof (round_53_tiny (q * 1000) ltac:(lra)) as B. pose proof (round_53_tiny (1 + j) H0) as [F1 F2].
  assert ((4 # 5) - 3 * tiny <= round_53 (1 + j) <= (6 # 5) + 3 * tiny) as F by (unfold tiny in *; split; lra).
  destruct (product_between (q * 1000 * (1 - tiny)) (q * 1000 * (1 + tiny)) ((4 # 5) - 3 * tiny) ((6 # 5) + 3 * tiny)
    (round_53 (q * 1000)) (round_53 (1 + j))) as [P1 P2]; [unfold tiny; lra|discriminate|done|done|].
  set (p := round_53 (q * 1000) * round_53 (1 + j)) in *.
  pose proof (round_53_tiny p ltac:(unfold tiny in *; lra)) as [R1 R2]. unfold tiny in *. split; lra.
Qed.

Lemma backoff_seconds_min attempt : (0 <= attempt)%Z -> backoff_seconds attempt = Z.min (2 ^ attempt) 30.
Proof.
  intros Ha. unfold backoff_seconds. destruct (Z.le_gt_cases attempt 31) as [H|H].
  - rewrite (Z.min_l attempt 31) by done. assert (2 ^ attempt <= 2 ^ 31)%Z by (apply Z.pow_le_mono_r; lia). lia.
  - rewrite (Z.min_r attempt 31) by lia. assert (2 ^ 31 <= 2 ^ attempt)%Z by (apply Z.pow_le_mono_r; lia). lia.
Qed.

Lemma seconds_range attempt : (0 <= attempt)%Z -> (1 <= Z.min (2 ^ attempt) 30 <= 30)%Z.
Proof. intros Ha. assert (2 ^ 0 <= 2 ^ attempt)%Z by (apply Z.pow_le_mono_r; lia). lia. Qed.

Lemma floor_between x a b : inject_Z a - (1 # 2) < x < inject_Z b + (1 # 2) -> (a <= Qfloor (x + (1 # 2)) <= b)%Z.
Proof.
  intros [H1 H2]. split.
  - rewrite <- (Qfloor_Z a). apply Qfloor_resp_le. lra.
  - apply Z.lt_succ_r. rewrite Zlt_Qlt. pose proof (Qfloor_le (x + (1 # 2))). unfold Z.succ. rewrite inject_Z_plus.
    change (inject_Z 1) with 1. lra.
Qed.

(** C32. The delay before attempt [n] is within 20% of [min (2 ^ n) 30] seconds,
    to the millisecond, for every jitter that is a number: the rounding of
    doubles never takes it outside, no attempt overflows, and it is never
    shorter than 800 ms nor longer than 36 s.  A jitter that is not a number,
    which the generator never draws, makes it 0. *)
Theorem backoff_within_jitter attempt jitter :
  (0 <= attempt)%Z ->
  let s := Z.min (2 ^ attempt) 30 in
  if is_nan jitter then backoff_delay_with_jitter attempt jitter = 0%Z
  else (800 * s <= backoff_delay_with_jitter attempt jitter <= 1200 * s)%Z.
Proof.
  intros Ha s. destruct (is_nan jitter) eqn:Hn; [destruct jitter; [reflexivity|discriminate Hn..]|].
  assert (jitter <> FNan) as Hj by (by intros ->).
  pose proof (seconds_range attempt Ha) as Hs. fold s in Hs. unfold backoff_delay_with_jitter.
  rewrite backoff_seconds_min by done. fold s. destruct (scaled_bounds s jitter Hs Hj) as (x & -> & Hx).
  pose proof (floor_between x _ _ Hx) as Hf. unfold round_away.
  assert (0 <= x) as H0.
  { destruct Hx as [H1 _]. assert (inject_Z 800 <= inject_Z (800 * s)) as H2 by (rewrite <- Zle_Qle; lia).
    change (inject_Z 800) with 800 in H2. lra. }
  apply Qle_bool_iff in H0. rewrite H0. unfold as_u64. lia.
Qed.

(** The retry of the Android application waits exactly as long as the core
    does for the same attempt and jitter, although it computes the seconds
    and the rounding another way. *)
Theorem android_retry_is_backoff attempt jitter :
  (0 <= attempt)%Z -> jitter <> FNan -> retry_delay_millis attempt jitter = Some (backoff_delay_with_jitter attempt jitter).
Proof.
  intros Ha Hj. pose proof (seconds_range attempt Ha) as Hs. unfold backoff_delay_with_jitter, retry_delay_millis.
  assert (retry_seconds attempt = backoff_seconds attempt) as ->.
  { rewrite backoff_seconds_min by done. unfold retry_seconds. destruct (Z.leb_spec 5 attempt) as [H|H].
    - assert (2 ^ 5 <= 2 ^ attempt)%Z by (apply Z.pow_le_mono_r; lia). lia.
    - rewrite Z.max_l, Z.shiftl_1_l by done. assert (2 ^ attempt <= 2 ^ 4)%Z by (apply Z.pow_le_mono_r; lia). lia. }
  rewrite backoff_seconds_min by done. destruct (scaled_bounds _ jitter Hs Hj) as (x & -> & Hx).
  pose proof (floor_between x _ _ Hx) as Hf. f_equal. unfold round_away.
  destruct (Qle_bool 0 x) eqn:E0; unfold as_u64, as_long; [lia|].
  assert (Qle_bool 0 x = true) as E1; [|congruence]. apply Qle_bool_iff. destruct Hx as [H1 _].
  assert (inject_Z 800 <= inject_Z (800 * Z.min (2 ^ attempt) 30)) as H2 by (rewrite <- Zle_Qle; lia).
  change (inject_Z 800) with 800 in H2. lra.
Qed.

Lemma backoff_within_jitter_witness :
  (800 * 8 <= backoff_delay_with_jitter 3 (FFinite (1 # 10)) <= 1200 * 8)%Z /\ backoff_delay_with_jitter 3 (FFinite (1 # 10)) = 8800%Z.
Proof. split; [exact (backoff_within_jitter 3 (FFinite (1 # 10)) ltac:(discriminate))|vm_compute; reflexivity]. Defined.
