(* ===== verification/EndToEnd.v ===== *)
(** * Client and relay together

    Two compositions.  [honest_join_admitted]: the join a client makes with
    its identity and the nonce of its own hello passes the relay's
    authentication.  [clip_end_to_end]: a clip sealed by one device's session
    goes through the relay's connection, the room's actor, the peer's outbox
    and writer and the peer's link, and opens in the peer's session as the
    item that was sent. *)

From S2P Require Import Prelude Fs Interfaces Protocol Crypto History Pairing Session Registry Config RateLimit.
From S2P Require Import Mailbox Outbox Room PairingRelay Connection Server PairingClient.
From Stdlib Require Import Strings.Byte.

Set Default Goal Selector "!".
#[local] Open Scope clip_scope.

Section join.
Context {T R M P : Type} {RT : Registry T R} {MS : MailboxSink M} {PH : PairingHandler T R P}.
Context {B64 : Base64} {S256 : Sha256} {Ed : Ed25519} {X : X25519} {JF : Json Frame}.
Context (frame_debug : Frame -> string).

(** A call only adds to the exchange. *)
Definition extends {A} (m : sk A) : Prop := forall s, exists more, s_log (m s).2 = s_log s ++ more.

Lemma extends_done {A} (r : result A TransportError) : extends (fun s => (r, s)).
Proof. intros s. exists []. by rewrite app_nil_r. Qed.

Lemma extends_receive {A} (k : Frame -> sk A) : (forall f, extends (k f)) -> extends (sk_bind socket_receive_frame k).
Proof.
  intros Hk s. unfold sk_bind, socket_receive_frame.
  destruct (s_in s) as [|[] rest]; try (exists []; by rewrite app_nil_r).
  destruct (decode_frame _) as [f|]; [|exists []; by rewrite app_nil_r].
  match goal with |- context [k f ?s1] => destruct (Hk f s1) as [more ->] end.
  exists (Got f :: more). simpl. by rewrite <- (assoc_L (++)).
Qed.

Lemma extends_refused {A} expected f : extends (refused (A := A) frame_debug expected f).
Proof. destruct f; apply extends_done. Qed.

(** The first frame of a join is the signed one. *)
Lemma join_live_sends i record challenge s f more :
  s_log (join_live frame_debug i record challenge s).2 = s_log s ++ Sent f :: more ->
  exists message,
    join_sig_msg challenge (rec_room_id record) (identity_device_id i) (bundle_bytes (public_bundle i)) = Ok message /\
    f = Join (rec_room_id record) (identity_device_id i) (public_bundle i) (b64_encode (identity_sign i message)).
Proof.
  assert (forall l : list exchange, l <> l ++ Sent f :: more) as Hne.
  { intros l Hl. rewrite <- (app_nil_r l) in Hl at 1. by apply app_inv_head in Hl. }
  unfold join_live. set (k := fun _ : unit => sk_bind socket_receive_frame _) at 1.
  unfold sk_bind at 1, sk_result. destruct (join_sig_msg _ _ _ _) as [message|]; [|by intros ?%Hne].
  simpl. intros Hlog. exists message. split; [done|]. revert Hlog. fold k. unfold sk_bind at 1.
  set (join := Join _ _ _ _). unfold socket_send_frame. destruct (encode_frame join); [|by intros ?%Hne].
  destruct (from_utf8 _); [|by intros ?%Hne].
  assert (forall s1, s_log s1 = s_log s ++ [Sent join] -> s_log (k tt s1).2 = s_log s ++ Sent f :: more -> f = join) as Hk.
  { intros s1 H1. assert (extends (k tt)) as Hext.
    { apply extends_receive. intros []; try apply extends_refused. apply extends_receive.
      intros [| | | | | | | |? ? ? []| |]; first [apply extends_refused|apply extends_done]. }
    destruct (Hext s1) as [m ->]. rewrite H1, <- (assoc_L (++)). intros [= ? _]%app_inv_head. done. }
  destruct (s_out s) as [|[]]; [by apply Hk..|by intros ?%Hne].
Qed.

#[local] Opaque check_join rooms_join.

(** C24. An honest join is admitted.  Let a connection have issued [drawn], and
    a client have read its challenge from the text the relay put in its
    [hello_ok].  The frame that the client's [join_live] sends first makes the
    relay's [step] join the connection to the recorded room under the
    client's fingerprint, if the address may still attempt a join, the
    registry lists the fingerprint for the room, and the room's inbox takes it. *)
Theorem honest_join_admitted (sv : ServerState R M P) cx drawn hello i record challenge s f more
    raw_len drawn' clk (w : world T) :
  phase cx = PhaseReady (Some drawn) hello -> decode_challenge (b64_encode drawn) = Ok challenge ->
  s_log (join_live frame_debug i record challenge s).2 = s_log s ++ Sent f :: more ->
  (check_join (sv_rate_limits sv) (cx_client_ip cx) (mono clk)).1 = true ->
  let members := lookup_members (rs_registry (sv_rooms sv)) (rec_room_id record) in
  identity_fp i ∈ members ->
  (rooms_join (limits (sv_config sv)) (sv_rooms sv) (rec_room_id record) members (identity_fp i)
     (identity_device_id i) (cx_id cx) (cx_outbox cx) (unix clk)).1 = true ->
  exists sv' cx', step sv cx f raw_len drawn' clk w =
    (Done (StepJoined (rec_room_id record) (identity_fp i), sv', cx'), w).
Proof.
  intros Hphase Hch Hlog Hlimit members Hmem Hroom.
  unfold decode_challenge in Hch. rewrite b64_roundtrip in Hch. case_bool_decide; [|done]. injection Hch as <-.
  apply join_live_sends in Hlog as (message & Hmsg & ->). unfold step. rewrite Hphase. unfold handle_join; simpl.
  destruct (check_join _ _ _) as [ok counted]; simpl in Hlimit |- *. rewrite Hlimit. simpl.
  rewrite b64_roundtrip, bool_decide_eq_true_2 by apply length_ed_sign. simpl. rewrite Hmsg. unfold verify; simpl.
  rewrite ed_honest_key. unfold identity_sign. simpl. rewrite ed_honest_sig. simpl. rewrite bool_decide_eq_true_2 by done. simpl.
  fold members. rewrite bool_decide_eq_false_2 by (intros E; rewrite E in Hmem; by apply not_elem_of_nil in Hmem).
  rewrite bool_decide_eq_true_2 by done. simpl. change (bundle_fp (public_bundle i)) with (identity_fp i).
  destruct (rooms_join _ _ _ _ _ _ _ _ _) as [accepted rooms]; simpl in Hroom |- *. rewrite Hroom. simpl.
  by eexists _, _.
Qed.
End join.

Section clip.
Context {T R M P : Type} {RT : Registry T R} {MS : MailboxSink M} {PH : PairingHandler T R P}.
Context {B64 : Base64} {S256 : Sha256} {Ed : Ed25519} {X : X25519} {A : Aead} {U : UuidText}.
Context {JF : Json Frame} {JE : Json Envelope}.
Context (frame_debug : Frame -> string).

Lemma decode_encoded f b : encode_frame f = Ok b -> decode_frame b = Ok f.
Proof.
  intros [Hwf (e & He & -> & Hlen)%encode_json_Ok]%encode_frame_Ok. apply decode_frame_Ok.
  split_and!; [done| |done]. by apply json_pretty_line.
Qed.

(** The relay hands a clip on: from a joined connection, through the room's
    empty inbox and one turn of its actor, into the peer's outbox. *)
Lemma relay_hands_on (sv : ServerState R M P) cx room fa fb ct origin flag raw_len drawn clk id a h mb o enc now
    (w : world T) :
  phase cx = PhaseJoined -> joined cx = Some (room, fa) ->
  rs_map (sv_rooms sv) !! room = Some id ->
  rs_actors (sv_rooms sv) !! id = Some (a, {| ib_events := []; ib_bytes := 0 |}) -> a_room_id a = room ->
  fa <> fb -> member_fps a = [fa; fb] \/ member_fps a = [fb; fa] ->
  (exists m, online a !! fa = Some m /\ connection_id m = cx_id cx) ->
  online a !! fb = Some {| connection_id := mb; member_outbox := h |} ->
  (raw_len <= inbox_max_bytes (limits (sv_config sv)))%Z -> 0 < inbox_max_events (limits (sv_config sv)) ->
  encode_frame (Clip room ct fa false) = Ok enc -> sv_out sv !! h = Some o -> (try_frame o enc).1 = true ->
  exists sv' rooms o',
    step sv cx (Clip room ct origin flag) raw_len drawn clk w = (Done (StepContinue, sv', cx), w) /\
    actor_turn (sv_rooms sv') id now w = (Done rooms, w) /\
    rs_out rooms !! h = Some o' /\ ob_queue o' = ob_queue o ++ [OFrame enc].
Proof.
  intros Hphase Hj Hmap Hact Hroom Hne Hfps (m & Hm & Hconn) Hb Hraw Hev Henc Ho Hfit.
  unfold step. rewrite Hphase, Hj, bool_decide_eq_true_2 by done. simpl. unfold rooms_clip.
  rewrite Hmap. unfold send_to. rewrite Hact. unfold inbox_try_send. simpl. rewrite Z.add_0_l.
  destruct (Z.ltb_spec (inbox_max_bytes (limits (sv_config sv))) raw_len); [lia|].
  rewrite bool_decide_eq_false_2 by lia. simpl.
  destruct (try_frame o enc) as [sent o'] eqn:Ht. simpl in Hfit. subst sent.
  eexists _, _, o'. split; [reflexivity|]. unfold actor_turn. simpl. rewrite lookup_insert_eq. simpl.
  rewrite (on_clip_pair fa fb (cx_id cx)) by (by split_and!; [|..|exists m]).
  unfold route; simpl. rewrite Hb. simpl. unfold send_frame. rewrite Hroom, Henc.
  change (rs_out (sv_rooms sv)) with (sv_out sv). rewrite Ho, Ht. split; [reflexivity|]. simpl.
  rewrite lookup_insert_eq. split; [done|]. unfold try_frame in Ht. destruct (_ <? _)%Z; [done|].
  destruct (negb _); [done|]. by injection Ht as <-.
Qed.

(** C4. A clip goes from device to device as it was sent.  What session [sa]
    seals, handed as a clip frame to the relay on its joined connection, is
    in one turn of the room's actor the next frame of the peer's outbox; its
    writer puts it on the wire as text, the peer's live link receives it from
    that text, and the peer's session [sb] opens it as the same identifier,
    timestamp, sequence number and content.  The two sessions are those of
    the two records of one pairing; both members are online, the room's inbox
    is empty, and there is space for the frame in it and in the peer's outbox. *)
Theorem clip_end_to_end debug ia ib ra rb ka kb sa sb nonce c uid seq ts_ms sealed
    (sv : ServerState R M P) cx raw_len drawn clk id a h mb o enc text now rest out log (w : world T) :
  (* the pairing *)
  validate_record debug ra ia = Ok tt -> validate_record debug rb ib = Ok tt ->
  peer_bundle ra = public_bundle ib -> peer_bundle rb = public_bundle ia ->
  session_keys ia (peer_bundle ra) = Ok ka -> session_keys ib (peer_bundle rb) = Ok kb ->
  session_of ra ka sa -> session_of rb kb sb ->
  (* the clip *)
  length nonce = NONCE_LENGTH -> content_ok c -> uuid_parse uid = Some uid ->
  seal_clip nonce sa c uid seq ts_ms = Ok sealed ->
  (* the relay *)
  phase cx = PhaseJoined -> joined cx = Some (rec_room_id ra, local_bundle_fp ra) ->
  rs_map (sv_rooms sv) !! rec_room_id ra = Some id ->
  rs_actors (sv_rooms sv) !! id = Some (a, {| ib_events := []; ib_bytes := 0 |}) ->
  a_room_id a = rec_room_id ra ->
  member_fps a = [local_bundle_fp ra; local_bundle_fp rb] \/ member_fps a = [local_bundle_fp rb; local_bundle_fp ra] ->
  (exists m, online a !! local_bundle_fp ra = Some m /\ connection_id m = cx_id cx) ->
  online a !! local_bundle_fp rb = Some {| connection_id := mb; member_outbox := h |} ->
  (raw_len <= inbox_max_bytes (limits (sv_config sv)))%Z -> 0 < inbox_max_events (limits (sv_config sv)) ->
  encode_frame (Clip (rec_room_id ra) (b64_encode sealed) (local_bundle_fp ra) false) = Ok enc ->
  from_utf8 enc = Some text -> sv_out sv !! h = Some o -> (try_frame o enc).1 = true ->
  exists sv' rooms o' frame,
    step sv cx (Clip (s_room_id sa) (b64_encode sealed) "" false) raw_len drawn clk w =
      (Done (StepContinue, sv', cx), w) /\
    actor_turn (sv_rooms sv') id now w = (Done rooms, w) /\
    rs_out rooms !! h = Some o' /\ ob_queue o' = ob_queue o ++ [OFrame enc] /\
    write_turn (Some (OFrame enc)) true = ([WText text], true) /\
    (link_recv frame_debug {| s_in := DText text :: rest; s_out := out; s_log := log |}).1 = Ok frame /\
    match frame with
    | Clip room ct _ _ => authenticate sb room ct
    | _ => None
    end = Some {| ci_id := uid; ci_ts_ms := ts_ms; ci_seq := seq; ci_content := c |}.
Proof.
  intros Ha Hb Hpa Hpb Hka Hkb Hsa Hsb Hn Hc Hid Hseal Hphase Hj Hmap Hact Hroom Hfps Hon Hpeer Hraw Hev Henc
    Htext Ho Hfit.
  assert (s_room_id sa = rec_room_id ra) as Esa by apply Hsa.
  assert (local_bundle_fp ra <> local_bundle_fp rb) as Hne.
  { destruct (record_facts _ _ _ Ha) as (_ & Hpf & Hne & _). destruct (record_facts _ _ _ Hb) as (Hlb & _).
    rewrite Hlb, <- Hpa, <- Hpf. done. }
  edestruct (relay_hands_on sv cx (rec_room_id ra) (local_bundle_fp ra) (local_bundle_fp rb)
    (b64_encode sealed) "" false raw_len drawn clk id a h mb o enc now w) as (sv' & rooms & o' & H1 & H2 & H3 & H4);
    [done..|]. rewrite Esa.
  exists sv', rooms, o', (Clip (rec_room_id ra) (b64_encode sealed) (local_bundle_fp ra) false).
  split_and!; [done|done|done|done|by simpl; rewrite Htext| |].
  - unfold link_recv, sk_bind, socket_receive_frame; simpl. rewrite (from_utf8_bytes _ _ Htext).
    by rewrite (decode_encoded _ _ Henc).
  - rewrite <- Esa. by eapply (clip_arrives_as_sent debug ia ib ra rb ka kb sa sb).
Qed.
End clip.

Module EndToEndToy.
Import Toy CryptoToy SessionToy.
#[local] Existing Instances toy_base64 toy_sha256 toy_ed25519 toy_x25519 toy_aead toy_uuid.
#[local] Existing Instance ProtocolToy.envelope_json.

Definition config : ServerConfig := {| trusted_proxy := None; limits := limits_default |}.
Definition ra : PairingRecord := pair_record alice bob.
Definition rb : PairingRecord := pair_record bob alice.
Definition registry : InMemoryRegistry :=
  {| mem_rooms := {[rec_room_id ra := {| members := (local_bundle_fp ra, local_bundle_fp rb); created_at_ms := 1;
                                         activated_at_ms := None; activated_members := ∅ |}]} |}.
Definition clk : clock := {| mono := 10; unix := 20 |}.
Definition nonce : bytes := replicate 32 "n"%byte.
Definition idle : ServerState InMemoryRegistry NoopMailboxSink PairingUnavailable :=
  server_new config registry Unavailable Noop.
Definition fresh_cx : Connection :=
  {| cx_outbox := 1; cx_client_ip := IpV4 (replicate 4 x01); cx_id := 7;
     phase := PhaseReady (Some nonce) (public_bundle alice); joined := None |}.
Definition socket : Socket := {| s_in := []; s_out := []; s_log := [] |}.

Definition signed : bytes :=
  match join_sig_msg nonce (rec_room_id ra) (identity_device_id alice) (bundle_bytes (public_bundle alice)) with
  | Ok m => m | Err _ => [] end.
Definition join_frame : Frame :=
  Join (rec_room_id ra) (identity_device_id alice) (public_bundle alice) (b64_encode (identity_sign alice signed)).

Lemma honest_join_admitted_witness :
  exists sv' cx', step (T := unit) (JF := ProtocolToy.frame_json) idle fresh_cx join_frame 100 nonce clk RoomToy.blank =
    (Done (StepJoined (rec_room_id ra) (identity_fp alice), sv', cx'), RoomToy.blank).
Proof.
  apply (honest_join_admitted (JF := ProtocolToy.frame_json) (fun _ => "") idle fresh_cx nonce
    (public_bundle alice) alice ra nonce socket join_frame []).
  - reflexivity.
  - vm_compute; reflexivity.
  - vm_compute; reflexivity.
  - vm_compute; reflexivity.
  - vm_compute; left.
  - vm_compute; reflexivity.
Defined.

(** A codec that knows one frame. *)
Definition one_from (f : Frame) (b : bytes) : result Frame string :=
  match b with "1"%byte :: _ => Ok f | _ => Err "unknown" end.

Program Definition one_frame (f : Frame) : Json Frame := {|
  to_vec := fun a => if decide (a = f) then Ok ["1"%byte] else Err "unknown";
  to_vec_pretty := fun a => if decide (a = f) then Ok ["1"%byte] else Err "unknown";
  from_slice := one_from f |}.
Next Obligation. intros f a b. simpl. destruct (decide (a = f)) as [->|]; [|done]. by intros [= <-]. Qed.
Next Obligation. intros f a b. simpl. destruct (decide (a = f)) as [->|]; [|done]. by intros [= <-]. Qed.
Next Obligation. intros f a b. simpl. destruct (decide (a = f)) as [->|]; [|done]. by intros [= <-]. Qed.
Next Obligation.
  intros f a b. simpl. destruct (decide (a = f)) as [->|]; [|done]. intros [= <-].
  split; [|done]. intros H. apply list_elem_of_singleton in H. discriminate.
Qed.

Definition forwarded : Frame := Clip (rec_room_id ra) sample_ciphertext (local_bundle_fp ra) false.
Definition line : bytes := ["1"%byte; "010"%byte].

Definition alice_cx : Connection :=
  {| cx_outbox := 1; cx_client_ip := IpV4 (replicate 4 x01); cx_id := 7; phase := PhaseJoined;
     joined := Some (rec_room_id ra, local_bundle_fp ra) |}.
Definition actor : RoomActor :=
  {| a_room_id := rec_room_id ra; member_fps := [local_bundle_fp ra; local_bundle_fp rb];
     online := {[local_bundle_fp ra := {| connection_id := 7; member_outbox := 1 |};
                 local_bundle_fp rb := {| connection_id := 8; member_outbox := 2 |}]};
     mailbox_pending := ∅ |}.
Definition live : ServerState InMemoryRegistry NoopMailboxSink PairingUnavailable :=
  put_rooms {| rs_map := {[rec_room_id ra := 0]}; rs_actors := {[0 := (actor, {| ib_events := []; ib_bytes := 0 |})]};
               rs_next := 1; rs_out := {[2 := outbox 4 100]}; rs_registry := registry; rs_mailbox := Noop |} idle.

Lemma clip_end_to_end_witness :
  exists frame, (link_recv (JF := one_frame forwarded) (fun _ => "")
      {| s_in := [DText (str_of_bytes line)]; s_out := []; s_log := [] |}).1 = Ok frame /\
    match frame with Clip room ct _ _ => authenticate (fresh_session bob alice) room ct | _ => None end =
      Some sample_item.
Proof.
  assert (exists sealed, seal_clip sample_nonce (fresh_session alice bob) (CText "hi") sample_id 1 1000 = Ok sealed /\
            sample_ciphertext = b64_encode sealed) as (sealed & Hs & Hct).
  { unfold sample_ciphertext.
    assert (is_ok (seal_clip sample_nonce (fresh_session alice bob) (CText "hi") sample_id 1 1000) = true)
      as Hok by (vm_compute; reflexivity).
    destruct (seal_clip _ _ _ _ _ _) as [sealed|]; [by exists sealed|discriminate Hok]. }
  destruct (clip_end_to_end (T := unit) (JF := one_frame forwarded) (fun _ => "") false alice bob ra rb
    (keys_of alice bob) (keys_of bob alice) (fresh_session alice bob) (fresh_session bob alice) sample_nonce
    (CText "hi") sample_id 1 1000 sealed live alice_cx 100 nonce clk 0 actor 2 8 (outbox 4 100) line
    (str_of_bytes line) 30 [] [] [] RoomToy.blank) as (sv' & rooms & o' & frame & _ & _ & _ & _ & _ & Hr & Ha);
    [exact (proj1 records_valid)|exact (proj2 records_valid)|reflexivity|reflexivity
    |vm_compute; reflexivity|vm_compute; reflexivity|repeat split|repeat split|reflexivity|reflexivity|reflexivity
    |exact Hs|reflexivity|reflexivity|vm_compute; reflexivity|vm_compute; reflexivity|reflexivity|left; reflexivity
    |eexists; split; [vm_compute; reflexivity|reflexivity]|vm_compute; reflexivity|vm_compute; discriminate
    |vm_compute; lia| |reflexivity|vm_compute; reflexivity|vm_compute; reflexivity|].
  - rewrite <- Hct. vm_compute; reflexivity.
  - exists frame. by split.
Defined.
End EndToEndToy.
