(* ===== verification/Dispatcher.v ===== *)
(** * The dispatcher of the FFI handle (the second half of [crates/core/src/ffi.rs])

    One task serializes the commands of the host and the events of the live
    link: [dispatch] is one iteration of [run_dispatcher].  It owns the
    connection: the link with its socket, and the session.  [on_status] calls
    are collected in order; the host's clipboard callbacks reach the session
    through [ffi_session_callback].  The dials a reconnect will see, the
    random draws and the clock are arguments.  The texts of errors ([Display],
    generated by [thiserror]) are a parameter.  [Stall] is for tests only and
    left out. *)

From S2P Require Import Prelude Fs Interfaces Protocol Crypto History Pairing Session PairingClient.
From Stdlib Require Import Strings.Byte.

Set Default Goal Selector "!".
#[local] Open Scope clip_scope.

Inductive FfiClipContent := FText (text : string) | FImage (data : bytes).

Record FfiClipItem := { f_id : string; f_ts_ms : Z; f_seq : Z; f_content : FfiClipContent }.

Inductive FfiMailboxDisposition := FApplied | FDeferred.

Inductive CoreStatus :=
| ReadyUnpaired | StOffering | StSasReady | Connecting | StConnected | Reconnecting | Disconnected
| StError (message : string).

#[global] Instance CoreStatus_eq_decision : EqDecision CoreStatus.
Proof. solve_decision. Defined.

Inductive FfiHistoryKind := FhText (content : string) | FhImage.
Inductive FfiHistorySource := FhLocal | FhRemote | FhRemoteDeferred.
Record FfiHistoryItem := {
  fh_id : string; fh_ts_ms : Z; fh_kind : FfiHistoryKind; fh_source : FfiHistorySource
}.

Inductive CoreError :=
| InvalidInput (text : string) | CoreBusy | CoreNotPaired | QueueFull | CoreTransport (text : string)
| CoreSasMismatch | CoreShutdown | Internal (text : string).

(** [to_string] of the error types. *)
Class Display := {
  show_core : CoreError -> string; show_transport : TransportError -> string;
  show_pairing : PairingError -> string; show_session : SessionError -> string;
  show_history : HistoryError -> string; show_callback : CallbackError -> string
}.

(** The host's callbacks, the first argument being what happened so far. *)
Inductive host_end (A : Type) := HostReturned (r : result A CoreError) | HostPanics.
Arguments HostReturned {A} r.
Arguments HostPanics {A}.

Class CoreCallbacks := {
  host_on_clip : list event -> FfiClipItem -> host_end unit;
  host_on_mailbox_clip : list event -> FfiClipItem -> host_end FfiMailboxDisposition
}.

Definition ffi_clip_item (item : ClipItem) : FfiClipItem :=
  {| f_id := ci_id item; f_ts_ms := ci_ts_ms item; f_seq := ci_seq item;
     f_content := match ci_content item with CText text => FText text | CImage data => FImage data end |}.

Definition ffi_history_item (item : HistoryItem) : FfiHistoryItem :=
  {| fh_id := h_id item; fh_ts_ms := h_ts_ms item;
     fh_kind := match h_kind item with HkText content => FhText content | HkImage _ => FhImage end;
     fh_source := match h_source item with
                  | Local => FhLocal | Remote => FhRemote | RemoteDeferred => FhRemoteDeferred
                  end |}.

#[global] Instance ffi_session_callback `{Display, CoreCallbacks} : SessionCallback := {|
  on_clip := fun past item =>
    match host_on_clip past (ffi_clip_item item) with
    | HostReturned r => Returned (map_err (fun e => Rejected (show_core e)) r)
    | HostPanics => Panics
    end;
  on_mailbox_clip := fun past item =>
    match host_on_mailbox_clip past (ffi_clip_item item) with
    | HostReturned (Ok FApplied) => Returned (Ok Applied)
    | HostReturned (Ok FDeferred) => Returned (Ok Deferred)
    | HostReturned (Err e) => Returned (Err (Rejected (show_core e)))
    | HostPanics => Panics
    end |}.

Definition from_transport `{Display} (e : TransportError) : CoreError :=
  match e with
  | TPairing SasMismatch => CoreSasMismatch
  | other => CoreTransport (show_transport other)
  end.

Definition from_pairing `{Display} (e : PairingError) : CoreError :=
  match e with
  | SasMismatch => CoreSasMismatch
  | InvalidServer | InvalidCode => InvalidInput (show_pairing e)
  | _ => Internal (show_pairing e)
  end.

Definition from_session `{Display} (e : SessionError) : CoreError := Internal (show_session e).
Definition from_history `{Display} (e : HistoryError) : CoreError := Internal (show_history e).

(** The link with its socket, the session, and the directory of the pairing store. *)
Record FfiConnection := { fc_link : LiveLink; fc_socket : Socket; fc_session : Session; fc_store : string }.

Definition with_session (s : Session) (c : FfiConnection) : FfiConnection :=
  {| fc_link := fc_link c; fc_socket := fc_socket c; fc_session := s; fc_store := fc_store c |}.
Definition with_link (l : LiveLink * Socket) (c : FfiConnection) : FfiConnection :=
  {| fc_link := l.1; fc_socket := l.2; fc_session := fc_session c; fc_store := fc_store c |}.

Inductive CoreCommand :=
| CmdSend (content : ClipContent) (ts_ms : Z)
| CmdHistory
| CmdHistoryImage (id : string)
| CmdHistoryApply (id : string)
| CmdHistoryClear
| CmdIsEcho (hash : string)
| CmdConnect (connection : FfiConnection)
| CmdDisconnect.

Inductive reply :=
| RepSend (r : result Z CoreError) | RepHistory (r : result (list FfiHistoryItem) CoreError)
| RepImage (r : result bytes CoreError) | RepUnit (r : result unit CoreError) | RepEcho (b : bool) | RepDone.

(** What one iteration draws from its environment: the sealing nonce, the
    secrets a first identity would get, the dials of a reconnect, the clock. *)
Record draws := { d_nonce : bytes; d_identity : bytes * bytes; d_dials : list (result Socket string); d_now : Z }.

Section dispatcher.
Context {JD : Json SessionDocument} {JH : Json HistoryItem} {JE : Json Envelope} {JF : Json Frame}.
Context {JI : Json IdentityDocument} {JR : Json PairingRecord}.
Context {B64 : Base64} {S256 : Sha256} {Ed : Ed25519} {X : X25519} {A : Aead} {U : UuidText}.
Context {DI : Display} {HC : CoreCallbacks}.
Context (debug : bool) (frame_debug : Frame -> string) (history_dir : string).
Implicit Types (c : FfiConnection) (e : draws).

Definition handle_inbound_clip c (room_id ciphertext : string) (mailbox : bool) (now : Z) :
    io event (FfiConnection * list CoreStatus) :=
  out ← handle_clip (fc_session c) room_id ciphertext mailbox now;
  mret (with_session out.2 c,
        match out.1 with
        | Ok _ => []
        | Err (SessionCallbackError error) => [StError (show_callback error)]
        | Err error => [StError (show_session error)]
        end).

(** The bootstrap clip of a join, if it brought one. *)
Definition handle_bootstrap c (now : Z) : io event (FfiConnection * list CoreStatus) :=
  match bootstrap_clip (fc_link c) with
  | Some (room_id, ciphertext) => handle_inbound_clip c room_id ciphertext true now
  | None => mret (c, [])
  end.

(** [None] while a reconnect is still going on after the dials given. *)
Definition send_over_connection c (content : ClipContent) (ts_ms : Z) e :
    io event (option (result Z CoreError) * FfiConnection * list CoreStatus) :=
  let seq := next_seq (s_send_state (fc_session c)) in
  out ← send_clip (d_nonce e) (fc_session c) content ts_ms;
  let c := with_session out.2 c in
  match out.1 with
  | Err error => mret (Some (Err (from_session error)), c, [])
  | Ok frame =>
      match link_send frame (fc_socket c) with
      | (Ok _, s) => mret (Some (Ok seq), with_link (fc_link c, s) c, [])
      | (Err error, s) =>
          let c := with_link (fc_link c, s) c in
          if transient error then
            r ← reconnect debug frame_debug (d_identity e) (fc_store c) (d_dials e);
            match r with
            | None => mret (None, c, [Reconnecting])
            | Some (Err error) => mret (Some (Err (from_transport error)), c, [Reconnecting])
            | Some (Ok link) =>
                boot ← handle_bootstrap (with_link link c) (d_now e);
                let c := boot.1 in
                let statuses := [Reconnecting] ++ boot.2 ++ [StConnected] in
                mret match link_send frame (fc_socket c) with
                     | (Ok _, s) => (Some (Ok seq), with_link (fc_link c, s) c, statuses)
                     | (Err error, s) => (Some (Err (from_transport error)), with_link (fc_link c, s) c, statuses)
                     end
            end
          else mret (Some (Err (from_transport error)), c, [])
      end
  end.

Definition handle_live_event (ev : LiveEvent) c (now : Z) : io event (FfiConnection * list CoreStatus) :=
  match ev with
  | LiveFrame (Clip room_id ciphertext _ mailbox) => handle_inbound_clip c room_id ciphertext mailbox now
  | LiveFrame _ => mret (c, [])
  | Reconnected (Some (room_id, ciphertext)) =>
      out ← handle_inbound_clip c room_id ciphertext true now;
      mret (out.1, StConnected :: out.2)
  | Reconnected None => mret (c, [StConnected])
  end.

(** [close_connection]: the outcome of closing the link is only logged. *)
Definition close_connection c : list CoreStatus := [Disconnected].

Definition open_history : io event (result HistoryStore CoreError) :=
  lift_err from_history (history_new history_dir).

(** A method of the session's history, or of one opened for the command. *)
Definition on_session c (m : io event (result unit SessionError * Session)) :
    io event (option reply * option FfiConnection * list CoreStatus) :=
  out ← m;
  mret (Some (RepUnit (map_err (fun error => Internal (show_session error)) out.1)),
        Some (with_session out.2 c), []).

Definition on_opened (m : HistoryStore -> io event (result unit HistoryError * HistoryStore)) :
    io event (option reply * option FfiConnection * list CoreStatus) :=
  r ← open_history;
  match r with
  | Err error => mret (Some (RepUnit (Err error)), None, [])
  | Ok store => out ← m store; mret (Some (RepUnit (map_err from_history out.1)), None, [])
  end.

Definition handle_command (command : CoreCommand) (connection : option FfiConnection) e :
    io event (option reply * option FfiConnection * list CoreStatus) :=
  match command with
  | CmdSend content ts_ms =>
      match connection with
      | None => mret (Some (RepSend (Err CoreNotPaired)), None, [])
      | Some c =>
          out ← send_over_connection c content ts_ms e;
          mret (RepSend <$> out.1.1, Some out.1.2, out.2)
      end
  | CmdHistory =>
      match connection with
      | Some c => mret (Some (RepHistory (Ok (ffi_history_item <$> history_list (s_history (fc_session c))))),
                        Some c, [])
      | None =>
          r ← open_history;
          mret (Some (RepHistory match r with
                                 | Ok store => Ok (ffi_history_item <$> history_list store)
                                 | Err error => Err error
                                 end), None, [])
      end
  | CmdHistoryImage id =>
      match connection with
      | Some c =>
          r ← image_bytes (s_history (fc_session c)) id;
          mret (Some (RepImage (map_err (fun error => Internal (show_history error)) r)), Some c, [])
      | None =>
          r ← open_history;
          match r with
          | Err error => mret (Some (RepImage (Err error)), None, [])
          | Ok store => b ← image_bytes store id; mret (Some (RepImage (map_err from_history b)), None, [])
          end
      end
  | CmdHistoryApply id =>
      match connection with
      | Some c => on_session c (apply_deferred (fc_session c) id)
      | None => on_opened (fun store => set_source store id Remote)
      end
  | CmdHistoryClear =>
      match connection with
      | Some c => on_session c (clear_history (fc_session c))
      | None => on_opened (fun store => history_clear store)
      end
  | CmdIsEcho hash =>
      mret (Some (RepEcho match connection with Some c => is_echo (fc_session c) hash | None => false end),
            connection, [])
  | CmdConnect fresh =>
      let closed := match connection with Some previous => close_connection previous | None => [] end in
      out ← handle_bootstrap fresh (d_now e);
      mret (Some RepDone, Some out.1, closed ++ out.2 ++ [StConnected])
  | CmdDisconnect =>
      mret (Some RepDone, None, match connection with Some c => close_connection c | None => [] end)
  end.

(** What [select!] picks: a command, or what the link has. *)
Inductive input := Command (c : CoreCommand) | Link.

Definition dispatch (i : input) (connection : option FfiConnection) e :
    io event (option reply * option FfiConnection * list CoreStatus) :=
  match i, connection with
  | Command command, _ => handle_command command connection e
  | Link, None => mret (None, None, [])
  | Link, Some c =>
      r ← recv_reconnecting debug frame_debug (d_identity e) (fc_store c) (fc_link c, fc_socket c) (d_dials e);
      match r with
      | None => mret (None, Some c, [])
      | Some (Ok (ev, link)) =>
          out ← handle_live_event ev (with_link link c) (d_now e);
          mret (None, Some out.1, out.2)
      | Some (Err _) => mret (None, None, close_connection c ++ [Disconnected])
      end
  end.
End dispatcher.

(** ** What the calls add to the trace *)

(** A computation that lets nothing out of the device. *)
Definition silent {T R} (m : io T R) : Prop := inside (fun _ => True) m.

Lemma silent_trace {T R} (m : io T R) Q C (w : world T) :
  silent m -> (forall a w', w_trace w' = w_trace w -> Q a w') ->
  (forall w', w_trace w' = w_trace w -> C w') -> wpc m Q C w.
Proof. intros Hm HQ HC. eapply wpc_mono; [apply Hm|..]; [intros a|]; intros w' [[_ Ht] _]; auto. Qed.

Lemma silent_write_sync_rename {T} temp target data : silent (write_sync_rename (T := T) temp target data).
Proof. apply inside_try; [auto with inside|]. intros _. apply inside_try; auto with inside. Qed.

Lemma silent_with_pending {T E} (conv : io_error -> E) temp (body : io T (result unit E)) :
  silent body -> silent (with_pending conv temp body).
Proof.
  intros Hb. apply inside_try; [auto with inside|]. intros _. apply inside_bind; [done|].
  intros []; [auto with inside|]. apply inside_bind; auto with inside.
Qed.

Section silence.
Context {JD : Json SessionDocument} {JH : Json HistoryItem} {JE : Json Envelope} {JF : Json Frame}.
Context {JI : Json IdentityDocument} {JR : Json PairingRecord}.
Context {B64 : Base64} {S256 : Sha256} {Ed : Ed25519} {X : X25519} {A : Aead} {U : UuidText}.

Lemma silent_load_identity {T} drawn root : silent (load_identity (T := T) drawn root).
Proof.
  apply inside_lift_err, inside_bind; [auto with inside|]. intros [b|[]]; try apply inside_ret.
  apply inside_try; [|intros _; apply inside_ret]. apply inside_bind; [auto with inside|]. intros suffix.
  apply inside_try; [|auto with inside]. apply silent_with_pending. destruct (to_vec _); [|apply inside_ret].
  apply inside_lift_err, silent_write_sync_rename.
Qed.

Lemma silent_load_pairing {T} debug drawn root : silent (load_pairing (T := T) debug drawn root).
Proof.
  apply inside_try; [apply silent_load_identity|]. intros i. apply inside_bind; [auto with inside|].
  intros r. apply inside_ret.
Qed.

Lemma silent_client_connect {T} frame_debug drawn root server d :
  silent (client_connect (T := T) frame_debug drawn root server d).
Proof. apply inside_try; [apply silent_load_identity|]. intros i. apply inside_ret. Qed.

Lemma silent_client_join {T} debug frame_debug drawn root d :
  silent (client_join (T := T) debug frame_debug drawn root d).
Proof.
  apply inside_try; [apply silent_load_pairing|]. intros [record|]; [|apply inside_ret].
  apply inside_try; [apply silent_client_connect|]. intros client. apply inside_ret.
Qed.

Lemma silent_reconnect {T} debug frame_debug drawn root dials :
  silent (reconnect (T := T) debug frame_debug drawn root dials).
Proof.
  induction dials as [|d dials IH]; simpl; [apply inside_ret|].
  apply inside_bind; [apply silent_client_join|]. intros [link|e]; [apply inside_ret|].
  destruct (transient e); [apply IH|apply inside_ret].
Qed.

Lemma silent_commit root key st extra : silent (commit_direction root key st extra).
Proof.
  apply inside_try; [apply inside_bind; [auto with inside|]; intros r; apply inside_ret|]. intros doc.
  cbv zeta. destruct (to_vec (A := SessionDocument) _); [|apply inside_ret]. apply inside_bind; [auto with inside|]. intros suffix.
  apply inside_try; [|intros _; apply inside_lift_err; auto with inside].
  apply silent_with_pending, inside_lift_err, silent_write_sync_rename.
Qed.

Lemma inside_silent {T R} touch (m : io T R) : inside touch m -> silent m.
Proof. intros Hm w. eapply wpc_mono; [apply Hm|..]; [intros a|]; intros w' H; by apply (within_weaken touch). Qed.

Lemma silent_on_history s m :
  (forall h, silent (m h)) -> silent (on_history s m).
Proof. intros Hm. apply inside_bind; [apply Hm|]. intros out. apply inside_ret. Qed.

(** [m] adds to the trace no sealed envelope. *)
Definition no_seal {R} (m : io event R) : Prop :=
  forall w, wpc m (fun _ w' => exists l, w_trace w' = w_trace w ++ l /\ sealed_seqs l = []) (fun _ => True) w.

Lemma no_seal_silent {R} (m : io event R) : silent m -> no_seal m.
Proof. intros Hm w. apply silent_trace; [done| |done]. intros a w' ->. exists []. by rewrite app_nil_r. Qed.

Lemma no_seal_bind {R Q} (m : io event R) (k : R -> io event Q) :
  no_seal m -> (forall a, no_seal (k a)) -> no_seal (m ≫= k).
Proof.
  intros Hm Hk w. apply wpc_bind. eapply wpc_mono; [apply Hm| |done]. intros a w1 (l1 & E1 & S1).
  eapply wpc_mono; [apply Hk| |done]. intros b w2 (l2 & -> & S2). exists (l1 ++ l2).
  rewrite E1, (assoc_L (++)). split; [done|]. by rewrite sealed_seqs_app, S1, S2.
Qed.

Lemma no_seal_st_try {R Q} (m : io event (result R SessionError * Session))
    (k : R -> Session -> io event (result Q SessionError * Session)) :
  no_seal m -> (forall a s, no_seal (k a s)) -> no_seal (st_try m k).
Proof. intros Hm Hk. apply no_seal_bind; [done|]. intros [[a|e] s]; [apply Hk|apply no_seal_silent, inside_ret]. Qed.

Context {DI : Display} {HC : CoreCallbacks}.

Lemma no_seal_invoke item mailbox : no_seal (invoke_callback item mailbox).
Proof. intros w. exists [Fired mailbox item]. by destruct mailbox. Qed.

Lemma no_seal_commit_recv s d : no_seal (commit_recv s d).
Proof.
  apply no_seal_bind; [apply no_seal_silent, silent_commit|]. intros []; apply no_seal_silent, inside_ret.
Qed.

Lemma no_seal_on_history s m : (forall h, silent (m h)) -> no_seal (on_history s m).
Proof. intros Hm. by apply no_seal_silent, silent_on_history. Qed.

Lemma no_seal_handle_clip s room ct mailbox now : no_seal (handle_clip s room ct mailbox now).
Proof.
  assert (forall R (a : R), no_seal (mret a)) as Hret by (intros; apply no_seal_silent, inside_ret).
  unfold handle_clip, handle_clip_with_fault. destruct (authenticate s room ct) as [item|]; [|apply Hret].
  destruct (existsb _ _); [apply Hret|]. destruct (_ <=? _)%Z; [apply Hret|].
  apply no_seal_st_try; [apply no_seal_commit_recv|]. intros _ s1. simpl.
  apply no_seal_st_try; [apply no_seal_on_history; intros h; eapply inside_silent, inside_history_add|].
  intros _ s2. apply no_seal_st_try; [apply no_seal_commit_recv|]. intros _ s3. unfold apply_clip.
  destruct (is_fresh _ _ _); (apply no_seal_bind; [apply no_seal_invoke|]); intros [[]|e]; simpl; try apply Hret.
  apply no_seal_st_try; [|intros; apply Hret].
  apply no_seal_on_history. intros h. eapply inside_silent, inside_set_source.
Qed.

(** Handling a clip keeps the link, and seals nothing. *)
Lemma inbound_traced c room ct mailbox now w :
  wpc (handle_inbound_clip c room ct mailbox now)
    (fun out w' => fc_link out.1 = fc_link c /\ fc_socket out.1 = fc_socket c /\
       exists l, w_trace w' = w_trace w ++ l /\ sealed_seqs l = []) (fun _ => True) w.
Proof. apply wpc_bind. eapply wpc_mono; [apply no_seal_handle_clip| |done]. intros [r s] w' Hl. by apply wpc_ret. Qed.

Lemma bootstrap_traced c now w :
  wpc (handle_bootstrap c now)
    (fun out w' => fc_link out.1 = fc_link c /\ fc_socket out.1 = fc_socket c /\
       exists l, w_trace w' = w_trace w ++ l /\ sealed_seqs l = []) (fun _ => True) w.
Proof.
  unfold handle_bootstrap. destruct (bootstrap_clip _) as [[room ct]|]; [apply inbound_traced|].
  apply wpc_ret. split_and!; [done|done|]. exists []. by rewrite app_nil_r.
Qed.

Lemma send_clip_traced nonce s c ts w :
  wpc (send_clip nonce s c ts) (fun out w' =>
    match out.1 with
    | Ok f => (exists ct, f = Clip (s_room_id s) ct "" false) /\
              w_trace w' = w_trace w ++ [Sealed (next_seq (s_send_state s))]
    | Err _ => True
    end) (fun _ => True) w.
Proof.
  unfold send_clip, send_clip_with_fault. destruct (oversize_image c); [by apply wpc_ret|].
  apply wpc_st_try. unfold reserve_seq. destruct (checked_add_u64 _ _) as [next|]; [|by apply wpc_ret].
  apply wpc_bind. apply silent_trace; [apply silent_commit| |done]. intros [[]|e] w1 E1; apply wpc_ret; [|done].
  simpl. apply wpc_bind, wpc_new_v4. destruct (seal_clip _ _ _ _ _ _) as [sealed|]; [|by apply wpc_ret].
  apply wpc_bind, wpc_emit, wpc_st_try. apply wpc_bind.
  apply silent_trace; [eapply inside_silent, inside_history_add| |done].
  intros [[[]|e] h] w2 E2; apply wpc_ret; simpl; [|done]. apply wpc_ret. simpl. split.
  - exists (b64_encode sealed). destruct c; simpl; [|done]. unfold register_echo. by destruct (existsb _ _).
  - simpl in E2. by rewrite E2, E1.
Qed.

Lemma socket_send_log f s u s' : socket_send_frame f s = (Ok u, s') -> s_log s' = s_log s ++ [Sent f].
Proof.
  unfold socket_send_frame. destruct (encode_frame f); [|done]. destruct (from_utf8 _); [|done].
  destruct (s_out s) as [|[]]; try done; by intros [= _ <-].
Qed.
End silence.

Section properties.
Context {JD : Json SessionDocument} {JH : Json HistoryItem} {JE : Json Envelope} {JF : Json Frame}.
Context {JI : Json IdentityDocument} {JR : Json PairingRecord}.
Context {B64 : Base64} {S256 : Sha256} {Ed : Ed25519} {X : X25519} {A : Aead} {U : UuidText}.
Context {DI : Display} {HC : CoreCallbacks}.
Context (debug : bool) (frame_debug : Frame -> string).

(** The frame of a clip that session [s] seals under its next number and an
    identifier of the world's supply. *)
Definition sealed_frame (w : world event) (nonce : bytes) (s : Session) (content : ClipContent) (ts_ms : Z) (f : Frame) : Prop :=
  exists n sealed, seal_clip nonce s content (w_uuid w n) (next_seq (s_send_state s)) ts_ms = Ok sealed /\
    f = Clip (s_room_id s) (b64_encode sealed) "" false.

Lemma send_clip_sealed nonce s c ts w :
  wpc (send_clip nonce s c ts) (fun out _ => forall f, out.1 = Ok f -> sealed_frame w nonce s c ts f) (fun _ => True) w.
Proof.
  unfold send_clip, send_clip_with_fault. destruct (oversize_image c); [by apply wpc_ret|].
  apply wpc_st_try. unfold reserve_seq. destruct (checked_add_u64 _ _) as [next|]; [|by apply wpc_ret].
  apply wpc_bind. eapply wpc_mono; [apply silent_commit| |done].
  intros [[]|e] w1 [[Hq _] _]; apply wpc_ret; [|done]. simpl. apply wpc_bind, wpc_new_v4.
  destruct (seal_clip _ _ _ _ _ _) as [sealed|] eqn:Hs; [|by apply wpc_ret].
  apply wpc_bind, wpc_emit, wpc_st_try, wpc_bind. apply silent_trace; [eapply inside_silent, inside_history_add| |done].
  intros [[[]|e] h] w2 _; apply wpc_ret; simpl; [|done]. apply wpc_ret. intros f [= <-].
  exists (w_next w1), sealed. rewrite <-Hq. split; [exact Hs|].
  destruct c; simpl; [|done]. unfold register_echo. by destruct (existsb _ _).
Qed.

(** C18. When a send is answered with a sequence number, exactly one envelope
    was sealed for it, under that number, and the last frame on the socket the
    connection now has is the one that carries it: the content that was asked
    for, sealed by the session under that number and timestamp, for its room;
    even if the link had to be rejoined and the bootstrap clip of the new join
    was handled in between. *)
Theorem send_answer_is_true c content ts_ms e (w : world event) :
  wpc (send_over_connection debug frame_debug c content ts_ms e) (fun out w' =>
    forall seq, out.1.1 = Some (Ok seq) ->
      seq = next_seq (s_send_state (fc_session c)) /\
      (exists l, w_trace w' = w_trace w ++ Sealed seq :: l /\ sealed_seqs l = []) /\
      exists f log, sealed_frame w (d_nonce e) (fc_session c) content ts_ms f /\
        s_log (fc_socket out.1.2) = log ++ [Sent f])
    (fun _ => True) w.
Proof.
  unfold send_over_connection. apply wpc_bind.
  eapply wpc_mono; [apply wpc_conj; [apply send_clip_traced|apply send_clip_sealed]| |done].
  intros [[f|err] s] w1 [Hf Hsealed]; simpl in *; [|by apply wpc_ret].
  destruct Hf as [_ E1]. specialize (Hsealed f eq_refl).
  destruct (link_send _ _) as [[u|err] s1] eqn:Hs1.
  - apply wpc_ret. intros seq [= <-]. split_and!; [done|by exists []|]. apply socket_send_log in Hs1. simpl.
    by exists f, (s_log (fc_socket c)).
  - destruct (transient err); [|by apply wpc_ret]. apply wpc_bind.
    apply silent_trace; [apply silent_reconnect| |done]. intros [[link|]|] w2 E2; try by apply wpc_ret.
    apply wpc_bind. eapply wpc_mono; [apply bootstrap_traced| |done].
    intros [c' st] w3 (_ & Hsock & l & E3 & Hl). simpl in *. apply wpc_ret.
    destruct (link_send _ (fc_socket c')) as [[u'|] s2] eqn:Hs2; [|done]. intros seq [= <-].
    split_and!; [done| |].
    + exists l. rewrite E3, E2, E1. split; [|done]. by rewrite <- (assoc_L (++)).
    + apply socket_send_log in Hs2. by exists f, (s_log (fc_socket c')).
Qed.

(** *** The history comes before the host *)

Definition in_history (id : string) (h : HistoryStore) : Prop := id ∈ h_id <$> hs_items h.

Lemma history_add_recorded {T} h n :
  returns (T := T) (fun out => out.1 = Ok tt -> in_history (n_id n) out.2) (history_add h n).
Proof.
  unfold history_add. destruct (existsb _ _) eqn:He.
  - apply returns_ret. intros _. rewrite existsb_ids in He. by apply bool_decide_eq_true in He.
  - apply returns_bind. intros [[kind image]|e]; [|by apply returns_ret].
    set (item := {| h_id := n_id n |}).
    assert (n_id n ∈ h_id <$> (push_item (hs_items h) item).1) as Hin.
    { unfold push_item. case_bool_decide as Hlen; simpl.
      - destruct (hs_items h) as [|x l]; [simpl in Hlen; unfold HISTORY_CAP in Hlen; lia|]. simpl.
        rewrite fmap_app. apply elem_of_app. right. by left.
      - rewrite fmap_app. apply elem_of_app. right. by left. }
    destruct (push_item (hs_items h) item) as [updated evicted]; simpl in Hin.
    apply returns_bind. intros [[]|e]; [|apply returns_bind; intros; by apply returns_ret].
    destruct (evicted ≫= _); [apply returns_bind; intros|]; by apply returns_ret.
Qed.

Lemma set_source_keeps {T} h id src id' :
  in_history id' h -> returns (T := T) (fun out => in_history id' out.2) (set_source h id src).
Proof.
  intros Hin. unfold set_source. destruct (list_find _ _) as [[i item]|] eqn:Hf; [|by apply returns_ret].
  destruct (source_transition _ _); [|by apply returns_ret]. apply returns_bind.
  intros [[]|]; apply returns_ret; [|done]. unfold in_history in *; simpl. rewrite list_fmap_insert. simpl.
  apply list_find_Some in Hf as (Hl & _). rewrite list_insert_id; [done|]. by rewrite list_lookup_fmap, Hl.
Qed.

(** The host fails on the item, whatever happened before. *)
Definition host_fails (mailbox : bool) (item : ClipItem) : Prop :=
  forall past,
    if mailbox
    then match host_on_mailbox_clip past (ffi_clip_item item) with HostReturned (Ok _) => False | _ => True end
    else match host_on_clip past (ffi_clip_item item) with HostReturned (Ok _) => False | _ => True end.

(** The last step of a clip: the host is asked once, and a failure of the host is an error. *)
Lemma apply_clip_host s item fresh w :
  in_history (ci_id item) (s_history s) ->
  wpc (apply_clip s item fresh None) (fun out w' =>
    w_trace w' = w_trace w ++ [Fired (negb fresh) item] /\ in_history (ci_id item) (s_history out.2) /\
    (host_fails (negb fresh) item -> exists e, out.1 = Err (SessionCallbackError e))) (fun _ => True) w.
Proof.
  intros Hin. unfold apply_clip.
  assert (forall s, in_history (ci_id item) (s_history s) ->
            in_history (ci_id item) (s_history (register_content (ci_content item) s))) as Hreg.
  { intros s1 H1. destruct (ci_content item); simpl; [|done]. unfold register_echo. by destruct (existsb _ _). }
  destruct fresh; apply wpc_bind; unfold invoke_callback; apply wpc_bind; unfold get_trace; apply wpc_bind, wpc_emit, wpc_ret;
    unfold host_fails; simpl.
  - destruct (host_on_clip _ _) as [[u|e]|] eqn:Hh; simpl; apply wpc_ret; simpl; (split_and!; [done|auto|]).
    + intros Hf. specialize (Hf (w_trace w)). by rewrite Hh in Hf.
    + by eexists.
    + by eexists.
  - destruct (host_on_mailbox_clip _ _) as [[[]|e]|] eqn:Hh; simpl.
    + apply wpc_bind, wpc_bind. eapply wpc_mono; [apply wpc_returns; [apply (set_source_keeps _ _ _ (ci_id item) Hin)|]|..].
      * eapply inside_silent, inside_set_source.
      * intros [r h] w1 [Hin1 [[_ Ht] _]]. apply wpc_ret. simpl in *. destruct r as [[]|e]; simpl; apply wpc_ret; simpl.
        all: split_and!; [done|auto|]; intros Hf; specialize (Hf (w_trace w)); by rewrite Hh in Hf.
      * done.
    + apply wpc_ret; simpl. split_and!; [done|auto|]. intros Hf. specialize (Hf (w_trace w)). by rewrite Hh in Hf.
    + apply wpc_ret; simpl. split_and!; [done|auto|]. by eexists.
    + apply wpc_ret; simpl. split_and!; [done|auto|]. by eexists.
Qed.

Lemma commit_recv_quiet s d w :
  wpc (commit_recv s d) (fun out w' => w_trace w' = w_trace w /\ s_history out.2 = s_history s) (fun _ => True) w.
Proof.
  apply wpc_bind. apply silent_trace; [apply silent_commit| |done]. intros [[]|e] w' E; by apply wpc_ret.
Qed.

(** C23. A failing host never costs the session or the clip.  Handling an
    inbound clip keeps the link and the socket, whatever happens.  The host is
    asked at most once, about the clip that was authenticated and only after
    it is in the history; if the host rejects it or panics, the clip stays in
    the history and the failure is reported as one error status. *)
Theorem host_failure_survives c room ct mailbox now (w : world event) :
  wpc (handle_inbound_clip c room ct mailbox now) (fun out w' =>
    fc_link out.1 = fc_link c /\ fc_socket out.1 = fc_socket c /\
    (w_trace w' = w_trace w \/
     exists item mb, authenticate (fc_session c) room ct = Some item /\ w_trace w' = w_trace w ++ [Fired mb item] /\
       in_history (ci_id item) (s_history (fc_session out.1)) /\
       (host_fails mb item -> exists text, out.2 = [StError text])))
    (fun _ => True) w.
Proof.
  unfold handle_inbound_clip. apply wpc_bind. unfold handle_clip, handle_clip_with_fault.
  destruct (authenticate (fc_session c) room ct) as [item|] eqn:Ha; [|apply wpc_ret, wpc_ret; by auto].
  destruct (existsb _ _); [apply wpc_ret, wpc_ret; by auto|].
  destruct (_ <=? _)%Z; [apply wpc_ret, wpc_ret; by auto|]. apply wpc_st_try.
  eapply wpc_mono; [apply commit_recv_quiet| |done]. intros [[[]|e] s1] w1 [E1 H1]; [|apply wpc_ret; by auto].
  simpl in *. apply wpc_st_try, wpc_bind.
  eapply wpc_mono; [apply wpc_returns; [apply history_add_recorded|eapply inside_silent, inside_history_add]| |done].
  intros [[[]|e] h] w2 [Hin [[_ E2] _]]; apply wpc_ret; simpl in *; [|apply wpc_ret; rewrite E2; by auto].
  specialize (Hin eq_refl). simpl in Hin. apply wpc_st_try.
  eapply wpc_mono; [apply commit_recv_quiet| |done]. intros [[[]|e] s3] w3 [E3 H3]; simpl in *.
  2:{ apply wpc_ret. rewrite E3, E2. by auto. }
  eapply wpc_mono; [apply apply_clip_host; by rewrite H3| |done]. intros [r s4] w4 (E4 & Hin4 & Hf).
  apply wpc_ret. split_and!; [done|done|]. right. exists item, (negb (is_fresh mailbox (ci_ts_ms item) now)).
  split_and!; [done|by rewrite E4, E3, E2, E1|done|]. intros Hfail. destruct (Hf Hfail) as [e ->]. by eexists.
Qed.
End properties.
