(* ===== verification/Ffi.v ===== *)
(** * The FFI handle (the first half of [crates/core/src/ffi.rs])

    [CoreHandle]: the pairing phase machine, the bounded command queue and
    the life cycle.  Every critical section of the state lock is a function
    on [CoreHandle]; the exported methods compose them with the file-system
    calls of the stores and the client's network calls, in [io].  The dials,
    the draws, whether a network operation timed out and whether the
    dispatcher answered in time are arguments.  Slots stand for the shared
    [Arc<Mutex<Option<PairingChannel>>>], command channels for the bounded
    [mpsc] channels, one per [Active].  [Stall] and the test-only methods are
    left out. *)

From S2P Require Import Prelude Fs Interfaces Protocol Crypto History Pairing Session PairingClient Dispatcher.
From Stdlib Require Import Strings.Byte.

Set Default Goal Selector "!".
#[local] Open Scope clip_scope.

Definition DEFAULT_QUEUE_CAPACITY : nat := 32.

Inductive PairingPhase :=
| PhUnpaired | PhBusy
| PhOffering (qr_json : bytes) (slot : nat)
| PhSasReady (sas : string) (slot : nat)
| PhPaired (record : PairingRecord).

Inductive PairingSnapshot :=
| SnUnpaired | SnOffering (qr_json : bytes) | SnSasReady (sas : string) | SnPaired (room_id : string).

(** The queue of a dispatcher; closed once its receiver is gone. *)
Record Chan := { cn_queue : list CoreCommand; cn_closed : bool }.

Record Active := { ac_tx : nat; ac_phase : PairingPhase }.

Inductive HandleState := HActive (a : Active) | HTransitioning | HShutdown.

Abbreviation held := (PairingChannel * Socket)%type.

(** [ch_next] is the next fresh slot or channel; [ch_statuses] are the [on_status] calls so far. *)
Record CoreHandle := {
  ch_root : string; ch_capacity : nat; ch_state : HandleState;
  ch_slots : gmap nat (option held); ch_chans : gmap nat Chan; ch_next : nat; ch_statuses : list CoreStatus
}.

Definition set_hstate (s : HandleState) (h : CoreHandle) : CoreHandle :=
  {| ch_root := ch_root h; ch_capacity := ch_capacity h; ch_state := s; ch_slots := ch_slots h;
     ch_chans := ch_chans h; ch_next := ch_next h; ch_statuses := ch_statuses h |}.
Definition set_slot (i : nat) (c : option held) (h : CoreHandle) : CoreHandle :=
  {| ch_root := ch_root h; ch_capacity := ch_capacity h; ch_state := ch_state h;
     ch_slots := <[i := c]> (ch_slots h); ch_chans := ch_chans h; ch_next := ch_next h;
     ch_statuses := ch_statuses h |}.
Definition set_chan (i : nat) (c : Chan) (h : CoreHandle) : CoreHandle :=
  {| ch_root := ch_root h; ch_capacity := ch_capacity h; ch_state := ch_state h; ch_slots := ch_slots h;
     ch_chans := <[i := c]> (ch_chans h); ch_next := ch_next h; ch_statuses := ch_statuses h |}.
Definition fresh (h : CoreHandle) : nat * CoreHandle :=
  (ch_next h,
   {| ch_root := ch_root h; ch_capacity := ch_capacity h; ch_state := ch_state h; ch_slots := ch_slots h;
      ch_chans := ch_chans h; ch_next := S (ch_next h); ch_statuses := ch_statuses h |}).
Definition emit_status (s : CoreStatus) (h : CoreHandle) : CoreHandle :=
  {| ch_root := ch_root h; ch_capacity := ch_capacity h; ch_state := ch_state h; ch_slots := ch_slots h;
     ch_chans := ch_chans h; ch_next := ch_next h; ch_statuses := ch_statuses h ++ [s] |}.

(** [Arc::new(Mutex::new(c))]. *)
Definition new_slot (c : option held) (h : CoreHandle) : nat * CoreHandle :=
  let '(i, h) := fresh h in (i, set_slot i c h).

Definition with_phase (p : PairingPhase) (a : Active) : Active := {| ac_tx := ac_tx a; ac_phase := p |}.

(** [spawn_active] once the runtime started: a new channel and its dispatcher. *)
Definition spawn_active (h : CoreHandle) : Active * CoreHandle :=
  let '(tx, h) := fresh h in
  ({| ac_tx := tx; ac_phase := PhUnpaired |}, set_chan tx {| cn_queue := []; cn_closed := false |} h).

(** ** Critical sections *)

Definition with_active {R} (f : Active -> result R CoreError * Active) (h : CoreHandle) :
    result R CoreError * CoreHandle :=
  match ch_state h with
  | HActive a => let '(r, a) := f a in (r, set_hstate (HActive a) h)
  | HTransitioning => (Err CoreBusy, h)
  | HShutdown => (Err CoreShutdown, h)
  end.

Definition put_phase (p : PairingPhase) (h : CoreHandle) : result unit CoreError * CoreHandle :=
  with_active (fun a => (Ok tt, with_phase p a)) h.

Definition take_active (h : CoreHandle) : result Active CoreError * CoreHandle :=
  match ch_state h with
  | HActive a => (Ok a, set_hstate HTransitioning h)
  | HTransitioning => (Err CoreBusy, set_hstate HTransitioning h)
  | HShutdown => (Err CoreShutdown, set_hstate HShutdown h)
  end.

Definition begin_phase_transition : CoreHandle -> result unit CoreError * CoreHandle :=
  with_active (fun a =>
    match ac_phase a with
    | PhUnpaired => (Ok tt, with_phase PhBusy a)
    | _ => (Err CoreBusy, a)
    end).

Definition abort_phase_transition `{Display} (error : CoreError) (h : CoreHandle) : CoreHandle :=
  let h := match ch_state h with
           | HActive a => match ac_phase a with
                          | PhBusy => set_hstate (HActive (with_phase PhUnpaired a)) h
                          | _ => h
                          end
           | _ => h
           end in
  emit_status (StError (show_core error)) h.

Definition clone_tx : CoreHandle -> result nat CoreError * CoreHandle :=
  with_active (fun a => (Ok (ac_tx a), a)).

(** [cmd_tx.try_send(command)], outside the state lock. *)
Definition try_send (tx : nat) (command : CoreCommand) (h : CoreHandle) : result unit CoreError * CoreHandle :=
  match ch_chans h !! tx with
  | Some c =>
      if cn_closed c then (Err CoreShutdown, h)
      else if bool_decide (ch_capacity h <= length (cn_queue c)) then (Err QueueFull, h)
      else (Ok tt, set_chan tx {| cn_queue := cn_queue c ++ [command]; cn_closed := false |} h)
  | None => (Err CoreShutdown, h)
  end.

Definition pair_poll (h : CoreHandle) : PairingSnapshot :=
  match ch_state h with
  | HActive a =>
      match ac_phase a with
      | PhUnpaired | PhBusy => SnUnpaired
      | PhOffering qr_json _ => SnOffering qr_json
      | PhSasReady sas _ => SnSasReady sas
      | PhPaired record => SnPaired (rec_room_id record)
      end
  | _ => SnUnpaired
  end.

(** The first section of [pair_confirm]: the slot of the channel to confirm. *)
Definition confirm_take : CoreHandle -> result nat CoreError * CoreHandle :=
  with_active (fun a =>
    match ac_phase a with
    | PhSasReady _ slot => (Ok slot, with_phase PhBusy a)
    | _ => (Err CoreBusy, a)
    end).

(** [lock(&slot).take()]. *)
Definition slot_take (slot : nat) (h : CoreHandle) : option held * CoreHandle :=
  match ch_slots h !! slot with
  | Some (Some c) => (Some c, set_slot slot None h)
  | _ => (None, h)
  end.

Definition pair_cancel (h : CoreHandle) : result unit CoreError * CoreHandle :=
  let '(r, h) := with_active (fun a =>
    match ac_phase a with
    | PhOffering _ _ | PhSasReady _ _ => (Ok true, with_phase PhUnpaired a)
    | _ => (Ok false, a)
    end) h in
  match r with
  | Ok cancelled => (Ok tt, if cancelled : bool then emit_status ReadyUnpaired h else h)
  | Err e => (Err e, h)
  end.

Definition load_section (record : option PairingRecord) : CoreHandle -> result bool CoreError * CoreHandle :=
  with_active (fun a =>
    match ac_phase a, record with
    | PhPaired _, _ => (Ok true, a)
    | PhUnpaired, Some record => (Ok true, with_phase (PhPaired record) a)
    | PhUnpaired, None => (Ok false, a)
    | _, Some _ => (Err CoreBusy, a)
    | _, None => (Ok false, a)
    end).

Definition start_take : CoreHandle -> result PairingRecord CoreError * CoreHandle :=
  with_active (fun a =>
    match ac_phase a with
    | PhPaired record => (Ok record, with_phase PhBusy a)
    | PhUnpaired => (Err CoreNotPaired, a)
    | _ => (Err CoreBusy, a)
    end).

(** Is the phase the offer that owns [slot]? ([Arc::ptr_eq]) *)
Definition offers_slot (slot : nat) (a : Active) : bool :=
  match ac_phase a with PhOffering _ s => bool_decide (s = slot) | _ => false end.

(** The end of [wait_for_peer], after the channel is in its slot. *)
Definition announce (sas : string) (slot : nat) (h : CoreHandle) : CoreHandle :=
  match with_active (fun a => (Ok tt, if offers_slot slot a then with_phase (PhSasReady sas slot) a else a)) h with
  | (Ok _, h) => emit_status StSasReady h
  | (Err _, h) => h
  end.

Definition offer_failed `{Display} (error : TransportError) (slot : nat) (h : CoreHandle) : CoreHandle :=
  match with_active (fun a => if offers_slot slot a then (Ok true, with_phase PhUnpaired a) else (Ok false, a)) h with
  | (Ok true, h) => emit_status (StError (show_transport error)) h
  | (_, h) => h
  end.

(** [wait_for_peer], with the outcome of [wait_peer], while the handle is alive. *)
Definition wait_for_peer `{Display, Sha256} (r : result held TransportError) (slot : nat) (h : CoreHandle) : CoreHandle :=
  match r with
  | Ok held => announce (pending_sas (ch_pending held.1)) slot (set_slot slot (Some held) h)
  | Err error => offer_failed error slot h
  end.

(** ** The methods

    [hm] is the state and error monad of the methods that work on the handle. *)

Definition hm (R : Type) : Type := CoreHandle -> io event (result R CoreError * CoreHandle).

Definition h_ret {R} (a : R) : hm R := fun h => mret (Ok a, h).
Definition h_fail {R} (e : CoreError) : hm R := fun h => mret (Err e, h).

(** Rust's [?]. *)
Definition h_bind {R Q} (m : hm R) (k : R -> hm Q) : hm Q := fun h =>
  out ← m h;
  match out.1 with
  | Ok a => k a out.2
  | Err e => mret (Err e, out.2)
  end.
Notation "x ←# m ; k" := (h_bind m (fun x => k)) (at level 20, m at level 100, k at level 200, only parsing).

(** A critical section; a status; a call that does not touch the handle, with [?] and without. *)
Definition h_sec {R} (f : CoreHandle -> result R CoreError * CoreHandle) : hm R := fun h => mret (f h).
Definition h_do (f : CoreHandle -> CoreHandle) : hm unit := fun h => mret (Ok tt, f h).
Definition h_io {R} (m : io event (result R CoreError)) : hm R := fun h => r ← m; mret (r, h).
Definition h_try {R} (m : io event (result R CoreError)) : hm (result R CoreError) := fun h => r ← m; mret (Ok r, h).

(** What a call meets outside the handle: whether the relay was too slow, the
    dial, the draws; whether the dispatcher answered; how many commands it
    takes from the queue before each attempt to stop it, whether it ended in
    time and said so; whether a new runtime starts, or the text of its error. *)
Record outside := {
  o_timed_out : bool; o_dial : result Socket string; o_identity : bytes * bytes;
  o_code : list nat; o_nonce : bytes; o_rotated : bytes * bytes;
  o_accepted : bool; o_drains : nat -> nat; o_joined : bool; o_stopped : bool; o_runtime : option string
}.

Section methods.
Context {JD : Json SessionDocument} {JH : Json HistoryItem} {JE : Json Envelope} {JF : Json Frame}.
Context {JI : Json IdentityDocument} {JR : Json PairingRecord} {JQ : Json QrPayload}.
Context {B64 : Base64} {S256 : Sha256} {Ed : Ed25519} {X : X25519} {A : Aead} {U : UuidText}.
Context {DI : Display} {HC : CoreCallbacks}.
Context (debug : bool) (frame_debug : Frame -> string) (show_io : io_error -> string) (show_uuid : string -> string).

(** A timeout drops the future at a network operation; the client's calls have
    done their file-system part by then, so it is the whole call with its
    outcome thrown away. *)
Definition block_on_io {R} (timed_out : bool) (future : io event (result R TransportError)) :
    io event (result R CoreError) :=
  r ← future;
  mret (if timed_out then Err (CoreTransport "relay operation timed out") else map_err from_transport r).

Definition pairing_store : hm string := fun h =>
  h_io (lift_err from_pairing (pairing_store_new (join (ch_root h) "pairing"))) h.

Definition try_command (command : CoreCommand) : hm unit :=
  tx ←# h_sec clone_tx; h_sec (try_send tx command).

(** The answer of the dispatcher, [None] if it stopped without one. *)
Definition recv_answer {R} (answer : option (result R CoreError)) : hm R := fun h =>
  mret (default (Err (Internal "dispatcher stopped")) answer, h).

Definition build_connection (link : LiveLink * Socket) (o : outside) : hm FfiConnection := fun h =>
  (store ←# pairing_store;
   identity ←# h_io (lift_err from_pairing (load_identity (o_identity o) store));
   session_store ←# h_io (lift_err from_session (session_store_new (join (ch_root h) "session")));
   history ←# h_io (lift_err from_history (history_new (join (ch_root h) "history")));
   session ←# h_io (lift_err from_session (session_new identity (l_record link.1) session_store history));
   h_ret {| fc_link := link.1; fc_socket := link.2; fc_session := session; fc_store := store |}) h.

Definition activate_connection (link : LiveLink * Socket) (o : outside) : hm unit :=
  connection ←# build_connection link o;
  _ ←# try_command (CmdConnect connection);
  _ ←# (if o_accepted o then h_ret tt else h_fail (Internal "dispatcher did not accept the connection"));
  h_sec (put_phase (PhPaired (l_record link.1))).

(** What the two pairing calls do with the outcome of their network part. *)
Definition or_abort {R} (r : result R CoreError) (k : R -> hm string) : hm string :=
  match r with
  | Ok a => k a
  | Err error => _ ←# h_do (abort_phase_transition error); h_fail error
  end.

Definition publish_offer (offer : PairingOffer * Socket) : hm string :=
  qr_json ←# h_io (mret (map_err from_pairing (qr_to_json (off_qr offer.1))));
  slot ←# h_sec (fun h => let '(i, h) := new_slot None h in (Ok i, h));
  _ ←# h_sec (put_phase (PhOffering qr_json slot));
  _ ←# h_do (emit_status StOffering);
  h_ret (str_of_bytes qr_json).

Definition handle_pair_begin (server_url : string) (o : outside) : hm string :=
  match validate_server debug server_url with
  | Err error => h_fail (InvalidInput (show_pairing error))
  | Ok _ =>
      store ←# pairing_store;
      _ ←# h_sec begin_phase_transition;
      offer ←# h_try (block_on_io (o_timed_out o)
        (client ←! client_connect frame_debug (o_identity o) store server_url (o_dial o);
         mret (on_socket (pair_begin debug frame_debug client.1 (o_code o) (o_nonce o)) client.2)));
      or_abort offer publish_offer
  end.

Definition show_claimed (channel : held) : hm string :=
  let sas := pending_sas (ch_pending channel.1) in
  slot ←# h_sec (fun h => let '(i, h) := new_slot (Some channel) h in (Ok i, h));
  _ ←# h_sec (put_phase (PhSasReady sas slot));
  _ ←# h_do (emit_status StSasReady);
  h_ret sas.

Definition handle_pair_claim (qr_payload : string) (o : outside) : hm string :=
  match qr_parse debug (as_bytes qr_payload) with
  | Err error => h_fail (InvalidInput (show_pairing error))
  | Ok qr =>
      store ←# pairing_store;
      _ ←# h_sec begin_phase_transition;
      channel ←# h_try (block_on_io (o_timed_out o) (client_claim debug frame_debug (o_identity o) store qr (o_dial o)));
      or_abort channel show_claimed
  end.

Definition pair_confirm (sas : string) (o : outside) : hm unit :=
  slot ←# h_sec confirm_take;
  channel ←# h_sec (fun h => let '(c, h) := slot_take slot h in (ok_or c CoreBusy, h));
  store ←# pairing_store;
  link ←# h_try (block_on_io (o_timed_out o)
            (confirm_pair debug frame_debug (o_identity o) channel.1 sas store channel.2));
  match link with
  | Ok link => activate_connection link o
  | Err error => _ ←# h_do (abort_phase_transition error); h_fail error
  end.

Definition pair_load (o : outside) : hm bool :=
  store ←# pairing_store;
  record ←# h_io (lift_err from_pairing (load_pairing debug (o_identity o) store));
  h_sec (load_section record).

Definition handle_start (o : outside) : hm unit :=
  _ ←# h_do (emit_status Connecting);
  record ←# h_sec start_take;
  store ←# pairing_store;
  link ←# h_try (block_on_io (o_timed_out o) (client_join debug frame_debug (o_identity o) store (o_dial o)));
  match link with
  | Ok link => activate_connection link o
  | Err error =>
      _ ←# h_sec (put_phase (PhPaired record));
      _ ←# h_do (emit_status (StError (show_core error)));
      h_fail error
  end.

Definition enqueue_send (content : ClipContent) (now_ms : Z) (answer : option (result Z CoreError)) : hm Z :=
  _ ←# try_command (CmdSend content now_ms); recv_answer answer.

Definition handle_history (answer : option (result (list FfiHistoryItem) CoreError)) : hm (list FfiHistoryItem) :=
  _ ←# try_command CmdHistory; recv_answer answer.

Definition parse_id (id : string) : hm string :=
  match uuid_parse id with Some u => h_ret u | None => h_fail (InvalidInput (show_uuid id)) end.

Definition history_image_bytes (id : string) (answer : option (result bytes CoreError)) : hm bytes :=
  id ←# parse_id id; _ ←# try_command (CmdHistoryImage id); recv_answer answer.

Definition history_apply (id : string) (answer : option (result unit CoreError)) : hm unit :=
  id ←# parse_id id; _ ←# try_command (CmdHistoryApply id); recv_answer answer.

Definition handle_history_clear (answer : option (result unit CoreError)) : hm unit :=
  _ ←# try_command CmdHistoryClear; recv_answer answer.

Definition handle_is_echo (hash : string) (answer : option bool) : hm bool := fun h =>
  out ← try_command (CmdIsEcho hash) h;
  mret (Ok match out.1 with Ok _ => default false answer | Err _ => false end, out.2).

(** The dispatcher takes [n] commands from its queue. *)
Definition drain (n tx : nat) (h : CoreHandle) : CoreHandle :=
  match ch_chans h !! tx with
  | Some c => set_chan tx {| cn_queue := drop n (cn_queue c); cn_closed := cn_closed c |} h
  | None => h
  end.

(** The attempts to queue the disconnect, [attempts] of them left. *)
Fixpoint send_disconnect (drains : nat -> nat) (attempts tx : nat) (h : CoreHandle) : CoreHandle :=
  match attempts with
  | 0 => h
  | S attempts =>
      match try_send tx CmdDisconnect (drain (drains attempts) tx h) with
      | (Err QueueFull, h) => send_disconnect drains attempts tx h
      | (_, h) => h
      end
  end.

(** The runtime's own shutdown has no outcome. *)
Definition stop_active (a : Active) (o : outside) (h : CoreHandle) : result unit CoreError * CoreHandle :=
  let h := send_disconnect (o_drains o) 100 (ac_tx a) h in
  if negb (o_joined o) then (Err (Internal "dispatcher did not stop within the join timeout"), h)
  else
    let h := set_chan (ac_tx a) {| cn_queue := []; cn_closed := true |} h in
    if negb (o_stopped o) then (Err (Internal "dispatcher exited without signalling completion"), h)
    else (Ok tt, h).

Definition reset_pairing (o : outside) : hm unit :=
  a ←# h_sec take_active;
  stop_result ←# h_sec (fun h => let '(r, h) := stop_active a o h in (Ok r, h));
  reset_result ←# (fun h =>
    h_try (store ←! lift_err from_pairing (pairing_store_new (join (ch_root h) "pairing"));
           lift_err from_pairing (reset_pairing_state (o_identity o) (o_rotated o) store)) h);
  match o_runtime o with
  | None =>
      _ ←# h_do (fun h => let '(fresh, h) := spawn_active h in set_hstate (HActive fresh) h);
      _ ←# h_do (emit_status ReadyUnpaired);
      match stop_result, reset_result with
      | Err error, _ | _, Err error => h_fail error
      | Ok _, Ok _ => h_ret tt
      end
  | Some text =>
      _ ←# h_do (set_hstate HShutdown);
      h_fail (Internal ("runtime failed to start: " +:+ text))
  end.

Definition shutdown (o : outside) : hm unit :=
  a ←# h_sec take_active;
  _ ←# h_sec (stop_active a o);
  h_do (set_hstate HShutdown).

Definition fresh_handle (data_dir : string) (queue_capacity : nat) : CoreHandle :=
  let h := {| ch_root := data_dir; ch_capacity := Nat.max queue_capacity 1; ch_state := HTransitioning;
              ch_slots := ∅; ch_chans := ∅; ch_next := 0; ch_statuses := [] |} in
  let '(active, h) := spawn_active h in set_hstate (HActive active) h.

(** [CoreHandle::build]; [new] gives [DEFAULT_QUEUE_CAPACITY]. *)
Definition handle_build (data_dir : string) (queue_capacity : nat) (runtime : option string) :
    io event (result CoreHandle CoreError) :=
  _ ←! create_dir_all @ (fun error => Internal ("data dir is not writable: " +:+ show_io error));
  mret match runtime with
       | Some text => Err (Internal ("runtime failed to start: " +:+ text))
       | None => Ok (fresh_handle data_dir queue_capacity)
       end.

Definition handle_new (data_dir : string) (runtime : option string) : io event (result CoreHandle CoreError) :=
  handle_build data_dir DEFAULT_QUEUE_CAPACITY runtime.

(** The calls of the host; what they return besides an error is left out. *)
Inductive call :=
| CallBegin (server_url : string) | CallClaim (qr_payload : string) | CallConfirm (sas : string)
| CallCancel | CallLoad | CallStart
| CallSend (content : ClipContent) (now_ms : Z) (answer : option (result Z CoreError))
| CallHistory (answer : option (result (list FfiHistoryItem) CoreError))
| CallImage (id : string) (answer : option (result bytes CoreError))
| CallApply (id : string) (answer : option (result unit CoreError))
| CallClear (answer : option (result unit CoreError))
| CallEcho (hash : string) (answer : option bool)
| CallReset | CallShutdown.

Definition h_void {R} (m : hm R) : hm unit := _ ←# m; h_ret tt.

Definition perform (c : call) (o : outside) : hm unit :=
  match c with
  | CallBegin server_url => h_void (handle_pair_begin server_url o)
  | CallClaim qr_payload => h_void (handle_pair_claim qr_payload o)
  | CallConfirm sas => pair_confirm sas o
  | CallCancel => h_sec pair_cancel
  | CallLoad => h_void (pair_load o)
  | CallStart => handle_start o
  | CallSend content now_ms answer => h_void (enqueue_send content now_ms answer)
  | CallHistory answer => h_void (handle_history answer)
  | CallImage id answer => h_void (history_image_bytes id answer)
  | CallApply id answer => history_apply id answer
  | CallClear answer => handle_history_clear answer
  | CallEcho hash answer => h_void (handle_is_echo hash answer)
  | CallReset => reset_pairing o
  | CallShutdown => shutdown o
  end.
End methods.

(** ** Interleavings

    The host may call from several threads, and the tasks waiting for peers
    run beside them: a state of the system is the handle with what is in
    flight.  [y_waiting] are the slots of tasks that wait for a peer,
    [y_ready] the slots some thread has filled and not shown yet, [y_taken]
    the slots handed to a [pair_confirm] that has not emptied them yet.  A
    step is one critical section. *)

Record handle_sys := {
  y_handle : CoreHandle; y_waiting : gset nat; y_ready : gmap nat held; y_taken : gset nat
}.

Definition set_handle (h : CoreHandle) (s : handle_sys) : handle_sys :=
  {| y_handle := h; y_waiting := y_waiting s; y_ready := y_ready s; y_taken := y_taken s |}.

Section interleavings.
Context {S256 : Sha256} {DI : Display}.

(** The sections that neither fill, show nor hand out a slot. *)
Inductive plain : (CoreHandle -> CoreHandle) -> Prop :=
| pl_begin : plain (fun h => (begin_phase_transition h).2)
| pl_abort e : plain (abort_phase_transition e)
| pl_offering qr_json slot : plain (fun h => (put_phase (PhOffering qr_json slot) h).2)
| pl_failed e slot : plain (offer_failed e slot)
| pl_cancel : plain (fun h => (pair_cancel h).2)
| pl_load record : plain (fun h => (load_section record h).2)
| pl_start : plain (fun h => (start_take h).2)
| pl_paired record : plain (fun h => (put_phase (PhPaired record) h).2)
| pl_take : plain (fun h => (take_active h).2)
| pl_spawn : plain (fun h => let '(a, h) := spawn_active h in set_hstate (HActive a) h)
| pl_shutdown : plain (set_hstate HShutdown)
| pl_send tx command : plain (fun h => (try_send tx command h).2)
| pl_drain n tx : plain (drain n tx)
| pl_close tx : plain (set_chan tx {| cn_queue := []; cn_closed := true |})
| pl_emit st : plain (emit_status st).

Inductive handle_step : handle_sys -> handle_sys -> Prop :=
| hs_plain f s : plain f -> handle_step s (set_handle (f (y_handle s)) s)
| hs_offer s slot h :
    new_slot None (y_handle s) = (slot, h) ->
    handle_step s {| y_handle := h; y_waiting := {[slot]} ∪ y_waiting s; y_ready := y_ready s; y_taken := y_taken s |}
| hs_aborted s slot :
    handle_step s {| y_handle := y_handle s; y_waiting := y_waiting s ∖ {[slot]}; y_ready := y_ready s;
                     y_taken := y_taken s |}
| hs_peer s slot c :
    slot ∈ y_waiting s ->
    handle_step s {| y_handle := set_slot slot (Some c) (y_handle s); y_waiting := y_waiting s ∖ {[slot]};
                     y_ready := <[slot := c]> (y_ready s); y_taken := y_taken s |}
| hs_announce s slot c :
    y_ready s !! slot = Some c ->
    handle_step s {| y_handle := announce (pending_sas (ch_pending c.1)) slot (y_handle s);
                     y_waiting := y_waiting s; y_ready := delete slot (y_ready s); y_taken := y_taken s |}
| hs_claim s slot c h :
    new_slot (Some c) (y_handle s) = (slot, h) ->
    handle_step s {| y_handle := h; y_waiting := y_waiting s; y_ready := <[slot := c]> (y_ready s); y_taken := y_taken s |}
| hs_show s slot c :
    y_ready s !! slot = Some c ->
    handle_step s {| y_handle := (put_phase (PhSasReady (pending_sas (ch_pending c.1)) slot) (y_handle s)).2;
                     y_waiting := y_waiting s; y_ready := delete slot (y_ready s); y_taken := y_taken s |}
| hs_confirm s slot h :
    confirm_take (y_handle s) = (Ok slot, h) ->
    handle_step s {| y_handle := h; y_waiting := y_waiting s; y_ready := y_ready s; y_taken := {[slot]} ∪ y_taken s |}
| hs_take s slot :
    slot ∈ y_taken s ->
    handle_step s {| y_handle := (slot_take slot (y_handle s)).2; y_waiting := y_waiting s; y_ready := y_ready s;
                     y_taken := y_taken s ∖ {[slot]} |}.

Definition phase_of (h : CoreHandle) : option PairingPhase :=
  match ch_state h with HActive a => Some (ac_phase a) | _ => None end.

Definition queues_bounded (h : CoreHandle) : Prop :=
  forall tx c, ch_chans h !! tx = Some c -> length (cn_queue c) <= ch_capacity h.

(** Who holds which slot: at most one of a waiting task, a thread about to
    show it, the phase, and a [pair_confirm]. *)
Record slots_ok (s : handle_sys) : Prop := {
  so_fresh i : is_Some (ch_slots (y_handle s) !! i) -> i < ch_next (y_handle s);
  so_waiting i : i ∈ y_waiting s -> is_Some (ch_slots (y_handle s) !! i) /\ y_ready s !! i = None /\ (i ∉ y_taken s);
  so_ready i c : y_ready s !! i = Some c -> ch_slots (y_handle s) !! i = Some (Some c) /\ (i ∉ y_taken s);
  so_taken i : i ∈ y_taken s -> is_Some (ch_slots (y_handle s) !! i);
  so_shown sas i : phase_of (y_handle s) = Some (PhSasReady sas i) ->
    (i ∉ y_waiting s) /\ y_ready s !! i = None /\ (i ∉ y_taken s) /\
    exists c, ch_slots (y_handle s) !! i = Some (Some c) /\ pending_sas (ch_pending c.1) = sas;
  so_bounded : queues_bounded (y_handle s)
}.

Lemma bounded_set_chan tx c h :
  length (cn_queue c) <= ch_capacity h -> queues_bounded h -> queues_bounded (set_chan tx c h).
Proof. intros Hc Hb tx' c'. simpl. rewrite lookup_insert_Some. intros [[_ <-]|[_ Hl]]; [done|by apply (Hb tx')]. Qed.

(** What a plain section leaves alone. *)
Lemma plain_keeps f h :
  plain f ->
  ch_slots (f h) = ch_slots h /\ ch_next h <= ch_next (f h) /\
  (forall sas i, phase_of (f h) = Some (PhSasReady sas i) -> phase_of h = Some (PhSasReady sas i)) /\
  (queues_bounded h -> queues_bounded (f h)).
Proof.
  intros Hf. destruct Hf.
  all: unfold begin_phase_transition, abort_phase_transition, put_phase, offer_failed, pair_cancel, load_section,
         start_take, take_active, with_active, offers_slot, try_send, drain, spawn_active, phase_of.
  all: try (destruct (ch_state h) as [[tx0 []]| |] eqn:Hs; simpl; try rewrite Hs; simpl; repeat case_match;
            simplify_eq/=; by split_and!; auto with lia).
  - simpl. split_and!; [done|lia|done|]. intros Hb. apply (bounded_set_chan _ _ h); [simpl; lia|done].
  - destruct (ch_chans h !! tx) as [c|]; [|by auto]. destruct (cn_closed c); [by auto|].
    case_bool_decide; [by auto|]. split_and!; [done|done|by auto|]. intros Hb. apply bounded_set_chan; [|done].
    simpl. rewrite length_app. simpl. lia.
  - destruct (ch_chans h !! tx) as [c|] eqn:Hc; [|by auto]. split_and!; [done|done|by auto|]. intros Hb.
    apply bounded_set_chan; [|done]. simpl. rewrite length_drop. specialize (Hb _ _ Hc). lia.
  - split_and!; [done|done|by auto|]. intros Hb. apply bounded_set_chan; [simpl; lia|done].
Qed.

Lemma new_slot_eq c h i h' :
  new_slot c h = (i, h') ->
  i = ch_next h /\ ch_slots h' = <[i := c]> (ch_slots h) /\ ch_next h' = S i /\ phase_of h' = phase_of h /\
  (queues_bounded h -> queues_bounded h').
Proof. intros [= <- <-]. by auto. Qed.

(** A new slot is nobody's. *)
Lemma fresh_slot s :
  slots_ok s -> let i := ch_next (y_handle s) in
  ch_slots (y_handle s) !! i = None /\ (i ∉ y_waiting s) /\ y_ready s !! i = None /\ (i ∉ y_taken s) /\
  (forall sas j, phase_of (y_handle s) = Some (PhSasReady sas j) -> j <> i).
Proof.
  intros Hok i.
  assert (ch_slots (y_handle s) !! i = None) as Hn.
  { apply eq_None_not_Some. intros Hi. apply (so_fresh _ Hok) in Hi. unfold i in Hi. lia. }
  split_and!; [done|..].
  - intros Hi. apply (so_waiting _ Hok) in Hi as [[? Hi] _]. by rewrite Hn in Hi.
  - apply eq_None_not_Some. intros [c Hi]. apply (so_ready _ Hok) in Hi as [Hi _]. by rewrite Hn in Hi.
  - intros Hi. apply (so_taken _ Hok) in Hi as [? Hi]. by rewrite Hn in Hi.
  - intros sas j Hp ->. apply (so_shown _ Hok) in Hp as (_ & _ & _ & c & Hi & _). by rewrite Hn in Hi.
Qed.

Lemma slots_ok_plain f s : plain f -> slots_ok s -> slots_ok (set_handle (f (y_handle s)) s).
Proof.
  intros Hf Hok. destruct (plain_keeps f (y_handle s) Hf) as (E1 & E2 & E3 & E4).
  split; simpl; try rewrite E1; try apply Hok.
  - intros i Hi. apply (so_fresh _ Hok) in Hi. lia.
  - intros sas i Hp. by apply (so_shown _ Hok), E3.
  - apply E4, Hok.
Qed.

(** A thread shows the slot it filled, or finds that the phase has moved on. *)
Lemma slots_ok_show s slot c h' :
  slots_ok s -> y_ready s !! slot = Some c ->
  ch_slots h' = ch_slots (y_handle s) -> ch_next h' = ch_next (y_handle s) ->
  (queues_bounded (y_handle s) -> queues_bounded h') ->
  phase_of h' = phase_of (y_handle s) \/ phase_of h' = Some (PhSasReady (pending_sas (ch_pending c.1)) slot) ->
  slots_ok {| y_handle := h'; y_waiting := y_waiting s; y_ready := delete slot (y_ready s); y_taken := y_taken s |}.
Proof.
  intros Hok Hc Es En Hb Hp. destruct (so_ready _ Hok _ _ Hc) as [Hslot Htaken].
  assert (slot ∉ y_waiting s) as Hw by (intros Hw; apply (so_waiting _ Hok) in Hw as (_ & Hr & _); congruence).
  split; simpl; try rewrite Es; try rewrite En; try apply Hok.
  - intros i Hi. destruct (so_waiting _ Hok i Hi) as (H1 & H2 & H3). by rewrite lookup_delete_None; auto.
  - intros i d [_ Hd]%lookup_delete_Some. by apply (so_ready _ Hok).
  - intros sas i Hi. rewrite lookup_delete_None. destruct Hp as [Hp|Hp]; rewrite Hp in Hi.
    + apply (so_shown _ Hok) in Hi as (H1 & H2 & H3 & H4). by auto.
    + simplify_eq. split_and!; eauto.
  - apply Hb, Hok.
Qed.

Lemma phase_with_active {R} (f : Active -> result R CoreError * Active) h :
  phase_of (with_active f h).2 = match ch_state h with HActive a => Some (ac_phase (f a).2) | _ => None end.
Proof. unfold with_active, phase_of. destruct (ch_state h) as [a| |] eqn:E; [by destruct (f a)|simpl; by rewrite E..]. Qed.

Lemma with_active_frame {R} (f : Active -> result R CoreError * Active) h :
  ch_slots (with_active f h).2 = ch_slots h /\ ch_next (with_active f h).2 = ch_next h /\
  (queues_bounded h -> queues_bounded (with_active f h).2).
Proof. unfold with_active. destruct (ch_state h) as [a| |]; [destruct (f a)|..]; by auto. Qed.

Lemma announce_frame sas slot h :
  ch_slots (announce sas slot h) = ch_slots h /\ ch_next (announce sas slot h) = ch_next h /\
  (queues_bounded h -> queues_bounded (announce sas slot h)) /\
  (phase_of (announce sas slot h) = phase_of h \/ phase_of (announce sas slot h) = Some (PhSasReady sas slot)).
Proof.
  unfold announce, with_active, phase_of. destruct (ch_state h) as [a| |] eqn:E; simpl; try rewrite E; [|by auto..].
  split_and!; try done. destruct (offers_slot slot a); by auto.
Qed.

Lemma slots_ok_offer s slot h :
  new_slot None (y_handle s) = (slot, h) -> slots_ok s ->
  slots_ok {| y_handle := h; y_waiting := {[slot]} ∪ y_waiting s; y_ready := y_ready s; y_taken := y_taken s |}.
Proof.
  intros (-> & Es & En & Ep & Hb)%new_slot_eq Hok. destruct (fresh_slot s Hok) as (F1 & F2 & F3 & F4 & F5).
  split; simpl; rewrite ?Es, ?En, ?Ep.
  - intros i [->|[_ Hi%(so_fresh _ Hok)]]%lookup_insert_is_Some; lia.
  - intros i [->%elem_of_singleton|Hi]%elem_of_union; [by rewrite lookup_insert_eq|].
    destruct (so_waiting _ Hok i Hi) as (H1 & H2 & H3). split_and!; try done. apply lookup_insert_is_Some'; by auto.
  - intros i c Hi. destruct (so_ready _ Hok i c Hi) as [H1 H2]. rewrite lookup_insert_ne; [done|]. intros <-. congruence.
  - intros i Hi. apply lookup_insert_is_Some'. right. by apply (so_taken _ Hok).
  - intros sas i Hi. destruct (so_shown _ Hok _ _ Hi) as (H1 & H2 & H3 & H4). specialize (F5 _ _ Hi).
    rewrite lookup_insert_ne by done. rewrite not_elem_of_union, not_elem_of_singleton. by auto.
  - apply Hb, Hok.
Qed.

Lemma slots_ok_claim s slot c h :
  new_slot (Some c) (y_handle s) = (slot, h) -> slots_ok s ->
  slots_ok {| y_handle := h; y_waiting := y_waiting s; y_ready := <[slot := c]> (y_ready s); y_taken := y_taken s |}.
Proof.
  intros (-> & Es & En & Ep & Hb)%new_slot_eq Hok. destruct (fresh_slot s Hok) as (F1 & F2 & F3 & F4 & F5).
  split; simpl; rewrite ?Es, ?En, ?Ep.
  - intros i [->|[_ Hi%(so_fresh _ Hok)]]%lookup_insert_is_Some; lia.
  - intros i Hi. destruct (so_waiting _ Hok i Hi) as (H1 & H2 & H3).
    rewrite !lookup_insert_ne by (intros <-; done). by auto.
  - intros i d [[<- <-]|[Hne Hi]]%lookup_insert_Some; [by rewrite lookup_insert_eq|].
    rewrite lookup_insert_ne by done. by apply (so_ready _ Hok).
  - intros i Hi. apply lookup_insert_is_Some'. right. by apply (so_taken _ Hok).
  - intros sas i Hi. destruct (so_shown _ Hok _ _ Hi) as (H1 & H2 & H3 & H4). specialize (F5 _ _ Hi).
    rewrite !lookup_insert_ne by done. by auto.
  - apply Hb, Hok.
Qed.

Lemma slots_ok_peer s slot c :
  slot ∈ y_waiting s -> slots_ok s ->
  slots_ok {| y_handle := set_slot slot (Some c) (y_handle s); y_waiting := y_waiting s ∖ {[slot]};
              y_ready := <[slot := c]> (y_ready s); y_taken := y_taken s |}.
Proof.
  intros Hw Hok. destruct (so_waiting _ Hok slot Hw) as (W1 & W2 & W3). split; simpl; try apply Hok.
  - intros i [->|[_ Hi]]%lookup_insert_is_Some; by apply (so_fresh _ Hok).
  - intros i [Hi Hne%not_elem_of_singleton]%elem_of_difference. destruct (so_waiting _ Hok i Hi) as (H1 & H2 & H3).
    rewrite !lookup_insert_ne by done. by auto.
  - intros i d [[<- <-]|[Hne Hi]]%lookup_insert_Some; [by rewrite lookup_insert_eq|].
    rewrite lookup_insert_ne by done. by apply (so_ready _ Hok).
  - intros i Hi. apply lookup_insert_is_Some'. right. by apply (so_taken _ Hok).
  - intros sas i Hi. destruct (so_shown _ Hok _ _ Hi) as (H1 & H2 & H3 & H4).
    assert (slot <> i) by (intros <-; done). rewrite !lookup_insert_ne by done.
    split_and!; [|done..]. by intros [? _]%elem_of_difference.
Qed.

(** A slot is handed out only while the phase shows it, and not shown again. *)
Lemma confirm_take_Ok h slot h' :
  confirm_take h = (Ok slot, h') ->
  exists a sas, ch_state h = HActive a /\ ac_phase a = PhSasReady sas slot /\ h' = set_hstate (HActive (with_phase PhBusy a)) h.
Proof.
  unfold confirm_take, with_active. destruct (ch_state h) as [a| |]; try done.
  destruct (ac_phase a) as [| | |sas i|] eqn:Ep; try done. intros [= -> <-]. by exists a, sas.
Qed.

Lemma slots_ok_confirm s slot h :
  confirm_take (y_handle s) = (Ok slot, h) -> slots_ok s ->
  slots_ok {| y_handle := h; y_waiting := y_waiting s; y_ready := y_ready s; y_taken := {[slot]} ∪ y_taken s |}.
Proof.
  intros (a & sas & Es & Ep & ->)%confirm_take_Ok Hok.
  assert (phase_of (y_handle s) = Some (PhSasReady sas slot)) as Hp by (unfold phase_of; by rewrite Es, Ep).
  destruct (so_shown _ Hok _ _ Hp) as (S1 & S2 & S3 & c & S4 & S5). split; simpl; try apply Hok; [..|done].
  - intros i Hi. destruct (so_waiting _ Hok i Hi) as (H1 & H2 & H3). split_and!; [done|done|].
    by intros [->%elem_of_singleton|]%elem_of_union.
  - intros i d Hi. destruct (so_ready _ Hok i d Hi) as [H1 H2]. split; [done|].
    intros [->%elem_of_singleton|]%elem_of_union; [congruence|done].
  - intros i [->%elem_of_singleton|Hi]%elem_of_union; [by eexists|by apply (so_taken _ Hok)].
Qed.

Lemma slots_ok_take s slot :
  slot ∈ y_taken s -> slots_ok s ->
  slots_ok {| y_handle := (slot_take slot (y_handle s)).2; y_waiting := y_waiting s; y_ready := y_ready s;
              y_taken := y_taken s ∖ {[slot]} |}.
Proof.
  intros Ht Hok.
  assert (forall i, i ∉ y_taken s -> i ∉ y_taken s ∖ {[slot]}) as Hsub by (intros i Hi [? _]%elem_of_difference; done).
  assert (forall i, i ∉ y_taken s -> slot <> i) as Hne by (intros i Hi ->; done).
  assert (exists v, (slot_take slot (y_handle s)).2 = set_slot slot v (y_handle s) \/
                    (slot_take slot (y_handle s)).2 = y_handle s) as [v Hv].
  { unfold slot_take. destruct (ch_slots _ !! slot) as [[c|]|]; exists None; by auto. }
  destruct Hv as [->| ->].
  - split; simpl; try apply Hok.
    + intros i [->|[_ Hi]]%lookup_insert_is_Some; [by apply (so_fresh _ Hok), (so_taken _ Hok)|by apply (so_fresh _ Hok)].
    + intros i Hi. destruct (so_waiting _ Hok i Hi) as (H1 & H2 & H3). split_and!; [|by auto..].
      apply lookup_insert_is_Some'. by auto.
    + intros i d Hi. destruct (so_ready _ Hok i d Hi) as [H1 H2]. rewrite lookup_insert_ne by auto. by auto.
    + intros i [Hi _]%elem_of_difference. apply lookup_insert_is_Some'. right. by apply (so_taken _ Hok).
    + intros sas i Hi. destruct (so_shown _ Hok _ _ Hi) as (H1 & H2 & H3 & H4). rewrite lookup_insert_ne by auto. by auto.
  - split; simpl; try apply Hok.
    + intros i Hi. destruct (so_waiting _ Hok i Hi) as (H1 & H2 & H3). by auto.
    + intros i d Hi. destruct (so_ready _ Hok i d Hi) as [H1 H2]. by auto.
    + intros i [Hi _]%elem_of_difference. by apply (so_taken _ Hok).
    + intros sas i Hi. destruct (so_shown _ Hok _ _ Hi) as (H1 & H2 & H3 & H4). by auto.
Qed.

Lemma slots_ok_step s s' : handle_step s s' -> slots_ok s -> slots_ok s'.
Proof.
  intros Hstep Hok. destruct Hstep as [f s Hf|s slot h Hn|s slot|s slot c Hw|s slot c Hc|s slot c h Hn|s slot c Hc|s slot h Hc|s slot Ht].
  - by apply slots_ok_plain.
  - by apply slots_ok_offer.
  - split; simpl; try apply Hok.
    + intros i [Hi _]%elem_of_difference. by apply (so_waiting _ Hok).
    + intros sas i Hi. destruct (so_shown _ Hok _ _ Hi) as (H1 & H2 & H3 & H4). split_and!; [|done..].
      by intros [? _]%elem_of_difference.
  - by apply slots_ok_peer.
  - destruct (announce_frame (pending_sas (ch_pending c.1)) slot (y_handle s)) as (E1 & E2 & E3 & E4).
    by apply slots_ok_show with c.
  - by apply slots_ok_claim.
  - destruct (with_active_frame (fun a => (Ok tt, with_phase (PhSasReady (pending_sas (ch_pending c.1)) slot) a)) (y_handle s))
      as (E1 & E2 & E3). apply slots_ok_show with c; try done. unfold put_phase. rewrite phase_with_active. unfold phase_of.
    destruct (ch_state (y_handle s)); by auto.
  - by apply slots_ok_confirm.
  - by apply slots_ok_take.
Qed.
End interleavings.

(** ** Methods as sequences of critical sections *)

Section runs.
Context {JD : Json SessionDocument} {JH : Json HistoryItem} {JE : Json Envelope} {JF : Json Frame}.
Context {JI : Json IdentityDocument} {JR : Json PairingRecord} {JQ : Json QrPayload}.
Context {B64 : Base64} {S256 : Sha256} {Ed : Ed25519} {X : X25519} {A : Aead} {U : UuidText}.
Context {DI : Display} {HC : CoreCallbacks}.
Context (debug : bool) (frame_debug : Frame -> string) (show_uuid : string -> string).

(** [m], begun in a state of [P], is a run of the system; if it succeeds, [Q] holds. *)
Definition follows {R} (P : handle_sys -> Prop) (m : hm R) (Q : R -> handle_sys -> Prop) : Prop :=
  forall s, P s ->
    returns (fun out => exists s', y_handle s' = out.2 /\ rtc handle_step s s' /\ forall a, out.1 = Ok a -> Q a s')
            (m (y_handle s)).

Definition anywhere : handle_sys -> Prop := fun _ => True.
Definition anyhow {R} : R -> handle_sys -> Prop := fun _ _ => True.

Lemma follows_bind {R V} P (m : hm R) Q (k : R -> hm V) W :
  follows P m Q -> (forall a, follows (Q a) (k a) W) -> follows P (h_bind m k) W.
Proof.
  intros Hm Hk s Hs. eapply returns_bind_post; [by apply Hm|]. intros [[a|e] h] (s' & Eh & Hr & Ha); simpl in *; subst.
  - eapply returns_mono; [apply Hk; by apply Ha|]. intros out (s2 & E2 & H2 & H3). exists s2. split_and!; [done| |done].
    by etrans.
  - apply returns_ret. exists s'. by split_and!.
Qed.

Lemma follows_weaken {R} (P P' : handle_sys -> Prop) (m : hm R) Q :
  follows P' m Q -> (forall s, P s -> P' s) -> follows P m Q.
Proof. intros Hm HP s Hs. by apply Hm, HP. Qed.

Lemma follows_ret {R} P (a : R) : follows P (h_ret a) anyhow.
Proof. intros s _. apply returns_ret. exists s. by split_and!. Qed.

Lemma follows_fail {R} P e (Q : R -> handle_sys -> Prop) : follows P (h_fail e) Q.
Proof. intros s _. apply returns_ret. exists s. by split_and!. Qed.

Lemma follows_io {R} P (m : io event (result R CoreError)) : follows P (h_io m) (fun _ => P).
Proof. intros s Hs. apply returns_bind. intros r. apply returns_ret. exists s. by split_and!. Qed.

Lemma follows_try {R} P (m : io event (result R CoreError)) : follows P (h_try m) (fun _ => P).
Proof. intros s Hs. apply returns_bind. intros r. apply returns_ret. exists s. by split_and!. Qed.

Lemma follows_plain {R} P (f : CoreHandle -> result R CoreError * CoreHandle) :
  plain (fun h => (f h).2) -> follows P (h_sec f) anyhow.
Proof.
  intros Hf s _. apply returns_ret. eexists. split_and!; [|by apply rtc_once, (hs_plain (fun h => (f h).2))|done]. done.
Qed.

Lemma follows_do P f : plain f -> follows P (h_do f) anyhow.
Proof. intros Hf s _. apply returns_ret. eexists. split_and!; [|by apply rtc_once, (hs_plain f)|done]. done. Qed.

Lemma set_hstate_id h : set_hstate (ch_state h) h = h.
Proof. by destruct h. Qed.

Lemma follows_clone P : follows P (h_sec clone_tx) anyhow.
Proof.
  intros s _. apply returns_ret. exists s. split_and!; [|done|done]. unfold clone_tx, with_active.
  destruct (ch_state (y_handle s)) eqn:E; simpl; [|done..]. by rewrite <- E, set_hstate_id.
Qed.

Lemma follows_pairing_store P : follows P pairing_store (fun _ => P).
Proof. intros s Hs. by apply (follows_io P). Qed.

Ltac is_plain :=
  first [apply pl_begin | apply pl_abort | apply pl_offering | apply pl_cancel | apply pl_load | apply pl_start
        | apply pl_paired | apply pl_take | apply pl_spawn | apply pl_shutdown | apply pl_send | apply pl_emit].

Ltac follow :=
  lazymatch goal with
  | |- follows _ (h_bind _ _) _ => eapply follows_bind; [follow|intros ?; follow]
  | |- follows _ (h_ret _) _ => apply follows_ret
  | |- follows _ (h_fail _) _ => apply follows_fail
  | |- follows _ (h_io _) _ => apply follows_io
  | |- follows _ (h_try _) _ => apply follows_try
  | |- follows _ pairing_store _ => apply follows_pairing_store
  | |- follows _ (h_sec clone_tx) _ => apply follows_clone
  | |- follows _ (h_sec _) _ => try (apply follows_plain; is_plain)
  | |- follows _ (h_do _) _ => apply follows_do; is_plain
  | |- follows _ (match ?x with _ => _ end) _ => destruct x; follow
  | _ => idtac
  end.

Lemma follows_try_command P command : follows P (try_command command) anyhow.
Proof. unfold try_command. follow. Qed.

Lemma follows_answer {R} P (answer : option (result R CoreError)) : follows P (recv_answer answer) anyhow.
Proof. intros s _. apply returns_ret. exists s. by split_and!. Qed.

Lemma follows_build P link o : follows P (build_connection link o) anyhow.
Proof.
  intros s Hs. unfold build_connection. generalize (join (ch_root (y_handle s)) "session"), (join (ch_root (y_handle s)) "history").
  intros d1 d2. revert s Hs. change (follows P (store ←# pairing_store;
     identity ←# h_io (lift_err from_pairing (load_identity (o_identity o) store));
     session_store ←# h_io (lift_err from_session (session_store_new d1));
     history ←# h_io (lift_err from_history (history_new d2));
     session ←# h_io (lift_err from_session (session_new identity (l_record link.1) session_store history));
     h_ret {| fc_link := link.1; fc_socket := link.2; fc_session := session; fc_store := store |}) anyhow).
  follow.
Qed.

Lemma follows_activate P link o : follows P (activate_connection link o) anyhow.
Proof.
  eapply follows_bind; [apply follows_build|]. intros c. eapply follows_bind; [apply follows_try_command|]. intros ?. follow.
Qed.

Lemma follows_new_slot P c :
  follows P (h_sec (fun h => let '(i, h) := new_slot c h in (Ok i, h)))
    (fun i s => match c with Some c => y_ready s !! i = Some c | None => True end).
Proof.
  intros s _. apply returns_ret. destruct (new_slot c (y_handle s)) as [i h] eqn:E. simpl.
  destruct c as [c|]; eexists.
  - split_and!; [|by eapply rtc_once, (hs_claim s i c h)|]; [done|]. intros j [= <-]. simpl. by rewrite lookup_insert_eq.
  - split_and!; [|by eapply rtc_once, (hs_offer s i h)|]; done.
Qed.

Lemma follows_publish P offer : follows P (publish_offer offer) anyhow.
Proof.
  eapply follows_bind; [apply follows_io|]. intros qr_json. eapply follows_bind; [apply follows_new_slot|]. intros slot. follow.
Qed.

Lemma follows_claimed P c : follows P (show_claimed c) anyhow.
Proof.
  eapply follows_bind; [apply follows_new_slot|]. intros slot. eapply (follows_bind _ _ anyhow); [|intros ?; follow].
  intros s Hs. apply returns_ret. eexists. split_and!; [|eapply rtc_once, (hs_show s slot c Hs)|]; done.
Qed.

Lemma follows_confirm_take P : follows P (h_sec confirm_take) (fun slot s => slot ∈ y_taken s).
Proof.
  intros s _. apply returns_ret. destruct (confirm_take (y_handle s)) as [[slot|e] h] eqn:E; simpl.
  - eexists. split_and!; [|eapply rtc_once, (hs_confirm s slot h E)|]; [done|]. intros a [= <-]. simpl.
    apply elem_of_union_l, elem_of_singleton_2. done.
  - exists s. split_and!; [|done|done]. unfold confirm_take, with_active in E.
    destruct (ch_state (y_handle s)) as [a| |] eqn:Es; [|by simplify_eq..].
    destruct (ac_phase a); simplify_eq; by rewrite <- Es, set_hstate_id.
Qed.

Lemma follows_confirm P sas o : follows P (pair_confirm debug frame_debug sas o) anyhow.
Proof.
  eapply follows_bind; [apply follows_confirm_take|]. intros slot. eapply (follows_bind _ _ anyhow).
  - intros s Hs. apply returns_ret. eexists. split_and!; [|eapply rtc_once, (hs_take s slot Hs)|done].
    simpl. by destruct (slot_take _ _).
  - intros channel. follow. apply follows_activate.
Qed.

Lemma plain_runs f s : plain f -> rtc handle_step s (set_handle (f (y_handle s)) s).
Proof. intros Hf. by apply rtc_once, hs_plain. Qed.

Lemma send_disconnect_runs drains n tx s :
  rtc handle_step s (set_handle (send_disconnect drains n tx (y_handle s)) s).
Proof.
  revert s. induction n as [|n IH]; intros s; simpl; [by destruct s|].
  etrans; [apply (plain_runs (drain (drains n) tx)); constructor|]. set (s1 := set_handle _ s).
  pose proof (plain_runs _ s1 (pl_send tx CmdDisconnect)) as Hs. simpl in Hs.
  destruct (try_send tx CmdDisconnect _) as [r h]; simpl in Hs. etrans; [exact Hs|].
  destruct r as [|[]]; try exact (rtc_refl _ _). apply (IH (set_handle h s1)).
Qed.

Lemma stop_active_runs a o s : rtc handle_step s (set_handle (stop_active a o (y_handle s)).2 s).
Proof.
  unfold stop_active. pose proof (send_disconnect_runs (o_drains o) 100 (ac_tx a) s) as Hd.
  set (h := send_disconnect _ _ _ _) in *. clearbody h. destruct (o_joined o); simpl; [|done].
  etrans; [exact Hd|]. pose proof (plain_runs _ (set_handle h s) (pl_close (ac_tx a))) as Hc. by destruct (o_stopped o).
Qed.

Lemma follows_stop P a o : follows P (h_sec (stop_active a o)) anyhow.
Proof. intros s _. apply returns_ret. eexists. split_and!; [|apply (stop_active_runs a o)|]; done. Qed.

Lemma follows_stop_result P a o :
  follows P (h_sec (fun h => let '(r, h) := stop_active a o h in (Ok r, h))) anyhow.
Proof.
  intros s _. apply returns_ret. eexists. split_and!; [|apply (stop_active_runs a o)|done]. simpl. by destruct (stop_active _ _ _).
Qed.

Lemma follows_reset P o : follows P (reset_pairing o) anyhow.
Proof.
  eapply follows_bind; [apply follows_plain, pl_take|]. intros a.
  eapply follows_bind; [apply follows_stop_result|]. intros stop. eapply (follows_bind _ _ (fun _ => anywhere)).
  - intros s Hs. exact (follows_try anywhere _ s I).
  - intros r. follow.
Qed.

Lemma follows_echo P hash answer : follows P (handle_is_echo hash answer) anyhow.
Proof.
  intros s Hs. eapply returns_bind_post; [apply (follows_try_command P _ s Hs)|]. intros out (s' & E & Hr & _).
  apply returns_ret. by exists s'.
Qed.

(** A complete call is a run of the system. *)
Lemma perform_runs c o P : follows P (perform debug frame_debug show_uuid c o) anyhow.
Proof.
  destruct c; simpl; unfold h_void, handle_pair_begin, handle_pair_claim, pair_load, handle_start, enqueue_send,
    handle_history, history_image_bytes, history_apply, handle_history_clear, parse_id, shutdown, or_abort; follow;
    auto using follows_try_command, follows_answer, follows_activate, follows_publish, follows_claimed, follows_confirm,
      follows_stop, follows_reset, follows_echo.
Qed.

(** A new handle, nothing in flight. *)
Definition idle (h : CoreHandle) : handle_sys := {| y_handle := h; y_waiting := ∅; y_ready := ∅; y_taken := ∅ |}.

Lemma slots_ok_idle data_dir capacity : slots_ok (idle (fresh_handle data_dir capacity)).
Proof.
  split; simpl.
  - by intros i [? ?%lookup_empty_Some].
  - by intros i ?%elem_of_empty.
  - by intros i c ?%lookup_empty_Some.
  - by intros i ?%elem_of_empty.
  - done.
  - intros tx c. simpl. intros [[_ <-]|[_ []%lookup_empty_Some]]%lookup_insert_Some. simpl. lia.
Qed.

(** The SAS the handle shows is the one of the channel a confirmation would
    get, and no command queue is over its capacity. *)
Definition shown_ok (h : CoreHandle) : Prop :=
  queues_bounded h /\
  forall sas, pair_poll h = SnSasReady sas ->
    exists slot h' c, confirm_take h = (Ok slot, h') /\ (slot_take slot h').1 = Some c /\ pending_sas (ch_pending c.1) = sas.

Lemma slots_ok_shown s : slots_ok s -> shown_ok (y_handle s).
Proof.
  intros Hok. split; [apply Hok|]. intros sas Hp. unfold pair_poll in Hp.
  destruct (ch_state (y_handle s)) as [a| |] eqn:Es; try done. destruct (ac_phase a) as [| | |sas' i|] eqn:Ep; try done.
  simplify_eq. assert (phase_of (y_handle s) = Some (PhSasReady sas i)) as Hph by (unfold phase_of; by rewrite Es, Ep).
  destruct (so_shown _ Hok _ _ Hph) as (_ & _ & _ & c & Hc & Hsas). eexists i, _, c. split_and!; [| |done].
  - unfold confirm_take, with_active. by rewrite Es, Ep.
  - unfold slot_take. simpl. by rewrite Hc.
Qed.

(** C10. Whatever the host calls, from any number of threads and however the
    calls, their critical sections and the tasks waiting for peers interleave:
    while the handle shows a SAS, confirming gets the very channel that SAS
    was computed from, and no command queue ever holds more than its capacity.
    The same holds after any complete call made in such a state. *)
Theorem sas_shown_is_confirmable data_dir capacity s :
  rtc handle_step (idle (fresh_handle data_dir capacity)) s ->
  shown_ok (y_handle s) /\
  forall c o, returns (fun out => shown_ok out.2) (perform debug frame_debug show_uuid c o (y_handle s)).
Proof.
  intros Hr.
  assert (forall s1 s2, rtc handle_step s1 s2 -> slots_ok s1 -> slots_ok s2) as Hrun.
  { intros s1 s2 H12. induction H12; eauto using slots_ok_step. }
  assert (slots_ok s) as Hok by (eapply Hrun; [exact Hr|apply slots_ok_idle]). split; [by apply slots_ok_shown|].
  intros c o. eapply returns_mono; [apply (perform_runs c o anywhere s I)|].
  intros out (s' & <- & Hr' & _). eapply slots_ok_shown, Hrun; eauto.
Qed.

(** ** Getting stuck *)

(** [m] stays within [P]; if [e], it fails there. *)
Definition stays {R} (e : bool) (P : CoreHandle -> Prop) (m : hm R) : Prop :=
  forall h, P h -> returns (fun out => P out.2 /\ (e = true -> is_ok out.1 = false)) (m h).

Lemma stays_bind {R V} e P (m : hm R) (k : R -> hm V) :
  stays false P m -> (forall a, stays e P (k a)) -> stays e P (h_bind m k).
Proof.
  intros Hm Hk h Hh. eapply returns_bind_post; [by apply Hm|]. intros [[a|err] h'] [H' _]; [by apply Hk|].
  by apply returns_ret.
Qed.

Lemma stays_failed {R V} e P (m : hm R) (k : R -> hm V) : stays true P m -> stays e P (h_bind m k).
Proof.
  intros Hm h Hh. eapply returns_bind_post; [by apply Hm|]. intros [[a|err] h'] [H' Herr]; [by specialize (Herr eq_refl)|].
  by apply returns_ret.
Qed.

Lemma stays_ret {R} P (a : R) : stays false P (h_ret a).
Proof. intros h Hh. by apply returns_ret. Qed.
Lemma stays_fail {R} e P err : stays e P (h_fail (R := R) err).
Proof. intros h Hh. by apply returns_ret. Qed.
Lemma stays_io {R} P (m : io event (result R CoreError)) : stays false P (h_io m).
Proof. intros h Hh. apply returns_bind. intros r. by apply returns_ret. Qed.
Lemma stays_store P : stays false P pairing_store.
Proof. intros h Hh. by apply stays_io. Qed.
Lemma stays_answer {R} P (answer : option (result R CoreError)) : stays false P (recv_answer answer).
Proof. intros h Hh. by apply returns_ret. Qed.
Lemma stays_sec {R} e P (f : CoreHandle -> result R CoreError * CoreHandle) :
  (forall h, P h -> P (f h).2 /\ (e = true -> is_ok (f h).1 = false)) -> stays e P (h_sec f).
Proof. intros Hf h Hh. apply returns_ret. by apply Hf. Qed.
Lemma stays_do P f : (forall h, P h -> P (f h)) -> stays false P (h_do f).
Proof. intros Hf h Hh. apply returns_ret. split; [by apply Hf|done]. Qed.

(** A set of handles in which no phase transition can begin. *)
Record stuck (P : CoreHandle -> Prop) : Prop := {
  st_begin : stays true P (h_sec begin_phase_transition);
  st_confirm : stays true P (h_sec confirm_take);
  st_start : stays true P (h_sec start_take);
  st_cancel : stays false P (h_sec pair_cancel);
  st_load record : stays false P (h_sec (load_section record));
  st_clone : stays false P (h_sec clone_tx);
  st_send tx command : stays false P (h_sec (try_send tx command));
  st_emit st : stays false P (h_do (emit_status st))
}.

Definition pairing_call (c : call) : bool :=
  match c with CallBegin _ | CallClaim _ | CallConfirm _ | CallStart => true | _ => false end.

Definition stopping_call (c : call) : bool := match c with CallReset | CallShutdown => true | _ => false end.

Lemma stuck_try_command P command : stuck P -> stays false P (try_command command).
Proof. intros HP. apply stays_bind; [apply HP|]. intros tx. apply HP. Qed.

Lemma stuck_echo P hash answer : stuck P -> stays false P (handle_is_echo hash answer).
Proof.
  intros HP h Hh. eapply returns_bind_post; [by apply stuck_try_command|]. intros out [Ho _]. by apply returns_ret.
Qed.

(** Nothing but a reset or a shutdown gets out of a stuck state. *)
Lemma stuck_perform P c o :
  stuck P -> stopping_call c = false -> stays (pairing_call c) P (perform debug frame_debug show_uuid c o).
Proof.
  intros HP Hc.
  assert (forall R (m : hm R) e, stays e P m -> stays e P (h_void m)) as Hv.
  { intros R m [] Hm; [by apply stays_failed|]. apply stays_bind; [done|]. intros a. apply stays_ret. }
  assert (forall R command (answer : option (result R CoreError)),
            stays false P (_ ←# try_command command; recv_answer answer)) as Hask.
  { intros. apply stays_bind; [by apply stuck_try_command|]. intros _. apply stays_answer. }
  destruct c; simpl; try done; try apply Hv; try apply Hask.
  - unfold handle_pair_begin. destruct (validate_server _ _); [|apply stays_fail].
    apply stays_bind; [apply stays_store|]. intros store. apply stays_failed, HP.
  - unfold handle_pair_claim. destruct (qr_parse _ _); [|apply stays_fail].
    apply stays_bind; [apply stays_store|]. intros store. apply stays_failed, HP.
  - apply stays_failed, HP.
  - apply HP.
  - apply stays_bind; [apply stays_store|]. intros store. apply stays_bind; [apply stays_io|]. intros r. apply HP.
  - apply stays_bind; [apply HP|]. intros _. apply stays_failed, HP.
  - apply stays_bind; [unfold parse_id; destruct (uuid_parse id); [apply stays_ret|apply stays_fail]|]. intros u. apply Hask.
  - apply stays_bind; [unfold parse_id; destruct (uuid_parse id); [apply stays_ret|apply stays_fail]|]. intros u. apply Hask.
  - by apply stuck_echo.
Qed.

Definition busy (h : CoreHandle) : Prop := phase_of h = Some PhBusy.
Definition transitioning (h : CoreHandle) : Prop := ch_state h = HTransitioning.

Lemma try_send_state tx command h : ch_state (try_send tx command h).2 = ch_state h.
Proof.
  unfold try_send. destruct (ch_chans h !! tx) as [c|]; [|done]. destruct (cn_closed c); [done|]. by case_bool_decide.
Qed.

Lemma drain_state n tx h : ch_state (drain n tx h) = ch_state h.
Proof. unfold drain. by destruct (ch_chans h !! tx). Qed.

Lemma send_disconnect_state drains n tx h : ch_state (send_disconnect drains n tx h) = ch_state h.
Proof.
  revert h. induction n as [|n IH]; intros h; simpl; [done|].
  pose proof (try_send_state tx CmdDisconnect (drain (drains n) tx h)) as Hs. rewrite drain_state in Hs.
  destruct (try_send _ _ _) as [[|[]] h1]; simpl in Hs; try done. by rewrite IH.
Qed.

Lemma stuck_busy : stuck busy.
Proof.
  split; intros; try apply stays_sec; try apply stays_do; intros h Hh; try (split; [|done]);
    try by (unfold busy, phase_of; rewrite try_send_state).
  all: unfold busy, phase_of, begin_phase_transition, confirm_take, start_take, pair_cancel, load_section, clone_tx, with_active in *.
  all: destruct (ch_state h) as [a| |] eqn:Es; try done; simplify_eq/=; try rewrite Hh; try done.
  all: try destruct record; simpl; rewrite ?Es; simpl; by rewrite Hh.
Qed.

Lemma stuck_transitioning : stuck transitioning.
Proof.
  split; intros; try apply stays_sec; try apply stays_do; intros h Hh.
  all: unfold transitioning, begin_phase_transition, confirm_take, start_take, pair_cancel, load_section, clone_tx, with_active in *.
  all: try rewrite Hh; try done.
  by rewrite try_send_state.
Qed.

Definition queue_full (h : CoreHandle) : Prop :=
  exists a c, ch_state h = HActive a /\ ch_chans h !! ac_tx a = Some c /\ ch_capacity h <= length (cn_queue c).

Lemma full_try_command command h : queue_full h -> returns (fun out => is_ok out.1 = false) (try_command command h).
Proof.
  intros (a & c & Es & Ec & Hfull).
  eapply (returns_bind_post (fun out => out = (Ok (ac_tx a), h))).
  - apply returns_ret. unfold clone_tx, with_active. rewrite Es. by rewrite <- Es, set_hstate_id.
  - intros out ->. apply returns_ret. simpl. unfold try_send. rewrite Ec. destruct (cn_closed c); [done|].
    by rewrite bool_decide_true.
Qed.

(** A connection is built without touching the handle. *)
Lemma build_unchanged link o h : returns (fun out => out.2 = h) (build_connection link o h).
Proof.
  assert (forall R (m : io event (result R CoreError)), stays false (eq h) (h_io m)) as Hio by (intros; apply stays_io).
  eapply (returns_mono (fun out => h = out.2 /\ (false = true -> is_ok out.1 = false))); [|by intros out [<- _]].
  unfold build_connection.
  generalize (join (ch_root h) "session"), (join (ch_root h) "history"). intros d1 d2.
  match goal with |- returns _ (?m h) => enough (stays false (eq h) m) as Hm by (by apply Hm) end.
  apply stays_bind; [apply stays_store|]. intros. do 4 (apply stays_bind; [apply Hio|]; intros). apply stays_ret.
Qed.

(** The join succeeded and the pairing is on disk, but the connection
    cannot be handed to the dispatcher (its queue is full, it does not answer
    in time, or a store fails): [pair_confirm] and [start] return the error
    and leave the phase busy.  From then on every call that pairs, confirms or
    starts fails and the phase stays busy; only a reset, which throws the
    pairing away, or a shutdown ends that. *)
Theorem failed_activation_wedges link o h :
  busy h ->
  returns (fun out => is_ok out.1 = false -> busy out.2) (activate_connection link o h) /\
  (queue_full h -> returns (fun out => is_ok out.1 = false) (activate_connection link o h)) /\
  forall c o' h', busy h' -> stopping_call c = false ->
    returns (fun out => busy out.2 /\ (pairing_call c = true -> is_ok out.1 = false))
            (perform debug frame_debug show_uuid c o' h').
Proof.
  intros Hb. split_and!.
  - eapply returns_bind_post; [apply build_unchanged|]. intros [[c|e] h1] E; simpl in E; subst h1; [|by apply returns_ret].
    eapply returns_bind_post; [by apply (stuck_try_command _ _ stuck_busy)|]. intros [[u|e] h1] [H1 _]; [|by apply returns_ret].
    simpl. destruct (o_accepted o); [|by apply returns_ret]. apply returns_ret. simpl. unfold put_phase, with_active.
    simpl in H1. unfold busy, phase_of in H1. by destruct (ch_state h1).
  - intros (a & c & Es & Ec & Hfull). eapply returns_bind_post; [apply build_unchanged|].
    intros [[conn|e] h1] E; simpl in E; subst h1; [|by apply returns_ret].
    eapply returns_bind_post; [apply (full_try_command (CmdConnect conn) h); by exists a, c|].
    intros [[u|e] h1] H1; [done|by apply returns_ret].
  - intros c o' h' Hb' Hc. by apply (stuck_perform _ _ _ stuck_busy).
Qed.

(** A shutdown whose dispatcher does not end in time fails and leaves the
    handle neither active nor shut down, for good: every later call keeps it
    there, and pairing, resetting and shutting down fail, where the
    documentation promises a terminal handle. *)
Theorem failed_shutdown_sticks a o h :
  ch_state h = HActive a -> o_joined o = false ->
  returns (fun out => is_ok out.1 = false /\ transitioning out.2) (shutdown o h) /\
  forall c o' h', transitioning h' ->
    returns (fun out => transitioning out.2 /\ (pairing_call c || stopping_call c = true -> is_ok out.1 = false))
            (perform debug frame_debug show_uuid c o' h').
Proof.
  intros Es Hj. split.
  - eapply (returns_bind_post (fun out => out = (Ok a, set_hstate HTransitioning h))).
    { apply returns_ret. unfold take_active. by rewrite Es. }
    intros out ->. eapply (returns_bind_post (fun out => is_ok out.1 = false /\ transitioning out.2)).
    + apply returns_ret. unfold stop_active. rewrite Hj. cbn [negb fst snd]. split; [done|].
      unfold transitioning. by rewrite send_disconnect_state.
    + intros [[u|e] h1] [H1 H2]; [done|]. by apply returns_ret.
  - intros c o' h' Ht. destruct (stopping_call c) eqn:Hc.
    + assert (stays true transitioning (h_sec take_active)) as Htake.
      { apply stays_sec. intros h1 H1. unfold take_active. by rewrite H1. }
      destruct c; try done; (eapply returns_mono; [exact (stays_failed true _ _ _ Htake h' Ht)|]); intros out [? Ho]; by auto.
    + rewrite orb_false_r. by apply (stuck_perform _ _ _ stuck_transitioning).
Qed.

(** A reset always leaves a usable handle: whatever became of the
    dispatcher and of the files, if a new runtime starts the handle is active
    and unpaired, has a new, empty, open command queue, and can begin pairing;
    without a runtime it is shut down. *)
Theorem reset_recovers a o h :
  ch_state h = HActive a ->
  returns (fun out =>
    match o_runtime o with
    | None => exists a', ch_state out.2 = HActive a' /\ ac_phase a' = PhUnpaired /\
                ch_chans out.2 !! ac_tx a' = Some {| cn_queue := []; cn_closed := false |} /\
                (begin_phase_transition out.2).1 = Ok tt
    | Some _ => ch_state out.2 = HShutdown /\ is_ok out.1 = false
    end) (reset_pairing o h).
Proof.
  intros Es. eapply (returns_bind_post (fun out => out = (Ok a, set_hstate HTransitioning h))).
  { apply returns_ret. unfold take_active. by rewrite Es. }
  intros out ->. eapply (returns_bind_post (fun out => is_ok out.1 = true)).
  { apply returns_ret. by destruct (stop_active _ _ _). }
  intros [[stop|e] h1] H1; [clear H1|done].
  eapply (returns_bind_post (fun out => is_ok out.1 = true)); [apply returns_bind; intros r; by apply returns_ret|].
  intros [[r|e] h2] H2; [clear H2|done]. simpl. destruct (o_runtime o); [by apply returns_ret|].
  assert (ch_chans (let '(fresh, h) := spawn_active h2 in set_hstate (HActive fresh) h) !! ch_next h2 =
            Some {| cn_queue := []; cn_closed := false |}) as Hc by apply lookup_insert_eq.
  destruct stop, r; apply returns_ret; (eexists; split_and!; [reflexivity|done|exact Hc|done]).
Qed.

(** If the peer answers before [pair_begin] has published the offer, the
    handle never gets to the SAS: the host is told that the SAS is ready, but
    polling shows the offer, confirming fails, and no task is left that could
    show the channel. *)
Theorem early_peer_is_lost data_dir capacity qr_json c :
  exists s, rtc handle_step (idle (fresh_handle data_dir capacity)) s /\
    ch_statuses (y_handle s) = [StSasReady; StOffering] /\ pair_poll (y_handle s) = SnOffering qr_json /\
    (confirm_take (y_handle s)).1 = Err CoreBusy /\ y_waiting s = ∅ /\ y_ready s = ∅ /\
    exists slot, ch_slots (y_handle s) !! slot = Some (Some c).
Proof.
  eexists. split.
  - eapply rtc_l; [apply (hs_plain _ _ pl_begin)|]. eapply rtc_l; [eapply hs_offer; reflexivity|].
    eapply rtc_l; [apply (hs_peer _ 1 c); simpl; apply elem_of_union_l, elem_of_singleton_2; done|].
    eapply rtc_l; [apply (hs_announce _ 1 c); simpl; apply lookup_insert_eq|].
    eapply rtc_l; [apply (hs_plain _ _ (pl_offering qr_json 1))|].
    eapply rtc_l; [apply (hs_plain _ _ (pl_emit StOffering))|]. apply rtc_refl.
  - simpl. split_and!; try done. exists 1. apply lookup_insert_eq.
Qed.
End runs.

Module FfiToy.
Import Toy ProtocolToy CryptoToy PairingToy SessionToy.
#[local] Existing Instances toy_base64 toy_sha256 toy_ed25519 toy_x25519 toy_aead toy_uuid.
#[local] Existing Instances ProtocolToy.envelope_json ProtocolToy.frame_json document_json HistoryToy.history_json identity_json record_json.
#[local] Program Instance QrPayload_countable : Countable QrPayload :=
  inj_countable (fun q => (qr_server q, qr_code q, sign_pk (qr_bundle q), dh_pk (qr_bundle q), qr_nonce_a q))
    (fun '(s, c, k, d, n) => Some {| qr_server := s; qr_code := c; qr_bundle := {| sign_pk := k; dh_pk := d |}; qr_nonce_a := n |}) _.
Next Obligation. by intros [? ? [] ?]. Qed.
#[local] Instance qr_json_codec : Json QrPayload := toy_json QrPayload.

#[local] Instance texts : Display := {|
  show_core := fun _ => ""; show_transport := fun _ => ""; show_pairing := fun _ => ""; show_session := fun _ => "";
  show_history := fun _ => ""; show_callback := fun _ => "" |}.
#[local] Instance host : CoreCallbacks := {|
  host_on_clip := fun _ _ => HostReturned (Ok tt); host_on_mailbox_clip := fun _ _ => HostReturned (Ok FDeferred) |}.

Definition socket : Socket := {| s_in := []; s_out := []; s_log := [] |}.
Definition link : LiveLink :=
  {| l_identity := alice; l_record := pair_record alice bob; bootstrap_clip := None |}.
Definition o : outside :=
  {| o_timed_out := false; o_dial := Ok socket; o_identity := (replicate 32 "a"%byte, replicate 32 "b"%byte);
     o_code := []; o_nonce := []; o_rotated := ([], []); o_accepted := true; o_drains := fun _ => 0;
     o_joined := false; o_stopped := false; o_runtime := None |}.
Definition at_work : draws :=
  {| d_nonce := sample_nonce; d_identity := o_identity o; d_dials := []; d_now := 1000 |}.
Definition h0 : CoreHandle := fresh_handle "d" 32.

Definition w0 : world event :=
  World (Disk ∅ ∅) [] (fun n => "01234567-89ab-4cde-8f01-2345678900" +:+ pretty (10 + n)) 0 [].

(** The host calls [start] a second time while connected: the connection is
    built before the dispatcher takes the send that is already queued. *)
Definition second_start : hm (list (option reply * option FfiConnection)) :=
  c1 ←# build_connection (link, socket) o;
  c2 ←# build_connection (link, socket) o;
  fun h =>
    r1 ← dispatch false (fun _ => "") "d/history" (Command (CmdSend (CText "a") 1000)) (Some c1) at_work;
    r2 ← dispatch false (fun _ => "") "d/history" (Command (CmdConnect c2)) r1.1.2 at_work;
    r3 ← dispatch false (fun _ => "") "d/history" (Command (CmdSend (CText "b") 1001)) r2.1.2 at_work;
    mret (Ok [r1.1; r3.1], h).

(** What the peer makes of the frames the replies stand for. *)
Definition sent_clips (r : option reply * option FfiConnection) : list string :=
  match r.2 with
  | Some c => omap (fun x => match x with Sent (Clip _ ct _ _) => Some ct | _ => None end) (s_log (fc_socket c))
  | None => []
  end.

Fixpoint receive (s : Session) (cts : list string) : io event (list (result InboundOutcome SessionError)) :=
  match cts with
  | [] => mret []
  | ct :: cts =>
      out ← handle_clip s bob_room ct false 1000;
      rest ← receive out.2 cts;
      mret (out.1 :: rest)
  end.

Definition received (r : outcome (list (result InboundOutcome SessionError)) * world event) :
    list (result InboundOutcome SessionError) :=
  match r.1 with Done out => out | Crashed => [] end.

Definition summary
    (r : outcome (result (list (option reply * option FfiConnection)) CoreError * CoreHandle) * world event) :
    list (option reply) * list event * list (result InboundOutcome SessionError) :=
  match r.1 with
  | Done (Ok rs, _) =>
      (fst <$> rs, w_trace r.2, received (receive (fresh_session bob alice) (rs ≫= sent_clips) w0))
  | _ => ([], [], [])
  end.

(** [start] while a session is live opens a second session on the same
    store, and a send the first session still makes is lost on the second.
    Here both clips are answered as sent, under the same sequence number, and
    the peer applies the first and drops the second as a replay. *)
Theorem second_start_reuses_sequence :
  summary (second_start h0 w0) =
    ([Some (RepSend (Ok 1%Z)); Some (RepSend (Ok 1%Z))], [Sealed 1; Sealed 1], [Ok LiveApplied; Ok Replay]).
Proof. vm_compute; reflexivity. Qed.

Definition channel : held :=
  ({| ch_pending := bob_pending; ch_identity := alice; ch_challenge := replicate 32 "n"%byte |}, socket).

(** A claim, up to showing its SAS. *)
Definition s1 : handle_sys :=
  {| y_handle := (new_slot (Some channel) h0).2; y_waiting := ∅; y_ready := {[1 := channel]}; y_taken := ∅ |}.
Definition s2 : handle_sys :=
  {| y_handle := (put_phase (PhSasReady (pending_sas bob_pending) 1) (y_handle s1)).2; y_waiting := ∅;
     y_ready := delete 1 (y_ready s1); y_taken := ∅ |}.

Lemma sas_shown_is_confirmable_witness :
  pair_poll (y_handle s2) = SnSasReady (pending_sas bob_pending) /\ shown_ok (y_handle s2).
Proof.
  split; [reflexivity|].
  refine (proj1 (sas_shown_is_confirmable false (fun _ => "") (fun _ => "") "d" 32 s2 _)).
  apply (rtc_l _ _ s1); [exact (hs_claim (idle h0) 1 channel _ eq_refl)|].
  apply rtc_once. exact (hs_show s1 1 channel eq_refl).
Defined.

(** Busy, with a full queue. *)
Definition full : CoreHandle :=
  {| ch_root := "d"; ch_capacity := 1; ch_state := HActive {| ac_tx := 0; ac_phase := PhBusy |}; ch_slots := ∅;
     ch_chans := {[0 := {| cn_queue := [CmdHistory]; cn_closed := false |}]}; ch_next := 1; ch_statuses := [] |}.

Lemma failed_activation_wedges_witness :
  returns (fun out => is_ok out.1 = false) (activate_connection (link, socket) o full) /\
  returns (fun out => busy out.2 /\ is_ok out.1 = false) (perform false (fun _ => "") (fun _ => "") CallStart o full).
Proof.
  destruct (failed_activation_wedges false (fun _ => "") (fun _ => "") (link, socket) o full eq_refl) as (_ & Hf & Hc).
  split.
  - apply Hf. eexists _, _. split; [reflexivity|]. split; [reflexivity|]. simpl. lia.
  - eapply returns_mono; [exact (Hc CallStart o full eq_refl eq_refl)|]. intros out [Hb He]. auto.
Defined.

Lemma failed_shutdown_sticks_witness :
  returns (fun out => is_ok out.1 = false /\ transitioning out.2) (shutdown o h0).
Proof.
  exact (proj1 (failed_shutdown_sticks false (fun _ => "") (fun _ => "") {| ac_tx := 0; ac_phase := PhUnpaired |} o h0
    eq_refl eq_refl)).
Defined.
End FfiToy.
