(* ===== verification/Main.v ===== *)
(** * The relay binary ([crates/server/src/main.rs])

    [main]: the arguments and the environment, the health check, the prune
    command, and the state the server starts with.  [SocketAddr::from_str]
    belongs to the standard library and is translated from its documented
    grammar.  The status line the health endpoint answers with (or the failure
    of the connection), the outcome of the bind and the wall clock are
    arguments.  What is printed is left out, and so are the two background
    sweepers, whose work is a step of the mailbox and of the registry. *)

From S2P Require Import Prelude Fs Interfaces Protocol Crypto History Registry Config RateLimit Mailbox Outbox Room.
From S2P Require Import PairingRelay Connection Server.
From Stdlib Require Import Strings.Byte.

Set Default Goal Selector "!".
#[local] Open Scope clip_scope.

(** ** Socket addresses *)

(** [sa_scope] is the scope id of an IPv6 address, 0 otherwise. *)
Record SocketAddr := { sa_ip : IpAddr; sa_scope : Z; sa_port : Z }.

Definition read_port : parser Z := fun p =>
  '(_, rest) ← read_given_char ":"%byte p;
  read_number 10 (length rest) true 65535 rest.

Definition read_scope_id : parser Z := fun p =>
  '(_, rest) ← read_given_char "%"%byte p;
  read_number 10 (length rest) true 4294967295 rest.

Definition read_socket_addr_v4 : parser SocketAddr := fun p =>
  '(octets, rest) ← read_ipv4_addr p;
  '(port, rest) ← read_port rest;
  Some ({| sa_ip := IpV4 octets; sa_scope := 0; sa_port := port |}, rest).

Definition read_socket_addr_v6 : parser SocketAddr := fun p =>
  '(_, rest) ← read_given_char "["%byte p;
  '(octets, rest) ← read_ipv6_addr rest;
  let '(scope, rest) := match read_scope_id rest with Some x => x | None => (0%Z, rest) end in
  '(_, rest) ← read_given_char "]"%byte rest;
  '(port, rest) ← read_port rest;
  Some ({| sa_ip := IpV6 octets; sa_scope := scope; sa_port := port |}, rest).

(** [SocketAddr::from_str]. *)
Definition parse_socket_addr (s : bytes) : option SocketAddr :=
  '(addr, rest) ← match read_socket_addr_v4 s with Some x => Some x | None => read_socket_addr_v6 s end;
  if bool_decide (rest = []) then Some addr else None.

Definition is_unspecified (ip : IpAddr) : bool :=
  match ip with
  | IpV4 octets => bool_decide (octets = replicate 4 "000"%byte)
  | IpV6 octets => bool_decide (octets = replicate 16 "000"%byte)
  end.

Definition localhost (ip : IpAddr) : IpAddr :=
  match ip with
  | IpV4 _ => IpV4 ["127"; "000"; "000"; "001"]%byte
  | IpV6 _ => IpV6 (replicate 15 "000"%byte ++ ["001"%byte])
  end.

(** [set_ip] keeps the port, and the scope of an IPv6 address. *)
Definition healthcheck_address (bind : string) : result SocketAddr io_error :=
  address ←? ok_or (parse_socket_addr (as_bytes bind)) InvalidInput;
  Ok (if is_unspecified (sa_ip address)
      then {| sa_ip := localhost (sa_ip address); sa_scope := sa_scope address; sa_port := sa_port address |}
      else address).

(** [str::trim_end]. *)
Definition trim_end (s : bytes) : bytes := reverse (trim_front (reverse <$> white_space) (length s) (reverse s)).

(** [status_line] is what the endpoint answers to the request, or why there is no answer. *)
Definition check_health (status_line : result string io_error) : result unit io_error :=
  status ←? status_line;
  if bool_decide (trim_end (as_bytes status) = as_bytes "HTTP/1.1 200 OK") ||
     bool_decide (trim_end (as_bytes status) = as_bytes "HTTP/1.0 200 OK")
  then Ok tt else Err OtherError.

Definition UNACTIVATED_TTL : Z := 24 * 60 * 60 * 1000.

Section main.
Context {T : Type} {JG : Json DiskRegistry} {JM : Json DiskMailbox} {JF : Json Frame}.
Context {B64 : Base64} {S256 : Sha256}.

(** How [main] ends: it checked the health, pruned, or serves for ever. *)
Inductive exit :=
| Healthy
| Pruned (removed : nat)
| Serving (bind : SocketAddr) (state : ServerState PersistentRegistry PersistentMailbox PairingRelay).

Definition bind_addr (var : string -> option string) : string := default "127.0.0.1:8787" (var "BIND_ADDR").

(** [Option::transpose] of the parsed [TRUSTED_PROXY]. *)
Definition trusted_proxy_of (var : string -> option string) : result (option IpNet) io_error :=
  match var "TRUSTED_PROXY" with
  | None => Ok None
  | Some value => net ←? map_err (fun _ => InvalidInput) (net_parse value); Ok (Some net)
  end.

Definition main (args : list string) (var : string -> option string)
    (status_line : SocketAddr -> result string io_error) (bound : result unit io_error) (unix_now : Z) :
    io T (result exit io_error) :=
  if bool_decide (args = ["--healthcheck"]) then
    mret (address ←? healthcheck_address (bind_addr var);
          _ ←? check_health (status_line address);
          Ok Healthy)
  else
    let data_dir := default "./data" (var "DATA_DIR") in
    registry ←! registry_open data_dir;
    if negb (bool_decide (args = [])) then
      if bool_decide (args = ["--prune-unactivated"; "--older-than"; "24h"]) then
        out ← reg_prune registry (sweep_cutoff unix_now UNACTIVATED_TTL);
        mret (removed ←? out.1; Ok (Pruned removed))
      else mret (Err InvalidInput)
    else
      match ok_or (parse_socket_addr (as_bytes (bind_addr var))) InvalidInput, trusted_proxy_of var with
      | Err e, _ | _, Err e => mret (Err e)
      | Ok bind, Ok proxy =>
          let config := {| trusted_proxy := proxy; limits := limits_default |} in
          let pairing := {| relay_config := pairing_config_default |} in
          let mailbox_dir := default (join data_dir "mailboxes") (var "MAILBOX_DIR") in
          mailbox ←! mailbox_open mailbox_dir options_default unix_now;
          mret (_ ←? bound; Ok (Serving bind (server_new config registry pairing mailbox)))
      end.
End main.

Section properties.
Context {T : Type} {JG : Json DiskRegistry} {JM : Json DiskMailbox} {JF : Json Frame}.
Context {B64 : Base64} {S256 : Sha256}.

(** The health check of a container reaches the server of the same
    environment: whenever the binary serves, the address the health check
    dials has the same port and family and is not the unspecified one, and it
    is the bound address itself if that names a host. *)
Theorem healthcheck_reaches_server var status_line bound unix_now :
  returns (T := T) (fun r => forall bind state, r = Ok (Serving bind state) ->
    exists a, healthcheck_address (bind_addr var) = Ok a /\ sa_port a = sa_port bind /\
      is_unspecified (sa_ip a) = false /\ localhost (sa_ip a) = localhost (sa_ip bind) /\
      (is_unspecified (sa_ip bind) = false -> a = bind))
    (main [] var status_line bound unix_now).
Proof.
  apply returns_bind. intros [registry|e]; [|by apply returns_ret]. simpl. unfold healthcheck_address.
  destruct (parse_socket_addr _) as [b|]; simpl; [|by apply returns_ret].
  destruct (trusted_proxy_of var) as [proxy|]; [|by apply returns_ret].
  apply returns_bind. intros [mailbox|e]; [|by apply returns_ret]. apply returns_ret.
  destruct bound; simpl; [|done]. intros bind state [= <- <-].
  destruct (is_unspecified (sa_ip b)) eqn:Hu; eexists; split_and!; try done; by destruct (sa_ip b).
Qed.
End properties.
