(* ===== verification/Regex.v ===== *)
(** * Regular expressions

    What the platform's regular-expression engine promises for the patterns
    ClipSync itself contains: their syntax (literals, sets of characters, the
    quantifiers [*], [{n}] and [{n,}]), the language they denote, and a
    matcher by derivatives that decides it.  Patterns and texts are bytes; a
    pattern of ASCII characters occurs in the UTF-8 text where it occurs in
    the characters. *)

From S2P Require Import Prelude.
From Stdlib Require Import Strings.Byte.

Set Default Goal Selector "!".

(** ** Syntax and language *)

(** A set is a list of inclusive ranges. *)
Abbreviation charset := (list (byte * byte)).

Definition in_set (ranges : charset) (b : byte) : bool :=
  existsb (fun r => in_range (bval r.1) (bval r.2) b) ranges.

Inductive regex :=
| RNone | REps | RSet (ranges : charset) | RSeq (r s : regex) | RAlt (r s : regex) | RStar (r : regex).

Inductive lang : regex -> bytes -> Prop :=
| lang_eps : lang REps []
| lang_set ranges b : in_set ranges b = true -> lang (RSet ranges) [b]
| lang_seq r s t u : lang r t -> lang s u -> lang (RSeq r s) (t ++ u)
| lang_left r s t : lang r t -> lang (RAlt r s) t
| lang_right r s t : lang s t -> lang (RAlt r s) t
| lang_nil r : lang (RStar r) []
| lang_cons r t u : lang r t -> lang (RStar r) u -> lang (RStar r) (t ++ u).

Create HintDb lang.
#[export] Hint Constructors lang : lang.

(** What a search for [r] looks for. *)
Definition occurs (r : regex) (t : bytes) : Prop :=
  exists before found after, t = before ++ found ++ after /\ lang r found.

Fixpoint repeat_regex (n : nat) (r : regex) : regex :=
  match n with 0 => REps | S n => RSeq r (repeat_regex n r) end.

(** ** Matching by derivatives *)

Fixpoint nullable (r : regex) : bool :=
  match r with
  | RNone | RSet _ => false
  | REps | RStar _ => true
  | RSeq r s => nullable r && nullable s
  | RAlt r s => nullable r || nullable s
  end.

Fixpoint deriv (b : byte) (r : regex) : regex :=
  match r with
  | RNone | REps => RNone
  | RSet ranges => if in_set ranges b then REps else RNone
  | RSeq r s => if nullable r then RAlt (RSeq (deriv b r) s) (deriv b s) else RSeq (deriv b r) s
  | RAlt r s => RAlt (deriv b r) (deriv b s)
  | RStar r => RSeq (deriv b r) (RStar r)
  end.

(** Does some prefix match; does some part match. *)
Fixpoint prefix_match (r : regex) (t : bytes) : bool :=
  nullable r || match t with [] => false | b :: t => prefix_match (deriv b r) t end.

Fixpoint search (r : regex) (t : bytes) : bool :=
  prefix_match r t || match t with [] => false | _ :: t => search r t end.

Lemma nullable_lang r : nullable r = true <-> lang r [].
Proof.
  split.
  - induction r; simpl; intros H; try done; eauto with lang.
    + apply andb_prop in H as [H1 H2]. rewrite <- (app_nil_r []). eauto with lang.
    + apply orb_prop in H as [H|H]; eauto with lang.
  - induction r; simpl; intros H; inversion H; subst; try done.
    + match goal with E : _ ++ _ = [] |- _ => apply app_nil in E as [-> ->] end. by rewrite IHr1, IHr2.
    + by rewrite IHr1.
    + by rewrite IHr2, orb_true_r.
Qed.

(** The first non-empty round of an iteration. *)
Lemma lang_star_cons r b t :
  lang (RStar r) (b :: t) -> exists t1 t2, t = t1 ++ t2 /\ lang r (b :: t1) /\ lang (RStar r) t2.
Proof.
  intros H. remember (RStar r) as e eqn:He. remember (b :: t) as bt eqn:Ht.
  revert r b t He Ht.
  induction H as [| | | | | |r' u v Hu _ Hv IH]; intros r0 b0 t0 He Ht; simplify_eq.
  destruct u as [|c u]; simpl in Ht; [by apply IH|]. simplify_eq. by exists u, v.
Qed.

Lemma deriv_lang b r t : lang (deriv b r) t <-> lang r (b :: t).
Proof.
  split.
  - revert t. induction r as [| |ranges|r IHr s IHs|r IHr s IHs|r IHr]; simpl; intros t H.
    + inversion H.
    + inversion H.
    + destruct (in_set ranges b) eqn:E; inversion H; subst. by constructor.
    + assert (lang (RSeq (deriv b r) s) t -> lang (RSeq r s) (b :: t)) as Hseq.
      { inversion 1; subst. rewrite app_comm_cons. constructor; auto. }
      destruct (nullable r) eqn:E; [|auto]. inversion H; subst; [auto|].
      apply nullable_lang in E. change (b :: t) with ([] ++ b :: t). eauto with lang.
    + inversion H; subst; eauto with lang.
    + inversion H; subst. rewrite app_comm_cons. constructor; auto.
  - revert t. induction r as [| |ranges|r IHr s IHs|r IHr s IHs|r IHr]; simpl; intros t H.
    + inversion H.
    + inversion H.
    + inversion H; subst. match goal with E : in_set _ _ = true |- _ => rewrite E end. constructor.
    + inversion H as [| |? ? t1 t2 H1 H2 E1 E2| | | |]; subst. destruct t1 as [|c t1]; simpl in E2; simplify_eq.
      * assert (nullable r = true) as -> by by apply nullable_lang. auto with lang.
      * destruct (nullable r); auto with lang.
    + inversion H; subst; auto with lang.
    + apply lang_star_cons in H as (t1 & t2 & -> & H1 & H2). auto with lang.
Qed.

Lemma prefix_match_lang r t : prefix_match r t = true <-> exists found after, t = found ++ after /\ lang r found.
Proof.
  revert r. induction t as [|b t IH]; intros r; simpl; rewrite orb_true_iff, nullable_lang.
  - split; [intros [H|]; [by exists [], []|done]|]. intros (f & a & E & H). symmetry in E. apply app_nil in E as [-> ->]. by left.
  - rewrite IH. split.
    + intros [H|(f & a & -> & H)]; [by exists [], (b :: t)|]. exists (b :: f), a. split; [done|]. by apply deriv_lang.
    + intros (f & a & E & H). destruct f as [|c f]; simpl in E; [by left|]. simplify_eq. right. exists f, a.
      split; [done|]. by apply deriv_lang.
Qed.

(** The matcher decides the search. *)
Lemma search_occurs r t : search r t = true <-> occurs r t.
Proof.
  induction t as [|b t IH]; cbn [search]; rewrite orb_true_iff, prefix_match_lang.
  - split; [intros [(f & a & E & H)|]; [by exists [], f, a|done]|].
    intros (p & f & a & E & H). destruct p; [|done]. left. by exists f, a.
  - rewrite IH. split.
    + intros [(f & a & E & H)|(p & f & a & -> & H)]; [by exists [], f, a|]. by exists (b :: p), f, a.
    + intros (p & f & a & E & H). destruct p as [|c p]; simpl in E; [left; by exists f, a|]. simplify_eq.
      right. by exists p, f, a.
Qed.

(** ** Languages of the building blocks *)

Lemma lang_set_inv ranges t : lang (RSet ranges) t <-> exists b, t = [b] /\ in_set ranges b = true.
Proof. split; [inversion 1; eauto|]. intros (b & -> & H). by constructor. Qed.

Lemma lang_seq_inv r s t : lang (RSeq r s) t <-> exists t1 t2, t = t1 ++ t2 /\ lang r t1 /\ lang s t2.
Proof. split; [inversion 1; eauto|]. intros (t1 & t2 & -> & ? & ?). by constructor. Qed.

Lemma lang_star_set ranges t : lang (RStar (RSet ranges)) t <-> Forall (fun b => in_set ranges b = true) t.
Proof.
  split.
  - intros H. remember (RStar (RSet ranges)) as e eqn:He. induction H; simplify_eq; [done|].
    match goal with H : lang (RSet _) _ |- _ => apply lang_set_inv in H as (b & -> & Hb) end. simpl. auto.
  - induction 1 as [|b t Hb _ IH]; [constructor|]. change (b :: t) with ([b] ++ t). auto with lang.
Qed.

Lemma lang_repeat_set ranges n t :
  lang (repeat_regex n (RSet ranges)) t <-> length t = n /\ Forall (fun b => in_set ranges b = true) t.
Proof.
  revert t. induction n as [|n IH]; intros t; simpl.
  - split; [by inversion 1|]. intros [E _]. apply nil_length_inv in E as ->. constructor.
  - rewrite lang_seq_inv. split.
    + intros (t1 & t2 & -> & (b & -> & Hb)%lang_set_inv & [<- H]%IH). simpl. auto.
    + intros [E H]. destruct t as [|b t]; [done|]. apply Forall_cons in H as [Hb H]. exists [b], t.
      split_and!; [done|by constructor|]. apply IH. simpl in E. split; [lia|done].
Qed.

(** ** Patterns

    The part of the engine's pattern language whose meaning is fixed here: a
    sequence of literal characters and sets, each with at most one quantifier.
    A pattern with any other construct is [None]: the development says
    nothing about it. *)

Inductive quant := QOne | QStar | QExactly (n : nat) | QAtLeast (n : nat).

Abbreviation pattern := (list (charset * quant)).

Definition denote_item (i : charset * quant) : regex :=
  match i.2 with
  | QOne => RSet i.1
  | QStar => RStar (RSet i.1)
  | QExactly n => repeat_regex n (RSet i.1)
  | QAtLeast n => RSeq (repeat_regex n (RSet i.1)) (RStar (RSet i.1))
  end.

Definition denote (p : pattern) : regex := foldr (fun i r => RSeq (denote_item i) r) REps p.

(** Characters that stand for themselves, outside a set and inside one. *)
Definition is_alnum (b : byte) : bool := is_ascii_digit b || is_ascii_uppercase b || in_range 97 122 b.
Definition plain_in_set (b : byte) : bool := is_alnum b || bool_decide (b ∈ [" "; "_"]%byte).
Definition plain (b : byte) : bool := plain_in_set b || bool_decide (b ∈ ["-"; "/"; ":"]%byte).

Definition eqc (c b : byte) : bool := Byte.eqb b c.

Definition add_range (r : byte * byte) (rest : option (charset * bytes)) : option (charset * bytes) :=
  match rest with Some (rs, q) => Some (r :: rs, q) | None => None end.

(** The members of a set, up to its closing bracket; a hyphen before the
    bracket is itself. *)
Fixpoint parse_set (p : bytes) : option (charset * bytes) :=
  match p with
  | [] => None
  | lo :: p1 =>
      if eqc "]"%byte lo then Some ([], p1)
      else if eqc "-"%byte lo then
        match p1 with
        | hi :: p2 => if eqc "]"%byte hi then Some ([("-", "-")]%byte, p2) else None
        | [] => None
        end
      else if negb (plain_in_set lo) then None
      else
        match p1 with
        | dash :: hi :: p2 =>
            if eqc "-"%byte dash && negb (eqc "]"%byte hi) then
              if plain_in_set hi && (bval lo <=? bval hi)%Z then add_range (lo, hi) (parse_set p2) else None
            else add_range (lo, lo) (parse_set p1)
        | _ => add_range (lo, lo) (parse_set p1)
        end
  end.

(** A decimal number and what follows it. *)
Fixpoint parse_count (acc : nat) (p : bytes) : nat * bytes :=
  match p with
  | b :: q => if is_ascii_digit b then parse_count (acc * 10 + Z.to_nat (bval b - 48)) q else (acc, p)
  | [] => (acc, [])
  end.

Definition parse_quant (p : bytes) : option (quant * bytes) :=
  match p with
  | [] => Some (QOne, p)
  | c :: p1 =>
      if eqc "*"%byte c then Some (QStar, p1)
      else if negb (eqc "{"%byte c) then Some (QOne, p)
      else if negb (match p1 with b :: _ => is_ascii_digit b | [] => false end) then None
      else
        match parse_count 0 p1 with
        | (n, c :: p2) =>
            if eqc "}"%byte c then Some (QExactly n, p2)
            else
              match p2 with
              | d :: p3 => if eqc ","%byte c && eqc "}"%byte d then Some (QAtLeast n, p3) else None
              | [] => None
              end
        | _ => None
        end
  end.

(** Every item takes a character: the length of the pattern is enough fuel. *)
Fixpoint parse_items (fuel : nat) (p : bytes) : option pattern :=
  match fuel, p with
  | _, [] => Some []
  | 0, _ => None
  | S fuel, b :: p =>
      let atom := if eqc "["%byte b then parse_set p else if plain b then Some ([(b, b)], p) else None in
      match atom with
      | Some ((_ :: _) as set, p) =>
          match parse_quant p with
          | Some (q, p) => match parse_items fuel p with Some items => Some ((set, q) :: items) | None => None end
          | None => None
          end
      | _ => None
      end
  end.

(** Repetition counts that every engine accepts. *)
Definition modest_counts (items : pattern) : bool :=
  forallb (fun i => match i.2 with QExactly n | QAtLeast n => n <=? 1000 | QOne | QStar => true end) items.

Definition parse_pattern (p : bytes) : option pattern := parse_items (length p) p.

(** ** What the patterns denote *)

(** Literal characters. *)
Definition lits (s : bytes) : pattern := (fun b => ([(b, b)], QOne)) <$> s.

Lemma in_set_one b c : in_set [(b, b)] c = true <-> c = b.
Proof.
  unfold in_set, in_range. simpl. rewrite orb_false_r, andb_true_iff, !Z.leb_le. split; [|intros ->; lia].
  intros H. assert (bval c = bval b) as E by lia. unfold bval in E. apply N2Z.inj in E.
  apply (f_equal Byte.of_N) in E. rewrite !Byte.of_to_N in E. by simplify_eq.
Qed.

Lemma denote_cons i p t : lang (denote (i :: p)) t <-> exists u v, t = u ++ v /\ lang (denote_item i) u /\ lang (denote p) v.
Proof. apply lang_seq_inv. Qed.

Lemma denote_nil t : lang (denote []) t <-> t = [].
Proof. split; [by inversion 1|]. intros ->. constructor. Qed.

Lemma denote_lits s p t : lang (denote (lits s ++ p)) t <-> exists u, t = s ++ u /\ lang (denote p) u.
Proof.
  revert t. induction s as [|b s IH]; intros t; [simpl; naive_solver|].
  change (lits (b :: s) ++ p) with (([(b, b)], QOne) :: (lits s ++ p)). rewrite denote_cons. split.
  - intros (u & v & -> & (c & -> & ->%in_set_one)%lang_set_inv & (w & -> & H)%IH). by exists w.
  - intros (u & -> & H). exists [b], (s ++ u). split_and!; [done| |apply IH; eauto].
    apply lang_set_inv. exists b. split; [done|by apply in_set_one].
Qed.

(** A quantified set: how many characters, all of them of the set. *)
Definition quant_admits (q : quant) (n : nat) : Prop :=
  match q with QOne => n = 1 | QStar => True | QExactly m => n = m | QAtLeast m => m <= n end.

Lemma denote_item_lang set q t :
  lang (denote_item (set, q)) t <-> quant_admits q (length t) /\ Forall (fun b => in_set set b = true) t.
Proof.
  destruct q as [| |m|m]; unfold denote_item; cbn [fst snd quant_admits].
  - rewrite lang_set_inv. split; [intros (b & -> & H); auto|]. intros [E H].
    destruct t as [|b [|c t]]; simplify_eq/=. inversion H; eauto.
  - rewrite lang_star_set. naive_solver.
  - apply lang_repeat_set.
  - rewrite lang_seq_inv. split.
    + intros (u & v & -> & [<- Hu]%lang_repeat_set & Hv%lang_star_set). rewrite length_app.
      split; [lia|]. by apply Forall_app.
    + intros [Hm H]. exists (take m t), (drop m t). rewrite lang_repeat_set, lang_star_set, take_drop, length_take.
      split_and!; [done|lia|by apply Forall_take|by apply Forall_drop].
Qed.

(** Where the pattern occurs, in terms of the text alone. *)
Lemma occurs_lits_item s set q rest t :
  occurs (denote (lits s ++ (set, q) :: lits rest)) t <->
  exists before mid after, t = before ++ s ++ mid ++ rest ++ after /\ quant_admits q (length mid) /\
    Forall (fun b => in_set set b = true) mid.
Proof.
  assert (forall u, lang (denote (lits rest)) u <-> u = rest) as Hrest.
  { intros u. rewrite <- (app_nil_r (lits rest)), denote_lits. setoid_rewrite denote_nil.
    split; [intros (? & -> & ->); by rewrite app_nil_r|]. intros ->. exists []. by rewrite app_nil_r. }
  split.
  - intros (p & f & a & -> & (u & -> & (m & v & -> & [Hq Hm]%denote_item_lang & ->%Hrest)%denote_cons)%denote_lits).
    exists p, m, a. by rewrite <- !(assoc_L (++)).
  - intros (p & m & a & -> & Hq & Hm). exists p, (s ++ m ++ rest), a. split; [by rewrite <- !(assoc_L (++))|].
    apply denote_lits. exists (m ++ rest). split; [done|]. apply denote_cons. exists m, rest.
    by rewrite denote_item_lang, Hrest.
Qed.

(** A single character of a set splits the search by that character. *)
Lemma occurs_choice s set p t :
  occurs (denote (lits s ++ (set, QOne) :: p)) t <->
  exists c, in_set set c = true /\ occurs (denote (lits (s ++ [c]) ++ p)) t.
Proof.
  unfold occurs. setoid_rewrite denote_lits. split.
  - intros (b & f & a & -> & u & -> & (c & v & -> & (c' & -> & Hc)%lang_set_inv & H)%denote_cons).
    exists c'. split; [done|]. exists b, (s ++ [c'] ++ v), a. split; [done|]. exists v. by rewrite <- (assoc_L (++)).
  - intros (c & Hc & b & f & a & -> & u & -> & H). exists b, ((s ++ [c]) ++ u), a. split; [done|].
    exists ([c] ++ u). split; [by rewrite <- (assoc_L (++))|]. apply denote_cons. exists [c], u.
    split_and!; [done| |done]. apply lang_set_inv. eauto.
Qed.
