(* ===== verification/Filter.v ===== *)
(** * Sensitive content on macOS

    [macos/.../Services/SensitiveContentFilter.swift] decides whether a local
    copy may leave the machine, [InterceptNotifier.swift] tells the user that
    one did not.  The built-in rules are the source's pattern strings; the
    regular-expression engine and [String.range(of:)] belong to Foundation
    and are classes, with laws for the patterns whose meaning [Regex] fixes
    and for ASCII text.  Logging is left out. *)

From stdpp Require Import pretty.
From S2P Require Import Prelude Interfaces Crypto Regex.
From Stdlib Require Import Strings.Byte.

Set Default Goal Selector "!".
#[local] Open Scope clip_scope.

(** ** Foundation *)

(** [NSRegularExpression]: whether a pattern compiles, and whether
    [firstMatch] over the whole text finds something; known for the patterns
    of [Regex] whose repetition counts are not excessive. *)
Class RegularExpressions := {
  re_compiles : string -> bool;
  re_first_match : string -> string -> bool;
  re_law : forall p items t, parse_pattern (as_bytes p) = Some items -> modest_counts items = true ->
    re_compiles p = true /\ (re_first_match p t = true <-> occurs (denote items) (as_bytes t))
}.

Definition is_ascii (t : string) : bool := forallb (fun b => (bval b <? 128)%Z) (as_bytes t).

(** [needle] stands somewhere in [t]. *)
Definition substring_of (needle t : bytes) : Prop := exists before after, t = before ++ needle ++ after.

(** [String.range(of:)] compares modulo canonical equivalence; the two agree
    on ASCII. *)
Class Foundation := {
  range_of : string -> string -> bool;
  range_of_law : forall needle t, needle <> ""%string -> forallb plain (as_bytes needle) = true -> is_ascii t = true ->
    (range_of needle t = true <-> substring_of (as_bytes needle) (as_bytes t))
}.

(** ** [ClipboardPayload], rules and decisions *)

Inductive ClipboardPayload := PText (text : string) | PImage (png : bytes) (digest : string).

#[export] Instance payload_eq_dec : EqDecision ClipboardPayload.
Proof. solve_decision. Defined.

Definition semantic_digest `{Sha256} (p : ClipboardPayload) : string :=
  match p with PText text => hex_lower (sha256 (as_bytes text)) | PImage _ digest => digest end.

Record SensitiveRule := { rule_id : string; rule_pattern : string; is_regex : bool }.

Inductive InterceptReason := IPaused | IPasteboardMarker | IBuiltinRule (id : string) | IUserRule (index : nat).

Inductive FilterDecision := FAllow | FBlock (reason : InterceptReason).

#[export] Instance reason_eq_dec : EqDecision InterceptReason.
Proof. solve_decision. Defined.
#[export] Instance decision_eq_dec : EqDecision FilterDecision.
Proof. solve_decision. Defined.

Record BuiltinSensitiveRule := {
  bi_id : string; bi_description : string; bi_substrings : list string; bi_regex : option string
}.

(** [BuiltinSensitiveRules.all]. *)
Definition builtin_all : list BuiltinSensitiveRule := [
  {| bi_id := "pem-private-key"; bi_description := "PEM private key block"; bi_substrings := [];
     bi_regex := Some "-----BEGIN [A-Z0-9 ]*PRIVATE KEY-----"%string |};
  {| bi_id := "otpauth"; bi_description := "2FA seed URI (otpauth://)"; bi_substrings := ["otpauth://"%string];
     bi_regex := None |};
  {| bi_id := "github-token"; bi_description := "GitHub token (ghp_/github_pat_)";
     bi_substrings := ["ghp_"%string; "github_pat_"%string]; bi_regex := None |};
  {| bi_id := "openai-key"; bi_description := "OpenAI-style key (sk-…)"; bi_substrings := [];
     bi_regex := Some "sk-[A-Za-z0-9_-]{20,}"%string |};
  {| bi_id := "aws-key"; bi_description := "AWS access key (AKIA…)"; bi_substrings := [];
     bi_regex := Some "AKIA[0-9A-Z]{16}"%string |};
  {| bi_id := "google-api-key"; bi_description := "Google API key (AIza…)"; bi_substrings := [];
     bi_regex := Some "AIza[0-9A-Za-z_-]{35}"%string |};
  {| bi_id := "slack-token"; bi_description := "Slack token (xox…)"; bi_substrings := [];
     bi_regex := Some "xox[baprs]-[A-Za-z0-9-]{10,}"%string |} ].

Section filter.
Context `{RegularExpressions} `{Foundation}.

(** [BuiltinSensitiveRules.match]: one rule, and the first that matches. *)
Definition builtin_rule_matches (rule : BuiltinSensitiveRule) (text : string) : bool :=
  existsb (fun s => range_of s text) (bi_substrings rule) ||
  match bi_regex rule with Some p => re_compiles p && re_first_match p text | None => false end.

Definition builtin_match (text : string) : option string :=
  bi_id <$> List.find (fun rule => builtin_rule_matches rule text) builtin_all.

Definition is_valid_regex (p : string) : bool := if bool_decide (p = ""%string) then true else re_compiles p.

Definition rule_matches (rule : SensitiveRule) (text : string) : bool :=
  if bool_decide (rule_pattern rule = ""%string) then false
  else if negb (is_regex rule) then range_of (rule_pattern rule) text
  else if negb (re_compiles (rule_pattern rule)) then false
  else re_first_match (rule_pattern rule) text.

(** [for (index, rule) in rules.enumerated() where …]. *)
Fixpoint first_user_rule (index : nat) (rules : list SensitiveRule) (text : string) : option nat :=
  match rules with
  | [] => None
  | rule :: rules => if rule_matches rule text then Some index else first_user_rule (S index) rules text
  end.

Definition evaluate (paused marked : bool) (payload : ClipboardPayload) (rules : list SensitiveRule) : FilterDecision :=
  if paused then FBlock IPaused
  else if marked then FBlock IPasteboardMarker
  else
    match payload with
    | PImage _ _ => FAllow
    | PText text =>
        match builtin_match text with
        | Some id => FBlock (IBuiltinRule id)
        | None => match first_user_rule 0 rules text with Some index => FBlock (IUserRule index) | None => FAllow end
        end
    end.

(** ** What the built-in rules recognise *)

(** [before prefix key after] with [key] of a length [ok] and characters in
    [cs]: the shape of an access key, in terms of the text alone. *)
Definition has_key (prefix : string) (cs : byte -> bool) (ok : nat -> Prop) (rest : string) (t : bytes) : Prop :=
  exists before key after, t = before ++ as_bytes prefix ++ key ++ as_bytes rest ++ after /\ ok (length key) /\
    Forall (fun b => cs b = true) key.

Definition upper_digit (b : byte) : bool := is_ascii_uppercase b || is_ascii_digit b.
Definition token_char (b : byte) : bool := is_alnum b || bool_decide (b ∈ ["_"; "-"]%byte).

(** The secrets the rules are meant to hold back; [contains] says which of the
    fixed strings occur. *)
Definition secret_by (contains : string -> Prop) (t : bytes) : Prop :=
  has_key "-----BEGIN " (fun b => upper_digit b || bool_decide (b = " "%byte)) (fun _ => True) "PRIVATE KEY-----" t \/
  contains "otpauth://"%string \/ contains "ghp_"%string \/ contains "github_pat_"%string \/
  has_key "sk-" token_char (fun n => 20 <= n) "" t \/
  has_key "AKIA" upper_digit (fun n => n = 16) "" t \/
  has_key "AIza" token_char (fun n => n = 35) "" t \/
  (exists kind, kind ∈ ["b"; "a"; "p"; "r"; "s"]%byte /\
     has_key ("xox" +:+ str_of_bytes [kind] +:+ "-") (fun b => is_alnum b || bool_decide (b = "-"%byte)) (fun n => 10 <= n) "" t).

Definition secret (t : bytes) : Prop := secret_by (fun needle => substring_of (as_bytes needle) t) t.

(** What one pattern with a single quantified set looks for. *)
Lemma pattern_has_key p prefix set q rest t cs :
  parse_pattern (as_bytes p) = Some (lits (as_bytes prefix) ++ (set, q) :: lits (as_bytes rest)) ->
  modest_counts [(set, q)] = true -> (forall b, in_set set b = cs b) ->
  re_compiles p && re_first_match p t = true <-> has_key prefix cs (quant_admits q) rest (as_bytes t).
Proof.
  intros Hp Hm Hcs. assert (forall l, modest_counts (lits l) = true) as Hl by (intros l; induction l; done).
  destruct (re_law p _ t Hp) as [-> ->].
  { unfold modest_counts in *. rewrite forallb_app. cbn [forallb] in *. fold (modest_counts (lits (as_bytes prefix))).
    fold (modest_counts (lits (as_bytes rest))). rewrite andb_true_r in Hm. by rewrite Hm, !Hl. }
  rewrite occurs_lits_item. unfold has_key.
  by setoid_rewrite Hcs.
Qed.

Lemma slack_has_key t :
  re_compiles "xox[baprs]-[A-Za-z0-9-]{10,}" && re_first_match "xox[baprs]-[A-Za-z0-9-]{10,}" t = true <->
  exists kind, kind ∈ ["b"; "a"; "p"; "r"; "s"]%byte /\
    has_key ("xox" +:+ str_of_bytes [kind] +:+ "-") (fun b => is_alnum b || bool_decide (b = "-"%byte)) (fun n => 10 <= n) ""
      (as_bytes t).
Proof.
  set (kinds := [("b", "b"); ("a", "a"); ("p", "p"); ("r", "r"); ("s", "s")]%byte : charset).
  set (key := [("A", "Z"); ("a", "z"); ("0", "9"); ("-", "-")]%byte : charset).
  destruct (re_law "xox[baprs]-[A-Za-z0-9-]{10,}"
    (lits (as_bytes "xox") ++ (kinds, QOne) :: lits ["-"%byte] ++ [(key, QAtLeast 10)]) t eq_refl eq_refl) as [-> ->].
  rewrite occurs_choice. apply exist_proper. intros c.
  replace (lits (as_bytes "xox" ++ [c]) ++ lits ["-"%byte] ++ [(key, QAtLeast 10)])
    with (lits (as_bytes ("xox" +:+ str_of_bytes [c] +:+ "-")) ++ (key, QAtLeast 10) :: lits (as_bytes "")).
  2: { destruct c; reflexivity. }
  rewrite occurs_lits_item. unfold has_key.
  assert (forall b, in_set key b = is_alnum b || bool_decide (b = "-"%byte)) as Hkey by (intros []; reflexivity).
  setoid_rewrite Hkey. assert (in_set kinds c = true <-> c ∈ ["b"; "a"; "p"; "r"; "s"]%byte) as ->; [|done].
  rewrite <- (bool_decide_eq_true (c ∈ _)). apply eq_iff_eq_true. destruct c; reflexivity.
Qed.

(** What the rules find, with the platform's own search for fixed strings. *)
Lemma builtin_secret t :
  existsb (fun rule => builtin_rule_matches rule t) builtin_all = true <->
  secret_by (fun needle => range_of needle t = true) (as_bytes t).
Proof.
  unfold builtin_all, builtin_rule_matches. cbn [existsb bi_substrings bi_regex].
  rewrite !orb_true_iff, slack_has_key.
  rewrite (pattern_has_key "-----BEGIN [A-Z0-9 ]*PRIVATE KEY-----" "-----BEGIN " [("A", "Z"); ("0", "9"); (" ", " ")]%byte QStar "PRIVATE KEY-----" t
    (fun b => upper_digit b || bool_decide (b = " "%byte)) eq_refl eq_refl) by (intros []; reflexivity).
  rewrite (pattern_has_key "sk-[A-Za-z0-9_-]{20,}" "sk-" [("A", "Z"); ("a", "z"); ("0", "9"); ("_", "_"); ("-", "-")]%byte (QAtLeast 20) "" t
    token_char eq_refl eq_refl) by (intros []; reflexivity).
  rewrite (pattern_has_key "AKIA[0-9A-Z]{16}" "AKIA" [("0", "9"); ("A", "Z")]%byte (QExactly 16) "" t
    upper_digit eq_refl eq_refl) by (intros []; reflexivity).
  rewrite (pattern_has_key "AIza[0-9A-Za-z_-]{35}" "AIza" [("0", "9"); ("A", "Z"); ("a", "z"); ("_", "_"); ("-", "-")]%byte (QExactly 35) "" t
    token_char eq_refl eq_refl) by (intros []; reflexivity).
  assert (false = true <-> False) as -> by done. unfold secret_by, quant_admits. tauto.
Qed.

(** On ASCII texts that search is the plain one. *)
Lemma secret_ascii t :
  is_ascii t = true -> secret_by (fun needle => range_of needle t = true) (as_bytes t) <-> secret (as_bytes t).
Proof. intros Ht. unfold secret, secret_by. by rewrite !(range_of_law _ t) by done. Qed.

Lemma builtin_match_None t :
  builtin_match t = None <-> ~ secret_by (fun needle => range_of needle t = true) (as_bytes t).
Proof.
  rewrite <- (builtin_secret t). unfold builtin_match. rewrite fmap_None, not_true_iff_false.
  induction builtin_all as [|rule rules IH]; simpl; [done|]. by destruct (builtin_rule_matches rule t).
Qed.

(** The user's rules: the index reported is that of the first rule that
    matches. *)
Lemma first_user_rule_spec rules t k :
  match first_user_rule k rules t with
  | None => Forall (fun rule => rule_matches rule t = false) rules
  | Some i => exists rule, k <= i /\ rules !! (i - k) = Some rule /\ rule_matches rule t = true /\
      Forall (fun rule => rule_matches rule t = false) (take (i - k) rules)
  end.
Proof.
  revert k. induction rules as [|rule rules IH]; intros k; simpl; [done|].
  destruct (rule_matches rule t) eqn:E.
  - exists rule. rewrite Nat.sub_diag. auto.
  - specialize (IH (S k)). destruct (first_user_rule (S k) rules t) as [i|]; [|auto].
    destruct IH as (r & Hi & Hr & Hm & Hall). exists r. replace (i - k) with (S (i - S k)) by lia. simpl.
    split_and!; [lia|done|done|auto].
Qed.

(** What may leave the machine: a description that mentions neither the order
    of the tests nor the patterns, for a given notion of [contains]. *)
Definition may_leave_by (contains : string -> string -> Prop) (paused marked : bool) (payload : ClipboardPayload)
    (rules : list SensitiveRule) : Prop :=
  paused = false /\ marked = false /\
  match payload with
  | PImage _ _ => True
  | PText t => ~ secret_by (fun needle => contains needle t) (as_bytes t) /\
      Forall (fun rule => rule_matches rule t = false) rules
  end.

(** For what the platform finds in a text, and for what stands in it. *)
Definition found_to_leave : bool -> bool -> ClipboardPayload -> list SensitiveRule -> Prop :=
  may_leave_by (fun needle t => range_of needle t = true).
Definition may_leave : bool -> bool -> ClipboardPayload -> list SensitiveRule -> Prop :=
  may_leave_by (fun needle t => substring_of (as_bytes needle) (as_bytes t)).

Definition ascii_payload (payload : ClipboardPayload) : bool :=
  match payload with PText t => is_ascii t | PImage _ _ => true end.

Lemma evaluate_allow paused marked payload rules :
  evaluate paused marked payload rules = FAllow <-> found_to_leave paused marked payload rules.
Proof.
  unfold evaluate, found_to_leave, may_leave_by. destruct paused; [naive_solver|]. destruct marked; [naive_solver|].
  destruct payload as [t|png d]; [|naive_solver]. pose proof (builtin_match_None t) as Hb.
  pose proof (first_user_rule_spec rules t 0) as Hu.
  destruct (builtin_match t) as [id|]; [|destruct (first_user_rule 0 rules t) as [i|]].
  - split; [done|]. intros (_ & _ & Hn & _). by apply Hb in Hn.
  - destruct Hu as (rule & _ & Hr & Hm & Hall). rewrite Nat.sub_0_r in *.
    split; [done|]. intros (_ & _ & _ & Hf). rewrite Forall_lookup in Hf. by rewrite (Hf i rule Hr) in Hm.
  - split; [|done]. intros _. split_and!; [done|done|by apply Hb|done].
Qed.

Lemma found_ascii paused marked payload rules :
  ascii_payload payload = true ->
  found_to_leave paused marked payload rules <-> may_leave paused marked payload rules.
Proof.
  unfold found_to_leave, may_leave, may_leave_by. destruct payload as [t|png d]; [|done]. simpl. intros Ha.
  by rewrite (secret_ascii t Ha).
Qed.

(** C16. The filter lets a local copy out exactly when syncing is not paused,
    the copying application did not mark the pasteboard as sensitive, and, for
    a text, none of the secrets is found anywhere in it (a PEM private key, an
    otpauth seed, a GitHub, OpenAI, AWS, Google or Slack credential, each
    described by its characters, not by the pattern) and none of the user's
    rules matches; when one of the user's rules blocks it, the index shown is
    that of the first rule that matches.  The seeds and the GitHub tokens are
    fixed strings, found as [String.range(of:)] finds them, modulo canonical
    equivalence; in a text of ASCII characters that is where they stand. *)
Theorem filter_exact paused marked payload rules :
  (evaluate paused marked payload rules = FAllow <-> found_to_leave paused marked payload rules) /\
  (ascii_payload payload = true ->
     found_to_leave paused marked payload rules <-> may_leave paused marked payload rules) /\
  (forall i, evaluate paused marked payload rules = FBlock (IUserRule i) ->
    exists t rule, payload = PText t /\ rules !! i = Some rule /\ rule_matches rule t = true /\
      Forall (fun r => rule_matches r t = false) (take i rules)).
Proof.
  split; [apply evaluate_allow|]. split; [apply found_ascii|]. intros i. unfold evaluate. destruct paused; [done|].
  destruct marked; [done|]. destruct payload as [t|png d]; [|done]. pose proof (first_user_rule_spec rules t 0) as Hu.
  destruct (builtin_match t) as [id|]; [done|]. destruct (first_user_rule 0 rules t) as [j|]; [|done].
  intros [= <-]. destruct Hu as (rule & _ & Hr & Hm & Hall). rewrite Nat.sub_0_r in *. eauto 10.
Qed.
End filter.

(** ** [InterceptNotifier.swift] *)

(** [InterceptCopy.body]. *)
Definition intercept_body (reason : InterceptReason) : string :=
  let source :=
    match reason with
    | IPaused => "Sync is paused"
    | IPasteboardMarker => "Password manager marked the clipboard as sensitive"
    | IBuiltinRule id =>
        "Matched built-in rule: " +:+
        default id (bi_description <$> List.find (fun rule => bool_decide (bi_id rule = id)) builtin_all)
    | IUserRule index => "Matched custom rule #" +:+ pretty (index + 1)
    end in
  source +:+ ". Content was not synced or stored.".

(** [SystemInterceptNotifier].  Instants and the window are in milliseconds;
    [center] logs what the notification centre is asked for. *)
Inductive center_call := CAdd (body : string) | CAuthorize (then_add : string).

Record Notifier := { dedup_window : Z; authorization_requested : bool; last_notified_at : option Z }.

Definition notifier_new (window : Z) : Notifier :=
  {| dedup_window := window; authorization_requested := false; last_notified_at := None |}.

Definition notify (n : Notifier) (now : Z) (reason : InterceptReason) : Notifier * list center_call :=
  if match last_notified_at n with Some last => (now - last <? dedup_window n)%Z | None => false end then (n, [])
  else
    let n' := {| dedup_window := dedup_window n; authorization_requested := true; last_notified_at := Some now |} in
    if authorization_requested n then (n', [CAdd (intercept_body reason)])
    else (n', [CAuthorize (intercept_body reason)]).

(** A run of interceptions, with the instants at which something was shown. *)
Fixpoint notify_all (n : Notifier) (events : list (Z * InterceptReason)) : list (Z * center_call) :=
  match events with
  | [] => []
  | (now, reason) :: events =>
      let '(n', calls) := notify n now reason in ((fun c => (now, c)) <$> calls) ++ notify_all n' events
  end.

(** Spaced by the window, and the user is asked at most once, first. *)
Fixpoint spaced (window : Z) (last : option Z) (asked : bool) (shown : list (Z * center_call)) : Prop :=
  match shown with
  | [] => True
  | (now, call) :: shown =>
      (forall l, last = Some l -> l + window <= now)%Z /\
      (if asked then exists b, call = CAdd b else exists b, call = CAuthorize b) /\
      spaced window (Some now) true shown
  end.

Lemma notifications_spaced events window :
  spaced window None false (notify_all (notifier_new window) events).
Proof.
  assert (forall n, spaced (dedup_window n) (last_notified_at n) (authorization_requested n) (notify_all n events)) as H;
    [|apply (H (notifier_new window))].
  induction events as [|[now reason] events IH]; intros n; simpl; [done|]. unfold notify.
  destruct (last_notified_at n) as [last|] eqn:El; [destruct (Z.ltb_spec (now - last) (dedup_window n))|].
  - rewrite <- El. apply IH.
  - destruct (authorization_requested n); simpl; (split; [intros l [= ->]; lia|]; split; [eauto|apply (IH (Build_Notifier _ _ _))]).
  - destruct (authorization_requested n); simpl; (split; [done|]; split; [eauto|apply (IH (Build_Notifier _ _ _))]).
Qed.

(** ** The laws can hold: the matcher by derivatives is such an engine *)

Module FilterToy.

Fixpoint substring_b (needle t : bytes) : bool :=
  match strip_prefix needle t with Some _ => true | None => match t with [] => false | _ :: t => substring_b needle t end end.

Lemma substring_b_spec needle t : substring_b needle t = true <-> substring_of needle t.
Proof.
  unfold substring_of. induction t as [|b t IH]; simpl; (destruct (strip_prefix needle _) eqn:E; [apply strip_prefix_Some in E|]).
  - split; [|done]. intros _. by exists [], l.
  - split; [done|]. intros (before & after & Hb). symmetry in Hb. destruct before; [|done].
    simpl in Hb. symmetry in Hb. apply strip_prefix_Some in Hb. by rewrite Hb in E.
  - split; [|done]. intros _. by exists [], l.
  - rewrite IH. split; [intros (before & after & ->); by exists (b :: before), after|].
    intros ([|c before] & after & Hb); [|simplify_eq/=; eauto].
    simpl in Hb. apply strip_prefix_Some in Hb. by rewrite Hb in E.
Qed.

#[local] Program Instance toy_re : RegularExpressions := {|
  re_compiles := fun p => match parse_pattern (as_bytes p) with Some _ => true | None => false end;
  re_first_match := fun p t =>
    match parse_pattern (as_bytes p) with Some items => search (denote items) (as_bytes t) | None => false end |}.
Next Obligation. intros p items t E _. simpl. rewrite E. split; [done|]. apply search_occurs. Qed.

#[local] Program Instance toy_foundation : Foundation := {|
  range_of := fun needle t => substring_b (as_bytes needle) (as_bytes t) |}.
Next Obligation. intros needle t _ _ _. apply substring_b_spec. Qed.

Definition toy_rules : list SensitiveRule :=
  [ {| rule_id := "1"; rule_pattern := "["; is_regex := true |}; {| rule_id := "2"; rule_pattern := "internal"; is_regex := false |};
    {| rule_id := "3"; rule_pattern := "INV-[0-9]{4}"; is_regex := true |} ].

(** A harmless text leaves, a key inside a text does not, a text for the
    third rule is blocked under its index. *)
Lemma filter_exact_witness :
  ascii_payload (PText "lunch at 12?") = true /\ may_leave false false (PText "lunch at 12?") toy_rules /\
  ~ may_leave false false (PText "key: AKIA0123456789ABCDEF.") toy_rules /\
  exists rule, toy_rules !! 2 = Some rule /\ rule_matches rule "see INV-2024" = true.
Proof.
  split_and!; [reflexivity| | |].
  - destruct (filter_exact false false (PText "lunch at 12?") toy_rules) as (H1 & H2 & _).
    apply H2; [reflexivity|]. apply H1. vm_compute; reflexivity.
  - intros H. destruct (filter_exact false false (PText "key: AKIA0123456789ABCDEF.") toy_rules) as (H1 & H2 & _).
    apply H2, H1 in H; [|reflexivity]. vm_compute in H. discriminate H.
  - destruct (filter_exact false false (PText "see INV-2024") toy_rules) as (_ & _ & H).
    destruct (H 2) as (t & rule & [= <-] & Hr & Hm & _); [vm_compute; reflexivity|].
    exists rule. split; [exact Hr|exact Hm].
Defined.

End FilterToy.
