(* ===== verification/Pasteboard.v ===== *)
(** * The pasteboard on macOS

    [ClipboardImageCodec.swift], [ClipboardAccess.swift] ([SystemClipboard])
    and [PasteboardMonitor.swift] of [macos/Sources/ClipSyncMacOSKit/Services].

    The pasteboard is shared with every other application.  [NSPasteboard]
    has its documented behaviour: taking ownership ([clearContents]) empties
    it and changes its change count, writing data does not, and a write is
    refused when the ownership was lost.  Other applications act at any time:
    before each access of ours, [touch] lets them do the next part of an
    arbitrary script.  The image framework is a class. *)

From S2P Require Import Prelude Interfaces Crypto Filter.
From Stdlib Require Import Strings.Byte.

Set Default Goal Selector "!".
#[local] Open Scope clip_scope.

(** ** [ClipboardImageCodec.swift] *)

(** ImageIO and CoreGraphics: the pixel size in the properties of the first
    image, the image itself, its pixels drawn into a bitmap of a given size,
    and its encodings.  PNG loses nothing: a PNG of the image has its size
    and is drawn to the same pixels. *)
Class ImageIO := {
  cg_image : Type;
  cg_size : bytes -> option (Z * Z);
  cg_create : bytes -> option cg_image;
  cg_draw : cg_image -> Z -> Z -> option bytes;
  cg_png : cg_image -> option bytes;
  cg_tiff : cg_image -> option bytes;
  png_lossless : forall data w h image png,
    cg_size data = Some (w, h) -> cg_create data = Some image -> cg_png image = Some png ->
    cg_size png = Some (w, h) /\ exists image', cg_create png = Some image' /\ cg_draw image' w h = cg_draw image w h
}.

Inductive ClipboardImageError :=
| EncodedImageTooLarge | InvalidImage | DimensionsTooLarge | RgbaAllocationTooLarge | PngEncodingFailed.

#[export] Instance image_error_eq_dec : EqDecision ClipboardImageError.
Proof. solve_decision. Defined.

Definition error_description (e : ClipboardImageError) : string :=
  match e with
  | EncodedImageTooLarge => "Image exceeds the 10 MiB encoded limit."
  | InvalidImage => "Clipboard image could not be decoded."
  | DimensionsTooLarge => "Image exceeds the 50 megapixel limit."
  | RgbaAllocationTooLarge => "Image exceeds the 256 MiB decoded limit."
  | PngEncodingFailed => "Clipboard image could not be encoded as PNG."
  end.

Definition maximumEncodedBytes : Z := 10 * 1024 * 1024.
Definition maximumPixels : Z := 50000000.
Definition maximumRGBABytes : Z := 256 * 1024 * 1024.

(** [Int.multipliedReportingOverflow(by:)]: the low 64 bits and whether they
    are not the product. *)
Definition wrap_i64 (n : Z) : Z := ((n + 2 ^ 63) mod 2 ^ 64 - 2 ^ 63)%Z.
Definition multiplied (a b : Z) : Z * bool :=
  let p := wrap_i64 (a * b) in (p, negb (p =? a * b)%Z).

(** [UInt64(n).bigEndian] as bytes. *)
Definition be_u64 (n : Z) : bytes :=
  (fun shift => byte_of_Z (Z.shiftr n shift)) <$> [56; 48; 40; 32; 24; 16; 8; 0]%Z.

Section codec.
Context {II : ImageIO} {S256 : Sha256}.

Definition decode (data : bytes) : result (cg_image * string) ClipboardImageError :=
  match cg_size data with
  | None => Err InvalidImage
  | Some (width, height) =>
      if negb ((0 <? width)%Z && (0 <? height)%Z) then Err InvalidImage
      else
        let '(pixels, pixel_overflow) := multiplied width height in
        if pixel_overflow || (maximumPixels <? pixels)%Z then Err DimensionsTooLarge
        else
          let '(rgba_bytes, rgba_overflow) := multiplied pixels 4 in
          if rgba_overflow || (maximumRGBABytes <? rgba_bytes)%Z then Err RgbaAllocationTooLarge
          else
            match cg_create data with
            | None => Err InvalidImage
            | Some image =>
                match cg_draw image width height with
                | None => Err InvalidImage
                | Some rgba => Ok (image, hex_lower (sha256 (be_u64 width ++ be_u64 height ++ rgba)))
                end
            end
  end.

(** [ClipboardImageCodec.payload(fromEncodedImage:enforceEncodedLimit:)]. *)
Definition image_payload (data : bytes) (enforce : bool) : result ClipboardPayload ClipboardImageError :=
  if enforce && (maximumEncodedBytes <? Z.of_nat (length data))%Z then Err EncodedImageTooLarge
  else
    decoded ←? decode data;
    png ←? ok_or (cg_png decoded.1) PngEncodingFailed;
    if (maximumEncodedBytes <? Z.of_nat (length png))%Z then Err EncodedImageTooLarge else Ok (PImage png decoded.2).

Definition tiff_data (data : bytes) : result bytes ClipboardImageError :=
  if (maximumEncodedBytes <? Z.of_nat (length data))%Z then Err EncodedImageTooLarge
  else decoded ←? decode data; ok_or (cg_tiff decoded.1) InvalidImage.

Lemma multiplied_exact a b p : multiplied a b = (p, false) -> p = (a * b)%Z.
Proof. unfold multiplied. intros [= E H]. apply negb_false_iff, Z.eqb_eq in H. congruence. Qed.

(** What an accepted image is: its size is bounded, and the digest is of its
    size and pixels.  The two operations that could trap after the tests,
    [width * 4] and [UInt64(width)], stay in range. *)
Record decoded (data : bytes) (image : cg_image) (digest : string) (w h : Z) : Prop := {
  dec_size : cg_size data = Some (w, h);
  dec_range : (0 < w /\ 0 < h /\ w * h <= maximumPixels)%Z;
  dec_image : cg_create data = Some image;
  dec_pixels : exists rgba, cg_draw image w h = Some rgba /\
    digest = hex_lower (sha256 (be_u64 w ++ be_u64 h ++ rgba))
}.

Lemma decode_Ok data image digest : decode data = Ok (image, digest) -> exists w h, decoded data image digest w h.
Proof.
  unfold decode. destruct (cg_size data) as [[w h]|] eqn:Es; [|done].
  destruct (Z.ltb_spec 0 w), (Z.ltb_spec 0 h); cbn [negb andb]; [|done..].
  destruct (multiplied w h) as [pixels []] eqn:Em; [done|]. apply multiplied_exact in Em as ->. cbn [orb].
  destruct (Z.ltb_spec maximumPixels (w * h)); [done|].
  destruct (multiplied (w * h) 4) as [n []]; [done|]. cbn [orb]. destruct (Z.ltb maximumRGBABytes n); [done|].
  destruct (cg_create data) as [i|] eqn:Ei; [|done]. destruct (cg_draw i w h) as [rgba|] eqn:Ed; [|done].
  intros [= <- <-]. exists w, h. split; eauto.
Qed.

(** The limit on the decoded size is implied by the one on the pixels: it is
    never what refuses an image. *)
Lemma decode_no_rgba_limit data : decode data <> Err RgbaAllocationTooLarge.
Proof.
  unfold decode. destruct (cg_size data) as [[w h]|]; [|done].
  destruct (Z.ltb_spec 0 w), (Z.ltb_spec 0 h); cbn [negb andb]; [|done..].
  destruct (multiplied w h) as [pixels []] eqn:Em; [done|]. apply multiplied_exact in Em as ->. cbn [orb].
  destruct (Z.ltb_spec maximumPixels (w * h)) as [|Hm]; [done|].
  assert (multiplied (w * h) 4 = ((w * h) * 4, false))%Z as ->.
  { assert (0 < w * h)%Z by lia. unfold maximumPixels in Hm. unfold multiplied, wrap_i64.
    rewrite Z.mod_small by lia. f_equal; [lia|]. by rewrite negb_false_iff, Z.eqb_eq; lia. }
  cbn [orb]. destruct (Z.ltb_spec maximumRGBABytes (w * h * 4)) as [Hr|]; [unfold maximumPixels, maximumRGBABytes in *; lia|].
  destruct (cg_create data) as [i|]; [|done]. by destruct (cg_draw i w h).
Qed.

Lemma image_payload_Ok data enforce payload :
  image_payload data enforce = Ok payload ->
  exists image w h png digest, payload = PImage png digest /\ decoded data image digest w h /\ cg_png image = Some png /\
    (Z.of_nat (length png) <= maximumEncodedBytes)%Z.
Proof.
  unfold image_payload. destruct (enforce && _); [done|]. destruct (decode data) as [[image digest]|] eqn:Ed; [|done]. simpl.
  destruct (cg_png image) as [png|] eqn:Ep; [|done]. simpl. destruct (Z.ltb_spec maximumEncodedBytes (Z.of_nat (length png))); [done|].
  intros [= <-]. destruct (decode_Ok _ _ _ Ed) as (w & h & Hd). by exists image, w, h, png, digest.
Qed.

(** Payloads whose digest survives being written and read back. *)
Definition stable (p : ClipboardPayload) : Prop :=
  match p with
  | PText _ => True
  | PImage png digest => forall p', image_payload png true = Ok p' -> semantic_digest p' = digest
  end.

Lemma image_payload_stable data enforce payload : image_payload data enforce = Ok payload -> stable payload.
Proof.
  intros (image & w & h & png & digest & -> & [Hs _ Hi (rgba & Hr & ->)] & Hp & _)%image_payload_Ok p' H.
  destruct (image_payload_Ok _ _ _ H) as (image' & w' & h' & png' & digest' & -> & [Hs' _ Hi' (rgba' & Hr' & ->)] & _).
  destruct (png_lossless _ _ _ _ _ Hs Hi Hp) as (Es & i & Ei & Edraw). simplify_eq. simpl. congruence.
Qed.
End codec.

(** ** [NSPasteboard] *)

Record PbContent := {
  pb_types : list string; pb_png : option bytes; pb_tiff : option bytes; pb_string : option string
}.

Definition pb_empty : PbContent := {| pb_types := []; pb_png := None; pb_tiff := None; pb_string := None |}.

(** What another application does: take the pasteboard, and put data on it
    while it holds it. *)
Inductive others_do := XClear | XWrite (c : PbContent).

Record NSPasteboard := {
  pb_count : Z; pb_content : PbContent; pb_ours : bool; pb_script : list (list others_do)
}.

Definition others_act (pb : NSPasteboard) (x : others_do) : NSPasteboard :=
  match x with
  | XClear => {| pb_count := pb_count pb + 1; pb_content := pb_empty; pb_ours := false; pb_script := pb_script pb |}
  | XWrite c =>
      if pb_ours pb then pb
      else {| pb_count := pb_count pb; pb_content := c; pb_ours := false; pb_script := pb_script pb |}
  end.

(** The next part of the others' script, run before each access. *)
Definition touch (pb : NSPasteboard) : NSPasteboard :=
  match pb_script pb with
  | [] => pb
  | xs :: script =>
      foldl others_act {| pb_count := pb_count pb; pb_content := pb_content pb; pb_ours := pb_ours pb; pb_script := script |} xs
  end.

Definition pm (A : Type) : Type := NSPasteboard -> A * NSPasteboard.
Definition p_ret {A} (a : A) : pm A := fun pb => (a, pb).
Definition p_bind {A B} (m : pm A) (k : A -> pm B) : pm B := fun pb => let '(a, pb) := m pb in k a pb.
#[local] Notation "x ←% m ; k" := (p_bind m (fun x => k)) (at level 20, m at level 100, k at level 200, only parsing).

Definition change_count : pm Z := fun pb => let pb := touch pb in (pb_count pb, pb).
Definition pb_get {A} (f : PbContent -> A) : pm A := fun pb => let pb := touch pb in (f (pb_content pb), pb).
Definition clear_contents : pm unit := fun pb =>
  let pb := touch pb in
  (tt, {| pb_count := pb_count pb + 1; pb_content := pb_empty; pb_ours := true; pb_script := pb_script pb |}).

(** [setString] and [setData]: false when the ownership was lost. *)
Definition pb_set (f : PbContent -> PbContent) : pm bool := fun pb =>
  let pb := touch pb in
  if pb_ours pb then
    (true, {| pb_count := pb_count pb; pb_content := f (pb_content pb); pb_ours := true; pb_script := pb_script pb |})
  else (false, pb).

Definition add_string (text : string) (c : PbContent) : PbContent :=
  {| pb_types := pb_types c ++ ["public.utf8-plain-text"]; pb_png := pb_png c; pb_tiff := pb_tiff c; pb_string := Some text |}.
Definition add_png (png : bytes) (c : PbContent) : PbContent :=
  {| pb_types := pb_types c ++ ["public.png"]; pb_png := Some png; pb_tiff := pb_tiff c; pb_string := pb_string c |}.
Definition add_tiff (tiff : bytes) (c : PbContent) : PbContent :=
  {| pb_types := pb_types c ++ ["public.tiff"]; pb_png := pb_png c; pb_tiff := Some tiff; pb_string := pb_string c |}.

(** ** [ClipboardAccess.swift] *)

Record ReadResult := { rr_payload : ClipboardPayload; rr_marked : bool }.

Definition sensitiveMarkerTypes : list string := ["org.nspasteboard.ConcealedType"; "org.nspasteboard.TransientType"].
Definition marks (c : PbContent) : bool := existsb (fun t => bool_decide (t ∈ sensitiveMarkerTypes)) (pb_types c).

Section access.
Context {II : ImageIO} {S256 : Sha256}.

(** [guard pasteboard.changeCount == entryChangeCount else { return nil }]. *)
Definition if_unchanged {E} (entry : Z) (r : result ReadResult E) : pm (result (option ReadResult) E) :=
  count ←% change_count;
  p_ret (if (count =? entry)%Z then match r with Ok r => Ok (Some r) | Err e => Err e end else Ok None).

Definition image_result (marked : bool) (data : bytes) (enforce : bool) : result ReadResult ClipboardImageError :=
  payload ←? image_payload data enforce; Ok {| rr_payload := payload; rr_marked := marked |}.

Definition read_payload : pm (result (option ReadResult) ClipboardImageError) :=
  entry ←% change_count;
  marked ←% pb_get marks;
  count ←% change_count;
  if negb (count =? entry)%Z then p_ret (Ok None)
  else
    png ←% pb_get pb_png;
    match png with
    | Some png => if_unchanged entry (image_result marked png true)
    | None =>
        tiff ←% pb_get pb_tiff;
        match tiff with
        | Some tiff => if_unchanged entry (image_result marked tiff false)
        | None =>
            text ←% pb_get pb_string;
            match text with
            | Some text => if_unchanged entry (Ok {| rr_payload := PText text; rr_marked := marked |})
            | None => p_ret (Ok None)
            end
        end
    end.

(** After [clearContents] in [write]; the early returns are [None]. *)
Definition put_payload (payload : ClipboardPayload) : pm (result bool ClipboardImageError) :=
  match payload with
  | PText text => ok ←% pb_set (add_string text); p_ret (Ok ok)
  | PImage png _ =>
      match tiff_data png with
      | Err e => p_ret (Err e)
      | Ok tiff =>
          ok ←% pb_set (add_png png);
          if negb ok then p_ret (Ok false) else ok ←% pb_set (add_tiff tiff); p_ret (Ok ok)
      end
  end.

Definition write (payload : ClipboardPayload) (if_unchanged : option Z) : pm (result (option Z) ClipboardImageError) :=
  stale ←% match if_unchanged with
           | Some expected => count ←% change_count; p_ret (negb (expected =? count)%Z)
           | None => p_ret false
           end;
  if (stale : bool) then p_ret (Ok None)
  else
    _ ←% clear_contents;
    put ←% put_payload payload;
    match put with
    | Err e => p_ret (Err e)
    | Ok false => p_ret (Ok None)
    | Ok true => count ←% change_count; p_ret (Ok (Some count))
    end.

(** ** [PasteboardMonitor.swift] *)

Inductive RemoteApplyResult := RApplied | RDeferred.

Record PasteboardMonitor := {
  observed_change_count : Z; ownership_token : option (Z * string); disconnect_baseline : option Z; timer : bool
}.

Definition set_observed (c : Z) (m : PasteboardMonitor) : PasteboardMonitor :=
  {| observed_change_count := c; ownership_token := ownership_token m;
     disconnect_baseline := disconnect_baseline m; timer := timer m |}.
Definition set_token (t : option (Z * string)) (m : PasteboardMonitor) : PasteboardMonitor :=
  {| observed_change_count := observed_change_count m; ownership_token := t;
     disconnect_baseline := disconnect_baseline m; timer := timer m |}.
Definition set_baseline (b : option Z) (m : PasteboardMonitor) : PasteboardMonitor :=
  {| observed_change_count := observed_change_count m; ownership_token := ownership_token m;
     disconnect_baseline := b; timer := timer m |}.
Definition set_timer (t : bool) (m : PasteboardMonitor) : PasteboardMonitor :=
  {| observed_change_count := observed_change_count m; ownership_token := ownership_token m;
     disconnect_baseline := disconnect_baseline m; timer := t |}.

Definition monitor_init : pm PasteboardMonitor :=
  count ←% change_count;
  p_ret {| observed_change_count := count; ownership_token := None; disconnect_baseline := None; timer := false |}.

Definition monitor_start (m : PasteboardMonitor) : PasteboardMonitor := set_timer true m.
Definition monitor_stop (m : PasteboardMonitor) : PasteboardMonitor := set_timer false m.

(** [poll]: the error that was thrown, or what is passed to [onLocalChange]. *)
Definition poll (m : PasteboardMonitor) :
    pm (result (option ReadResult) ClipboardImageError * PasteboardMonitor) :=
  count ←% change_count;
  if (count =? observed_change_count m)%Z then p_ret (Ok None, m)
  else
    let m := set_observed count m in
    r ←% read_payload;
    p_ret
      match r with
      | Err e => (Err e, m)
      | Ok None => (Ok None, set_token None m)
      | Ok (Some r) =>
          if bool_decide (ownership_token m = Some (count, semantic_digest (rr_payload r)))
          then (Ok None, set_token None m) else (Ok (Some r), set_token None m)
      end.

Definition mark_disconnected (m : PasteboardMonitor) : pm PasteboardMonitor :=
  count ←% change_count; p_ret (set_baseline (Some count) m).
Definition mark_connected (m : PasteboardMonitor) : PasteboardMonitor := set_baseline None m.

Definition apply_remote (payload : ClipboardPayload) (mailbox : bool) (m : PasteboardMonitor) :
    pm (result RemoteApplyResult ClipboardImageError * PasteboardMonitor) :=
  clean ←% (if mailbox then
              match disconnect_baseline m with
              | None => p_ret None
              | Some baseline =>
                  count ←% change_count; p_ret (if (count =? baseline)%Z then Some (Some baseline) else None)
              end
            else p_ret (Some None));
  match clean with
  | None => p_ret (Ok RDeferred, m)
  | Some expected =>
      written ←% write payload expected;
      p_ret
        match written with
        | Err e => (Err e, m)
        | Ok None => (Ok RDeferred, m)
        | Ok (Some count) =>
            let m := set_token (Some (count, semantic_digest payload)) m in
            (Ok RApplied, if mailbox then set_baseline (Some count) m else m)
        end
  end.
End access.

(** ** What happens between two accesses *)

(** Copies made in one go: the pasteboard is taken and filled before anyone
    else looks. *)
Inductive atomic : list others_do -> Prop :=
| atomic_nil : atomic []
| atomic_copy c xs : atomic xs -> atomic (XClear :: XWrite c :: xs).

Definition steady (pb : NSPasteboard) : Prop := Forall atomic (pb_script pb).

(** [pb'] comes from [pb] by what others did. *)
Record later (pb pb' : NSPasteboard) : Prop := {
  l_count : (pb_count pb <= pb_count pb')%Z;
  l_ours : pb_count pb' = pb_count pb -> pb_ours pb' = pb_ours pb;
  l_lost : pb_ours pb' = true -> pb_count pb' = pb_count pb;
  l_content : pb_count pb' = pb_count pb -> pb_ours pb = true \/ steady pb -> pb_content pb' = pb_content pb;
  l_steady : steady pb -> steady pb'
}.

#[export] Instance later_preorder : PreOrder later.
Proof.
  split.
  - intros pb. split; auto with lia.
  - intros a b c [H1 H2 H3 H4 H5] [K1 K2 K3 K4 K5].
    split; intros; [lia| | | |by auto].
    + rewrite K2, H2 by lia. done.
    + assert (pb_count c = pb_count b) by auto. rewrite K2 in * by done. rewrite H3 in * by done. congruence.
    + assert (pb_count b = pb_count a) as Eb by lia. rewrite K4, H4; [done..|lia|].
      rewrite H2 by done. naive_solver.
Qed.

Lemma others_act_facts xs pb :
  let pb' := foldl others_act pb xs in
  (pb_count pb <= pb_count pb')%Z /\ (pb_count pb' = pb_count pb -> pb_ours pb' = pb_ours pb) /\
  (pb_ours pb' = true -> pb_count pb' = pb_count pb) /\
  (pb_count pb' = pb_count pb -> pb_ours pb = true -> pb_content pb' = pb_content pb) /\ pb_script pb' = pb_script pb.
Proof.
  cbv zeta. revert pb. induction xs as [|x xs IH]; intros pb; [simpl; auto with lia|]. cbn [foldl].
  destruct (IH (others_act pb x)) as (H1 & H2 & H3 & H4 & ->). destruct x as [|c]; simpl in *.
  - split_and!; [lia|lia| |lia|done]. intros H. by rewrite (H2 (H3 H)) in H.
  - destruct (pb_ours pb) eqn:E; simpl in *; [by rewrite E in *|]. auto with lia.
Qed.

Lemma atomic_same xs pb :
  atomic xs -> pb_count (foldl others_act pb xs) = pb_count pb -> foldl others_act pb xs = pb.
Proof.
  destruct 1 as [|c xs _]; [done|]. cbn [foldl others_act pb_ours]. intros E.
  destruct (others_act_facts xs {| pb_count := pb_count pb + 1; pb_content := c; pb_ours := false; pb_script := pb_script pb |})
    as [H _]. simpl in *. lia.
Qed.

Lemma touch_later pb : later pb (touch pb).
Proof.
  unfold touch. destruct (pb_script pb) as [|xs script] eqn:Es; [done|].
  set (pb0 := {| pb_count := pb_count pb |}). destruct (others_act_facts xs pb0) as (H1 & H2 & H3 & H4 & H5).
  split; [done|done|done| |].
  - intros Hc [Ho|Hs]; [by auto|]. unfold steady in Hs. rewrite Es in Hs. apply Forall_cons in Hs as [Hx _].
    by rewrite (atomic_same xs pb0).
  - unfold steady. rewrite H5, Es. by intros [_ ?]%Forall_cons.
Qed.

(** Accesses that only look. *)
Definition looks {A} (m : pm A) : Prop := forall pb, later pb (m pb).2.

Lemma looks_ret {A} (a : A) : looks (p_ret a).
Proof. intros pb. reflexivity. Qed.
Lemma looks_bind {A B} (m : pm A) (k : A -> pm B) : looks m -> (forall a, looks (k a)) -> looks (p_bind m k).
Proof. intros Hm Hk pb. unfold p_bind. specialize (Hm pb). destruct (m pb) as [a pb1]. etrans; [apply Hm|apply Hk]. Qed.
Lemma looks_count : looks change_count.
Proof. intros pb. apply touch_later. Qed.
Lemma looks_get {A} (f : PbContent -> A) : looks (pb_get f).
Proof. intros pb. apply touch_later. Qed.

Create HintDb looks.
#[export] Hint Resolve looks_ret looks_bind looks_count looks_get : looks.

(** What is on the pasteboard, as [read_payload] understands it. *)
Section facts.
Context {II : ImageIO} {S256 : Sha256}.

Definition content_result (c : PbContent) : result (option ReadResult) ClipboardImageError :=
  let found r := match r with Ok r => Ok (Some r) | Err e => Err e end in
  match pb_png c, pb_tiff c, pb_string c with
  | Some png, _, _ => found (image_result (marks c) png true)
  | None, Some tiff, _ => found (image_result (marks c) tiff false)
  | None, None, Some text => Ok (Some {| rr_payload := PText text; rr_marked := marks c |})
  | None, None, None => Ok None
  end.

Lemma looks_unchanged {E} entry (r : result ReadResult E) : looks (if_unchanged entry r).
Proof. unfold if_unchanged. auto with looks. Qed.
#[local] Hint Resolve looks_unchanged : looks.

Lemma looks_read : looks read_payload.
Proof. unfold read_payload. repeat (apply looks_bind; [auto with looks|intros ?]; try case_match); auto with looks. Qed.

Ltac laters := first [done | reflexivity | etrans; [|apply touch_later]; laters].

Lemma later_frozen x y z :
  later x y -> later y z -> pb_count z = pb_count x -> pb_ours z = true \/ steady x -> pb_content y = pb_content z.
Proof.
  intros [C1 O1 L1 T1 S1] [C2 O2 L2 T2 S2] E H. symmetry. apply T2; [lia|].
  destruct H as [H|H]; [left; rewrite <- O2 by lia; done|auto].
Qed.

(** A result is never mixed from two owners' contents; when nobody fills the
    pasteboard in several steps, it is what one of them put there. *)
Lemma read_payload_sound pb rr pb' :
  read_payload pb = (Ok (Some rr), pb') -> pb_ours pb' = true \/ steady pb ->
  content_result (pb_content pb') = Ok (Some rr).
Proof.
  unfold read_payload, if_unchanged, p_bind, p_ret, change_count, pb_get. intros H Hs.
  assert (pb_ours pb' = true \/ steady (touch pb)) as Hs1
    by (destruct Hs; [auto|right; by apply (l_steady _ _ (touch_later pb))]).
  set (pb1 := touch pb) in *. clearbody pb1. destruct (Z.eqb_spec (pb_count (touch (touch pb1))) (pb_count pb1)); [|done].
  assert (forall x, later pb1 x -> later x pb' -> pb_count pb' = pb_count pb1 -> pb_content x = pb_content pb') as Hfro.
  { intros x H1 H2 E. by apply (later_frozen pb1). }
  unfold content_result. cbn [negb] in H. set (pb2 := touch pb1) in *. set (pb4 := touch (touch pb2)) in *.
  destruct (pb_png (pb_content pb4)) as [png|] eqn:Ep; [|destruct (pb_tiff (pb_content (touch pb4))) as [tiff|] eqn:Et;
    [|destruct (pb_string (pb_content (touch (touch pb4)))) as [text|] eqn:Ex]]; [| | |done].
  - destruct (Z.eqb_spec (pb_count (touch pb4)) (pb_count pb1)) as [E|]; [|done].
    destruct (image_result _ _ _) eqn:Er; [|done]. simplify_eq.
    rewrite (Hfro pb4) in Ep by laters. rewrite (Hfro pb2) in Er by laters. by rewrite Ep, Er.
  - destruct (Z.eqb_spec (pb_count (touch (touch pb4))) (pb_count pb1)) as [E|]; [|done].
    destruct (image_result _ _ _) eqn:Er; [|done]. simplify_eq.
    rewrite (Hfro pb4) in Ep by laters. rewrite (Hfro (touch pb4)) in Et by laters. rewrite (Hfro pb2) in Er by laters.
    by rewrite Ep, Et, Er.
  - destruct (Z.eqb_spec (pb_count (touch (touch (touch pb4)))) (pb_count pb1)) as [E|]; [|done]. simplify_eq.
    rewrite (Hfro pb4) in Ep by laters. rewrite (Hfro (touch pb4)) in Et by laters.
    rewrite (Hfro (touch (touch pb4))) in Ex by laters. rewrite (Hfro pb2) by laters. by rewrite Ep, Et, Ex.
Qed.

(** What the accesses do while nobody else acts. *)
Lemma touch_quiet pb : pb_script pb = [] -> touch pb = pb.
Proof. intros H. unfold touch. by rewrite H. Qed.

Lemma read_payload_quiet pb : pb_script pb = [] -> read_payload pb = (content_result (pb_content pb), pb).
Proof.
  destruct pb as [count c ours script]. simpl. intros ->.
  unfold read_payload, if_unchanged, p_bind, p_ret, change_count, pb_get, touch. cbn.
  rewrite Z.eqb_refl. cbn. unfold content_result.
  destruct (pb_png c); cbn; [by rewrite Z.eqb_refl|]. destruct (pb_tiff c); cbn; [by rewrite Z.eqb_refl|].
  destruct (pb_string c); cbn; [by rewrite Z.eqb_refl|done].
Qed.

Lemma poll_quiet m pb rr :
  pb_script pb = [] -> pb_count pb <> observed_change_count m -> content_result (pb_content pb) = Ok (Some rr) ->
  poll m pb =
    ((Ok (if bool_decide (ownership_token m = Some (pb_count pb, semantic_digest (rr_payload rr))) then None else Some rr),
      set_token None (set_observed (pb_count pb) m)), pb).
Proof.
  intros H Hc Hr. unfold poll, p_bind, change_count. rewrite (touch_quiet pb H). destruct (Z.eqb_spec (pb_count pb) (observed_change_count m)); [done|].
  rewrite (read_payload_quiet pb H), Hr. unfold p_ret. cbn [set_observed ownership_token]. by case_bool_decide.
Qed.

(** ** No echo *)

(** What the monitor knows of its own writes: when the pasteboard is ours and
    changed since the last poll, the token names what a poll will find. *)
Record mon_inv (m : PasteboardMonitor) (pb : NSPasteboard) : Prop := {
  mi_observed : (observed_change_count m <= pb_count pb)%Z;
  mi_ours : pb_ours pb = true -> observed_change_count m = pb_count pb \/
    forall rr, content_result (pb_content pb) = Ok (Some rr) ->
      ownership_token m = Some (pb_count pb, semantic_digest (rr_payload rr))
}.

Lemma mon_inv_later m pb pb' : later pb pb' -> mon_inv m pb -> mon_inv m pb'.
Proof.
  intros [C O L T S] [Ho Hi]. split; [lia|]. intros H. pose proof (L H) as E. rewrite E.
  rewrite O in H by done. rewrite T by auto. auto.
Qed.

Lemma mon_inv_baseline b m pb : mon_inv m pb -> mon_inv (set_baseline b m) pb.
Proof. intros [H1 H2]. by split. Qed.
Lemma mon_inv_timer b m pb : mon_inv m pb -> mon_inv (set_timer b m) pb.
Proof. intros [H1 H2]. by split. Qed.

(** A poll never reports what we wrote: what it reports, another application
    owns, and, when copies are made in one go, is what stands there. *)
Lemma poll_foreign m pb r m' pb' :
  mon_inv m pb -> poll m pb = ((r, m'), pb') ->
  mon_inv m' pb' /\ later pb pb' /\ disconnect_baseline m' = disconnect_baseline m /\ timer m' = timer m /\
  forall rr, r = Ok (Some rr) -> pb_ours pb' = false /\ (steady pb -> content_result (pb_content pb') = Ok (Some rr)).
Proof.
  intros Hinv. unfold poll, p_bind at 1, change_count. pose proof (touch_later pb) as L1.
  pose proof (mon_inv_later _ _ _ L1 Hinv) as Hinv1. set (pb1 := touch pb) in *. clearbody pb1.
  destruct (Z.eqb_spec (pb_count pb1) (observed_change_count m)) as [E|E].
  { unfold p_ret. intros [= <- <- <-]. done. }
  unfold p_bind. pose proof (looks_read pb1) as L2. destruct (read_payload pb1) as [rd pb2] eqn:Er. simpl in L2.
  unfold p_ret. intros H.
  assert (pb' = pb2) as -> by (repeat case_match; by simplify_eq).
  assert (observed_change_count m' = pb_count pb1 /\ disconnect_baseline m' = disconnect_baseline m /\ timer m' = timer m)
    as (Eo & Eb & Et) by (repeat case_match; by simplify_eq).
  split_and!; [|by etrans|done|done|].
  { split; [rewrite Eo; apply L2|]. intros Ho. left. rewrite Eo. symmetry. by apply (l_lost _ _ L2). }
  intros rr ->. destruct rd as [[rr'|]|e]; [|done..]. cbn [set_observed ownership_token] in H.
  case_bool_decide as Hd; simplify_eq. split; [|intros Hs; apply (read_payload_sound pb1); [done|right; by apply (l_steady _ _ L1)]].
  apply not_true_iff_false. intros Ho. pose proof (l_lost _ _ L2 Ho) as Ec.
  pose proof (read_payload_sound _ _ _ Er (or_introl Ho)) as Hc.
  apply Hd. rewrite (l_ours _ _ L2) in Ho by done. rewrite (l_content _ _ L2) in Hc by auto.
  destruct (mi_ours _ _ Hinv1 Ho); [congruence|auto].
Qed.

(** Our own writes. *)
Lemma pb_set_facts f pb ok pb' :
  pb_set f pb = (ok, pb') ->
  (pb_count pb <= pb_count pb')%Z /\ ok = pb_ours pb' /\
  (pb_ours pb' = true -> pb_ours pb = true /\ pb_count pb' = pb_count pb /\ pb_content pb' = f (pb_content pb)).
Proof.
  unfold pb_set. pose proof (touch_later pb) as [C O L T _]. destruct (pb_ours (touch pb)) eqn:E; intros [= <- <-]; simpl.
  - assert (pb_count (touch pb) = pb_count pb) as Ec by auto. assert (pb_ours pb = true) as Eo by (rewrite <- O; done).
    rewrite T by auto. auto with lia.
  - rewrite E. auto with lia.
Qed.

(** What is there for a poll after [put_payload] on a pasteboard just emptied:
    the payload, or nothing of ours. *)
Lemma put_payload_facts payload pb r pb' :
  stable payload -> pb_content pb = pb_empty -> put_payload payload pb = (r, pb') ->
  (pb_count pb <= pb_count pb')%Z /\
  (pb_ours pb' = true -> match r with
    | Ok true => forall rr, content_result (pb_content pb') = Ok (Some rr) -> semantic_digest (rr_payload rr) = semantic_digest payload
    | Ok false => False
    | Err _ => content_result (pb_content pb') = Ok None
    end).
Proof.
  intros Hst He. unfold put_payload, p_bind, p_ret. destruct payload as [text|png digest].
  - destruct (pb_set _ pb) as [ok pb1] eqn:E1. apply pb_set_facts in E1 as (C & -> & H). intros [= <- <-].
    split; [done|]. intros Ho. rewrite Ho. destruct (H Ho) as (_ & _ & ->). rewrite He. by intros rr [= <-].
  - destruct (tiff_data png) as [tiff|e]; [|intros [= <- <-]; rewrite He; done].
    destruct (pb_set _ pb) as [ok pb1] eqn:E1. apply pb_set_facts in E1 as (C1 & -> & H1).
    destruct (pb_ours pb1) eqn:Ho1; simpl; [|intros [= <- <-]; split; [done|congruence]].
    destruct (pb_set _ pb1) as [ok pb2] eqn:E2. apply pb_set_facts in E2 as (C2 & -> & H2). intros [= <- <-].
    split; [lia|]. intros Ho2. rewrite Ho2. destruct (H2 Ho2) as (_ & _ & ->). destruct (H1 eq_refl) as (_ & _ & ->).
    rewrite He. cbn [content_result add_tiff add_png pb_png]. intros rr. unfold image_result.
    destruct (image_payload png true) as [p'|] eqn:Ep; [|done]. intros [= <-]. by apply Hst.
Qed.

Lemma write_facts payload expected pb r pb' :
  stable payload -> write payload expected pb = (r, pb') ->
  (pb_count pb <= pb_count pb')%Z /\
  match r with
  | Ok (Some count) =>
      (pb_count pb < pb_count pb')%Z /\ count = pb_count pb' /\
      (pb_ours pb' = true -> forall rr, content_result (pb_content pb') = Ok (Some rr) ->
         semantic_digest (rr_payload rr) = semantic_digest payload)
  | _ => later pb pb' \/ (pb_ours pb' = true -> content_result (pb_content pb') = Ok None)
  end.
Proof.
  intros Hst. unfold write, p_bind at 1.
  set (test := match expected with Some e => count ←% change_count; p_ret (negb (e =? count)%Z) | None => p_ret false end).
  assert (later pb (test pb).2) as L by (subst test; destruct expected; [apply touch_later|done]).
  destruct (test pb) as [[] pb1]; cbn [fst snd] in *.
  { intros [= <- <-]. split; [apply L|auto]. }
  unfold p_bind at 1, clear_contents. pose proof (touch_later pb1) as L1. set (pb2 := touch pb1) in *.
  set (pb3 := {| pb_count := pb_count pb2 + 1 |}). unfold p_bind at 1. destruct (put_payload payload pb3) as [put pb4] eqn:Ep.
  apply put_payload_facts in Ep as [C Hp]; [|done|done].
  assert (pb_count pb < pb_count pb4)%Z.
  { destruct L, L1. simpl in C. lia. }
  destruct put as [[]|e]; unfold p_bind, p_ret, change_count.
  - intros [= <- <-]. pose proof (touch_later pb4) as L4. split; [destruct L4; lia|].
    split_and!; [destruct L4; lia|done|].
    intros Ho rr. assert (pb_count (touch pb4) = pb_count pb4) as Ec by by apply (l_lost _ _ L4).
    rewrite (l_ours _ _ L4) in Ho by done. rewrite (l_content _ _ L4) by auto. by apply Hp.
  - intros [= <- <-]. split; [lia|]. right. intros Ho. by destruct (Hp Ho).
  - intros [= <- <-]. split; [lia|]. auto.
Qed.

(** Applying a remote clip keeps the invariant. *)
Lemma apply_remote_facts payload mailbox m pb r m' pb' :
  stable payload -> mon_inv m pb -> apply_remote payload mailbox m pb = ((r, m'), pb') ->
  mon_inv m' pb' /\ (pb_count pb <= pb_count pb')%Z /\ timer m' = timer m.
Proof.
  intros Hst Hinv. unfold apply_remote, p_bind at 1.
  set (test := if mailbox then _ else _).
  assert (later pb (test pb).2) as L.
  { subst test. destruct mailbox; [|done]. destruct (disconnect_baseline m); [apply touch_later|done]. }
  destruct (test pb) as [[expected|] pb1]; cbn [fst snd] in *.
  2: { intros [= <- <- <-]. split_and!; [by eapply mon_inv_later|apply L|done]. }
  unfold p_bind. destruct (write payload expected pb1) as [w pb2] eqn:Ew. apply write_facts in Ew as [C Hw]; [|done].
  pose proof (mon_inv_later _ _ _ L Hinv) as Hinv1. pose proof (mi_observed _ _ Hinv1). unfold p_ret. intros H'.
  assert (pb_count pb <= pb_count pb2)%Z by (destruct L; lia).
  destruct w as [[count|]|e]; simplify_eq.
  - destruct Hw as (Hlt & -> & Hd). split_and!; [|done|by destruct mailbox].
    assert (mon_inv (set_token (Some (pb_count pb', semantic_digest payload)) m) pb') as Hm.
    { split; [simpl; lia|]. intros Ho. right. intros rr Hr. simpl. by rewrite (Hd Ho rr Hr). }
    destruct mailbox; [by apply mon_inv_baseline|done].
  - split_and!; [|done|done]. destruct Hw as [Hw|Hw]; [by eapply mon_inv_later|]. split; [lia|].
    intros Ho. right. intros rr Hr. by rewrite (Hw Ho) in Hr.
  - split_and!; [|done|done]. destruct Hw as [Hw|Hw]; [by eapply mon_inv_later|]. split; [lia|].
    intros Ho. right. intros rr Hr. by rewrite (Hw Ho) in Hr.
Qed.

(** A mailbox clip that is applied: the change count is the one of the
    disconnect at the first two accesses, and the second is the last before
    the write empties the pasteboard. *)
Lemma apply_mailbox_checked payload m pb m' pb' :
  apply_remote payload true m pb = ((Ok RApplied, m'), pb') ->
  exists baseline count, disconnect_baseline m = Some baseline /\ pb_count (touch pb) = baseline /\
    pb_count (touch (touch pb)) = baseline /\ write payload None (touch (touch pb)) = (Ok (Some count), pb').
Proof.
  unfold apply_remote, p_bind at 1. destruct (disconnect_baseline m) as [baseline|]; [|done].
  unfold p_bind at 1, change_count at 1. unfold p_ret at 1.
  destruct (Z.eqb_spec (pb_count (touch pb)) baseline) as [E1|]; [|done].
  unfold write, p_bind at 1, p_bind at 1, p_bind at 1, change_count at 1. unfold p_ret at 1.
  destruct (Z.eqb_spec baseline (pb_count (touch (touch pb)))) as [E2|]; [|done]. cbn [negb].
  unfold p_bind at 4. unfold p_ret at 4.
  destruct ((_ ←% clear_contents; _) (touch (touch pb))) as [w pb2] eqn:Ew. intros H.
  destruct w as [[count|]|e]; unfold p_ret in H; simplify_eq. exists (pb_count (touch pb)), count. by split_and!.
Qed.
End facts.
