(* ===== verification/MacApp.v ===== *)
(** * The macOS application ([macos/Sources/ClipSyncMacOSKit])

    [AppModel] and [SettingsStore] of [Stores/], [CoreCallbackBridge] and the
    interface [CoreServicing] of [Services/CoreService.swift].

    Everything here runs on the main actor, one handler at a time:
    [app_handle] is one handler, its result is the new state and the calls it
    submits to the core.  A call is answered later, by a handler of its own;
    the answers come in any order.  Between handlers other applications use
    the pasteboard ([Pasteboard]).  Views, the login-item service and logging
    are left out, except for the state they show. *)

From stdpp Require Import sorting.
From S2P Require Import Prelude Fs Interfaces Protocol Crypto History Pairing Session PairingClient Dispatcher.
From S2P Require Import Filter Pasteboard.
From Stdlib Require Import Strings.Byte.

Set Default Goal Selector "!".
#[local] Open Scope clip_scope.

(** ** [SettingsStore] *)

(** [URLComponents] and [trimmingCharacters]. *)
Record url_components := {
  u_scheme : option string; u_host : option string; u_user : option string; u_password : option string; u_url : option string
}.
Class FoundationURL := {
  trimmed : string -> string;
  lowercased : string -> string;
  components : string -> option url_components
}.

(** [UserDefaults] under the three keys. *)
Record Defaults := { df_server_url : option string; df_sync_paused : bool; df_sensitive_rules : option bytes }.

Record SettingsStore := { server_url : string; sync_paused : bool; sensitive_rules : list SensitiveRule }.

Section settings.
Context {FU : FoundationURL} {JS : Json (list SensitiveRule)}.

Definition settings_init (d : Defaults) : SettingsStore :=
  {| server_url := default ""%string (df_server_url d); sync_paused := df_sync_paused d;
     sensitive_rules :=
       match df_sensitive_rules d with
       | Some data => match from_slice data with Ok decoded => decoded | Err _ => [] end
       | None => []
       end |}.

(** The three [didSet] observers: the new settings, and the defaults. *)
Definition set_server_url (url : string) (sd : SettingsStore * Defaults) : SettingsStore * Defaults :=
  ({| server_url := url; sync_paused := sync_paused sd.1; sensitive_rules := sensitive_rules sd.1 |},
   {| df_server_url := Some url; df_sync_paused := df_sync_paused sd.2; df_sensitive_rules := df_sensitive_rules sd.2 |}).
Definition set_sync_paused (b : bool) (sd : SettingsStore * Defaults) : SettingsStore * Defaults :=
  ({| server_url := server_url sd.1; sync_paused := b; sensitive_rules := sensitive_rules sd.1 |},
   {| df_server_url := df_server_url sd.2; df_sync_paused := b; df_sensitive_rules := df_sensitive_rules sd.2 |}).
Definition set_sensitive_rules (rules : list SensitiveRule) (sd : SettingsStore * Defaults) : SettingsStore * Defaults :=
  ({| server_url := server_url sd.1; sync_paused := sync_paused sd.1; sensitive_rules := rules |},
   match to_vec rules with
   | Ok data => {| df_server_url := df_server_url sd.2; df_sync_paused := df_sync_paused sd.2; df_sensitive_rules := Some data |}
   | Err _ => sd.2
   end).

Definition validated_server_url (s : SettingsStore) : result string string :=
  match components (trimmed (server_url s)) with
  | None => Err "Enter a valid wss:// relay URL."
  | Some c =>
      if bool_decide (lowercased <$> u_scheme c = Some "wss"%string) &&
         match u_host c with Some host => negb (bool_decide (host = ""%string)) | None => false end &&
         bool_decide (u_user c = None) && bool_decide (u_password c = None)
      then match u_url c with Some url => Ok url | None => Err "Enter a valid wss:// relay URL." end
      else Err "Enter a valid wss:// relay URL."
  end.
End settings.

(** ** The state of [AppModel] *)

Inductive AppConnectionState :=
| AStarting | AUnpaired | AWaitingForPeer | ASasReady | AConnecting | AConnected | AReconnecting | ADisconnected | AFailed.

#[export] Instance conn_state_eq_dec : EqDecision AppConnectionState.
Proof. solve_decision. Defined.

Inductive HostPairingSnapshot :=
| HUnpaired | HOffering (qr_json : string) | HSasReady (sas : string) | HPaired (room_id : string).

Record ClipboardHistoryEntry := {
  he_id : string; he_ts_ms : Z; he_content : FfiHistoryKind; he_source : FfiHistorySource
}.

(** The extension [ClipboardHistoryEntry.init(_ item: FfiHistoryItem)]. *)
Definition history_entry (item : FfiHistoryItem) : ClipboardHistoryEntry :=
  {| he_id := fh_id item; he_ts_ms := fh_ts_ms item; he_content := fh_kind item; he_source := fh_source item |}.

(** [sorted { $0.tsMs > $1.tsMs }]. *)
Definition newer_first (x y : ClipboardHistoryEntry) : Prop := (he_ts_ms y <= he_ts_ms x)%Z.
#[export] Instance newer_first_dec : RelDecision newer_first := fun x y => Z_le_dec (he_ts_ms y) (he_ts_ms x).

(** What the views show. *)
Record Ui := {
  connection_state : AppConnectionState; status_text : string; is_paired : bool; reset_in_progress : bool;
  last_error : option string; pairing_qr : option string; pairing_code : option string; pairing_sas : option string;
  history : list ClipboardHistoryEntry; history_error : option string; last_intercept_at : option Z
}.

Definition ui_initial : Ui := {|
  connection_state := AStarting; status_text := "Starting..."; is_paired := false; reset_in_progress := false;
  last_error := None; pairing_qr := None; pairing_code := None; pairing_sas := None; history := [];
  history_error := None; last_intercept_at := None |}.

Definition set_state (s : AppConnectionState) (text : string) (u : Ui) : Ui := {|
  connection_state := s; status_text := text; is_paired := is_paired u; reset_in_progress := reset_in_progress u;
  last_error := last_error u; pairing_qr := pairing_qr u; pairing_code := pairing_code u; pairing_sas := pairing_sas u;
  history := history u; history_error := history_error u; last_intercept_at := last_intercept_at u |}.
Definition set_paired (b : bool) (u : Ui) : Ui := {|
  connection_state := connection_state u; status_text := status_text u; is_paired := b; reset_in_progress := reset_in_progress u;
  last_error := last_error u; pairing_qr := pairing_qr u; pairing_code := pairing_code u; pairing_sas := pairing_sas u;
  history := history u; history_error := history_error u; last_intercept_at := last_intercept_at u |}.
Definition set_reset (b : bool) (u : Ui) : Ui := {|
  connection_state := connection_state u; status_text := status_text u; is_paired := is_paired u; reset_in_progress := b;
  last_error := last_error u; pairing_qr := pairing_qr u; pairing_code := pairing_code u; pairing_sas := pairing_sas u;
  history := history u; history_error := history_error u; last_intercept_at := last_intercept_at u |}.
Definition set_status_text (text : string) (u : Ui) : Ui := set_state (connection_state u) text u.
Definition set_last_error (e : option string) (u : Ui) : Ui := {|
  connection_state := connection_state u; status_text := status_text u; is_paired := is_paired u;
  reset_in_progress := reset_in_progress u; last_error := e; pairing_qr := pairing_qr u; pairing_code := pairing_code u;
  pairing_sas := pairing_sas u; history := history u; history_error := history_error u; last_intercept_at := last_intercept_at u |}.
Definition set_pairing (qr code sas : option string) (u : Ui) : Ui := {|
  connection_state := connection_state u; status_text := status_text u; is_paired := is_paired u;
  reset_in_progress := reset_in_progress u; last_error := last_error u; pairing_qr := qr; pairing_code := code;
  pairing_sas := sas; history := history u; history_error := history_error u; last_intercept_at := last_intercept_at u |}.
Definition set_history (h : list ClipboardHistoryEntry) (u : Ui) : Ui := {|
  connection_state := connection_state u; status_text := status_text u; is_paired := is_paired u;
  reset_in_progress := reset_in_progress u; last_error := last_error u; pairing_qr := pairing_qr u;
  pairing_code := pairing_code u; pairing_sas := pairing_sas u; history := h; history_error := history_error u;
  last_intercept_at := last_intercept_at u |}.
Definition set_history_error (e : option string) (u : Ui) : Ui := {|
  connection_state := connection_state u; status_text := status_text u; is_paired := is_paired u;
  reset_in_progress := reset_in_progress u; last_error := last_error u; pairing_qr := pairing_qr u;
  pairing_code := pairing_code u; pairing_sas := pairing_sas u; history := history u; history_error := e;
  last_intercept_at := last_intercept_at u |}.
Definition set_intercept (now : Z) (u : Ui) : Ui := {|
  connection_state := connection_state u; status_text := status_text u; is_paired := is_paired u;
  reset_in_progress := reset_in_progress u; last_error := last_error u; pairing_qr := pairing_qr u;
  pairing_code := pairing_code u; pairing_sas := pairing_sas u; history := history u; history_error := history_error u;
  last_intercept_at := Some now |}.

Definition clear_pairing_presentation : Ui -> Ui := set_pairing None None None.
Definition show_error (message : string) (u : Ui) : Ui := set_state AFailed "Unavailable" (set_last_error (Some message) u).
Definition not_paired (u : Ui) : Ui := set_state AUnpaired "Not paired" u.

(** The calls to [CoreServicing], with what their completion needs. *)
Inductive core_call :=
| CallInitialize | CallPairBegin (url : string) | CallPairPoll | CallPairConfirm (sas : string) | CallPairCancel
| CallHistory | CallHistoryImage (entry : ClipboardHistoryEntry) | CallHistoryApply (id : string) | CallHistoryClear
| CallSend (payload : ClipboardPayload) | CallResetPairing (start_new : bool) | CallShutdown.

Record AppModel := {
  ui : Ui; settings : SettingsStore * Defaults; monitor : PasteboardMonitor; pasteboard : NSPasteboard;
  notifier : Notifier
}.

Definition on_ui (f : Ui -> Ui) (a : AppModel) : AppModel :=
  {| ui := f (ui a); settings := settings a; monitor := monitor a; pasteboard := pasteboard a; notifier := notifier a |}.
Definition set_settings (s : SettingsStore * Defaults) (a : AppModel) : AppModel :=
  {| ui := ui a; settings := s; monitor := monitor a; pasteboard := pasteboard a; notifier := notifier a |}.
Definition set_monitor (m : PasteboardMonitor) (a : AppModel) : AppModel :=
  {| ui := ui a; settings := settings a; monitor := m; pasteboard := pasteboard a; notifier := notifier a |}.
Definition set_pasteboard (pb : NSPasteboard) (a : AppModel) : AppModel :=
  {| ui := ui a; settings := settings a; monitor := monitor a; pasteboard := pb; notifier := notifier a |}.
Definition set_notifier (n : Notifier) (a : AppModel) : AppModel :=
  {| ui := ui a; settings := settings a; monitor := monitor a; pasteboard := pasteboard a; notifier := n |}.

(** What the core answers to a call. *)
Inductive completion :=
| DoneInitialize (r : result bool string) | DonePairBegin (r : result string string) | DonePairPoll (s : HostPairingSnapshot)
| DonePairConfirm (r : result unit string) | DonePairCancel (r : result unit string)
| DoneHistory (r : result (list ClipboardHistoryEntry) string)
| DoneHistoryImage (entry : ClipboardHistoryEntry) (r : result bytes string)
| DoneHistoryApply (r : result unit string) | DoneHistoryClear (r : result unit string)
| DoneSend (r : result Z string) | DoneReset (start_new : bool) (r : result unit string) | DoneShutdown.

Definition answers (c : core_call) (d : completion) : Prop :=
  match c, d with
  | CallInitialize, DoneInitialize _ | CallPairBegin _, DonePairBegin _ | CallPairPoll, DonePairPoll _
  | CallPairConfirm _, DonePairConfirm _ | CallPairCancel, DonePairCancel _ | CallHistory, DoneHistory _
  | CallHistoryApply _, DoneHistoryApply _ | CallHistoryClear, DoneHistoryClear _ | CallSend _, DoneSend _
  | CallShutdown, DoneShutdown => True
  | CallHistoryImage e, DoneHistoryImage e' _ => e = e'
  | CallResetPairing n, DoneReset n' _ => n = n'
  | _, _ => False
  end.

Inductive app_input :=
| ITimer (now : Z)
| IClip (item : FfiClipItem) | IMailboxClip (item : FfiClipItem) | IStatus (status : CoreStatus)
| IBeginPairing | IConfirmPairing | ICancelPairing | IUnpair | IReplacePairedDevice
| IRefreshHistory | IApplyHistory (entry : ClipboardHistoryEntry) | IClearHistory | IShutdown
| ISetServerUrl (url : string) | ISetPaused (b : bool) | ISetRules (rules : list SensitiveRule)
| IComplete (d : completion).

Section app.
Context {RE : RegularExpressions} {FO : Foundation} {FU : FoundationURL} {JS : Json (list SensitiveRule)}.
Context {II : ImageIO} {S256 : Sha256}.
(** [JSONDecoder] on the QR payload: its field [code]. *)
Context (decode_pairing_code : string -> option string).

(** Handlers that only change what is shown, and submit calls. *)
Definition submit (cs : list core_call) (a : AppModel) : AppModel * list core_call := (a, cs).

Definition begin_pairing (a : AppModel) : AppModel * list core_call :=
  match validated_server_url (settings a).1 with
  | Ok url => submit [CallPairBegin url] (on_ui (set_last_error None) a)
  | Err e => submit [] (on_ui (show_error e) a)
  end.

Definition confirm_pairing (a : AppModel) : AppModel * list core_call :=
  match pairing_sas (ui a) with Some sas => submit [CallPairConfirm sas] a | None => submit [] a end.

Definition app_reset_pairing (start_new : bool) (a : AppModel) : AppModel * list core_call :=
  if reset_in_progress (ui a) then submit [] a
  else
    submit [CallResetPairing start_new]
      (on_ui (fun u => set_status_text (if start_new then "Replacing paired device..." else "Removing paired device...")
                         (set_reset true u)) a).

(** [monitor.applyRemote] with the application's pasteboard. *)
Definition run_apply (payload : ClipboardPayload) (mailbox : bool) (a : AppModel) :
    result RemoteApplyResult ClipboardImageError * AppModel :=
  let '((r, m), pb) := apply_remote payload mailbox (monitor a) (pasteboard a) in
  (r, set_pasteboard pb (set_monitor m a)).

Definition apply_history_payload (payload : ClipboardPayload) (entry : ClipboardHistoryEntry) (a : AppModel) :
    AppModel * list core_call :=
  let '(r, a) := run_apply payload false a in
  match r with
  | Err e => submit [] (on_ui (set_history_error (Some (error_description e))) a)
  | Ok _ =>
      let a := on_ui (set_history_error None) a in
      match he_source entry with FhRemoteDeferred => submit [CallHistoryApply (he_id entry)] a | _ => submit [] a end
  end.

Definition apply_history (entry : ClipboardHistoryEntry) (a : AppModel) : AppModel * list core_call :=
  match he_content entry with
  | FhText text => apply_history_payload (PText text) entry a
  | FhImage => submit [CallHistoryImage entry] a
  end.

(** [handleLocalChange], at the instant [now]. *)
Definition handle_local_change (now : Z) (payload : ClipboardPayload) (marked : bool) (a : AppModel) :
    AppModel * list core_call :=
  match evaluate (sync_paused (settings a).1) marked payload (sensitive_rules (settings a).1) with
  | FAllow => submit [CallSend payload] a
  | FBlock IPaused => submit [] a
  | FBlock reason => submit [] (set_notifier (notify (notifier a) now reason).1 (on_ui (set_intercept now) a))
  end.

(** [timerFired], while the timer runs. *)
Definition timer_fired (now : Z) (a : AppModel) : AppModel * list core_call :=
  if negb (timer (monitor a)) then submit [] a
  else
    let '((r, m), pb) := poll (monitor a) (pasteboard a) in
    let a := set_pasteboard pb (set_monitor m a) in
    match r with
    | Err e => submit [] (on_ui (show_error (error_description e)) a)
    | Ok None => submit [] a
    | Ok (Some rr) => handle_local_change now (rr_payload rr) (rr_marked rr) a
    end.

(** [CoreCallbackBridge.onClip] and [onMailboxClip]: what the core gets back,
    the state, and the calls. *)
Definition clipboard_payload (item : FfiClipItem) : result ClipboardPayload ClipboardImageError :=
  match f_content item with FText text => Ok (PText text) | FImage data => image_payload data true end.

Definition receive (mailbox : bool) (item : FfiClipItem) (a : AppModel) :
    result RemoteApplyResult ClipboardImageError * AppModel * list core_call :=
  match clipboard_payload item with
  | Err e => (Err e, a, [])
  | Ok payload =>
      let '(r, a) := run_apply payload mailbox a in
      match r with Err e => (Err e, a, []) | Ok d => (Ok d, a, [CallHistory]) end
  end.

Definition on_clip (item : FfiClipItem) (a : AppModel) : result unit ClipboardImageError * AppModel * list core_call :=
  let '(r, a, cs) := receive false item a in (match r with Ok _ => Ok tt | Err e => Err e end, a, cs).

Definition on_mailbox_clip (item : FfiClipItem) (a : AppModel) :
    result FfiMailboxDisposition ClipboardImageError * AppModel * list core_call :=
  let '(r, a, cs) := receive true item a in
  (match r with Ok RApplied => Ok FApplied | Ok RDeferred => Ok FDeferred | Err e => Err e end, a, cs).

Definition run_disconnected (a : AppModel) : AppModel :=
  let '(m, pb) := mark_disconnected (monitor a) (pasteboard a) in set_pasteboard pb (set_monitor m a).

Definition receive_status (status : CoreStatus) (a : AppModel) : AppModel * list core_call :=
  match status with
  | ReadyUnpaired =>
      match connection_state (ui a) with
      | AWaitingForPeer | ASasReady => submit [] a
      | _ => submit [] (on_ui (fun u => not_paired (clear_pairing_presentation (set_paired false u))) a)
      end
  | StOffering => submit [] (on_ui (set_state AWaitingForPeer "Waiting for phone") a)
  | StSasReady => submit [CallPairPoll] (on_ui (set_state ASasReady "Confirm security code") a)
  | Connecting => submit [] (on_ui (fun u => set_state AConnecting "Connecting..." (set_paired true u)) a)
  | StConnected =>
      let a := set_monitor (mark_connected (monitor a)) a in
      submit [CallHistory]
        (on_ui (fun u => set_last_error None (set_state AConnected "Connected"
                           (clear_pairing_presentation (set_paired true u)))) a)
  | Reconnecting => submit [] (on_ui (set_state AReconnecting "Reconnecting...") (run_disconnected a))
  | Disconnected => submit [] (on_ui (set_state ADisconnected "Disconnected") (run_disconnected a))
  | StError message => submit [] (on_ui (show_error message) a)
  end.

(** The completion handlers. *)
Definition complete (d : completion) (a : AppModel) : AppModel * list core_call :=
  match d with
  | DoneInitialize (Ok paired) =>
      submit [] (on_ui (fun u => if paired then set_paired true u else not_paired (set_paired false u)) a)
  | DonePairBegin (Ok qr) =>
      submit [] (on_ui (fun u => set_state AWaitingForPeer "Waiting for phone"
                                   (set_pairing (Some qr) (decode_pairing_code qr) None u)) a)
  | DonePairConfirm (Ok _) => submit [] (on_ui (fun u => set_state AConnecting "Connecting..." (set_paired true u)) a)
  | DonePairCancel (Ok _) => submit [] (on_ui (fun u => not_paired (clear_pairing_presentation u)) a)
  | DoneReset start_new r =>
      let a := on_ui (set_reset false) a in
      match r with
      | Err e => submit [] (on_ui (show_error e) a)
      | Ok _ =>
          let a := on_ui (fun u => set_last_error None (not_paired (clear_pairing_presentation (set_paired false u)))) a in
          if start_new then begin_pairing a else submit [] a
      end
  | DonePairPoll s =>
      submit [] (on_ui (fun u =>
        match s with
        | HSasReady sas => set_state ASasReady "Confirm security code" (set_pairing (pairing_qr u) (pairing_code u) (Some sas) u)
        | HOffering qr => set_pairing (Some qr) (decode_pairing_code qr) (pairing_sas u) u
        | HUnpaired => not_paired (clear_pairing_presentation u)
        | HPaired _ => set_state AConnecting "Connecting..." (set_paired true u)
        end) a)
  | DoneHistory (Ok items) =>
      submit [] (on_ui (fun u => set_history_error None
        (set_history (merge_sort newer_first items) u)) a)
  | DoneHistoryImage entry (Ok data) =>
      match image_payload data true with
      | Ok payload => apply_history_payload payload entry a
      | Err e => submit [] (on_ui (set_history_error (Some (error_description e))) a)
      end
  | DoneHistoryApply (Ok _) => submit [CallHistory] a
  | DoneHistoryClear (Ok _) => submit [] (on_ui (fun u => set_history_error None (set_history [] u)) a)
  | DoneSend (Ok _) => submit [CallHistory] a
  | DoneHistory (Err e) | DoneHistoryImage _ (Err e) | DoneHistoryApply (Err e) | DoneHistoryClear (Err e) =>
      submit [] (on_ui (set_history_error (Some e)) a)
  | DoneInitialize (Err e) | DonePairBegin (Err e) | DonePairConfirm (Err e) | DonePairCancel (Err e) | DoneSend (Err e) =>
      submit [] (on_ui (show_error e) a)
  | DoneShutdown => submit [] a
  end.

Definition app_handle (i : app_input) (a : AppModel) : AppModel * list core_call :=
  match i with
  | ITimer now => timer_fired now a
  | IClip item => let '(_, a, cs) := on_clip item a in (a, cs)
  | IMailboxClip item => let '(_, a, cs) := on_mailbox_clip item a in (a, cs)
  | IStatus status => receive_status status a
  | IBeginPairing => begin_pairing a
  | IConfirmPairing => confirm_pairing a
  | ICancelPairing => submit [CallPairCancel] a
  | IUnpair => app_reset_pairing false a
  | IReplacePairedDevice => app_reset_pairing true a
  | IRefreshHistory => submit [CallHistory] a
  | IApplyHistory entry => apply_history entry a
  | IClearHistory => submit [CallHistoryClear] a
  | IShutdown => submit [CallShutdown] (set_monitor (monitor_stop (monitor a)) a)
  | ISetServerUrl url => submit [] (set_settings (set_server_url url (settings a)) a)
  | ISetPaused b => submit [] (set_settings (set_sync_paused b (settings a)) a)
  | ISetRules rules => submit [] (set_settings (set_sensitive_rules rules (settings a)) a)
  | IComplete d => complete d a
  end.

(** [AppModel.init]. *)
Definition app_init (d : Defaults) (window : Z) (start_monitoring : bool) (pb : NSPasteboard) : AppModel * list core_call :=
  let '(m, pb) := monitor_init pb in
  ({| ui := ui_initial; settings := (settings_init d, d); monitor := if start_monitoring then monitor_start m else m;
      pasteboard := pb; notifier := notifier_new window |}, [CallInitialize]).

(** ** Runs *)

Record app_sys := { s_app : AppModel; s_outstanding : list core_call }.

Inductive app_step : app_sys -> app_sys -> Prop :=
| step_input i s a cs :
    (forall d, i <> IComplete d) -> app_handle i (s_app s) = (a, cs) ->
    app_step s {| s_app := a; s_outstanding := s_outstanding s ++ cs |}
| step_complete k c d s a cs :
    s_outstanding s !! k = Some c -> answers c d -> app_handle (IComplete d) (s_app s) = (a, cs) ->
    app_step s {| s_app := a; s_outstanding := delete k (s_outstanding s) ++ cs |}
| step_others script s :
    app_step s {| s_app := set_pasteboard
                    {| pb_count := pb_count (pasteboard (s_app s)); pb_content := pb_content (pasteboard (s_app s));
                       pb_ours := pb_ours (pasteboard (s_app s)); pb_script := script |} (s_app s);
                  s_outstanding := s_outstanding s |}.

Definition app_start (d : Defaults) (window : Z) (start_monitoring : bool) (pb : NSPasteboard) : app_sys :=
  let '(a, cs) := app_init d window start_monitoring pb in {| s_app := a; s_outstanding := cs |}.

(** ** Only allowed local copies are sent *)

Definition app_inv (a : AppModel) : Prop := mon_inv (monitor a) (pasteboard a).

Lemma clipboard_payload_stable item payload : clipboard_payload item = Ok payload -> stable payload.
Proof.
  unfold clipboard_payload. destruct (f_content item) as [text|data]; [by intros [= <-]|apply image_payload_stable].
Qed.

Lemma run_apply_inv payload mailbox a r a' :
  stable payload -> app_inv a -> run_apply payload mailbox a = (r, a') -> app_inv a' /\ settings a' = settings a /\ ui a' = ui a.
Proof.
  intros Hst Hi. unfold run_apply. destruct (apply_remote _ _ _ _) as [[r0 m] pb] eqn:E.
  apply apply_remote_facts in E as (Hm & _); [|done|done]. by intros [= <- <-].
Qed.

Lemma apply_history_payload_inv payload entry a a' cs :
  stable payload -> app_inv a -> apply_history_payload payload entry a = (a', cs) ->
  app_inv a' /\ (forall p, CallSend p ∉ cs) /\ (forall n, CallResetPairing n ∉ cs) /\
  reset_in_progress (ui a') = reset_in_progress (ui a).
Proof.
  intros Hst Hi. unfold apply_history_payload. destruct (run_apply payload false a) as [r a1] eqn:E.
  apply run_apply_inv in E as (H1 & _ & Hu); [|done|done]. unfold submit.
  destruct r as [d|e]; [destruct (he_source entry)|]; intros [= <- <-]; simpl; rewrite Hu; split_and!; try done; set_solver.
Qed.

Lemma receive_inv mailbox item a r a' cs :
  app_inv a -> receive mailbox item a = (r, a', cs) ->
  app_inv a' /\ ui a' = ui a /\ (cs = [] \/ cs = [CallHistory]).
Proof.
  intros Hi. unfold receive. destruct (clipboard_payload item) as [payload|] eqn:Ep; [|intros [= <- <- <-]; auto].
  apply clipboard_payload_stable in Ep. destruct (run_apply payload mailbox a) as [r1 a1] eqn:E.
  apply run_apply_inv in E as (H1 & _ & Hu); [|done|done]. destruct r1; intros [= <- <- <-]; auto.
Qed.

(** What one handler does to the invariant, the sends and the resets. *)
Record handler_ok (i : app_input) (a a' : AppModel) (cs : list core_call) : Prop := {
  ho_inv : app_inv a';
  ho_send : forall p, CallSend p ∈ cs -> exists now rr,
    i = ITimer now /\ p = rr_payload rr /\ pb_ours (pasteboard a') = false /\
    (steady (pasteboard a) -> content_result (pb_content (pasteboard a')) = Ok (Some rr)) /\
    evaluate (sync_paused (settings a).1) (rr_marked rr) p (sensitive_rules (settings a).1) = FAllow
}.

Lemma handler_ok_quiet i a a' cs : app_inv a' -> (forall p, CallSend p ∉ cs) -> handler_ok i a a' cs.
Proof. intros H1 H2. split; [done|]. intros p Hp. by destruct (H2 p). Qed.

Ltac quiet := apply handler_ok_quiet; [done|set_solver].

Lemma begin_pairing_quiet i a0 a a' cs : app_inv a -> begin_pairing a = (a', cs) -> handler_ok i a0 a' cs.
Proof. intros Hi. unfold begin_pairing, submit. destruct (validated_server_url _); intros [= <- <-]; quiet. Qed.

Lemma timer_fired_ok now a a' cs : app_inv a -> timer_fired now a = (a', cs) -> handler_ok (ITimer now) a a' cs.
Proof.
  intros Hi. unfold timer_fired, submit. destruct (timer (monitor a)); simpl; [|intros [= <- <-]; quiet].
  destruct (poll _ _) as [[r m] pb] eqn:E. apply poll_foreign in E as (Hm & _ & _ & _ & Hr); [|done].
  destruct r as [[rr|]|e]; [|intros [= <- <-]; quiet..]. unfold handle_local_change, submit. simpl.
  destruct (evaluate _ _ _ _) as [|reason] eqn:Ev; [|destruct reason; intros [= <- <-]; quiet].
  intros [= <- <-]. split; [done|]. intros p Hp. assert (p = rr_payload rr) as -> by set_solver.
  exists now, rr. destruct (Hr rr eq_refl). auto.
Qed.

Lemma complete_ok d a a' cs : app_inv a -> complete d a = (a', cs) -> handler_ok (IComplete d) a a' cs.
Proof.
  intros Hi. unfold complete, submit.
  destruct d as [[]|[]|s|[]|[]|[]|entry [data|]|[]|[]|[]|start_new [u|]|]; try (intros [= <- <-]; quiet).
  - destruct (image_payload data true) as [payload|e] eqn:Ep; [|intros [= <- <-]; quiet]. intros E.
    apply apply_history_payload_inv in E as (H1 & H2 & _); [|by eapply image_payload_stable|done]. by apply handler_ok_quiet.
  - destruct start_new; [|intros [= <- <-]; quiet]. by apply begin_pairing_quiet.
Qed.

Lemma receive_status_ok status a a' cs :
  app_inv a -> receive_status status a = (a', cs) -> handler_ok (IStatus status) a a' cs.
Proof.
  intros Hi. assert (app_inv (run_disconnected a)) as Hd.
  { unfold run_disconnected, mark_disconnected, p_bind, change_count, p_ret, app_inv. simpl.
    apply mon_inv_baseline. eapply mon_inv_later; [apply touch_later|done]. }
  unfold receive_status, submit. destruct status; try (intros [= <- <-]; quiet).
  - destruct (connection_state (ui a)); intros [= <- <-]; quiet.
  - intros [= <- <-]. apply handler_ok_quiet; [by apply mon_inv_baseline|set_solver].
Qed.

Lemma app_handle_ok i a a' cs : app_inv a -> app_handle i a = (a', cs) -> handler_ok i a a' cs.
Proof.
  intros Hi. destruct i as [now|item|item|status| | | | | | |entry| | |url|b|rules|d]; simpl; unfold submit;
    try (intros [= <- <-]; quiet).
  - by apply timer_fired_ok.
  - unfold on_clip. destruct (receive _ _ _) as [[r a1] cs1] eqn:E. apply receive_inv in E as (H1 & _ & H2); [|done].
    intros [= <- <-]. apply handler_ok_quiet; [done|]. destruct H2 as [-> | ->]; set_solver.
  - unfold on_mailbox_clip. destruct (receive _ _ _) as [[r a1] cs1] eqn:E. apply receive_inv in E as (H1 & _ & H2); [|done].
    intros [= <- <-]. apply handler_ok_quiet; [done|]. destruct H2 as [-> | ->]; set_solver.
  - by apply receive_status_ok.
  - by apply begin_pairing_quiet.
  - unfold confirm_pairing, submit. destruct (pairing_sas (ui a)); intros [= <- <-]; quiet.
  - unfold app_reset_pairing, submit. destruct (reset_in_progress (ui a)); intros [= <- <-]; quiet.
  - unfold app_reset_pairing, submit. destruct (reset_in_progress (ui a)); intros [= <- <-]; quiet.
  - unfold apply_history, submit. destruct (he_content entry); [|intros [= <- <-]; quiet]. intros E.
    apply apply_history_payload_inv in E as (H1 & H2 & _); [|done|done]. by apply handler_ok_quiet.
  - intros [= <- <-]. apply handler_ok_quiet; [by apply mon_inv_timer|set_solver].
  - by apply complete_ok.
Qed.

Lemma app_step_inv s s' : app_step s s' -> app_inv (s_app s) -> app_inv (s_app s').
Proof.
  intros Hstep IH. destruct Hstep as [i s a cs _ E|k c d0 s a cs _ _ E|script s]; simpl.
  - by apply (app_handle_ok _ _ _ _ IH) in E as [? _].
  - by apply (app_handle_ok _ _ _ _ IH) in E as [? _].
  - destruct IH as [H1 H2]. by split.
Qed.

Lemma app_inv_reachable d window start pb s : rtc app_step (app_start d window start pb) s -> app_inv (s_app s).
Proof.
  intros Hrun. eapply (rtc_ind_r (fun s => app_inv (s_app s))); [|intros; by eapply app_step_inv|exact Hrun].
  unfold app_start, app_init, monitor_init, p_bind, change_count, p_ret, app_inv. simpl.
  assert (forall m pb, observed_change_count m = pb_count pb -> mon_inv m pb) as H by (intros m p E; split; [lia|auto]).
  destruct start; by apply H.
Qed.

(** C13. What the macOS application hands to the core for sending is, in
    every run and whatever other applications do to the pasteboard meanwhile,
    a copy made by another application, never a clip ClipSync wrote itself
    (remote clips and history items do not echo); the filter let it out under
    the settings of that moment and the marker read together with it: syncing
    is not paused, the copy is not marked, no secret was found in it (in a
    text of ASCII characters: none stands in it) and no rule of the user
    matches; and when the other application fills the pasteboard in one
    go, it is what stands there. *)
Theorem mac_sends_only_allowed_copies d window start pb s i a cs payload :
  rtc app_step (app_start d window start pb) s -> app_handle i (s_app s) = (a, cs) -> CallSend payload ∈ cs ->
  exists now rr, i = ITimer now /\ payload = rr_payload rr /\ pb_ours (pasteboard a) = false /\
    (steady (pasteboard (s_app s)) -> content_result (pb_content (pasteboard a)) = Ok (Some rr)) /\
    found_to_leave (sync_paused (settings (s_app s)).1) (rr_marked rr) payload
      (sensitive_rules (settings (s_app s)).1) /\
    (ascii_payload payload = true ->
       may_leave (sync_paused (settings (s_app s)).1) (rr_marked rr) payload (sensitive_rules (settings (s_app s)).1)).
Proof.
  intros Hr E Hp. apply app_inv_reachable in Hr. destruct (app_handle_ok _ _ _ _ Hr E) as [_ Hsend].
  destruct (Hsend payload Hp) as (now & rr & -> & -> & Ho & Hc & Hev). exists now, rr.
  apply evaluate_allow in Hev. split_and!; try done. intros Ha. by apply found_ascii.
Qed.

(** ** Mailbox clips spare local copies *)

Lemma run_apply_count payload mailbox a r a' :
  stable payload -> app_inv a -> run_apply payload mailbox a = (r, a') -> (pb_count (pasteboard a) <= pb_count (pasteboard a'))%Z.
Proof.
  intros Hst Hi. unfold run_apply. destruct (apply_remote _ _ _ _) as [[r0 m] pb] eqn:E.
  apply apply_remote_facts in E as (_ & H & _); [|done|done]. by intros [= <- <-].
Qed.

Lemma apply_history_payload_count payload entry a a' cs :
  stable payload -> app_inv a -> apply_history_payload payload entry a = (a', cs) ->
  (pb_count (pasteboard a) <= pb_count (pasteboard a'))%Z.
Proof.
  intros Hst Hi. unfold apply_history_payload, submit. destruct (run_apply payload false a) as [r a1] eqn:E.
  apply run_apply_count in E; [|done|done]. destruct r; [destruct (he_source entry)|]; by intros [= <- <-].
Qed.

Lemma receive_count mailbox item a r a' cs :
  app_inv a -> receive mailbox item a = (r, a', cs) -> (pb_count (pasteboard a) <= pb_count (pasteboard a'))%Z.
Proof.
  intros Hi. unfold receive. destruct (clipboard_payload item) as [payload|] eqn:Ep; [|by intros [= <- <- <-]].
  apply clipboard_payload_stable in Ep. destruct (run_apply payload mailbox a) as [r1 a1] eqn:E.
  apply run_apply_count in E; [|done|done]. destruct r1; by intros [= <- <- <-].
Qed.

(** The change count never goes back. *)
Lemma app_handle_count i a a' cs :
  app_inv a -> app_handle i a = (a', cs) -> (pb_count (pasteboard a) <= pb_count (pasteboard a'))%Z.
Proof.
  intros Hi. destruct i as [now|item|item|status| | | | | | |entry| | |url|b|rules|d]; simpl; unfold submit; try by intros [= <- <-].
  - unfold timer_fired, submit. destruct (timer (monitor a)); simpl; [|by intros [= <- <-]].
    destruct (poll _ _) as [[r m] pb] eqn:E. apply poll_foreign in E as (_ & L & _); [|done]. apply l_count in L.
    destruct r as [[rr|]|e]; [|by intros [= <- <-]..]. unfold handle_local_change, submit. simpl.
    destruct (evaluate _ _ _ _) as [|reason]; [by intros [= <- <-]|]. by destruct reason; intros [= <- <-].
  - unfold on_clip. destruct (receive _ _ _) as [[r a1] cs1] eqn:E. apply receive_count in E; [|done]. by intros [= <- <-].
  - unfold on_mailbox_clip. destruct (receive _ _ _) as [[r a1] cs1] eqn:E. apply receive_count in E; [|done].
    by intros [= <- <-].
  - unfold receive_status, submit. pose proof (l_count _ _ (touch_later (pasteboard a))).
    destruct status; try by intros [= <- <-]. by destruct (connection_state (ui a)); intros [= <- <-].
  - unfold begin_pairing, submit. by destruct (validated_server_url _); intros [= <- <-].
  - unfold confirm_pairing, submit. by destruct (pairing_sas (ui a)); intros [= <- <-].
  - unfold app_reset_pairing, submit. by destruct (reset_in_progress (ui a)); intros [= <- <-].
  - unfold app_reset_pairing, submit. by destruct (reset_in_progress (ui a)); intros [= <- <-].
  - unfold apply_history, submit. destruct (he_content entry); [|by intros [= <- <-]]. by apply apply_history_payload_count.
  - unfold complete, submit.
    destruct d as [[]|[]|s|[]|[]|[]|entry [data|]|[]|[]|[]|start_new [u|]|]; try by intros [= <- <-].
    + destruct (image_payload data true) as [payload|e] eqn:Ep; [|by intros [= <- <-]].
      apply apply_history_payload_count; [by eapply image_payload_stable|done].
    + destruct start_new; [|by intros [= <- <-]]. unfold begin_pairing, submit.
      by destruct (validated_server_url _); intros [= <- <-].
Qed.

(** A step that does not move the baseline of the last disconnect. *)
Definition same_baseline (s s' : app_sys) : Prop :=
  app_step s s' /\ disconnect_baseline (monitor (s_app s')) = disconnect_baseline (monitor (s_app s)).

Lemma same_baseline_run s s' :
  rtc same_baseline s s' -> app_inv (s_app s) ->
  app_inv (s_app s') /\ (pb_count (pasteboard (s_app s)) <= pb_count (pasteboard (s_app s')))%Z /\
  disconnect_baseline (monitor (s_app s')) = disconnect_baseline (monitor (s_app s)).
Proof.
  induction 1 as [s|s s1 s' [Hstep Hb] _ IH]; intros Hi; [done|].
  pose proof (app_step_inv _ _ Hstep Hi) as Hi1. destruct (IH Hi1) as (H1 & H2 & H3).
  split_and!; [done| |congruence].
  assert (pb_count (pasteboard (s_app s)) <= pb_count (pasteboard (s_app s1)))%Z; [|lia].
  destruct Hstep as [i s a cs _ E|k c d s a cs _ _ E|script s]; cbn [s_app];
    [eapply app_handle_count; [|exact E]; done..|done].
Qed.


(** ** Resets *)

Definition is_reset (c : core_call) : bool := match c with CallResetPairing _ => true | _ => false end.
Definition resets (cs : list core_call) : nat := length (filter (fun c => is_reset c = true) cs).

Lemma resets_app cs cs' : resets (cs ++ cs') = resets cs + resets cs'.
Proof. unfold resets. by rewrite filter_app, length_app. Qed.

Lemma resets_delete k cs c : cs !! k = Some c -> resets cs = resets (delete k cs) + resets [c].
Proof.
  intros Hk. rewrite <- (take_drop_middle _ _ _ Hk) at 1. rewrite delete_take_drop, !resets_app.
  change (c :: drop (S k) cs) with ([c] ++ drop (S k) cs). rewrite resets_app. lia.
Qed.

Lemma run_apply_shown payload mailbox a : ui (run_apply payload mailbox a).2 = ui a /\ settings (run_apply payload mailbox a).2 = settings a.
Proof. unfold run_apply. by destruct (apply_remote _ _ _ _) as [[r m] pb]. Qed.

Lemma apply_history_payload_shown payload entry a :
  let out := apply_history_payload payload entry a in
  resets out.2 = 0 /\ reset_in_progress (ui out.1) = reset_in_progress (ui a) /\ settings out.1 = settings a.
Proof.
  unfold apply_history_payload, submit. pose proof (run_apply_shown payload false a) as [Hu Hs].
  destruct (run_apply payload false a) as [r a1]. simpl in Hu, Hs.
  destruct r; [destruct (he_source entry)|]; simpl; by rewrite Hu, Hs.
Qed.

Lemma receive_shown mailbox item a :
  let out := receive mailbox item a in resets out.2 = 0 /\ ui out.1.2 = ui a /\ settings out.1.2 = settings a.
Proof.
  unfold receive. destruct (clipboard_payload item) as [payload|]; [|done].
  pose proof (run_apply_shown payload mailbox a) as [Hu Hs]. destruct (run_apply payload mailbox a) as [r a1].
  by destruct r.
Qed.

Lemma begin_pairing_shown a :
  let out := begin_pairing a in
  resets out.2 = 0 /\ reset_in_progress (ui out.1) = reset_in_progress (ui a) /\ settings out.1 = settings a.
Proof. unfold begin_pairing, submit. by destruct (validated_server_url _). Qed.

(** What one handler does to the flag. *)
Lemma app_handle_reset i a :
  let out := app_handle i a in
  match i with
  | IComplete (DoneReset _ _) => resets out.2 = 0 /\ reset_in_progress (ui out.1) = false
  | _ => resets out.2 = 0 /\ reset_in_progress (ui out.1) = reset_in_progress (ui a) \/
         resets out.2 = 1 /\ reset_in_progress (ui a) = false /\ reset_in_progress (ui out.1) = true
  end.
Proof.
  destruct i as [now|item|item|status| | | | | | |entry| | |url|b|rules|d]; cbn [app_handle]; try by left.
  - left. unfold timer_fired, submit. destruct (timer (monitor a)); [|done]. cbn [negb].
    destruct (poll _ _) as [[r m] pb]. destruct r as [[rr|]|e]; [|done..]. unfold handle_local_change, submit.
    by destruct (evaluate _ _ _ _) as [|[]].
  - left. unfold on_clip. destruct (receive_shown false item a) as (H1 & H2 & _).
    destruct (receive false item a) as [[r a1] cs]. simpl in *. by rewrite H2.
  - left. unfold on_mailbox_clip. destruct (receive_shown true item a) as (H1 & H2 & _).
    destruct (receive true item a) as [[r a1] cs]. simpl in *. by rewrite H2.
  - left. unfold receive_status, submit. destruct status; try done. by destruct (connection_state (ui a)).
  - left. by destruct (begin_pairing_shown a) as (? & ? & _).
  - left. unfold confirm_pairing, submit. by destruct (pairing_sas (ui a)).
  - unfold app_reset_pairing, submit. destruct (reset_in_progress (ui a)) eqn:E; [by left|by right].
  - unfold app_reset_pairing, submit. destruct (reset_in_progress (ui a)) eqn:E; [by left|by right].
  - left. unfold apply_history. destruct (he_content entry); [|done]. by destruct (apply_history_payload_shown (PText content) entry a) as (? & ? & _).
  - unfold complete, submit.
    destruct d as [[paired|]|[]|s|[]|[]|[]|entry [data|]|[]|[]|[]|start_new [u|]|]; try by left.
    + left. simpl. by destruct paired.
    + left. simpl. by destruct s.
    + left. destruct (image_payload data true) as [payload|]; [|done]. by destruct (apply_history_payload_shown payload entry a) as (? & ? & _).
    + cbv zeta. destruct start_new; [|done].
      match goal with |- context [begin_pairing ?x] => by destruct (begin_pairing_shown x) as (H1 & H2 & _) end.
    + done.
Qed.

Definition reset_inv (s : app_sys) : Prop :=
  resets (s_outstanding s) = if reset_in_progress (ui (s_app s)) then 1 else 0.

Lemma reset_inv_step s s' : app_step s s' -> reset_inv s -> reset_inv s'.
Proof.
  intros Hstep Hi. unfold reset_inv in *. destruct Hstep as [i s a cs Hn E|k c d s a cs Hk Ha E|script s]; simpl; [| |done].
  - pose proof (app_handle_reset i (s_app s)) as H. rewrite E in H. rewrite resets_app, Hi.
    destruct i; try (destruct H as [[H1 H2]|(H1 & H2 & H3)]; simpl in *; [by rewrite H1, H2, Nat.add_0_r|by rewrite H1, H2, H3]).
    by destruct (Hn d).
  - pose proof (app_handle_reset (IComplete d) (s_app s)) as H. rewrite E in H. rewrite (resets_delete _ _ _ Hk) in Hi.
    rewrite resets_app. destruct d; destruct c; try done;
      try (destruct H as [[H1 H2]|(H1 & H2 & H3)]; simpl in *; [rewrite H1, H2|rewrite H1, H3; rewrite H2 in Hi]; change (resets [_]) with 0 in Hi; lia).
    destruct H as [H1 H2]. simpl in *. rewrite H1, H2. change (resets [_]) with 1 in Hi.
    destruct (reset_in_progress (ui (s_app s))); lia.
Qed.

Lemma reset_inv_reachable d window start pb s : rtc app_step (app_start d window start pb) s -> reset_inv s.
Proof.
  intros Hrun. eapply rtc_ind_r; [|intros; by eapply reset_inv_step|exact Hrun].
  unfold app_start, app_init, monitor_init, p_bind, p_ret. by destruct start.
Qed.

(** Unpairing and replacing the device are single flight: in every run
    at most one reset of the pairing is waiting for the core, exactly while
    the flag that disables the buttons is set, and whatever the core answers
    clears the flag. *)
Theorem reset_single_flight d window start pb s :
  rtc app_step (app_start d window start pb) s ->
  resets (s_outstanding s) = (if reset_in_progress (ui (s_app s)) then 1 else 0) /\
  forall start_new r, reset_in_progress (ui (app_handle (IComplete (DoneReset start_new r)) (s_app s)).1) = false.
Proof.
  intros Hrun. split; [|intros start_new r; by destruct (app_handle_reset (IComplete (DoneReset start_new r)) (s_app s))].
  by apply (reset_inv_reachable d window start pb).
Qed.

(** ** The calls come to an end *)

(** The calls a call may cause, itself included: the history after a sent
    clip, a new offer after a reset, the promotion and the history after an
    image of the history. *)
Definition weight (c : core_call) : nat :=
  match c with CallHistoryImage _ => 3 | CallSend _ | CallResetPairing _ | CallHistoryApply _ => 2 | _ => 1 end.
Definition weights (cs : list core_call) : nat := sum_list_with weight cs.

(** The core answers one of the calls. *)
Inductive completes : app_sys -> app_sys -> Prop :=
| completes_one k c d s :
    s_outstanding s !! k = Some c -> answers c d ->
    completes s {| s_app := (app_handle (IComplete d) (s_app s)).1;
                   s_outstanding := delete k (s_outstanding s) ++ (app_handle (IComplete d) (s_app s)).2 |}.

Lemma completes_step s s' : completes s s' -> app_step s s'.
Proof. intros [k c d s0 Hk Ha]. eapply step_complete; [done|done|apply surjective_pairing]. Qed.

Lemma apply_history_payload_weight payload entry a : weights (apply_history_payload payload entry a).2 <= 2.
Proof.
  unfold apply_history_payload, submit. destruct (run_apply payload false a) as [r a1].
  destruct r; [destruct (he_source entry)|]; simpl; lia.
Qed.

Lemma begin_pairing_weight a : weights (begin_pairing a).2 <= 1.
Proof. unfold begin_pairing, submit. destruct (validated_server_url _); simpl; lia. Qed.

Lemma complete_weight c d a : answers c d -> weights (app_handle (IComplete d) a).2 < weight c.
Proof.
  intros Ha. destruct d as [[]|[]|s|[]|[]|[]|entry [data|]|[]|[]|[]|start_new [u|]|]; destruct c; try done; simpl; try lia.
  - destruct (image_payload data true) as [payload|]; [|simpl; lia]. pose proof (apply_history_payload_weight payload entry a). lia.
  - destruct start_new; [|simpl; lia].
    match goal with |- context [begin_pairing ?x] => pose proof (begin_pairing_weight x) end. lia.
Qed.

Lemma completes_weight s s' : completes s s' -> weights (s_outstanding s') < weights (s_outstanding s).
Proof.
  intros [k c d s0 Hk Ha]. simpl. pose proof (complete_weight c d (s_app s0) Ha) as Hw. unfold weights in *.
  rewrite <- (take_drop_middle _ _ _ Hk) at 2. rewrite delete_take_drop, !sum_list_with_app. simpl in *. lia.
Qed.

(** Every call can be answered: the answer of a core that is not ready. *)
Definition refusal (c : core_call) : completion :=
  let e := "Core is not ready."%string in
  match c with
  | CallInitialize => DoneInitialize (Err e) | CallPairBegin _ => DonePairBegin (Err e) | CallPairPoll => DonePairPoll HUnpaired
  | CallPairConfirm _ => DonePairConfirm (Err e) | CallPairCancel => DonePairCancel (Err e) | CallHistory => DoneHistory (Err e)
  | CallHistoryImage entry => DoneHistoryImage entry (Err e) | CallHistoryApply _ => DoneHistoryApply (Err e)
  | CallHistoryClear => DoneHistoryClear (Err e) | CallSend _ => DoneSend (Err e)
  | CallResetPairing n => DoneReset n (Err e) | CallShutdown => DoneShutdown
  end.

Lemma refusal_answers c : answers c (refusal c).
Proof. by destruct c. Qed.

(** C26. The conversation with the core ends.  However the core answers, and
    in whatever order, a run of answers is no longer than the weight of the
    calls waiting at its start; as long as a call waits, an answer is
    possible; and when none waits, the buttons for unpairing are enabled
    again. *)
Theorem calls_terminate d window start pb s n s' :
  rtc app_step (app_start d window start pb) s -> nsteps completes n s s' ->
  n + weights (s_outstanding s') <= weights (s_outstanding s) /\
  (s_outstanding s' <> [] -> exists s'', completes s' s'') /\
  (s_outstanding s' = [] -> reset_in_progress (ui (s_app s')) = false).
Proof.
  intros Hrun Hn. split_and!.
  - clear Hrun. induction Hn as [s|n s s1 s' Hs _ IH]; [lia|]. apply completes_weight in Hs. lia.
  - destruct (s_outstanding s') as [|c cs] eqn:E; [done|]. intros _. eexists. apply (completes_one 0 c (refusal c)); [by rewrite E|].
    apply refusal_answers.
  - intros E. assert (reset_inv s') as Hi.
    { apply (reset_inv_reachable d window start pb). etrans; [exact Hrun|]. clear -Hn.
      induction Hn as [s|n s s1 s' Hs _ IH]; [done|]. by eapply rtc_l; [apply completes_step|]. }
    unfold reset_inv in Hi. rewrite E in Hi. by destruct (reset_in_progress _).
Qed.

(** ** Settings survive a relaunch *)

Definition settings_saved (a : AppModel) : Prop := settings_init (settings a).2 = (settings a).1.

Lemma app_handle_settings i a :
  let out := app_handle i a in
  settings out.1 = match i with
                   | ISetServerUrl url => set_server_url url (settings a)
                   | ISetPaused b => set_sync_paused b (settings a)
                   | ISetRules rules => set_sensitive_rules rules (settings a)
                   | _ => settings a
                   end.
Proof.
  destruct i as [now|item|item|status| | | | | | |entry| | |url|b|rules|d]; cbn [app_handle]; try done.
  - unfold timer_fired, submit. destruct (timer (monitor a)); [|done]. cbn [negb].
    destruct (poll _ _) as [[r m] pb]. destruct r as [[rr|]|e]; [|done..]. unfold handle_local_change, submit.
    by destruct (evaluate _ _ _ _) as [|[]].
  - unfold on_clip. destruct (receive_shown false item a) as (_ & _ & H). by destruct (receive false item a) as [[r a1] cs].
  - unfold on_mailbox_clip. destruct (receive_shown true item a) as (_ & _ & H). by destruct (receive true item a) as [[r a1] cs].
  - unfold receive_status, submit. destruct status; try done. by destruct (connection_state (ui a)).
  - by destruct (begin_pairing_shown a) as (_ & _ & ?).
  - unfold confirm_pairing, submit. by destruct (pairing_sas (ui a)).
  - unfold app_reset_pairing, submit. by destruct (reset_in_progress (ui a)).
  - unfold app_reset_pairing, submit. by destruct (reset_in_progress (ui a)).
  - unfold apply_history. destruct (he_content entry); [|done]. by destruct (apply_history_payload_shown (PText content) entry a) as (_ & _ & ?).
  - unfold complete, submit. destruct d as [[]|[]|s|[]|[]|[]|entry [data|]|[]|[]|[]|start_new [u|]|]; try done.
    + destruct (image_payload data true) as [payload|]; [|done]. by destruct (apply_history_payload_shown payload entry a) as (_ & _ & ?).
    + cbv zeta. destruct start_new; [|done].
      match goal with |- context [begin_pairing ?x] => by destruct (begin_pairing_shown x) as (_ & _ & ?) end.
Qed.

Lemma settings_saved_handle i a :
  (forall rules, is_ok (to_vec (A := list SensitiveRule) rules) = true) -> settings_saved a -> settings_saved (app_handle i a).1.
Proof.
  intros Hj Hs. unfold settings_saved in *. pose proof (app_handle_settings i a) as H. cbv zeta in H. rewrite H.
  destruct i; try done; destruct (settings a) as [st d]; unfold settings_init in *; simpl in *; subst st; [done..|].
  unfold set_sensitive_rules. specialize (Hj rules). destruct (to_vec rules) as [data|] eqn:Ev; [|done]. simpl.
  by rewrite (json_compact _ _ Ev).
Qed.

(** The settings are kept: as long as the rules can be encoded, what a
    relaunch reads from the defaults is, at every point of every run, what the
    user last set: the relay URL, whether syncing is paused, and the rules. *)
Theorem settings_survive_relaunch d window start pb s :
  (forall rules, is_ok (to_vec (A := list SensitiveRule) rules) = true) ->
  rtc app_step (app_start d window start pb) s ->
  settings_init (settings (s_app s)).2 = (settings (s_app s)).1.
Proof.
  intros Hj Hrun. change (settings_saved (s_app s)).
  eapply (rtc_ind_r (fun s => settings_saved (s_app s))); [| |exact Hrun].
  - unfold app_start, app_init, monitor_init, p_bind, p_ret. by destruct start.
  - intros s1 s2 _ Hstep IH. destruct Hstep as [i s1 a cs _ E|k c d0 s1 a cs _ _ E|script s1]; cbn [s_app]; [..|done].
    + pose proof (settings_saved_handle i (s_app s1) Hj IH) as H. by rewrite E in H.
    + pose proof (settings_saved_handle (IComplete d0) (s_app s1) Hj IH) as H. by rewrite E in H.
Qed.

(** ** A clip that arrives while nobody else copies *)

(** A live text clip is put on the pasteboard as it is, unmarked, and the
    history is refreshed; the next tick of the timer finds the pasteboard
    changed and sends nothing: the clip does not bounce back. *)
Theorem live_text_arrives_once item text now a :
  f_content item = FText text -> pb_script (pasteboard a) = [] ->
  (observed_change_count (monitor a) <= pb_count (pasteboard a))%Z ->
  exists a', on_clip item a = (Ok tt, a', [CallHistory]) /\
    content_result (pb_content (pasteboard a')) = Ok (Some {| rr_payload := PText text; rr_marked := false |}) /\
    (timer_fired now a').2 = [] /\ ui (timer_fired now a').1 = ui a /\
    content_result (pb_content (pasteboard (timer_fired now a').1)) =
      Ok (Some {| rr_payload := PText text; rr_marked := false |}).
Proof.
  intros Hc Hs Ho. unfold on_clip, receive, clipboard_payload. rewrite Hc. cbn [rbind].
  unfold run_apply, apply_remote, write, put_payload, p_bind, p_ret, clear_contents, pb_set, change_count, touch.
  rewrite Hs. cbn. rewrite Hs. cbn.
  eexists. split; [reflexivity|]. cbn. split; [reflexivity|].
  unfold timer_fired, submit. cbn [set_pasteboard set_monitor monitor set_token timer pasteboard].
  destruct (timer (monitor a)); [|done]. cbn [negb].
  rewrite (poll_quiet _ _ {| rr_payload := PText text; rr_marked := false |}); [|done|simpl; lia|done].
  rewrite bool_decide_eq_true_2 by done. done.
Qed.

(** ** After an automatic reconnect *)

(** After a reconnect that the receive path did on its own, the core
    announces the connection first and delivers the clip of the join
    afterwards.  The application then always defers that clip, whatever the
    pasteboard did meanwhile: announcing the connection dropped the baseline
    the decision needs. *)
Theorem reconnect_clip_never_applied item a :
  let connected := (receive_status StConnected a).1 in
  match (on_mailbox_clip item connected).1.1 with
  | Ok FApplied => False
  | Ok FDeferred => pb_content (pasteboard (on_mailbox_clip item connected).1.2) = pb_content (pasteboard a)
  | Err _ => exists data, f_content item = FImage data
  end.
Proof.
  cbv zeta. unfold on_mailbox_clip, receive, clipboard_payload. destruct (f_content item) as [text|data]; [done|].
  destruct (image_payload data true) as [payload|e]; [done|]. by exists data.
Qed.

(** Confirming the code can hide the connection.  The core confirms the
    pairing and then announces the connection; the announcement and the
    completion of the call reach the main actor by different ways.  If the
    announcement comes first, the completion sets the state back: the
    application shows that it is connecting, and neither the history nor a
    sent clip will correct it. *)
Theorem late_confirm_hides_connected r seq a :
  let connected := (app_handle (IStatus StConnected) a).1 in
  let confirmed := (app_handle (IComplete (DonePairConfirm (Ok tt))) connected).1 in
  connection_state (ui connected) = AConnected /\ connection_state (ui confirmed) = AConnecting /\
  connection_state (ui (app_handle (IComplete (DoneHistory r)) confirmed).1) = AConnecting /\
  connection_state (ui (app_handle (IComplete (DoneSend (Ok seq))) confirmed).1) = AConnecting.
Proof. by destruct r. Qed.
End app.

(** ** Concrete runs *)

#[export] Instance rule_eq_dec : EqDecision SensitiveRule.
Proof. solve_decision. Defined.
#[export] Program Instance rule_countable : Countable SensitiveRule :=
  inj_countable' (fun r => (rule_id r, rule_pattern r, is_regex r))
    (fun '(i, p, b) => {| rule_id := i; rule_pattern := p; is_regex := b |}) _.
Next Obligation. by intros []. Qed.

Module MacToy.
Import Toy.
#[local] Existing Instances toy_sha256 FilterToy.toy_re FilterToy.toy_foundation.

(** Images are their bytes, one pixel each; the second framework cannot make
    a TIFF. *)
Definition toy_size (data : bytes) : option (Z * Z) := match data with [] => None | _ => Some (1, 1)%Z end.

Lemma toy_lossless (data : bytes) (w h : Z) (image png : bytes) :
  toy_size data = Some (w, h) -> Some data = Some image -> Some image = Some png ->
  toy_size png = Some (w, h) /\ exists image', Some png = Some image' /\ Some image' = Some image.
Proof. intros H1 H2 H3. simplify_eq. eauto. Qed.

Definition toy_images (tiff : bool) : ImageIO := {|
  cg_image := bytes; cg_size := toy_size; cg_create := Some; cg_draw := fun image _ _ => Some image; cg_png := Some;
  cg_tiff := fun image => if tiff then Some image else None; png_lossless := toy_lossless |}.

#[local] Instance images : ImageIO := toy_images true.
#[local] Instance urls : FoundationURL := {|
  trimmed := id; lowercased := id;
  components := fun s => Some {| u_scheme := Some "wss"%string; u_host := Some "relay"%string; u_user := None; u_password := None;
                                 u_url := Some s |} |}.
#[local] Instance rules_json : Json (list SensitiveRule) := toy_json (list SensitiveRule).

Definition code (_ : string) : option string := None.
Definition no_defaults : Defaults := {| df_server_url := None; df_sync_paused := false; df_sensitive_rules := None |}.
Definition text_content (t : string) : PbContent := add_string t pb_empty.
Definition copy (t : string) : list others_do := [XClear; XWrite (text_content t)].
Definition board (script : list (list others_do)) : NSPasteboard :=
  {| pb_count := 1; pb_content := pb_empty; pb_ours := false; pb_script := script |}.
Definition launched (script : list (list others_do)) : app_sys := app_start no_defaults 5000 true (board script).
Definition text_item (t : string) : FfiClipItem := {| f_id := "1"; f_ts_ms := 0; f_seq := 1; f_content := FText t |}.

(** The calls of a sequence of inputs. *)
Fixpoint handle_all (inputs : list app_input) (a : AppModel) : AppModel * list core_call :=
  match inputs with
  | [] => (a, [])
  | i :: inputs => let '(a, cs) := app_handle code i a in let '(a, cs') := handle_all inputs a in (a, cs ++ cs')
  end.

Lemma handle_all_app l l' a :
  handle_all (l ++ l') a =
    ((handle_all l' (handle_all l a).1).1, (handle_all l a).2 ++ (handle_all l' (handle_all l a).1).2).
Proof.
  revert a. induction l as [|i l IH]; intros a; simpl; [apply surjective_pairing|]. destruct (app_handle code i a) as [a1 cs].
  rewrite IH. destruct (handle_all l a1) as [a2 cs2]. simpl. by rewrite (assoc_L (++)).
Qed.

Lemma mac_sends_only_allowed_copies_witness :
  exists now rr, ITimer 7 = ITimer now /\ PText "hello" = rr_payload rr /\
    may_leave false (rr_marked rr) (PText "hello") [].
Proof.
  destruct (mac_sends_only_allowed_copies code no_defaults 5000 true (board [[]; copy "hello"]) (launched [[]; copy "hello"]) (ITimer 7)
    (app_handle code (ITimer 7) (s_app (launched [[]; copy "hello"]))).1
    (app_handle code (ITimer 7) (s_app (launched [[]; copy "hello"]))).2 (PText "hello")) as (now & rr & Hi & Hp & _ & _ & _ & Hl).
  - apply rtc_refl.
  - apply surjective_pairing.
  - vm_compute. left.
  - exists now, rr. split; [exact Hi|]. split; [exact Hp|]. apply Hl. reflexivity.
Defined.


Lemma reset_single_flight_witness :
  let s := launched [] in
  resets (s_outstanding s) = (if reset_in_progress (ui (s_app s)) then 1 else 0).
Proof. exact (proj1 (reset_single_flight code no_defaults 5000 true (board []) (launched []) (rtc_refl _ _))). Defined.

(** The first call is answered. *)
Lemma calls_terminate_witness :
  let s := launched [] in
  1 + weights (s_outstanding (Build_app_sys (app_handle code (IComplete (refusal CallInitialize)) (s_app s)).1 [])) <= weights (s_outstanding s).
Proof.
  refine (proj1 (calls_terminate code no_defaults 5000 true (board []) (launched []) 1
    (Build_app_sys (app_handle code (IComplete (refusal CallInitialize)) (s_app (launched []))).1 []) (rtc_refl _ _) _)).
  apply nsteps_once. exact (completes_one code 0 CallInitialize (refusal CallInitialize) (launched []) eq_refl I).
Defined.

Lemma settings_survive_relaunch_witness :
  settings_init (settings (s_app (launched []))).2 = (settings (s_app (launched []))).1.
Proof.
  apply (settings_survive_relaunch code no_defaults 5000 true (board []) (launched [])); [reflexivity|apply rtc_refl].
Defined.

Lemma live_text_arrives_once_witness :
  exists a', on_clip (text_item "hi") (s_app (launched [])) = (Ok tt, a', [CallHistory]) /\ (timer_fired 3 a').2 = [].
Proof.
  destruct (live_text_arrives_once (text_item "hi") "hi" 3 (s_app (launched []))) as (a' & H1 & _ & H2 & _);
    [reflexivity|reflexivity|vm_compute; discriminate|]. exists a'. split; [exact H1|exact H2].
Defined.

(** A local copy can be lost to an older remote clip.  The link is down
    without the application knowing; the user copies a text, the application
    sends it, the send fails, and only now the core announces the disconnect
    and reconnects.  The baseline is taken with the user's copy already on the
    pasteboard, so the clip that waited in the mailbox is applied over it. *)
Theorem fresh_copy_overwritten :
  let '(sent, calls) := handle_all [ITimer 1] (s_app (launched [[]; copy "mine"])) in
  let '(told, _) := handle_all [IStatus Reconnecting] sent in
  calls = [CallSend (PText "mine")] /\ pb_string (pb_content (pasteboard told)) = Some "mine"%string /\
  (on_mailbox_clip (text_item "theirs") told).1.1 = Ok FApplied /\
  pb_string (pb_content (pasteboard (on_mailbox_clip (text_item "theirs") told).1.2)) = Some "theirs"%string.
Proof. vm_compute. repeat split. Qed.

(** The tick that finds the pasteboard taken but not yet filled is the
    last that looks at that copy: filling it does not change the count, so
    the text is never sent, however often the timer fires. *)
Theorem copy_in_progress_is_missed n :
  let script := [[]; [XClear]] ++ replicate 6 [] ++ [[XWrite (text_content "late")]] in
  let out := handle_all (replicate (S (S n)) (ITimer 1)) (s_app (launched script)) in
  pb_string (pb_content (pasteboard out.1)) = Some "late"%string /\ out.2 = [].
Proof.
  cbv zeta. change (replicate (S (S n)) (ITimer 1)) with ([ITimer 1; ITimer 1] ++ replicate n (ITimer 1)). rewrite handle_all_app.
  set (two := handle_all [ITimer 1; ITimer 1] _).
  assert (two.2 = []) as -> by (vm_compute; reflexivity).
  assert (app_handle code (ITimer 1) two.1 = (two.1, [])) as Hfix by (vm_compute; reflexivity).
  assert (pb_string (pb_content (pasteboard two.1)) = Some "late"%string) as Hl by (vm_compute; reflexivity).
  assert (handle_all (replicate n (ITimer 1)) two.1 = (two.1, [])) as ->; [|done].
  clearbody two. induction n as [|n IH]; [done|]. cbn [replicate handle_all]. by rewrite Hfix, IH.
Qed.

(** A remote image that cannot be converted costs the user's clipboard:
    the pasteboard is emptied before the conversion is tried, and the call
    fails with nothing put back. *)
Theorem failed_image_empties_pasteboard :
  let a := s_app (launched [[]; copy "mine"]) in
  let item := {| f_id := "1"; f_ts_ms := 0; f_seq := 1; f_content := FImage ["137"%byte] |} in
  let out := on_clip (II := toy_images false) item (handle_all [ITimer 1] a).1 in
  pb_string (pb_content (pasteboard (handle_all [ITimer 1] a).1)) = Some "mine"%string /\
  out.1.1 = Err InvalidImage /\ pb_content (pasteboard out.1.2) = pb_empty.
Proof. vm_compute. repeat split. Qed.

(** One copy can be sent twice: made between the two looks a tick takes
    at the change count, it is read by this tick under the older count and by
    the next tick again. *)
Theorem copy_sent_twice :
  let out := handle_all [ITimer 1; ITimer 2] (s_app (launched [[]; copy "first"; copy "second"])) in
  out.2 = [CallSend (PText "second"); CallSend (PText "second")].
Proof. vm_compute. reflexivity. Qed.
End MacToy.
