(* ===== verification/MacCore.v ===== *)
(** * The macOS application and the core ([Services/CoreService.swift], [CoreExecutor.swift])

    [CoreService] owns the [CoreHandle] of the Rust core and runs every call on
    the one serial queue of [CoreExecutor]: [serve] is one such operation with
    the value it completes with, and [ex_step] the executor: operations are
    submitted and run in order, and each completion travels to the main actor
    in a task of its own, so completions arrive in any order.  What the
    operations meet outside the handle, and what the dispatcher answers them,
    are arguments as in [Ffi]; the text of a Rust error in Swift
    ([localizedDescription], generated) is a parameter. *)

From S2P Require Import Prelude Fs Interfaces Protocol Crypto History Pairing Session PairingClient Dispatcher Ffi.
From S2P Require Import Filter Pasteboard MacApp.
From Stdlib Require Import Strings.Byte.

Set Default Goal Selector "!".
#[local] Open Scope clip_scope.

(** What the dispatcher answers to one call, by kind. *)
Record core_answers := {
  an_send : option (result Z CoreError); an_history : option (result (list FfiHistoryItem) CoreError);
  an_image : option (result bytes CoreError); an_unit : option (result unit CoreError); an_now : Z;
  an_runtime : option string
}.

Section service.
Context {JD : Json SessionDocument} {JH : Json HistoryItem} {JE : Json Envelope} {JF : Json Frame}.
Context {JI : Json IdentityDocument} {JR : Json PairingRecord} {JQ : Json QrPayload}.
Context {B64 : Base64} {S256 : Sha256} {Ed : Ed25519} {X : X25519} {A : Aead} {U : UuidText}.
Context {DI : Display} {HC : CoreCallbacks}.
Context (debug : bool) (frame_debug : Frame -> string) (show_io : io_error -> string) (show_uuid : string -> string).
Context (localized : CoreError -> string) (data_directory : string).

(** [requireHandle()] and a method of the handle; [CoreExecutor.submit] turns
    what is thrown into a [CoreExecutionFailure]. *)
Definition on_handle {R} (m : hm R) (h : option CoreHandle) : io event (result R string * option CoreHandle) :=
  match h with
  | None => mret (Err "Core is not ready.", None)
  | Some h => out ← m h; mret (map_err localized out.1, Some out.2)
  end.

Definition service_initialize (an : core_answers) (o : outside) (h : option CoreHandle) :
    io event (result bool string * option CoreHandle) :=
  r ← handle_new show_io data_directory (an_runtime an);
  match r with
  | Err e => mret (Err (localized e), h)
  | Ok handle =>
      on_handle (paired ←# pair_load debug o;
                 _ ←# (if (paired : bool) then handle_start debug frame_debug o else h_ret tt);
                 h_ret paired) (Some handle)
  end.

Definition snapshot (s : PairingSnapshot) : HostPairingSnapshot :=
  match s with
  | SnUnpaired => HUnpaired
  | SnOffering qr_json => HOffering (str_of_bytes qr_json)
  | SnSasReady sas => HSasReady sas
  | SnPaired room_id => HPaired room_id
  end.

Definition service_pair_poll (h : option CoreHandle) : HostPairingSnapshot :=
  match h with Some h => snapshot (pair_poll h) | None => HUnpaired end.

Definition service_shutdown (o : outside) (h : option CoreHandle) : io event (option CoreHandle) :=
  match h with
  | None => mret None
  | Some h => out ← shutdown o h; mret match out.1 with Ok _ => None | Err _ => Some out.2 end
  end.

(** One operation of the queue and its completion. *)
Definition serve (c : core_call) (an : core_answers) (o : outside) (h : option CoreHandle) :
    io event (completion * option CoreHandle) :=
  let answer {R} (done : result R string -> completion) (m : hm R) :=
    out ← on_handle m h; mret (done out.1, out.2) in
  match c with
  | CallInitialize => out ← service_initialize an o h; mret (DoneInitialize out.1, out.2)
  | CallPairBegin url => answer DonePairBegin (handle_pair_begin debug frame_debug url o)
  | CallPairPoll => mret (DonePairPoll (service_pair_poll h), h)
  | CallPairConfirm sas => answer DonePairConfirm (pair_confirm debug frame_debug sas o)
  | CallPairCancel => answer DonePairCancel (h_sec pair_cancel)
  | CallHistory =>
      answer (fun r => DoneHistory match r with Ok items => Ok (history_entry <$> items) | Err e => Err e end)
        (handle_history (an_history an))
  | CallHistoryImage entry => answer (DoneHistoryImage entry) (history_image_bytes show_uuid (he_id entry) (an_image an))
  | CallHistoryApply id => answer DoneHistoryApply (history_apply show_uuid id (an_unit an))
  | CallHistoryClear => answer DoneHistoryClear (handle_history_clear (an_unit an))
  | CallSend payload =>
      answer DoneSend
        (enqueue_send match payload with PText text => CText text | PImage png _ => CImage png end (an_now an) (an_send an))
  | CallResetPairing start_new => answer (DoneReset start_new) (reset_pairing o)
  | CallShutdown => h' ← service_shutdown o h; mret (DoneShutdown, h')
  end.

(** [CoreExecutor]: the operations in its queue, the tasks that carry a
    completion to the main actor, and the handle of the service.  Ghosts: what
    was submitted, the operations that ran, and what was delivered. *)
Definition job : Type := core_call * core_answers * outside.

Record entry := {
  en_call : core_call; en_outside : outside; en_world : world event;
  en_before : option CoreHandle; en_done : completion; en_after : option CoreHandle
}.

Record executor := {
  ex_queue : list job; ex_tasks : list (core_call * completion); ex_handle : option CoreHandle;
  ex_submitted : list core_call; ex_log : list entry; ex_delivered : list (core_call * completion)
}.

Definition ex_start (h : option CoreHandle) : executor :=
  {| ex_queue := []; ex_tasks := []; ex_handle := h; ex_submitted := []; ex_log := []; ex_delivered := [] |}.

Definition ex_submit (j : job) (s : executor) : executor :=
  {| ex_queue := ex_queue s ++ [j]; ex_tasks := ex_tasks s; ex_handle := ex_handle s;
     ex_submitted := ex_submitted s ++ [j.1.1]; ex_log := ex_log s; ex_delivered := ex_delivered s |}.

Definition ex_ran (j : job) (jobs : list job) (w : world event) (out : completion * option CoreHandle)
    (s : executor) : executor :=
  {| ex_queue := jobs; ex_tasks := ex_tasks s ++ [(j.1.1, out.1)]; ex_handle := out.2;
     ex_submitted := ex_submitted s;
     ex_log := ex_log s ++ [{| en_call := j.1.1; en_outside := j.2; en_world := w; en_before := ex_handle s;
                               en_done := out.1; en_after := out.2 |}];
     ex_delivered := ex_delivered s |}.

Definition ex_deliver (t : core_call * completion) (tasks : list (core_call * completion)) (s : executor) : executor :=
  {| ex_queue := ex_queue s; ex_tasks := tasks; ex_handle := ex_handle s; ex_submitted := ex_submitted s;
     ex_log := ex_log s; ex_delivered := ex_delivered s ++ [t] |}.

Inductive ex_step : executor -> executor -> Prop :=
| step_submit j s : ex_step s (ex_submit j s)
| step_run j jobs w out w' s :
    ex_queue s = j :: jobs -> serve j.1.1 j.1.2 j.2 (ex_handle s) w = (Done out, w') ->
    ex_step s (ex_ran j jobs w out s)
| step_deliver ts t ts' s : ex_tasks s = ts ++ t :: ts' -> ex_step s (ex_deliver t (ts ++ ts') s).

(** What one operation leaves behind: an answer of the call's kind; a refusal
    where there is no handle; and a handle that goes only with a shutdown that
    succeeded. *)
Definition entry_ok (e : entry) : Prop :=
  answers (en_call e) (en_done e) /\
  match en_before e with
  | None => en_call e <> CallInitialize -> en_done e = refusal (en_call e) /\ en_after e = None
  | Some h => en_after e = None <->
      en_call e = CallShutdown /\ exists h' w', shutdown (en_outside e) h (en_world e) = (Done (Ok tt, h'), w')
  end.

Lemma on_handle_None {R} (m : hm R) w out w' :
  on_handle m None w = (Done out, w') -> out = (Err "Core is not ready.", None).
Proof. by intros [= <- <-]. Qed.

Lemma on_handle_Some {R} (m : hm R) h w out w' : on_handle m (Some h) w = (Done out, w') -> is_Some out.2.
Proof.
  unfold on_handle, mbind, io_bind. destruct (m h w) as [[[r h']|] w1]; [|done]. by intros [= <- <-].
Qed.

(** A call that goes through [requireHandle]. *)
Lemma entry_ok_on_handle {R} c o (done : result R string -> completion) (m : hm R) h w out w' :
  c <> CallShutdown -> (forall r, answers c (done r)) -> done (Err "Core is not ready.") = refusal c ->
  (out ← on_handle m h; mret (done out.1, out.2)) w = (Done out, w') ->
  entry_ok {| en_call := c; en_outside := o; en_world := w; en_before := h; en_done := out.1; en_after := out.2 |}.
Proof.
  intros Hc Ha Hd. unfold mbind, io_bind. destruct (on_handle m h w) as [[out1|] w1] eqn:E; [|done].
  intros [= <- <-]. split; [apply Ha|]. simpl. destruct h as [h|].
  - apply on_handle_Some in E as [h' ->]. split; [done|]. by intros [? _].
  - apply on_handle_None in E as ->. auto.
Qed.

Lemma service_shutdown_ok o h w h' w' :
  service_shutdown o h w = (Done h', w') ->
  match h with
  | None => h' = None
  | Some h => h' = None <-> exists h1 w1, shutdown o h w = (Done (Ok tt, h1), w1)
  end.
Proof.
  unfold service_shutdown, mbind, io_bind. destruct h as [h|]; [|by intros [= <- <-]].
  destruct (shutdown o h w) as [[[[[]|e] h1]|] w1]; [| |done]; intros [= <- <-].
  - split; [by eauto|done].
  - split; [done|]. by intros (? & ? & [=]).
Qed.

Lemma serve_ok c an o h w out w' :
  serve c an o h w = (Done out, w') ->
  entry_ok {| en_call := c; en_outside := o; en_world := w; en_before := h; en_done := out.1; en_after := out.2 |}.
Proof.
  intros H. destruct c; cbn [serve] in H;
    try (eapply entry_ok_on_handle; [| | |exact H]; done).
  - unfold mbind, io_bind in H. destruct (service_initialize an o h w) as [[out1|] w1] eqn:E; [|done].
    injection H as <- <-. split; [done|]. simpl. destruct h as [h|]; [|done]. split; [|by intros [? _]].
    unfold service_initialize, mbind, io_bind in E. destruct (handle_new _ _ _ w) as [[[h1|e]|] w2]; [| |done].
    + apply on_handle_Some in E as [? ->]. done.
    + by injection E as <- <-.
  - injection H as <- <-. split; [done|]. simpl. destruct h as [h|]; [|done]. split; [done|by intros [? _]].
  - eapply (entry_ok_on_handle _ _ (fun r => DoneHistory match r with Ok items => Ok (history_entry <$> items) | Err e => Err e end));
      [| | |exact H]; done.
  - unfold mbind, io_bind in H. destruct (service_shutdown o h w) as [[h1|] w1] eqn:E; [|done].
    injection H as <- <-. split; [done|]. simpl. apply service_shutdown_ok in E. destruct h as [h|]; [|done]. naive_solver.
Qed.

(** Each operation starts with the handle the one before left. *)
Fixpoint linked (h : option CoreHandle) (log : list entry) (h' : option CoreHandle) : Prop :=
  match log with
  | [] => h' = h
  | e :: log => en_before e = h /\ linked (en_after e) log h'
  end.

Lemma linked_snoc h log h' e : linked h log h' -> en_before e = h' -> linked h (log ++ [e]) (en_after e).
Proof.
  revert h. induction log as [|e0 log IH]; simpl; intros h; [by intros -> ->|]. intros [? ?] ?. auto.
Qed.

Definition ex_inv (h0 : option CoreHandle) (s : executor) : Prop :=
  (en_call <$> ex_log s) ++ ((fun j : job => j.1.1) <$> ex_queue s) = ex_submitted s /\
  ex_delivered s ++ ex_tasks s ≡ₚ (fun e => (en_call e, en_done e)) <$> ex_log s /\
  Forall entry_ok (ex_log s) /\ linked h0 (ex_log s) (ex_handle s).

Lemma ex_inv_step h0 s s' : ex_inv h0 s -> ex_step s s' -> ex_inv h0 s'.
Proof.
  intros Hinv Hstep. destruct Hstep as [j s|j jobs w out w' s Hq Hrun|ts t ts' s Ht];
    destruct Hinv as (Hs & Hp & Hok & Hl); unfold ex_inv; simpl.
  - split_and!; [|done..]. rewrite fmap_app. simpl. by rewrite app_assoc, Hs.
  - split_and!.
    + rewrite <-Hs, Hq, fmap_app. simpl. by rewrite <-app_assoc.
    + rewrite fmap_app. simpl. by rewrite app_assoc, Hp.
    + apply Forall_app. split; [done|]. apply Forall_singleton. by eapply serve_ok.
    + by apply (linked_snoc _ _ _ {| en_after := out.2 |} Hl).
  - split_and!; [done| |done..]. rewrite <-Hp, Ht. rewrite <-app_assoc. by rewrite <-Permutation_middle.
Qed.

(** What is left to do: an operation still has to run and to be delivered. *)
Definition pending (s : executor) : nat := 2 * length (ex_queue s) + length (ex_tasks s).

End service.

(** ** A run whose completions arrive the other way round *)

Module MacCoreToy.
Import Toy ProtocolToy CryptoToy PairingToy SessionToy.
#[local] Existing Instances toy_base64 toy_sha256 toy_ed25519 toy_x25519 toy_aead toy_uuid.
#[local] Existing Instances ProtocolToy.envelope_json ProtocolToy.frame_json document_json HistoryToy.history_json.
#[local] Existing Instances identity_json record_json FfiToy.texts FfiToy.host FfiToy.qr_json_codec.

Definition no_answers : core_answers :=
  {| an_send := None; an_history := None; an_image := None; an_unit := None; an_now := 0; an_runtime := None |}.
Definition in_time : outside :=
  {| o_timed_out := false; o_dial := o_dial FfiToy.o; o_identity := o_identity FfiToy.o; o_code := []; o_nonce := [];
     o_rotated := ([], []); o_accepted := true; o_drains := fun _ => 0; o_joined := true; o_stopped := true;
     o_runtime := None |}.
Definition asked (c : core_call) : job := (c, no_answers, in_time).
Definition run_next (s : executor) : executor :=
  match ex_queue s with
  | [] => s
  | j :: jobs =>
      match (serve false (fun _ => "") (fun _ => "") id (fun _ => "") "d" j.1.1 j.1.2 j.2 (ex_handle s) FfiToy.w0).1 with
      | Done out => ex_ran j jobs FfiToy.w0 out s
      | Crashed => s
      end
  end.

Definition queued : executor :=
  ex_submit (asked CallHistory) (ex_submit (asked CallShutdown) (ex_start (Some FfiToy.h0))).
Definition ran : executor := run_next (run_next queued).
Definition first : core_call * completion := (CallShutdown, DoneShutdown).
Definition second : core_call * completion := (CallHistory, refusal CallHistory).
Definition all_delivered : executor := ex_deliver first [] (ex_deliver second [first] ran).

End MacCoreToy.
