(* ===== verification/CopyPaste.v ===== *)
(** * From one pasteboard to the other

    The applications, the core and the relay composed: a text copied on one
    Mac stands on the pasteboard of the other.  The steps are those of the
    components: a tick of the sender's timer ([MacApp]), the call of the core
    service ([MacCore]) that queues the command, the dispatcher that seals and
    sends it ([Dispatcher], [Session]), the relay that hands it on ([EndToEnd]),
    the receiver's dispatcher, and the receiver's application, which is the host
    the dispatcher calls ([app_host]). *)

From S2P Require Import Prelude Fs Interfaces Protocol Crypto History Pairing Session Registry Config RateLimit.
From S2P Require Import Mailbox Outbox Room PairingRelay Connection Server PairingClient EndToEnd Dispatcher Ffi.
From S2P Require Import Filter Pasteboard MacApp MacCore.
From Stdlib Require Import Strings.Byte.

Set Default Goal Selector "!".
#[local] Open Scope clip_scope.

(** ** What a send leaves on the wire *)

Section sending.
Context {JD : Json SessionDocument} {JH : Json HistoryItem} {JE : Json Envelope} {JF : Json Frame}.
Context {JI : Json IdentityDocument} {JR : Json PairingRecord}.
Context {B64 : Base64} {S256 : Sha256} {Ed : Ed25519} {X : X25519} {A : Aead} {U : UuidText}.
Context {DI : Display} {HC : CoreCallbacks}.
Context (debug : bool) (frame_debug : Frame -> string).

(** [Uuid::new_v4] prints as the text that parses back to it. *)
Definition supplies_uuids (w : world event) : Prop := forall n, uuid_parse (w_uuid w n) = Some (w_uuid w n).

(** A send that was answered has put that frame on the socket last. *)
Lemma answered_send_on_wire c content ts_ms e w :
  wpc (send_over_connection debug frame_debug c content ts_ms e) (fun out _ =>
    forall seq, out.1.1 = Some (Ok seq) ->
      exists f log, sealed_frame w (d_nonce e) (fc_session c) content ts_ms f /\
        s_log (fc_socket out.1.2) = log ++ [Sent f]) (fun _ => True) w.
Proof.
  unfold send_over_connection. apply wpc_bind. eapply wpc_mono; [by apply send_clip_sealed| |done].
  intros [[f|err] s] w1 Hf; simpl in *; [|by apply wpc_ret]. specialize (Hf f eq_refl).
  destruct (link_send _ _) as [[u|err] s1] eqn:Hs1.
  - apply wpc_ret. intros seq _. apply socket_send_log in Hs1. by exists f, (s_log (fc_socket c)).
  - destruct (transient err); [|by apply wpc_ret]. apply wpc_bind.
    apply silent_trace; [apply silent_reconnect| |done]. intros [[link|]|] w2 _; try by apply wpc_ret.
    apply wpc_bind. eapply wpc_mono; [apply bootstrap_traced| |done].
    intros [c' st] w3 _. apply wpc_ret. simpl in *. destruct (link_send _ (fc_socket c')) as [[u'|] s2] eqn:Hs2; [|done].
    intros seq _. apply socket_send_log in Hs2. by exists f, (s_log (fc_socket c')).
Qed.

Lemma dispatch_send_on_wire hdir c content ts_ms e w seq c' st w' :
  dispatch debug frame_debug hdir (Command (CmdSend content ts_ms)) (Some c) e w = (Done (Some (RepSend (Ok seq)), Some c', st), w') ->
  exists f log, sealed_frame w (d_nonce e) (fc_session c) content ts_ms f /\ s_log (fc_socket c') = log ++ [Sent f].
Proof.
  cbn [dispatch handle_command]. unfold mbind, io_bind, mret, io_ret.
  pose proof (answered_send_on_wire c content ts_ms e w) as Hwp. unfold wpc in Hwp.
  destruct (send_over_connection _ _ _ _ _ _ _) as [[[[r c1] st1]|] w1]; [|done].
  intros [= Hr <- <- <-]. destruct r as [r|]; [|done]. injection Hr as ->. by apply (Hwp seq).
Qed.
End sending.

(** ** The receiving side *)

Section receiving.
Context {JD : Json SessionDocument} {JH : Json HistoryItem} {JE : Json Envelope} {JF : Json Frame}.
Context {JI : Json IdentityDocument} {JR : Json PairingRecord}.
Context {B64 : Base64} {S256 : Sha256} {Ed : Ed25519} {X : X25519} {A : Aead} {U : UuidText}.
Context {DI : Display} {HC : CoreCallbacks}.

(** The session has not had the clip, and it is recent. *)
Definition new_clip (s : Session) (item : ClipItem) (now : Z) : Prop :=
  (ci_id item ∉ seen_ids (s_recv_state s)) /\ (last_seq (s_recv_state s) < ci_seq item)%Z /\
  is_fresh false (ci_ts_ms item) now = true.

(** A new clip that was handled without an error status was handed to the
    host, once, and the host took it. *)
Lemma inbound_new_clip c room ct now item w :
  authenticate (fc_session c) room ct = Some item -> new_clip (fc_session c) item now ->
  wpc (handle_inbound_clip c room ct false now) (fun out w' => out.2 = [] ->
    w_trace w' = w_trace w ++ [Fired false item] /\
    host_on_clip (w_trace w) (ffi_clip_item item) = HostReturned (Ok tt)) (fun _ => True) w.
Proof.
  intros Ha (Hid & Hseq & Hfresh). unfold handle_inbound_clip. apply wpc_bind. unfold handle_clip, handle_clip_with_fault.
  rewrite Ha. destruct (existsb _ _) eqn:He.
  { apply existsb_exists in He as (x & Hx & ->%bool_decide_eq_true). by apply list_elem_of_In in Hx. }
  destruct (Z.leb_spec (ci_seq item) (last_seq (s_recv_state (fc_session c)))); [lia|]. rewrite Hfresh.
  assert (forall e s, (with_session s c, match e with SessionCallbackError error => [StError (show_callback error)]
                                         | error => [StError (show_session error)] end).2 <> []) as Herr by (by intros []).
  apply wpc_st_try. eapply wpc_mono; [apply commit_recv_quiet| |done].
  intros [[[]|e] s1] w1 [E1 _]; [|apply wpc_ret; intros Hf; by destruct (Herr e s1)].
  simpl in *. apply wpc_st_try, wpc_bind.
  apply silent_trace; [eapply inside_silent, inside_history_add| |done].
  intros [[[]|e] h] w2 E2; apply wpc_ret; simpl in *; [|apply wpc_ret; intros Hf; done].
  apply wpc_st_try. eapply wpc_mono; [apply commit_recv_quiet| |done].
  intros [[[]|e] s3] w3 [E3 _]; [|apply wpc_ret; intros Hf; by destruct (Herr e s3)].
  simpl in *. unfold apply_clip, invoke_callback. apply wpc_bind, wpc_bind. unfold get_trace.
  apply wpc_bind, wpc_emit, wpc_ret. simpl. rewrite E3, E2, E1.
  destruct (host_on_clip _ _) as [[[]|e]|] eqn:Hh; apply wpc_ret, wpc_ret; done.
Qed.
End receiving.

(** ** The two applications *)

Section desk.
Context {JD : Json SessionDocument} {JH : Json HistoryItem} {JE : Json Envelope} {JF : Json Frame}.
Context {JI : Json IdentityDocument} {JR : Json PairingRecord} {JQ : Json QrPayload}.
Context {B64 : Base64} {S256 : Sha256} {Ed : Ed25519} {X : X25519} {AE : Aead} {U : UuidText}.
Context {DI : Display} {II : ImageIO} {RE : RegularExpressions} {FO : Foundation}.

(** The host of the core is the application: what [onClip] throws reaches the
    core as an error of the bindings. *)
Definition app_host (callback_error : ClipboardImageError -> CoreError) (a : AppModel) : CoreCallbacks := {|
  host_on_clip := fun _ item => HostReturned (map_err callback_error (on_clip item a).1.1);
  host_on_mailbox_clip := fun _ item => HostReturned (map_err callback_error (on_mailbox_clip item a).1.1) |}.

(** A text that another application put on the pasteboard, that no one
    touches, and that the filter lets out. *)
Definition copied (a : AppModel) (text : string) : Prop :=
  timer (monitor a) = true /\ pb_script (pasteboard a) = [] /\
  pb_count (pasteboard a) <> observed_change_count (monitor a) /\ ownership_token (monitor a) = None /\
  content_result (pb_content (pasteboard a)) = Ok (Some {| rr_payload := PText text; rr_marked := false |}) /\
  evaluate (sync_paused (settings a).1) false (PText text) (sensitive_rules (settings a).1) = FAllow.

Lemma copied_is_sent a text now : copied a text -> exists a', timer_fired now a = (a', [CallSend (PText text)]).
Proof.
  intros (Ht & Hs & Hn & Ho & Hc & He). unfold timer_fired. rewrite Ht. cbn [negb].
  rewrite (poll_quiet _ _ _ Hs Hn Hc), Ho. rewrite bool_decide_eq_false_2 by done.
  unfold handle_local_change. cbn [rr_payload rr_marked settings set_pasteboard set_monitor]. rewrite He. by eexists.
Qed.

(** The call puts the command on the queue of the dispatcher. *)
Definition takes_commands (h : CoreHandle) (act : Active) (ch : Chan) : Prop :=
  ch_state h = HActive act /\ ch_chans h !! ac_tx act = Some ch /\ cn_closed ch = false /\
  length (cn_queue ch) < ch_capacity h.

Lemma send_is_queued {HC : CoreCallbacks} debug frame_debug show_io show_uuid localized dir text an o h act ch w :
  takes_commands h act ch ->
  exists d h', serve debug frame_debug show_io show_uuid localized dir (CallSend (PText text)) an o (Some h) w =
      (Done (d, Some h'), w) /\
    ch_chans h' !! ac_tx act = Some {| cn_queue := cn_queue ch ++ [CmdSend (CText text) (an_now an)]; cn_closed := false |}.
Proof.
  intros (Hst & Hch & Hcl & Hlen).
  set (h' := set_chan (ac_tx act) {| cn_queue := cn_queue ch ++ [CmdSend (CText text) (an_now an)]; cn_closed := false |}
               (set_hstate (HActive act) h)).
  assert (try_command (CmdSend (CText text) (an_now an)) h w = (Done (Ok tt, h'), w)) as Hq.
  { unfold try_command, h_bind, h_sec, clone_tx, with_active, mbind, io_bind, mret, io_ret. rewrite Hst. cbn.
    unfold try_send. cbn. rewrite Hch, Hcl, bool_decide_eq_false_2 by lia. done. }
  exists (DoneSend (map_err localized (default (Err (Internal "dispatcher stopped")) (an_send an)))), h'. split.
  - cbn [serve on_handle]. unfold enqueue_send, h_bind, recv_answer, mbind, io_bind. by rewrite Hq.
  - cbn. by rewrite lookup_insert_eq.
Qed.

(** Sessions of the two records of one pairing. *)
Definition paired debug (sa sb : Session) : Prop :=
  exists ia ib ra rb ka kb,
    validate_record debug ra ia = Ok tt /\ validate_record debug rb ib = Ok tt /\
    peer_bundle ra = public_bundle ib /\ peer_bundle rb = public_bundle ia /\
    session_keys ia (peer_bundle ra) = Ok ka /\ session_keys ib (peer_bundle rb) = Ok kb /\
    session_of ra ka sa /\ session_of rb kb sb.

Lemma paired_fps debug sa sb : paired debug sa sb -> s_self_fp sa <> s_self_fp sb.
Proof.
  intros (ia & ib & ra & rb & ka & kb & Ha & Hb & Hpa & _ & _ & _ & (_ & -> & _) & (_ & -> & _)).
  destruct (record_facts _ _ _ Ha) as (_ & Hpf & Hne & _). destruct (record_facts _ _ _ Hb) as (Hlb & _).
  by rewrite Hlb, <- Hpa, <- Hpf.
Qed.

Lemma paired_opens debug sa sb nonce content ts room ct w :
  supplies_uuids w -> paired debug sa sb -> length nonce = NONCE_LENGTH -> content_ok content ->
  sealed_frame w nonce sa content ts (Clip room ct "" false) ->
  exists item, authenticate sb room ct = Some item /\ ci_content item = content.
Proof.
  intros Hu (ia & ib & ra & rb & ka & kb & Ha & Hb & Hpa & Hpb & Hka & Hkb & Hsa & Hsb) Hn Hc (n & sealed & Hs & [= -> ->]).
  eexists. split; [by eapply (clip_arrives_as_sent debug ia ib ra rb ka kb sa sb)|done].
Qed.

Context {T R M P : Type} {RT : Registry T R} {MS : MailboxSink M} {PH : PairingHandler T R P}.

(** The relay has both members of the room online, the sender on connection
    [cx], and space for the frame [enc], which goes out as the text [wire]. *)
Record relay_between (sv : ServerState R M P) (cx : Connection) (room fa fb ct : string) (raw_len : Z)
    (id : nat) (h : OutboxHandle) (o : Outbox) (enc : bytes) (wire : string) : Prop := {
  rb_joined : phase cx = PhaseJoined /\ joined cx = Some (room, fa);
  rb_actor : exists a mb, rs_map (sv_rooms sv) !! room = Some id /\
    rs_actors (sv_rooms sv) !! id = Some (a, {| ib_events := []; ib_bytes := 0 |}) /\ a_room_id a = room /\
    (member_fps a = [fa; fb] \/ member_fps a = [fb; fa]) /\
    (exists m, online a !! fa = Some m /\ connection_id m = cx_id cx) /\
    online a !! fb = Some {| connection_id := mb; member_outbox := h |};
  rb_inbox : (raw_len <= inbox_max_bytes (limits (sv_config sv)))%Z /\ 0 < inbox_max_events (limits (sv_config sv));
  rb_frame : encode_frame (Clip room ct fa false) = Ok enc /\ from_utf8 enc = Some wire;
  rb_outbox : sv_out sv !! h = Some o /\ (try_frame o enc).1 = true
}.

(** What the receiver's dispatcher makes of the text on its link. *)
Lemma dispatch_live {HC : CoreCallbacks} debug frame_debug hdir c e wire enc rest room ct fa (w : world event) :
  s_in (fc_socket c) = DText wire :: rest -> from_utf8 enc = Some wire -> encode_frame (Clip room ct fa false) = Ok enc ->
  exists s, dispatch debug frame_debug hdir Link (Some c) e w =
    (out ← handle_inbound_clip (with_link (fc_link c, s) c) room ct false (d_now e); mret (None, Some out.1, out.2)) w.
Proof.
  intros Hin Hw He. eexists. unfold dispatch, recv_reconnecting. cbn [fst snd].
  unfold link_recv, sk_bind, socket_receive_frame. rewrite Hin, (from_utf8_bytes _ _ Hw), (decode_encoded _ _ He).
  cbn. unfold mbind, io_bind, mret, io_ret. reflexivity.
Qed.

(** The relay hands the frame to the peer's outbox and its writer. *)
Lemma relay_passes sv cx room fa fb ct raw_len id ho out enc wire drawn clk turn (wR : world T) :
  relay_between sv cx room fa fb ct raw_len id ho out enc wire -> fa <> fb ->
  exists sv' rooms out', step sv cx (Clip room ct "" false) raw_len drawn clk wR = (Done (StepContinue, sv', cx), wR) /\
    actor_turn (sv_rooms sv') id turn wR = (Done rooms, wR) /\ rs_out rooms !! ho = Some out' /\
    ob_queue out' = ob_queue out ++ [OFrame enc] /\ write_turn (Some (OFrame enc)) true = ([WText wire], true).
Proof.
  intros [[Hp Hj] (a & mb & Hmap & Hact & Hroom & Hfps & Hon & Hpeer) [Hraw Hev] [Henc Hwire] [Ho Hfit]] Hne.
  edestruct (relay_hands_on sv cx room fa fb ct "" false raw_len drawn clk id a ho mb out enc turn wR)
    as (sv' & rooms & out' & H1 & H2 & H3 & H4); try done.
  exists sv', rooms, out'. split_and!; try done. simpl. by rewrite Hwire.
Qed.

(** What an answered send of one device is to the other, when its dispatcher
    handles the relayed text without an error: one call of its host, with the
    content that was sent, which the host took. *)
Lemma sent_reaches_host {HA HB : CoreCallbacks} debug frame_debug hdirA hdirB content now cA cA' eA seq stA wA wA' log ct enc wire fa
    cB cB' eB rest wB wB' :
  content_ok content -> paired debug (fc_session cA) (fc_session cB) ->
  supplies_uuids wA -> length (d_nonce eA) = NONCE_LENGTH ->
  dispatch (HC := HA) debug frame_debug hdirA (Command (CmdSend content now)) (Some cA) eA wA =
    (Done (Some (RepSend (Ok seq)), Some cA', stA), wA') ->
  s_log (fc_socket cA') = log ++ [Sent (Clip (s_room_id (fc_session cA)) ct "" false)] ->
  encode_frame (Clip (s_room_id (fc_session cA)) ct fa false) = Ok enc -> from_utf8 enc = Some wire ->
  s_in (fc_socket cB) = DText wire :: rest ->
  (forall item, authenticate (fc_session cB) (s_room_id (fc_session cA)) ct = Some item -> new_clip (fc_session cB) item (d_now eB)) ->
  dispatch (HC := HB) debug frame_debug hdirB Link (Some cB) eB wB = (Done (None, Some cB', []), wB') ->
  exists item, ci_content item = content /\ w_trace wB' = w_trace wB ++ [Fired false item] /\
    host_on_clip (CoreCallbacks := HB) (w_trace wB) (ffi_clip_item item) = HostReturned (Ok tt).
Proof.
  intros Hcontent Hpair Hu Hn HsA Hlog Henc Hwire Hin Hnew HsB.
  destruct (dispatch_send_on_wire _ _ _ _ _ _ _ _ _ _ _ _ HsA) as (f & log' & Hf & Hlog').
  rewrite Hlog in Hlog'. apply app_inj_tail in Hlog' as [_ [= <-]].
  destruct (paired_opens _ _ _ _ content _ _ _ _ Hu Hpair Hn Hcontent Hf) as (item & Hauth & Hci).
  destruct (dispatch_live (HC := HB) debug frame_debug hdirB cB eB wire enc rest _ _ _ wB Hin Hwire Henc) as [s Hd].
  rewrite Hd in HsB. unfold mbind, io_bind, mret, io_ret in HsB.
  pose proof (inbound_new_clip (HC := HB) (with_link (fc_link cB, s) cB) _ _ (d_now eB) item wB Hauth (Hnew item Hauth)) as Hwp.
  unfold wpc in Hwp.
  destruct (handle_inbound_clip _ _ _ _ _ _) as [[[c1 st1]|] w1]; [|done]. injection HsB as _ Hst <-. simpl in Hst.
  destruct (Hwp Hst) as [Htr Hh]. by exists item.
Qed.

(** C5. A text copied on one Mac is pasted on the other.  The sender's next
    tick of the timer calls the core with it, the call queues the send, and the
    dispatcher's answered send leaves the sealed clip on the wire; the relay
    hands it to the peer's outbox and writer; and when the receiver's
    dispatcher handles it without an error, the receiver's pasteboard holds
    exactly that text, the application was called once, and its next tick does
    not send it back.  Assumed: on the sender, that its timer runs, the copy is
    the last one and has not been polled, no write of ClipSync's own awaits its
    poll, the filter lets the text out ([copied]), and the core's command queue
    has room ([takes_commands]); that the two sessions are of one pairing; on
    the relay, that both members are joined and online, the room's inbox is
    empty, and the frame can be encoded and fits the inbox and the peer's
    outbox ([relay_between]); on the receiver, that the clip is unseen, newer
    than the last one and fresh ([new_clip]), and that no one else copies
    there meanwhile. *)
Theorem copy_is_pasted {HC : CoreCallbacks} debug frame_debug callback_error hdirA hdirB show_io show_uuid localized dir
    aA aB text tick tock hA act ch an o wS cA cA' eA seq stA wA wA' log ct sv cx raw_len drawn clk id ho out enc wire turn
    (wR : world T) cB cB' eB rest wB wB' :
  copied aA text -> str_ok text -> takes_commands hA act ch ->
  paired debug (fc_session cA) (fc_session cB) ->
  supplies_uuids wA -> length (d_nonce eA) = NONCE_LENGTH ->
  dispatch debug frame_debug hdirA (Command (CmdSend (CText text) (an_now an))) (Some cA) eA wA =
    (Done (Some (RepSend (Ok seq)), Some cA', stA), wA') ->
  s_log (fc_socket cA') = log ++ [Sent (Clip (s_room_id (fc_session cA)) ct "" false)] ->
  relay_between sv cx (s_room_id (fc_session cA)) (s_self_fp (fc_session cA)) (s_self_fp (fc_session cB)) ct raw_len id ho out enc wire ->
  s_in (fc_socket cB) = DText wire :: rest ->
  (forall item, authenticate (fc_session cB) (s_room_id (fc_session cA)) ct = Some item -> new_clip (fc_session cB) item (d_now eB)) ->
  dispatch (HC := app_host callback_error aB) debug frame_debug hdirB Link (Some cB) eB wB = (Done (None, Some cB', []), wB') ->
  pb_script (pasteboard aB) = [] -> (observed_change_count (monitor aB) <= pb_count (pasteboard aB))%Z ->
  (exists aA' d hA', timer_fired tick aA = (aA', [CallSend (PText text)]) /\
     serve debug frame_debug show_io show_uuid localized dir (CallSend (PText text)) an o (Some hA) wS = (Done (d, Some hA'), wS) /\
     ch_chans hA' !! ac_tx act = Some {| cn_queue := cn_queue ch ++ [CmdSend (CText text) (an_now an)]; cn_closed := false |}) /\
  (exists sv' rooms out', step sv cx (Clip (s_room_id (fc_session cA)) ct "" false) raw_len drawn clk wR = (Done (StepContinue, sv', cx), wR) /\
     actor_turn (sv_rooms sv') id turn wR = (Done rooms, wR) /\ rs_out rooms !! ho = Some out' /\
     ob_queue out' = ob_queue out ++ [OFrame enc] /\ write_turn (Some (OFrame enc)) true = ([WText wire], true)) /\
  exists item aB', w_trace wB' = w_trace wB ++ [Fired false item] /\
    on_clip (ffi_clip_item item) aB = (Ok tt, aB', [CallHistory]) /\
    content_result (pb_content (pasteboard aB')) = Ok (Some {| rr_payload := PText text; rr_marked := false |}) /\
    (timer_fired tock aB').2 = [].
Proof.
  intros Hcopy Htext Hq Hpair Hu Hn HA Hlog Hrelay Hin Hnew HB Hscript Hobs. split_and!.
  - destruct (copied_is_sent aA text tick Hcopy) as [aA' HtA].
    destruct (send_is_queued debug frame_debug show_io show_uuid localized dir text an o hA act ch wS Hq) as (d & hA' & Hs & Hc).
    by exists aA', d, hA'.
  - eapply relay_passes; [exact Hrelay|by eapply paired_fps].
  - destruct Hrelay as [_ _ _ [Henc Hwire] _].
    destruct (sent_reaches_host (HB := app_host callback_error aB) debug frame_debug hdirA hdirB (CText text) (an_now an) cA cA' eA seq
      stA wA wA' log ct enc wire _ cB cB' eB rest wB wB' Htext Hpair Hu Hn HA Hlog Henc Hwire Hin Hnew HB) as (item & Hci & Htr & _).
    exists item. destruct (live_text_arrives_once (ffi_clip_item item) text tock aB) as (aB' & Ho & Hc & Hs & _); [|done..|].
    { simpl. by rewrite Hci. }
    by exists aB'.
Qed.
End desk.

Module CopyPasteToy.
Import Toy ProtocolToy CryptoToy PairingToy SessionToy EndToEndToy.
#[local] Existing Instances toy_base64 toy_sha256 toy_ed25519 toy_x25519 toy_aead toy_uuid.
#[local] Existing Instances document_json HistoryToy.history_json identity_json record_json.
#[local] Existing Instances FilterToy.toy_re FilterToy.toy_foundation MacToy.images MacToy.urls MacToy.rules_json.
#[local] Existing Instances FfiToy.texts FfiToy.host FfiToy.qr_json_codec.

(** The envelope of the clip, and codecs that know what is exchanged. *)
Definition sent : Envelope :=
  {| v := PROTOCOL_VERSION; kind := KText; item_id := sample_id; env_seq := 1; env_ts_ms := 1000;
     content_b64 := b64_encode (as_bytes "hi") |}.
Definition tagged {A} `{EqDecision A} (x y a : A) : result bytes string :=
  if decide (a = x) then Ok ["1"%byte] else if decide (a = y) then Ok ["2"%byte] else Err "unknown".
Definition untagged {A} (x y : A) (b : bytes) : result A string :=
  match b with "1"%byte :: _ => Ok x | "2"%byte :: _ => Ok y | _ => Err "unknown" end.
Lemma untagged_tagged {A} `{EqDecision A} (x y a : A) b rest :
  tagged x y a = Ok b -> untagged x y (b ++ rest) = Ok a /\ ("010"%byte ∉ b) /\ b <> [].
Proof.
  unfold tagged. repeat case_decide; subst; intros [= <-]; (split_and!; [done| |done]);
    intros Hin; apply list_elem_of_singleton in Hin; discriminate.
Qed.
Program Definition two_json {A} `{EqDecision A} (x y : A) : Json A :=
  {| to_vec := tagged x y; to_vec_pretty := tagged x y; from_slice := untagged x y |}.
Next Obligation. intros A ? x y a b H. rewrite <- (app_nil_r b). by apply untagged_tagged. Qed.
Next Obligation. intros A ? x y a b H. rewrite <- (app_nil_r b). by apply untagged_tagged. Qed.
Next Obligation. intros A ? x y a b H. by apply untagged_tagged. Qed.
Next Obligation. intros A ? x y a b H. by apply (untagged_tagged x y a b []). Qed.

Definition sender : Session := fresh_session alice bob.
Definition receiver : Session := fresh_session bob alice.
#[local] Instance envelopes : Json Envelope := two_json sent sent.
Definition ct : string :=
  match seal_clip sample_nonce sender (CText "hi") sample_id 1 1000 with Ok sealed => b64_encode sealed | Err _ => "" end.
#[local] Instance frames : Json Frame :=
  two_json (Clip (s_room_id sender) ct "" false) (Clip (s_room_id sender) ct (s_self_fp sender) false).

Definition device : world event := World (Disk ∅ ∅) [] (fun _ => sample_id) 0 [].
Definition over (s : Session) (input : list delivery) : FfiConnection :=
  {| fc_link := FfiToy.link; fc_socket := {| s_in := input; s_out := []; s_log := [] |}; fc_session := s; fc_store := "p" |}.

(** "hi" was copied at the sender; nothing happened at the receiver. *)
Definition app_with (content : PbContent) (count : Z) : AppModel :=
  set_pasteboard {| pb_count := count; pb_content := content; pb_ours := false; pb_script := [] |} (s_app (MacToy.launched [])).
Definition here : AppModel := app_with (MacToy.text_content "hi") 2.
Definition there : AppModel := app_with pb_empty 1.

Definition answers_now : core_answers :=
  {| an_send := Some (Ok 1%Z); an_history := None; an_image := None; an_unit := None; an_now := 1000; an_runtime := None |}.

Definition sending : outcome (option reply * option FfiConnection * list CoreStatus) * world event :=
  dispatch false (fun _ => "") "h" (Command (CmdSend (CText "hi") 1000)) (Some (over sender [])) FfiToy.at_work device.
Definition sent_on : FfiConnection := match sending.1 with Done (_, Some c, _) => c | _ => over sender [] end.
Definition enc : bytes := match encode_frame (Clip (s_room_id sender) ct (s_self_fp sender) false) with Ok b => b | Err _ => [] end.
Definition wire : string := str_of_bytes enc.
Definition relay : ServerState InMemoryRegistry NoopMailboxSink PairingUnavailable :=
  put_rooms {| rs_map := {[s_room_id sender := 0]}; rs_actors := {[0 := (actor, {| ib_events := []; ib_bytes := 0 |})]};
               rs_next := 1; rs_out := {[2 := outbox 4 100000]}; rs_registry := registry; rs_mailbox := Noop |} idle.

Definition receiving : outcome (option reply * option FfiConnection * list CoreStatus) * world event :=
  dispatch (HC := app_host (fun _ => CoreBusy) there) false (fun _ => "") "h" Link (Some (over receiver [DText wire])) FfiToy.at_work device.
Definition received_on : FfiConnection := match receiving.1 with Done (_, Some c, _) => c | _ => over receiver [] end.

Lemma sessions_paired : paired false sender receiver.
Proof.
  exists alice, bob, ra, rb, (keys_of alice bob), (keys_of bob alice).
  split; [exact (proj1 records_valid)|]. split; [exact (proj2 records_valid)|]. do 2 (split; [reflexivity|]).
  do 2 (split; [vm_compute; reflexivity|]). split; repeat split.
Qed.

Lemma relay_ready :
  relay_between relay alice_cx (s_room_id sender) (s_self_fp sender) (s_self_fp receiver) ct 100 0 2 (outbox 4 100000) enc wire.
Proof.
  split.
  - split; reflexivity.
  - exists actor, 8%Z. split_and!; try (vm_compute; reflexivity).
    + left. reflexivity.
    + eexists. split; vm_compute; reflexivity.
  - split; [vm_compute; discriminate|vm_compute; lia].
  - split; vm_compute; reflexivity.
  - split; vm_compute; reflexivity.
Qed.

Lemma clip_is_new item : authenticate receiver (s_room_id sender) ct = Some item -> new_clip receiver item 1000.
Proof.
  assert (authenticate receiver (s_room_id sender) ct = Some sample_item) as -> by (vm_compute; reflexivity).
  intros [= <-]. split_and!; [apply not_elem_of_nil|reflexivity|reflexivity].
Qed.

Lemma copy_is_pasted_witness :
  exists item there', on_clip (ffi_clip_item item) there = (Ok tt, there', [CallHistory]) /\
    content_result (pb_content (pasteboard there')) = Ok (Some {| rr_payload := PText "hi"; rr_marked := false |}) /\
    (timer_fired 1400 there').2 = [].
Proof.
  destruct (copy_is_pasted (T := unit) false (fun _ => "") (fun _ => CoreBusy) "h" "h" (fun _ => "") (fun _ => "") (fun _ => "") "d"
    here there "hi" 1200 1400 FfiToy.h0 {| ac_tx := 0; ac_phase := PhUnpaired |} {| cn_queue := []; cn_closed := false |}
    answers_now FfiToy.o device (over sender []) sent_on FfiToy.at_work 1 [] device sending.2 [] ct relay alice_cx 100 nonce clk 0 2
    (outbox 4 100000) enc wire 30 RoomToy.blank (over receiver [DText wire]) received_on FfiToy.at_work [] device receiving.2)
    as (_ & _ & item & there' & _ & H1 & H2 & H3).
  - split_and!; vm_compute; try reflexivity. discriminate.
  - vm_compute. reflexivity.
  - split_and!; vm_compute; try reflexivity. lia.
  - exact sessions_paired.
  - intros n. reflexivity.
  - reflexivity.
  - vm_compute. reflexivity.
  - vm_compute. reflexivity.
  - exact relay_ready.
  - reflexivity.
  - exact clip_is_new.
  - vm_compute. reflexivity.
  - reflexivity.
  - vm_compute. discriminate.
  - exists item, there'. split_and!; [exact H1|exact H2|exact H3].
Defined.
End CopyPasteToy.
