(* ===== verification/Android.v ===== *)
(** * Clipboard, images and history on Android

    [android/app/src/main/java/com/clipsync/app]: [CoreUiModels.kt],
    [ClipboardPayload.kt] and the constants of [AppContract.kt].

    The platform is what the code sees of it: [BitmapFactory] is a class, a
    stream is the chunks its reads return, the directory of received images
    and the media store are lists of their entries, and every platform call
    that may fail takes its outcome as an argument.  A thrown exception is
    [Err].  Lists are ordered as the platform returns them. *)

From stdpp Require Import sorting.
From S2P Require Import Prelude Interfaces Protocol Crypto Dispatcher.
From Stdlib Require Import Strings.Byte Sorted.

Set Default Goal Selector "!".
#[local] Open Scope clip_scope.

(** ** [AppContract.kt] *)

Definition HISTORY_LIMIT : nat := 50.
Definition MAX_IMAGE_BYTES : Z := 10 * 1024 * 1024.
Definition MAX_IMAGE_PIXELS : Z := 50000000.
Definition MAX_RGBA_BYTES : Z := 256 * 1024 * 1024.

(** ** [CoreUiModels.kt] *)

Inductive PairingUiState := PuUnpaired | PuClaiming | PuSasReady (sas : string) | PuPaired (room_id : string).

(** A [String] of the platform is UTF-16: the code units of a UTF-8 text. *)
Fixpoint utf16_units (l : bytes) : list Z :=
  match l with
  | [] => []
  | b0 :: l1 =>
      if (bval b0 <? 128)%Z then bval b0 :: utf16_units l1
      else
        match l1 with
        | b1 :: l2 =>
            if (bval b0 <? 224)%Z then ((bval b0 - 192) * 64 + (bval b1 - 128))%Z :: utf16_units l2
            else
              match l2 with
              | b2 :: l3 =>
                  if (bval b0 <? 240)%Z
                  then ((bval b0 - 224) * 4096 + (bval b1 - 128) * 64 + (bval b2 - 128))%Z :: utf16_units l3
                  else
                    match l3 with
                    | b3 :: l4 =>
                        let c := ((bval b0 - 240) * 262144 + (bval b1 - 128) * 4096 + (bval b2 - 128) * 64 + (bval b3 - 128))%Z in
                        (55296 + (c - 65536) / 1024)%Z :: (56320 + (c - 65536) mod 1024)%Z :: utf16_units l4
                    | [] => []
                    end
              | [] => []
              end
        | [] => []
        end
  end.

(** [Char::isDigit]: general category Nd, ten digits from each of these. *)
Definition digit_zeros : list Z :=
  [0x0030; 0x0660; 0x06F0; 0x07C0; 0x0966; 0x09E6; 0x0A66; 0x0AE6; 0x0B66; 0x0BE6; 0x0C66; 0x0CE6; 0x0D66; 0x0DE6;
   0x0E50; 0x0ED0; 0x0F20; 0x1040; 0x1090; 0x17E0; 0x1810; 0x1946; 0x19D0; 0x1A80; 0x1A90; 0x1B50; 0x1BB0; 0x1C40;
   0x1C50; 0xA620; 0xA8D0; 0xA900; 0xA9D0; 0xA9F0; 0xAA50; 0xABF0; 0xFF10]%Z.
Definition is_digit (u : Z) : bool := existsb (fun zero => (zero <=? u)%Z && (u <=? zero + 9)%Z) digit_zeros.

Definition can_confirm (p : PairingUiState) : bool :=
  match p with
  | PuSasReady sas => let units := utf16_units (as_bytes sas) in (length units =? 6)%nat && forallb is_digit units
  | _ => false
  end.

Inductive CoreHistoryContent := HcText (text : string) | HcImage (data : option bytes).

Record CoreHistoryItem := { chi_id : string; chi_ts_ms : Z; chi_content : CoreHistoryContent; chi_source : FfiHistorySource }.

Definition is_deferred (i : CoreHistoryItem) : bool := match chi_source i with FhRemoteDeferred => true | _ => false end.

(** [sortedByDescending], which keeps equal elements in their order. *)
Fixpoint insert_desc {A} (key : A -> Z) (x : A) (l : list A) : list A :=
  match l with
  | [] => [x]
  | y :: l => if (key y <? key x)%Z then x :: y :: l else y :: insert_desc key x l
  end.
Definition sorted_by_descending {A} (key : A -> Z) (l : list A) : list A := foldl (fun acc x => insert_desc key x acc) [] l.

Definition normalize_history (items : list CoreHistoryItem) : list CoreHistoryItem :=
  take HISTORY_LIMIT (sorted_by_descending chi_ts_ms items).

Definition promote_applied_history (items : list CoreHistoryItem) (selected : string) : list CoreHistoryItem :=
  (fun item => if bool_decide (chi_id item = selected) && is_deferred item
               then {| chi_id := chi_id item; chi_ts_ms := chi_ts_ms item; chi_content := chi_content item; chi_source := FhRemote |}
               else item) <$> items.

(** ** [ClipboardPayload.kt]: reading the clipboard *)

Inductive AndroidPayload := ApText (text : string) | ApImage (data : bytes).

Inductive ClipboardCaptureResult := CapReady (p : AndroidPayload) | CapEmpty | CapOversize | CapUnsupported.

Inductive SendResult :=
| SrSent (sequence : Z) | SrFailed (detail : string) | SrEmpty | SrOversize | SrServiceUnavailable | SrUnsupported.

(** [readAtMost]: the stream is the chunks its reads return, until the end. *)
Fixpoint read_loop (limit : Z) (chunks : list bytes) (total : Z) (output : bytes) : option bytes :=
  match chunks with
  | [] => Some output
  | chunk :: chunks =>
      let total := (total + Z.of_nat (length chunk))%Z in
      if (limit <? total)%Z then None else read_loop limit chunks total (output ++ chunk)
  end.
Definition read_at_most (chunks : list bytes) (limit : Z) : option bytes := read_loop limit chunks 0 [].

(** [BitmapFactory] asked for the bounds only: [outWidth], [outHeight] (32-bit,
    not positive when there is no image) and [outMimeType]. *)
Class BitmapFactory := {
  decode_bounds : bytes -> Z * Z * option string;
  bounds_int : forall b, (- 2 ^ 31 <= (decode_bounds b).1.1 < 2 ^ 31)%Z /\ (- 2 ^ 31 <= (decode_bounds b).1.2 < 2 ^ 31)%Z
}.

Definition starts_with_image (mime : string) : bool := String.prefix "image/" mime.

Section policy.
Context {BF : BitmapFactory}.

(** [ImagePolicy.mimeType]. *)
Definition image_mime_type (data : bytes) : option string :=
  if bool_decide (data = []) || (MAX_IMAGE_BYTES <? Z.of_nat (length data))%Z then None
  else
    let '(width, height, mime) := decode_bounds data in
    if (width <=? 0)%Z || (height <=? 0)%Z then None
    else
      let pixels := (width * height)%Z in
      if (MAX_IMAGE_PIXELS <? pixels)%Z || (MAX_RGBA_BYTES <? pixels * 4)%Z then None
      else match mime with Some m => if starts_with_image m then Some m else None | None => None end.

(** The first item of the primary clip: a URI with the type its provider gives,
    the types of the description and the stream behind it, or a text. *)
Inductive clip_item :=
| ItemUri (provider_type : option string) (description : list string) (stream : option (list bytes))
| ItemText (text : option string).

Definition read_image_uri (provider_type : option string) (description : list string) (stream : option (list bytes)) :
    ClipboardCaptureResult :=
  let mime := match provider_type with Some m => Some m | None => List.find starts_with_image description end in
  match mime with
  | Some m =>
      if negb (starts_with_image m) then CapUnsupported
      else
        match stream with
        | None => CapUnsupported
        | Some chunks =>
            match read_at_most chunks MAX_IMAGE_BYTES with
            | None => CapOversize
            | Some data => match image_mime_type data with None => CapUnsupported | Some _ => CapReady (ApImage data) end
            end
        end
  | None => CapUnsupported
  end.

(** [ClipboardCapture.read]. *)
Definition capture_read (clip : option (list clip_item)) : ClipboardCaptureResult :=
  match clip with
  | None | Some [] => CapEmpty
  | Some (ItemUri provider_type description stream :: _) => read_image_uri provider_type description stream
  | Some (ItemText (Some text) :: _) => if bool_decide (text = ""%string) then CapUnsupported else CapReady (ApText text)
  | Some (ItemText None :: _) => CapUnsupported
  end.

(** ** [ReceivedImageStore] *)

Definition MAX_FILES : nat := 10.
Definition MAX_AGE_MS : Z := 24 * 60 * 60 * 1000.

Record dir_file := { df_name : string; df_modified : Z; df_data : bytes }.

Definition hidden (f : dir_file) : bool := String.prefix "." (df_name f).

(** [forEachIndexed] over the visible files, newest first: what is deleted. *)
Definition too_old (now : Z) (index : nat) (f : dir_file) : bool :=
  (MAX_FILES <=? index)%nat || (MAX_AGE_MS <? now - df_modified f)%Z.

Definition visible_sorted (dir : list dir_file) : list dir_file :=
  sorted_by_descending df_modified (List.filter (fun f => negb (hidden f)) dir).

Definition cleanup_deletes (now : Z) (dir : list dir_file) : list string :=
  concat (imap (fun index f => if too_old now index f then [df_name f] else []) (visible_sorted dir)).

Definition cleanup (now : Z) (dir : list dir_file) : list dir_file :=
  List.filter (fun f => negb (bool_decide (df_name f ∈ cleanup_deletes now dir))) dir.

Definition image_extension (mime : string) : string :=
  if bool_decide (mime = "image/jpeg"%string) then "jpg"
  else if bool_decide (mime = "image/webp"%string) then "webp"
  else if bool_decide (mime = "image/gif"%string) then "gif" else "png".

Definition delete_file (name : string) (dir : list dir_file) : list dir_file :=
  List.filter (fun f => negb (bool_decide (df_name f = name))) dir.
Definition put_file (f : dir_file) (dir : list dir_file) : list dir_file := f :: delete_file (df_name f) dir.

(** What the platform does during [save]: the clock at the two cleanups and
    the time stamp of the file; what is written when writing throws; whether
    an older file can be deleted and the new one renamed. *)
Record save_env := {
  sv_before : Z; sv_modified : Z; sv_after : Z; sv_write_throws : option bytes; sv_delete_ok : bool; sv_rename_ok : bool
}.

(** [ReceivedImageStore.save] of a canonical id. *)
Definition save (e : save_env) (safe_id : string) (data : bytes) (mime : string) (dir : list dir_file) :
    result string string * list dir_file :=
  let dir := cleanup (sv_before e) dir in
  let destination := (safe_id +:+ "." +:+ image_extension mime)%string in
  let temporary := ("." +:+ safe_id +:+ ".tmp")%string in
  let file name data := {| df_name := name; df_modified := sv_modified e; df_data := data |} in
  match sv_write_throws e with
  | Some written => (Err "IOException", put_file (file temporary written) dir)
  | None =>
      let dir := put_file (file temporary data) dir in
      let exists_ := existsb (fun f => bool_decide (df_name f = destination)) dir in
      if exists_ && negb (sv_delete_ok e) then (Err "无法替换接收图片", dir)
      else
        let dir := delete_file destination dir in
        if negb (sv_rename_ok e) then (Err "无法保存接收图片", delete_file temporary dir)
        else
          let dir := put_file (file destination data) (delete_file temporary dir) in
          (Ok destination, cleanup (sv_after e) dir)
  end.

(** ** [GalleryImageStore] *)

Record media_row := { mr_uri : nat; mr_name : string; mr_pending : bool; mr_data : bytes }.

(** What the resolver does: the query throws; the row it inserts, if any; the
    output stream is missing; what is written when opening or writing throws.
    [update] and the two calls of [delete] throw ([None]) or report whether
    they found the row. *)
Record media_env := {
  me_query_throws : bool; me_insert : option nat; me_insert_throws : bool; me_stream_missing : bool;
  me_write_throws : option bytes; me_update : option bool; me_delete : option bool; me_delete_caught : option bool
}.

Definition media_exists (e : media_env) (name : string) (rows : list media_row) : bool :=
  if me_query_throws e then false
  else existsb (fun r => bool_decide (mr_name r = name) && negb (mr_pending r)) rows.

Definition drop_row (uri : nat) (rows : list media_row) : list media_row :=
  List.filter (fun r => negb (mr_uri r =? uri)%nat) rows.
Definition set_row (uri : nat) (f : media_row -> media_row) (rows : list media_row) : list media_row :=
  (fun r => if (mr_uri r =? uri)%nat then f r else r) <$> rows.

Definition write_row (uri : nat) (data : bytes) : list media_row -> list media_row :=
  set_row uri (fun r => {| mr_uri := mr_uri r; mr_name := mr_name r; mr_pending := mr_pending r; mr_data := data |}).
Definition publish_row (uri : nat) : list media_row -> list media_row :=
  set_row uri (fun r => {| mr_uri := mr_uri r; mr_name := mr_name r; mr_pending := false; mr_data := mr_data r |}).

(** A call on one row: it takes effect when it finds the row. *)
Definition resolver_call (found : option bool) (f : list media_row -> list media_row) (rows : list media_row) : list media_row :=
  match found with Some true => f rows | _ => rows end.

(** [writeOnce]; [Err] is a thrown exception.  The numbers of rows that
    [update] and [delete] report are not looked at. *)
Definition write_once (e : media_env) (id : string) (data : bytes) (mime : string) (rows : list media_row) :
    result bool unit * list media_row :=
  let name := ("clipsync_" +:+ id +:+ "." +:+ image_extension mime)%string in
  if media_exists e name rows then (Ok true, rows)
  else if me_insert_throws e then (Err tt, rows)
  else
    match me_insert e with
    | None => (Ok false, rows)
    | Some uri =>
        let caught rows := (Err tt, resolver_call (me_delete_caught e) (drop_row uri) rows) in
        let inserted := rows ++ [{| mr_uri := uri; mr_name := name; mr_pending := true; mr_data := [] |}] in
        match me_write_throws e with
        | Some part => caught (write_row uri part inserted)
        | None =>
            if me_stream_missing e then
              match me_delete e with
              | None => caught inserted
              | found => (Ok false, resolver_call found (drop_row uri) inserted)
              end
            else
              match me_update e with
              | None => caught (write_row uri data inserted)
              | found => (Ok true, resolver_call found (publish_row uri) (write_row uri data inserted))
              end
        end
    end.

Definition gallery_save (e : media_env) (id : string) (data : bytes) (mime : string) (rows : list media_row) : bool * list media_row :=
  let '(r, rows) := write_once e id data mime rows in (match r with Ok b => b | Err _ => false end, rows).

(** ** [LiveClipboardWriter] *)

Inductive primary_clip := ClipPlainText (text : string) | ClipImage (mime : string) (file : string).

Record phone := { ph_clip : option primary_clip; ph_dir : list dir_file; ph_rows : list media_row; ph_save_to_gallery : bool }.

Definition set_clip (c : primary_clip) (p : phone) : phone :=
  {| ph_clip := Some c; ph_dir := ph_dir p; ph_rows := ph_rows p; ph_save_to_gallery := ph_save_to_gallery p |}.

Definition image_clip (e : save_env) (m : media_env) (id : string) (data : bytes) (p : phone) : result primary_clip string * phone :=
  match image_mime_type data with
  | None => (Err "图片格式或尺寸不受支持", p)
  | Some mime =>
      let '(r, dir) := save e id data mime (ph_dir p) in
      match r with
      | Err err => (Err err, {| ph_clip := ph_clip p; ph_dir := dir; ph_rows := ph_rows p; ph_save_to_gallery := ph_save_to_gallery p |})
      | Ok file =>
          let rows := if ph_save_to_gallery p then (gallery_save m id data mime (ph_rows p)).2 else ph_rows p in
          (Ok (ClipImage mime file), {| ph_clip := ph_clip p; ph_dir := dir; ph_rows := rows; ph_save_to_gallery := ph_save_to_gallery p |})
      end
  end.

Definition writer_apply (e : save_env) (m : media_env) (id : string) (payload : AndroidPayload) (p : phone) : result unit string * phone :=
  match payload with
  | ApText text => (Ok tt, set_clip (ClipPlainText text) p)
  | ApImage data =>
      let '(r, p) := image_clip e m id data p in
      match r with Ok clip => (Ok tt, set_clip clip p) | Err err => (Err err, p) end
  end.
End policy.

(** ** Sorting *)

Section sorting.
Context {A : Type} (key : A -> Z).

Lemma insert_desc_perm x l : insert_desc key x l ≡ₚ x :: l.
Proof. induction l as [|y l IH]; simpl; [done|]. destruct (_ <? _)%Z; [done|]. rewrite IH. apply Permutation_swap. Qed.

Lemma foldl_insert_perm acc l : foldl (fun acc x => insert_desc key x acc) acc l ≡ₚ l ++ acc.
Proof.
  revert acc. induction l as [|x l IH]; intros acc; simpl; [done|]. rewrite IH, insert_desc_perm.
  symmetry. apply Permutation_middle.
Qed.

Lemma sorted_by_descending_perm l : sorted_by_descending key l ≡ₚ l.
Proof. unfold sorted_by_descending. by rewrite foldl_insert_perm, app_nil_r. Qed.

Lemma insert_desc_sorted x l :
  StronglySorted (fun a b => key b <= key a)%Z l -> StronglySorted (fun a b => key b <= key a)%Z (insert_desc key x l).
Proof.
  induction 1 as [|y l Hs IH Hy]; simpl; [by repeat constructor|]. destruct (Z.ltb_spec (key y) (key x)).
  - repeat constructor; [done|done|lia|]. eapply Forall_impl; [done|]. simpl. lia.
  - constructor; [done|]. rewrite insert_desc_perm. constructor; [lia|done].
Qed.

Lemma sorted_by_descending_sorted l : StronglySorted (fun a b => key b <= key a)%Z (sorted_by_descending key l).
Proof.
  unfold sorted_by_descending.
  assert (forall acc, StronglySorted (fun a b => key b <= key a)%Z acc ->
    StronglySorted (fun a b => key b <= key a)%Z (foldl (fun acc x => insert_desc key x acc) acc l)) as H; [|apply H; constructor].
  induction l as [|x l IH]; intros acc Ha; simpl; [done|]. by apply IH, insert_desc_sorted.
Qed.

(** A strictly newest element comes first. *)
Lemma sorted_by_descending_head x l :
  Forall (fun y => key y < key x)%Z l -> exists rest, sorted_by_descending key (x :: l) = x :: rest /\ rest ≡ₚ l.
Proof.
  intros Hl. pose proof (sorted_by_descending_sorted (x :: l)) as Hs. pose proof (sorted_by_descending_perm (x :: l)) as Hp.
  destruct (sorted_by_descending key (x :: l)) as [|y rest] eqn:E; [by apply Permutation_nil_cons in Hp|].
  apply StronglySorted_inv in Hs as [_ Hy].
  assert (y = x) as ->; [|exists rest; split; [done|by apply Permutation_cons_inv in Hp]].
  assert (y ∈ x :: l) as Hin by (rewrite <- Hp; left). apply elem_of_cons in Hin as [->|Hin]; [done|].
  assert (x ∈ y :: rest) as Hx by (rewrite Hp; left). apply elem_of_cons in Hx as [->|Hx]; [done|].
  rewrite Forall_forall in Hl, Hy. specialize (Hl y Hin). specialize (Hy x Hx). lia.
Qed.
End sorting.

(** The history shown is the fifty newest items, newest first: it is in
    descending order of time, each item is one of the core's, and an item
    that is left out is no newer than any item shown. *)
Theorem history_shows_newest items :
  let shown := normalize_history items in
  StronglySorted (fun a b => chi_ts_ms b <= chi_ts_ms a)%Z shown /\ length shown = Nat.min HISTORY_LIMIT (length items) /\
  exists left_out, shown ++ left_out ≡ₚ items /\
    Forall (fun old => Forall (fun new => chi_ts_ms old <= chi_ts_ms new)%Z shown) left_out.
Proof.
  intros shown. pose proof (sorted_by_descending_sorted chi_ts_ms items) as Hs.
  pose proof (sorted_by_descending_perm chi_ts_ms items) as Hp. set (sorted := sorted_by_descending chi_ts_ms items) in *.
  rewrite <- (take_drop HISTORY_LIMIT sorted) in Hs. apply StronglySorted_app in Hs as (Hcross & Hs1 & _). split_and!.
  - done.
  - change shown with (take HISTORY_LIMIT sorted). by rewrite length_take, (Permutation_length Hp).
  - exists (drop HISTORY_LIMIT sorted). change shown with (take HISTORY_LIMIT sorted).
    split; [by rewrite take_drop|].
    apply Forall_forall. intros old Ho. apply Forall_forall. intros new Hn. by apply Hcross.
Qed.

(** ** Reading a stream *)

Lemma read_loop_spec limit chunks total output :
  (Z.of_nat (length output) = total)%Z -> (total <= limit)%Z ->
  read_loop limit chunks total output =
    if (Z.of_nat (length (output ++ concat chunks)) <=? limit)%Z then Some (output ++ concat chunks) else None.
Proof.
  revert total output. induction chunks as [|c chunks IH]; intros total output Ht Hl; simpl.
  - rewrite app_nil_r. destruct (Z.leb_spec (Z.of_nat (length output)) limit); [done|lia].
  - destruct (Z.ltb_spec limit (total + Z.of_nat (length c))).
    + destruct (Z.leb_spec (Z.of_nat (length (output ++ c ++ concat chunks))) limit) as [H1|]; [|done].
      rewrite !length_app in H1. lia.
    + rewrite IH by (rewrite ?length_app; lia). by rewrite (assoc_L (++)).
Qed.

(** An endless stream is given up as soon as it exceeds the limit. *)
Lemma read_at_most_stops limit front rest :
  (0 <= limit)%Z -> (limit < Z.of_nat (length (concat front)))%Z -> read_at_most (front ++ rest) limit = None.
Proof.
  intros H0 Hl. unfold read_at_most. rewrite read_loop_spec by done. simpl. rewrite concat_app.
  destruct (Z.leb_spec (Z.of_nat (length (concat front ++ concat rest))) limit) as [H|]; [|done]. rewrite length_app in H. lia.
Qed.

Section images.
Context {BF : BitmapFactory}.

(** What the policy accepts.  Both products of the 64-bit arithmetic stay in
    range: the first because the sides have 32 bits, the second because it is
    only computed when the first passed. *)
Record accepted (data : bytes) (mime : string) : Prop := {
  ac_size : (0 < Z.of_nat (length data) <= MAX_IMAGE_BYTES)%Z;
  ac_bounds : exists w h, decode_bounds data = (w, h, Some mime) /\ (0 < w /\ 0 < h /\ w * h <= MAX_IMAGE_PIXELS)%Z;
  ac_mime : starts_with_image mime = true
}.

Lemma image_mime_type_Some data mime : image_mime_type data = Some mime -> accepted data mime.
Proof.
  unfold image_mime_type. case_bool_decide as Hd; [done|]. simpl.
  destruct (Z.ltb_spec MAX_IMAGE_BYTES (Z.of_nat (length data))); [done|].
  destruct (decode_bounds data) as [[w h] m] eqn:Eb. destruct (Z.leb_spec w 0); [done|]. destruct (Z.leb_spec h 0); [done|]. simpl.
  destruct (Z.ltb_spec MAX_IMAGE_PIXELS (w * h)); [done|]. simpl. destruct (_ <? _)%Z; [done|].
  destruct m as [m|]; [|done]. destruct (starts_with_image m) eqn:Em; [|done]. intros [= <-].
  split; [|exists w, h; split_and!; [done|lia..]|done]. destruct data; [done|]. simpl. simpl in *. lia.
Qed.

Lemma pixels_in_range data :
  i64_range ((decode_bounds data).1.1 * (decode_bounds data).1.2).
Proof. destruct (bounds_int data) as [Hw Hh]. unfold i64_range, i64_min, i64_max. nia. Qed.

(** What is captured from the clipboard is bounded and intact: a text is
    not empty; an image has the bytes of the stream, all of them, at most
    10 MiB and at most fifty megapixels, and an image type; and a stream of
    more than 10 MiB is refused as too large however long it is, after the
    first read that exceeds the limit. *)
Theorem capture_bounded clip :
  match capture_read clip with
  | CapReady (ApText text) => text <> ""%string
  | CapReady (ApImage data) => exists mime provider description chunks rest,
      clip = Some (ItemUri provider description (Some chunks) :: rest) /\ data = concat chunks /\ accepted data mime
  | CapOversize => exists provider description chunks rest,
      clip = Some (ItemUri provider description (Some chunks) :: rest) /\
      (MAX_IMAGE_BYTES < Z.of_nat (length (concat chunks)))%Z /\
      forall more, read_at_most (chunks ++ more) MAX_IMAGE_BYTES = None
  | CapEmpty => clip = None \/ clip = Some []
  | CapUnsupported => True
  end.
Proof.
  destruct clip as [[|[provider description stream|[text|]] rest]|]; simpl; [auto| |by case_bool_decide|done|auto].
  unfold read_image_uri. destruct (match provider with Some m => _ | None => _ end) as [m|]; [|done].
  destruct (starts_with_image m); [|done]. simpl. destruct stream as [chunks|]; [|done].
  destruct (read_at_most chunks MAX_IMAGE_BYTES) as [data|] eqn:E.
  - destruct (image_mime_type data) as [mime|] eqn:Em; [|done]. unfold read_at_most in E. rewrite read_loop_spec in E by done.
    simpl in E. destruct (_ <=? _)%Z; [|done]. simplify_eq. apply image_mime_type_Some in Em. eauto 10.
  - exists provider, description, chunks, rest. unfold read_at_most in E. rewrite read_loop_spec in E by done. simpl in E.
    destruct (Z.leb_spec (Z.of_nat (length (concat chunks))) MAX_IMAGE_BYTES); [done|]. split_and!; [done|done|].
    intros more. by apply read_at_most_stops.
Qed.

(** *** Received images *)

Definition visible (dir : list dir_file) : list dir_file := List.filter (fun f => negb (hidden f)) dir.

Lemma elem_of_list_filter_b {A} (p : A -> bool) (x : A) l : x ∈ List.filter p l <-> p x = true /\ x ∈ l.
Proof. rewrite !list_elem_of_In. rewrite List.filter_In. tauto. Qed.

Lemma filter_b_comm {A} (p q : A -> bool) (l : list A) : List.filter p (List.filter q l) = List.filter q (List.filter p l).
Proof. induction l as [|x l IH]; simpl; [done|]. destruct (p x) eqn:Ep, (q x) eqn:Eq; simpl; rewrite ?Ep, ?Eq, ?IH; done. Qed.

Lemma filter_b_perm {A} (p : A -> bool) (l l' : list A) : l ≡ₚ l' -> List.filter p l ≡ₚ List.filter p l'.
Proof.
  induction 1 as [|x l l' _ IH|x y l|l1 l2 l3 _ IH1 _ IH2]; simpl; [done| | |by etrans].
  - destruct (p x); by rewrite IH.
  - destruct (p x), (p y); done || apply Permutation_swap.
Qed.

Lemma cleanup_deletes_elem now dir name :
  name ∈ cleanup_deletes now dir <-> exists i f, visible_sorted dir !! i = Some f /\ too_old now i f = true /\ name = df_name f.
Proof.
  unfold cleanup_deletes. rewrite list_elem_of_In, in_concat. setoid_rewrite <- list_elem_of_In. split.
  - intros (names & Hin & Hn). apply list_elem_of_lookup in Hin as [i Hi]. rewrite list_lookup_imap in Hi.
    destruct (visible_sorted dir !! i) as [f|] eqn:E; simplify_eq/=. destruct (too_old now i f) eqn:Et; [|by apply not_elem_of_nil in Hn].
    apply list_elem_of_singleton in Hn as ->. eauto.
  - intros (i & f & Hi & Ht & ->). exists [df_name f]. split; [|left]. apply list_elem_of_lookup. exists i.
    rewrite list_lookup_imap, Hi. simpl. by rewrite Ht.
Qed.

(** At most ten visible files are left. *)
Lemma cleanup_bounded now dir : length (visible (cleanup now dir)) <= MAX_FILES.
Proof.
  unfold visible, cleanup. rewrite filter_b_comm. fold (visible dir).
  assert (visible_sorted dir ≡ₚ visible dir) as Hp by apply sorted_by_descending_perm.
  rewrite <- (filter_b_perm _ _ _ Hp). rewrite <- (take_drop MAX_FILES (visible_sorted dir)), List.filter_app, length_app.
  assert (List.filter (fun f => negb (bool_decide (df_name f ∈ cleanup_deletes now dir))) (drop MAX_FILES (visible_sorted dir)) = []) as ->.
  { apply elem_of_nil_inv. intros f [Hf Hin]%elem_of_list_filter_b. apply negb_true_iff, bool_decide_eq_false in Hf. apply Hf.
    apply list_elem_of_lookup in Hin as [i Hi]. rewrite lookup_drop in Hi. apply cleanup_deletes_elem. exists (MAX_FILES + i), f.
    split_and!; [done| |done]. unfold too_old. by rewrite (proj2 (Nat.leb_le MAX_FILES (MAX_FILES + i))) by lia. }
  simpl. rewrite Nat.add_0_r. etrans; [apply List.filter_length_le|]. rewrite length_take. lia.
Qed.

Lemma elem_of_delete_file f name dir : f ∈ delete_file name dir <-> df_name f <> name /\ f ∈ dir.
Proof. unfold delete_file. by rewrite elem_of_list_filter_b, negb_true_iff, bool_decide_eq_false. Qed.

Lemma elem_of_cleanup f now dir : f ∈ cleanup now dir -> f ∈ dir.
Proof. unfold cleanup. by intros [_ ?]%elem_of_list_filter_b. Qed.

(** A cleanup spares a file that is newer than all others and not a day old. *)
Lemma cleanup_keeps_newest now f others :
  hidden f = false -> (now - df_modified f <= MAX_AGE_MS)%Z ->
  Forall (fun g => df_name g <> df_name f /\ (hidden g = false -> df_modified g < df_modified f)%Z) others ->
  f ∈ cleanup now (f :: others).
Proof.
  intros Hh Ha Ho. unfold cleanup. apply elem_of_list_filter_b. split; [|left].
  apply negb_true_iff, bool_decide_eq_false. intros Hin. apply cleanup_deletes_elem in Hin as (i & g & Hi & Ht & Hn).
  unfold visible_sorted in Hi. simpl in Hi. rewrite Hh in Hi. simpl in Hi.
  destruct (sorted_by_descending_head df_modified f (List.filter (fun f => negb (hidden f)) others)) as (rest & E & Hp).
  { apply Forall_forall. intros g' [Hg Hin]%elem_of_list_filter_b. rewrite Forall_forall in Ho. apply (Ho g' Hin).
    by apply negb_true_iff. }
  rewrite E in Hi. destruct i as [|i]; simplify_eq/=.
  - unfold too_old in Ht. simpl in Ht. apply Z.ltb_lt in Ht. lia.
  - apply list_elem_of_lookup_2 in Hi. rewrite Hp in Hi. apply elem_of_list_filter_b in Hi as [_ Hg].
    rewrite Forall_forall in Ho. by destruct (Ho g Hg).
Qed.

(** A received image is there when the clip refers to it.  When [save]
    succeeds, at most ten visible files remain; and if the files there are
    older than the new one and less than a day passed meanwhile, the new file
    is one of them, with all its bytes, under the name that was returned, and
    every other file was there before. *)
Theorem received_image_kept e id data mime dir dest dir' :
  save e id data mime dir = (Ok dest, dir') -> String.prefix "." dest = false ->
  length (visible dir') <= MAX_FILES /\
  (Forall (fun f => hidden f = false -> df_modified f < sv_modified e)%Z dir -> (sv_after e - sv_modified e <= MAX_AGE_MS)%Z ->
   {| df_name := dest; df_modified := sv_modified e; df_data := data |} ∈ dir' /\
   forall f, f ∈ dir' -> df_name f <> dest -> f ∈ dir).
Proof.
  unfold save. destruct (sv_write_throws e); [done|]. destruct (existsb _ _ && _); [done|].
  destruct (negb (sv_rename_ok e)); [done|]. intros [= <- <-] Hh. split; [apply cleanup_bounded|]. intros Hold Hage.
  set (dest := (id +:+ "." +:+ image_extension mime)%string) in *. set (temp := ("." +:+ id +:+ ".tmp")%string).
  set (dir0 := cleanup (sv_before e) dir). set (new := {| df_name := dest |}).
  assert (forall g, g ∈ delete_file dest (delete_file temp (delete_file dest (put_file
    {| df_name := temp; df_modified := sv_modified e; df_data := data |} dir0))) -> df_name g <> dest /\ g ∈ dir) as Hrest.
  { intros g [Hd [Ht [_ Hin]%elem_of_delete_file]%elem_of_delete_file]%elem_of_delete_file. split; [done|].
    apply elem_of_cons in Hin as [->|[_ Hin]%elem_of_delete_file]; [by destruct Ht|]. by eapply elem_of_cleanup. }
  split.
  - unfold put_file at 1. apply cleanup_keeps_newest; [done|done|]. apply Forall_forall. intros g Hg.
    destruct (Hrest g Hg) as [Hn Hin]. split; [done|]. rewrite Forall_forall in Hold. apply (Hold g Hin).
  - intros f Hf Hn. apply elem_of_cleanup in Hf. unfold put_file at 1 in Hf.
    apply elem_of_cons in Hf as [->|Hf]; [by destruct Hn|]. by apply Hrest.
Qed.

(** Whatever the cleanup deletes, no other image stands under the name. *)
Lemma saved_data e id data mime dir dest dir' f :
  save e id data mime dir = (Ok dest, dir') -> f ∈ dir' -> df_name f = dest -> df_data f = data.
Proof.
  unfold save. destruct (sv_write_throws e); [done|]. destruct (existsb _ _ && _); [done|].
  destruct (negb (sv_rename_ok e)); [done|]. intros [= <- <-] Hf%elem_of_cleanup Hn. unfold put_file at 1 in Hf.
  apply elem_of_cons in Hf as [->|[Hd _]%elem_of_delete_file]; [done|]. by destruct Hd.
Qed.

(** *** The gallery *)

Lemma drop_fresh uri rows row :
  uri ∉ mr_uri <$> rows -> mr_uri row = uri -> drop_row uri (rows ++ [row]) = rows.
Proof.
  intros Hu <-. unfold drop_row. rewrite List.filter_app. simpl. rewrite Nat.eqb_refl. simpl. rewrite app_nil_r.
  induction rows as [|r rows IH]; [done|]. simpl in *. apply not_elem_of_cons in Hu as [Hn Hu].
  destruct (Nat.eqb_spec (mr_uri r) (mr_uri row)); [congruence|]. simpl. by rewrite IH.
Qed.

Lemma set_fresh uri f rows row :
  uri ∉ mr_uri <$> rows -> mr_uri row = uri -> set_row uri f (rows ++ [row]) = rows ++ [f row].
Proof.
  intros Hu <-. unfold set_row. rewrite fmap_app. simpl. rewrite Nat.eqb_refl. f_equal.
  induction rows as [|r rows IH]; [done|]. simpl in *. apply not_elem_of_cons in Hu as [Hn Hu].
  destruct (Nat.eqb_spec (mr_uri r) (mr_uri row)); [congruence|]. f_equal. by apply IH.
Qed.

Lemma drop_inserted found uri rows row :
  uri ∉ mr_uri <$> rows -> mr_uri row = uri ->
  resolver_call found (drop_row uri) (rows ++ [row]) = rows \/
  (found <> Some true /\ resolver_call found (drop_row uri) (rows ++ [row]) = rows ++ [row]).
Proof. intros Hu Hr. destruct found as [[]|]; simpl; [|auto..]. left. by apply drop_fresh. Qed.

(** C33. Saving an image to the gallery.  It is saved once: when a finished
    entry of its name is found, success is reported and nothing changes.
    Otherwise success means one new entry with all the bytes, published
    unless the call that publishes it found no row; and failure leaves the
    gallery as before, or, where the removal of the unfinished entry threw or
    found no row, with that entry still pending, out of sight.  The entries
    that were there never change. *)
Theorem gallery_all_or_nothing e id data mime rows saved rows' :
  (forall uri, me_insert e = Some uri -> uri ∉ mr_uri <$> rows) ->
  gallery_save e id data mime rows = (saved, rows') ->
  let name := ("clipsync_" +:+ id +:+ "." +:+ image_extension mime)%string in
  let known := exists r, r ∈ rows /\ mr_name r = name /\ mr_pending r = false in
  (me_query_throws e = false -> known -> saved = true /\ rows' = rows) /\
  (if saved
   then (rows' = rows /\ known) \/
        (exists uri published, me_update e = Some published /\
           rows' = rows ++ [{| mr_uri := uri; mr_name := name; mr_pending := negb published; mr_data := data |}])
   else rows' = rows \/
        (exists row, (me_delete e <> Some true \/ me_delete_caught e <> Some true) /\
           mr_name row = name /\ mr_pending row = true /\ rows' = rows ++ [row])).
Proof.
  intros Hfresh H name known.
  assert (media_exists e name rows = true <-> me_query_throws e = false /\ known) as Hex.
  { unfold media_exists. destruct (me_query_throws e); [by split; [|intros [? _]]|]. rewrite existsb_exists.
    split; [intros (r & Hr & Hb)|intros [_ (r & Hr & Hn & Hp)]].
    - apply andb_prop in Hb as [Hn Hp]. split; [done|]. exists r. rewrite list_elem_of_In.
      split_and!; [done|by apply bool_decide_eq_true in Hn|by apply negb_true_iff in Hp].
    - exists r. rewrite <-list_elem_of_In, bool_decide_eq_true_2, Hp by done. done. }
  unfold gallery_save, write_once in H. cbv zeta in H. fold name in H.
  destruct (media_exists e name rows); simpl in H.
  { injection H as <- <-. destruct (proj1 Hex eq_refl). split; [done|]. by left. }
  split; [intros Hq Hk; by discriminate (proj2 Hex (conj Hq Hk))|]. clear Hex.
  destruct (me_insert_throws e); [injection H as <- <-; by left|].
  destruct (me_insert e) as [uri|]; [|injection H as <- <-; by left]. specialize (Hfresh uri eq_refl).
  assert (forall found row, mr_uri row = uri -> mr_name row = name -> mr_pending row = true ->
    (found = me_delete e \/ found = me_delete_caught e) ->
    let rows1 := resolver_call found (drop_row uri) (rows ++ [row]) in
    rows1 = rows \/ exists row', (me_delete e <> Some true \/ me_delete_caught e <> Some true) /\
      mr_name row' = name /\ mr_pending row' = true /\ rows1 = rows ++ [row']) as Hdrop.
  { intros found row Hu Hn Hp Hf. destruct (drop_inserted found uri rows row Hfresh Hu) as [?|[? ->]]; [by left|].
    right. exists row. by destruct Hf as [-> | ->]; auto. }
  unfold write_row, publish_row in H. destruct (me_write_throws e) as [part|].
  { rewrite (set_fresh uri) in H by done. injection H as <- <-. apply Hdrop; auto. }
  destruct (me_stream_missing e).
  { destruct (me_delete e) as [b|]; injection H as <- <-; [apply (Hdrop (Some b) {| mr_uri := uri |})|apply Hdrop]; auto. }
  rewrite (set_fresh uri) in H by done. destruct (me_update e) as [[]|]; injection H as <- <-.
  - right. exists uri, true. simpl. by rewrite (set_fresh uri).
  - right. by exists uri, false.
  - apply Hdrop; auto.
Qed.

(** *** The clipboard *)

(** A failure leaves the clipboard as it was; a success puts what was asked
    for, an image only after its file was stored. *)
Lemma writer_apply_spec e m id payload p r p' :
  writer_apply e m id payload p = (r, p') ->
  match r with
  | Err _ => ph_clip p' = ph_clip p
  | Ok _ =>
      match payload with
      | ApText text => ph_clip p' = Some (ClipPlainText text)
      | ApImage data => exists mime file, ph_clip p' = Some (ClipImage mime file) /\ accepted data mime /\
          save e id data mime (ph_dir p) = (Ok file, ph_dir p')
      end
  end.
Proof.
  unfold writer_apply, image_clip. destruct payload as [text|data]; [by intros [= <- <-]|].
  destruct (image_mime_type data) as [mime|] eqn:Em; [|by intros [= <- <-]].
  destruct (save e id data mime (ph_dir p)) as [[file|err] dir] eqn:Es; [|by intros [= <- <-]].
  intros [= <- <-]. exists mime, file. split_and!; [done|by apply image_mime_type_Some|done].
Qed.
End images.

Lemma utf16_digits l :
  Forall (fun b => is_ascii_digit b = true) l -> utf16_units l = bval <$> l /\ forallb is_digit (bval <$> l) = true.
Proof.
  induction 1 as [|b l Hb _ [IH1 IH2]]; [done|]. cbn [utf16_units fmap list_fmap forallb].
  unfold is_ascii_digit, in_range in Hb. apply andb_prop in Hb as [H1%Z.leb_le H2%Z.leb_le].
  destruct (Z.ltb_spec (bval b) 128); [|lia]. rewrite IH1. split; [done|]. apply andb_true_intro. split; [|exact IH2].
  unfold is_digit, digit_zeros. cbn [existsb].
  destruct (Z.leb_spec 48 (bval b)); [|lia]. by destruct (Z.leb_spec (bval b) (48 + 9)); [|lia].
Qed.

(** Every code the core computes can be confirmed. *)
Lemma core_sas_confirmable `{Sha256} nonce (a b : PubBundle) : can_confirm (PuSasReady (sas_code nonce a b)) = true.
Proof.
  destruct (rendezvous_symmetric nonce a b) as (_ & _ & _ & _ & Hd). unfold can_confirm. cbv zeta.
  destruct (utf16_digits (as_bytes (sas_code nonce a b))) as [E1 E2]; [done|]. rewrite E1, E2, andb_true_r, length_fmap.
  unfold sas_code, six_digits. by rewrite as_bytes_str.
Qed.

Module AndroidToy.

Definition file (name : string) (modified : Z) : dir_file := {| df_name := name; df_modified := modified; df_data := [] |}.
Definition good_env (modified : Z) : save_env :=
  {| sv_before := modified; sv_modified := modified; sv_after := modified; sv_write_throws := None; sv_delete_ok := true; sv_rename_ok := true |}.

Definition photo : bytes := ["137"%byte; "080"%byte].

Lemma received_image_kept_witness :
  file "a.png" 5 ∈ [file "b.png" 3; file "a.png" 5] /\
  {| df_name := "c.jpg"; df_modified := 9; df_data := photo |} ∈ (save (good_env 9) "c" photo "image/jpeg" [file "b.png" 3; file "a.png" 5]).2.
Proof.
  split; [right; left|].
  refine (proj1 (proj2 (received_image_kept (good_env 9) "c" photo "image/jpeg" [file "b.png" 3; file "a.png" 5] "c.jpg"
    (save (good_env 9) "c" photo "image/jpeg" [file "b.png" 3; file "a.png" 5]).2 _ _) _ _)).
  - vm_compute. reflexivity.
  - reflexivity.
  - repeat constructor.
  - vm_compute. discriminate.
Defined.

Definition no_trouble : media_env :=
  {| me_query_throws := false; me_insert := Some 7; me_insert_throws := false; me_stream_missing := false;
     me_write_throws := None; me_update := Some true; me_delete := Some true; me_delete_caught := Some true |}.

(** The entry is inserted and written, but publishing finds no row. *)
Definition update_finds_nothing : media_env :=
  {| me_query_throws := false; me_insert := Some 7; me_insert_throws := false; me_stream_missing := false;
     me_write_throws := None; me_update := Some false; me_delete := Some true; me_delete_caught := Some true |}.
Definition other_image : media_row := {| mr_uri := 3; mr_name := "other.png"; mr_pending := false; mr_data := [] |}.

Lemma gallery_all_or_nothing_witness :
  (gallery_save update_finds_nothing "1" photo "image/png" [other_image]).2 = [other_image] /\
    (exists r, r ∈ [other_image] /\ mr_name r = "clipsync_1.png"%string /\ mr_pending r = false) \/
  exists uri published, Some false = Some published /\
    (gallery_save update_finds_nothing "1" photo "image/png" [other_image]).2 =
    [other_image] ++ [{| mr_uri := uri; mr_name := "clipsync_1.png"; mr_pending := negb published; mr_data := photo |}].
Proof.
  refine (proj2 (gallery_all_or_nothing update_finds_nothing "1" photo "image/png" [other_image] true
    (gallery_save update_finds_nothing "1" photo "image/png" [other_image]).2 _ _)).
  - intros uri [= <-]. simpl. rewrite not_elem_of_cons. split; [discriminate|apply not_elem_of_nil].
  - reflexivity.
Defined.

(** After the clock was set back a received image is lost at once: ten
    files that carry later times push the new one out of the ten that are
    kept, in the same call that reports it saved, and the clip refers to a
    file that is gone. *)
Theorem clock_back_loses_image :
  let dir := (fun n => file (str_of_bytes [n] +:+ ".png") 1000) <$> as_bytes "0123456789" in
  exists dir', save (good_env 500) "new" photo "image/png" dir = (Ok "new.png"%string, dir') /\
    Forall (fun f => df_name f <> "new.png"%string) dir'.
Proof. eexists. split; [vm_compute; reflexivity|]. by repeat constructor. Qed.

(** A temporary file of a write that failed stays: it is hidden from every
    later cleanup, however old it gets. *)
Theorem temporary_file_stays now :
  let e := {| sv_before := 1; sv_modified := 1; sv_after := 1; sv_write_throws := Some photo; sv_delete_ok := true; sv_rename_ok := true |} in
  df_name <$> cleanup now (save e "new" photo "image/png" []).2 = [".new.tmp"%string].
Proof. reflexivity. Qed.
End AndroidToy.
