(* ===== verification/AndroidCore.v ===== *)
(** * The core's life on Android ([ClipSyncApp.kt])

    The application keeps one [CoreSlot] behind a lock.  The main thread
    starts, stops and sends; the work runs on the one thread of the executor;
    failed starts are retried later.  Each [synchronized] block is a function
    of the slot; [android_step] interleaves the two threads between the blocks.

    A send is a number; a gateway (the native handle) is a number.  What the
    core does is chosen by the step: whether the handle can be created, the
    pairing loaded and the history read, and what a send returns.  An
    exception out of an executor task ends only that task: the scheduled
    executor keeps it in the task's future, which nobody reads.  The state
    shown to the user is in [AndroidUi]; the delay of a retry is in [Backoff]. *)

From S2P Require Import Prelude Android.

Set Default Goal Selector "!".

Definition MAX_PENDING_SENDS : nat := 8.

Record CoreSlot := {
  generation : nat; start_scheduled : bool; ready : bool; retry_attempt : nat; gateway : option nat; pending_sends : list nat
}.

(** [CoreSlot(generation = …)] *)
Definition slot_new (g : nat) : CoreSlot := {|
  generation := g; start_scheduled := false; ready := false; retry_attempt := 0; gateway := None; pending_sends := [] |}.

(** ** The synchronized blocks *)

(** [startCoreAfterForeground], before the task: the generation to start, if any. *)
Definition start_request (s : CoreSlot) : option nat * CoreSlot :=
  if ready s || start_scheduled s then (None, s)
  else (Some (generation s),
        {| generation := generation s; start_scheduled := true; ready := ready s; retry_attempt := retry_attempt s;
           gateway := gateway s; pending_sends := pending_sends s |}).

(** The first block of the task: the gateway, an existing one or a new one;
    [created] is the new native handle, or [None] when its constructor throws. *)
Inductive section_end := Return | Throw | Continue (gw : nat).

Definition start_gateway (g : nat) (created : option nat) (s : CoreSlot) : section_end * CoreSlot :=
  if negb (generation s =? g) || negb (start_scheduled s) then (Return, s)
  else
    match gateway s with
    | Some gw => (Continue gw, s)
    | None =>
        match created with
        | None => (Throw, s)
        | Some gw =>
            (Continue gw,
             {| generation := generation s; start_scheduled := start_scheduled s; ready := ready s;
                retry_attempt := retry_attempt s; gateway := Some gw; pending_sends := pending_sends s |})
        end
    end.

(** The block after the core started: the sends that waited, if still current. *)
Definition start_done (g : nat) (s : CoreSlot) : option (list nat) * CoreSlot :=
  if negb (generation s =? g) then (None, s)
  else (Some (pending_sends s),
        {| generation := generation s; start_scheduled := false; ready := true; retry_attempt := 0;
           gateway := gateway s; pending_sends := [] |}).

(** The block of the catch: the token of the retry and the sends to refuse. *)
Definition start_failed (g : nat) (s : CoreSlot) : option (nat * list nat) * CoreSlot :=
  if generation s =? g then
    (Some (retry_attempt s + 1, pending_sends s),
     {| generation := generation s; start_scheduled := false; ready := false; retry_attempt := retry_attempt s + 1;
        gateway := gateway s; pending_sends := [] |})
  else (None, s).

(** [stopCore]. *)
Definition stop_core (s : CoreSlot) : option nat * list nat * CoreSlot :=
  (gateway s, pending_sends s, slot_new (generation s + 1)).

(** [send]: queued, refused, or handed to the gateway. *)
Inductive send_end := Queued | Refused | Hand (gw : nat).

Definition send_request (id : nat) (s : CoreSlot) : send_end * CoreSlot :=
  if ready s then (match gateway s with Some gw => Hand gw | None => Refused end, s)
  else if (length (pending_sends s) <? MAX_PENDING_SENDS)%nat then
    (Queued, {| generation := generation s; start_scheduled := start_scheduled s; ready := ready s;
                retry_attempt := retry_attempt s; gateway := gateway s; pending_sends := pending_sends s ++ [id] |})
  else (Refused, s).

(** [scheduleCoreRetry], when the delay is over. *)
Definition should_retry (g token : nat) (s : CoreSlot) : bool :=
  (generation s =? g)%nat && (retry_attempt s =? token)%nat && negb (ready s) && negb (start_scheduled s).

(** ** The two threads *)

Inductive task := TStart (g : nat) | TSend (id gw : nat) | TShutdown (gw : nat) | TRetry (g token : nat).

(** Where the main thread is between a block and [executor.execute]. *)
Inductive main_pc := MStart (g : nat) | MStop (gw : nat) | MSend (id gw : nat).

(** Where the executor is inside a task. *)
Inductive exec_pc := ELoading (g gw : nat) | EFlush (g gw : nat) (rest : list nat) | ERetry | EStart (g : nat).

Record android := {
  a_slot : CoreSlot; a_main : option main_pc; a_exec : option exec_pc; a_queue : list task; a_delayed : list task;
  a_submitted : list nat; a_completed : list (nat * SendResult); a_lost : list nat; a_live : list nat
}.

Definition android_new : android := {|
  a_slot := slot_new 0; a_main := None; a_exec := None; a_queue := []; a_delayed := [];
  a_submitted := []; a_completed := []; a_lost := []; a_live := [] |}.

Definition unavailable (ids : list nat) : list (nat * SendResult) := (fun id => (id, SrServiceUnavailable)) <$> ids.

(** The catch of the start task: the sends that waited are refused and a retry
    is scheduled; [lost] are those the task had taken and not yet answered. *)
Definition catch_start (g : nat) (lost : list nat) (a : android) : android :=
  match start_failed g (a_slot a) with
  | (Some (token, pending), s) =>
      {| a_slot := s; a_main := a_main a; a_exec := None; a_queue := a_queue a; a_delayed := TRetry g token :: a_delayed a;
         a_submitted := a_submitted a; a_completed := a_completed a ++ unavailable pending; a_lost := a_lost a ++ lost;
         a_live := a_live a |}
  | (None, s) =>
      {| a_slot := s; a_main := a_main a; a_exec := None; a_queue := a_queue a; a_delayed := a_delayed a;
         a_submitted := a_submitted a; a_completed := a_completed a; a_lost := a_lost a ++ lost; a_live := a_live a |}
  end.

Definition with_slot (s : CoreSlot) (a : android) : android :=
  {| a_slot := s; a_main := a_main a; a_exec := a_exec a; a_queue := a_queue a; a_delayed := a_delayed a;
     a_submitted := a_submitted a; a_completed := a_completed a; a_lost := a_lost a; a_live := a_live a |}.
Definition with_main (m : option main_pc) (a : android) : android :=
  {| a_slot := a_slot a; a_main := m; a_exec := a_exec a; a_queue := a_queue a; a_delayed := a_delayed a;
     a_submitted := a_submitted a; a_completed := a_completed a; a_lost := a_lost a; a_live := a_live a |}.
Definition with_exec (e : option exec_pc) (a : android) : android :=
  {| a_slot := a_slot a; a_main := a_main a; a_exec := e; a_queue := a_queue a; a_delayed := a_delayed a;
     a_submitted := a_submitted a; a_completed := a_completed a; a_lost := a_lost a; a_live := a_live a |}.
Definition with_queue (q : list task) (a : android) : android :=
  {| a_slot := a_slot a; a_main := a_main a; a_exec := a_exec a; a_queue := q; a_delayed := a_delayed a;
     a_submitted := a_submitted a; a_completed := a_completed a; a_lost := a_lost a; a_live := a_live a |}.
Definition with_delayed (d : list task) (a : android) : android :=
  {| a_slot := a_slot a; a_main := a_main a; a_exec := a_exec a; a_queue := a_queue a; a_delayed := d;
     a_submitted := a_submitted a; a_completed := a_completed a; a_lost := a_lost a; a_live := a_live a |}.
Definition complete (done : list (nat * SendResult)) (a : android) : android :=
  {| a_slot := a_slot a; a_main := a_main a; a_exec := a_exec a; a_queue := a_queue a; a_delayed := a_delayed a;
     a_submitted := a_submitted a; a_completed := a_completed a ++ done; a_lost := a_lost a; a_live := a_live a |}.
Definition submit (id : nat) (a : android) : android :=
  {| a_slot := a_slot a; a_main := a_main a; a_exec := a_exec a; a_queue := a_queue a; a_delayed := a_delayed a;
     a_submitted := a_submitted a ++ [id]; a_completed := a_completed a; a_lost := a_lost a; a_live := a_live a |}.
Definition with_live (l : list nat) (a : android) : android :=
  {| a_slot := a_slot a; a_main := a_main a; a_exec := a_exec a; a_queue := a_queue a; a_delayed := a_delayed a;
     a_submitted := a_submitted a; a_completed := a_completed a; a_lost := a_lost a; a_live := l |}.

(** The calls of the main thread up to [executor.execute]. *)
Definition main_start (a : android) : android :=
  let '(g, s) := start_request (a_slot a) in with_main (MStart <$> g) (with_slot s a).

Definition main_stop (a : android) : android :=
  let '(gw, pending, s) := stop_core (a_slot a) in
  with_main (MStop <$> gw) (complete (unavailable pending) (with_slot s a)).

Definition main_send (id : nat) (a : android) : android :=
  let '(e, s) := send_request id (a_slot a) in
  let a := with_slot s (submit id a) in
  match e with
  | Queued => a
  | Refused => complete [(id, SrServiceUnavailable)] a
  | Hand gw => with_main (Some (MSend id gw)) a
  end.

Definition main_execute (a : android) : android :=
  match a_main a with
  | Some (MStart g) => with_main None (with_queue (a_queue a ++ [TStart g]) a)
  | Some (MStop gw) => with_main None (with_queue (a_queue a ++ [TShutdown gw]) a)
  | Some (MSend id gw) => with_main None (with_queue (a_queue a ++ [TSend id gw]) a)
  | None => a
  end.

(** The executor takes a task: [created] is a new handle if one is needed,
    [result] what a send returns, [shut] whether a shutdown succeeds. *)
Definition exec_take (t : task) (created : option nat) (result : SendResult) (shut : bool) (a : android) : android :=
  match t with
  | TStart g =>
      match start_gateway g created (a_slot a) with
      | (Continue gw, s) =>
          with_exec (Some (ELoading g gw))
            (with_live (if bool_decide (gateway (a_slot a) = None) then gw :: a_live a else a_live a) (with_slot s a))
      | (_, s) => with_slot s a
      end
  | TSend id gw => complete [(id, result)] a
  | TShutdown gw => if shut then with_live (List.filter (fun g => negb (g =? gw)%nat) (a_live a)) a else a
  | TRetry g token => if should_retry g token (a_slot a) then with_exec (Some ERetry) a else a
  end.

(** The start task after the core was loaded. *)
Definition exec_loaded (g gw : nat) (a : android) : android :=
  match start_done g (a_slot a) with
  | (None, s) => with_exec None (with_slot s a)
  | (Some pending, s) => with_exec (Some (EFlush g gw pending)) (with_slot s a)
  end.

(** [sendWithGateway] in the loop of the start task; reading the history after
    a send that went through may throw. *)
Definition exec_flush (g gw id : nat) (rest : list nat) (result : SendResult) (history_throws : bool) (a : android) : android :=
  let a := complete [(id, result)] a in
  match result with
  | SrSent _ => if history_throws then catch_start g rest a else with_exec (Some (EFlush g gw rest)) a
  | _ => with_exec (Some (EFlush g gw rest)) a
  end.

(** The retry calls [startCoreAfterForeground] on the executor's thread. *)
Definition exec_retry (a : android) : android :=
  let '(g, s) := start_request (a_slot a) in with_exec (EStart <$> g) (with_slot s a).

Inductive android_step : android -> android -> Prop :=
| st_start a : a_main a = None -> android_step a (main_start a)
| st_stop a : a_main a = None -> android_step a (main_stop a)
| st_send id a : a_main a = None -> id ∉ a_submitted a -> android_step a (main_send id a)
| st_execute a : is_Some (a_main a) -> android_step a (main_execute a)
| st_take t queue created result shut a :
    a_exec a = None -> a_queue a = t :: queue -> (forall gw, created = Some gw -> gw ∉ a_live a) ->
    android_step a (exec_take t created result shut (with_queue queue a))
| st_loaded g gw a : a_exec a = Some (ELoading g gw) -> android_step a (exec_loaded g gw a)
| st_load_throws g gw a : a_exec a = Some (ELoading g gw) -> android_step a (catch_start g [] a)
| st_flush g gw id rest result throws a :
    a_exec a = Some (EFlush g gw (id :: rest)) -> android_step a (exec_flush g gw id rest result throws a)
| st_flushed g gw a : a_exec a = Some (EFlush g gw []) -> android_step a (with_exec None a)
| st_retry a : a_exec a = Some ERetry -> android_step a (exec_retry a)
| st_retry_execute g a :
    a_exec a = Some (EStart g) -> android_step a (with_exec None (with_queue (a_queue a ++ [TStart g]) a))
| st_delay front t back a :
    a_delayed a = front ++ t :: back -> android_step a (with_queue (a_queue a ++ [t]) (with_delayed (front ++ back) a)).

(** ** Every send is answered once *)

Definition task_sends (t : task) : list nat := match t with TSend id _ => [id] | _ => [] end.
Definition main_sends (m : option main_pc) : list nat := match m with Some (MSend id _) => [id] | _ => [] end.
Definition exec_sends (e : option exec_pc) : list nat := match e with Some (EFlush _ _ rest) => rest | _ => [] end.

(** The sends still under way. *)
Definition in_flight (a : android) : list nat :=
  pending_sends (a_slot a) ++ main_sends (a_main a) ++ concat (task_sends <$> a_queue a) ++ exec_sends (a_exec a).

Definition is_retry (t : task) : Prop := match t with TRetry _ _ => True | _ => False end.

Record sends_ok (a : android) : Prop := {
  ok_sends : a_submitted a ≡ₚ (a_completed a).*1 ++ in_flight a ++ a_lost a;
  ok_nodup : NoDup (a_submitted a);
  ok_pending : length (pending_sends (a_slot a)) <= MAX_PENDING_SENDS;
  ok_delayed : Forall is_retry (a_delayed a)
}.

Lemma unavailable_ids ids : (unavailable ids).*1 = ids.
Proof. unfold unavailable. induction ids as [|id ids IH]; [done|]. simpl. by f_equal. Qed.

(** The sends are the same, in other places. *)
Ltac same_sends H :=
  unfold in_flight; simpl;
  repeat match goal with E : a_main _ = _ |- _ => rewrite E | E : a_exec _ = _ |- _ => rewrite E end;
  rewrite H, ?fmap_app, ?concat_app, ?unavailable_ids; simpl; rewrite ?app_nil_r; solve_Permutation.

Lemma main_start_sends a : a_main a = None -> sends_ok a -> sends_ok (main_start a).
Proof.
  intros Hm [H1 H2 H3 H4]. unfold main_start, start_request. unfold in_flight in H1. rewrite Hm in H1.
  destruct (ready (a_slot a) || start_scheduled (a_slot a)); split; try done; same_sends H1.
Qed.

Lemma main_stop_sends a : a_main a = None -> sends_ok a -> sends_ok (main_stop a).
Proof.
  intros Hm [H1 H2 H3 H4]. unfold main_stop, stop_core. unfold in_flight in H1. rewrite Hm in H1.
  split; try done; [|simpl; lia]. destruct (gateway (a_slot a)); same_sends H1.
Qed.

Lemma main_send_sends id a : a_main a = None -> id ∉ a_submitted a -> sends_ok a -> sends_ok (main_send id a).
Proof.
  intros Hm Hid [H1 H2 H3 H4]. unfold main_send, send_request. unfold in_flight in H1. rewrite Hm in H1.
  assert (NoDup (a_submitted a ++ [id])) as Hn.
  { apply NoDup_app. split_and!; [done| |apply NoDup_singleton]. intros x Hx ->%list_elem_of_singleton. done. }
  destruct (ready (a_slot a)); [destruct (gateway (a_slot a)) as [gw|]|destruct (Nat.ltb_spec (length (pending_sends (a_slot a))) MAX_PENDING_SENDS)];
    split; try done; try (same_sends H1).
  simpl. rewrite length_app. simpl. lia.
Qed.

Lemma main_execute_sends a : sends_ok a -> sends_ok (main_execute a).
Proof.
  intros [H1 H2 H3 H4]. unfold main_execute. unfold in_flight in H1.
  destruct (a_main a) as [[g|gw|id gw]|] eqn:Hm; split; try done; same_sends H1.
Qed.

Lemma catch_start_sends g lost a :
  sends_ok {| a_slot := a_slot a; a_main := a_main a; a_exec := None; a_queue := a_queue a; a_delayed := a_delayed a;
              a_submitted := a_submitted a; a_completed := a_completed a; a_lost := a_lost a ++ lost; a_live := a_live a |} ->
  sends_ok (catch_start g lost a).
Proof.
  intros [H1 H2 H3 H4]. unfold catch_start, start_failed. unfold in_flight in H1. simpl in *.
  destruct (generation (a_slot a) =? g)%nat; split; try done; try (same_sends H1); [simpl; lia|].
  by constructor.
Qed.

Lemma exec_take_sends t queue created r shut a :
  a_exec a = None -> a_queue a = t :: queue -> sends_ok a -> sends_ok (exec_take t created r shut (with_queue queue a)).
Proof.
  intros He Hq [H1 H2 H3 H4]. unfold in_flight in H1. rewrite He, Hq in H1. destruct t as [g|id gw|gw|g token]; simpl.
  - unfold start_gateway. simpl. destruct (_ || _); [split; try done; same_sends H1|].
    destruct (gateway (a_slot a)); [split; try done; same_sends H1|].
    destruct created; split; try done; same_sends H1.
  - split; try done; same_sends H1.
  - destruct shut; split; try done; same_sends H1.
  - destruct (should_retry g token (a_slot a)); split; try done; same_sends H1.
Qed.

Lemma android_step_sends a a' : android_step a a' -> sends_ok a -> sends_ok a'.
Proof.
  intros Hstep Hok. destruct Hstep as [a Hm|a Hm|id a Hm Hid|a Hm|t queue created r shut a He Hq _|g gw a He|g gw a He|
    g gw id rest r throws a He|g gw a He|a He|g a He|front t back a Hd].
  - by apply main_start_sends.
  - by apply main_stop_sends.
  - by apply main_send_sends.
  - by apply main_execute_sends.
  - by apply exec_take_sends.
  - destruct Hok as [H1 H2 H3 H4]. unfold in_flight in H1. rewrite He in H1. unfold exec_loaded, start_done.
    destruct (negb _); split; try done; first [same_sends H1|simpl; lia].
  - apply catch_start_sends. destruct Hok as [H1 H2 H3 H4]. unfold in_flight in H1. rewrite He in H1. split; try done; same_sends H1.
  - destruct Hok as [H1 H2 H3 H4]. unfold in_flight in H1. rewrite He in H1. unfold exec_flush.
    destruct r; try (split; try done; same_sends H1). destruct throws; [apply catch_start_sends|]; split; try done; same_sends H1.
  - destruct Hok as [H1 H2 H3 H4]. unfold in_flight in H1. rewrite He in H1. split; try done; same_sends H1.
  - destruct Hok as [H1 H2 H3 H4]. unfold in_flight in H1. rewrite He in H1. unfold exec_retry, start_request.
    destruct (_ || _); split; try done; same_sends H1.
  - destruct Hok as [H1 H2 H3 H4]. unfold in_flight in H1. rewrite He in H1. split; try done; same_sends H1.
  - destruct Hok as [H1 H2 H3 H4]. rewrite Hd in H4. apply Forall_app in H4 as [Hf [Ht Hb]%Forall_cons].
    unfold in_flight in H1. destruct t; try done. split; [same_sends H1|done|done|by apply Forall_app].
Qed.

(** The slot: a ready core has a gateway, and the start task works on the
    gateway of its generation. *)
Record slot_ok (a : android) : Prop := {
  so_ready : ready (a_slot a) = true -> is_Some (gateway (a_slot a)) /\ start_scheduled (a_slot a) = false;
  so_exec : match a_exec a with
            | Some (ELoading g gw) | Some (EFlush g gw _) =>
                g <= generation (a_slot a) /\ (generation (a_slot a) = g -> gateway (a_slot a) = Some gw)
            | _ => True
            end
}.

Lemma start_request_slot a e :
  match e with Some (ELoading _ _) | Some (EFlush _ _ _) => False | _ => True end ->
  slot_ok a -> slot_ok (with_exec e (with_slot (start_request (a_slot a)).2 a)).
Proof.
  intros He [H1 H2]. unfold start_request. destruct (ready (a_slot a)) eqn:Er; [|destruct (start_scheduled (a_slot a))];
    (split; [|by destruct e as [[]|]]); simpl; intros Hr; first [congruence|by apply H1].
Qed.

Lemma catch_start_slot g lost a : slot_ok a -> slot_ok (catch_start g lost a).
Proof.
  intros [H1 H2]. unfold catch_start, start_failed. destruct (generation (a_slot a) =? g); by split.
Qed.

Lemma slot_ok_same a a' : a_slot a' = a_slot a -> a_exec a' = a_exec a \/ a_exec a' = None -> slot_ok a -> slot_ok a'.
Proof. intros Es Ee [H1 H2]. split; rewrite Es; [done|]. destruct Ee as [-> | ->]; done. Qed.

Lemma android_step_slot a a' : android_step a a' -> slot_ok a -> slot_ok a'.
Proof.
  intros Hstep Hok. destruct Hstep as [a Hm|a Hm|id a Hm Hid|a Hm|t queue created r shut a He Hq _|g gw a He|g gw a He|
    g gw id rest r throws a He|g gw a He|a He|g a He|front t back a Hd].
  - destruct Hok as [H1 H2]. unfold main_start, start_request.
    destruct (ready (a_slot a)) eqn:Er; [|destruct (start_scheduled (a_slot a))]; (split; [|done]); simpl; intros Hr;
      first [congruence|by apply H1].
  - destruct Hok as [H1 H2]. unfold main_stop, stop_core. split; simpl; [done|]. destruct (a_exec a) as [[]|]; auto with lia.
  - destruct Hok as [H1 H2]. unfold main_send, send_request.
    destruct (ready (a_slot a)) eqn:Er; [destruct (match gateway (a_slot a) with Some gw => Hand gw | None => Refused end)|
      destruct (length _ <? _)]; (split; [|done]); simpl; intros Hr; first [congruence|by apply H1].
  - unfold main_execute. destruct (a_main a) as [[]|]; apply (slot_ok_same a); auto.
  - destruct t as [g|id gw|gw|g token]; simpl.
    + unfold start_gateway. simpl. destruct (_ || _) eqn:Eg; [by apply (slot_ok_same a); auto|].
      apply orb_false_iff in Eg as [Eg%negb_false_iff%Nat.eqb_eq Es%negb_false_iff]. destruct Hok as [H1 H2].
      destruct (gateway (a_slot a)) as [gw|] eqn:Ew.
      * split; simpl; [by rewrite Ew|]. split; [lia|done].
      * destruct created as [gw|]; [|split; simpl; by rewrite ?Ew, ?He]. split; simpl; [|split; [lia|done]].
        intros Hr. by destruct (H1 Hr) as [[? ?] _].
    + by apply (slot_ok_same a); auto.
    + destruct shut; by apply (slot_ok_same a); auto.
    + destruct (should_retry _ _ _); [|by apply (slot_ok_same a); auto]. destruct Hok as [H1 H2]. by split.
  - destruct Hok as [H1 H2]. rewrite He in H2. destruct H2 as [Hle Hg]. unfold exec_loaded, start_done.
    destruct (Nat.eqb_spec (generation (a_slot a)) g) as [E|E]; simpl; [|by split].
    split; simpl; [|split; [lia|done]]. intros _. rewrite (Hg E). eauto.
  - by apply catch_start_slot.
  - unfold exec_flush. assert (slot_ok (complete [(id, r)] a)) as Hc by (apply (slot_ok_same a); auto).
    assert (slot_ok (with_exec (Some (EFlush g gw rest)) (complete [(id, r)] a))) as Hf.
    { destruct Hok as [H1 H2]. rewrite He in H2. by split. }
    destruct r; try done. destruct throws; [by apply catch_start_slot|done].
  - by apply (slot_ok_same a); auto.
  - unfold exec_retry. pose proof (start_request_slot a) as H. destruct (start_request (a_slot a)) as [[g|] s]; simpl in *;
      [apply (H (Some (EStart g)))|apply (H None)]; done.
  - by apply (slot_ok_same a); auto.
  - by apply (slot_ok_same a); auto.
Qed.

Lemma android_reachable a : rtc android_step android_new a -> sends_ok a /\ slot_ok a.
Proof.
  intros Hrun. eapply (rtc_ind_r (fun a => sends_ok a /\ slot_ok a)); [| |exact Hrun].
  - split; split; simpl; try done; [constructor|lia].
  - intros b c _ Hs [H1 H2]. split; [by eapply android_step_sends|by eapply android_step_slot].
Qed.

(** Reading the history threw in the loop over the sends that waited. *)
Definition history_threw (a a' : android) : Prop :=
  exists g gw id rest seq, a_exec a = Some (EFlush g gw (id :: rest)) /\ a' = exec_flush g gw id rest (SrSent seq) true a.

Definition calm_step (a a' : android) : Prop := android_step a a' /\ ~ history_threw a a'.

Lemma calm_loses_nothing a a' : calm_step a a' -> a_lost a' = a_lost a.
Proof.
  intros [Hstep Hc]. assert (forall g b, a_lost (catch_start g [] b) = a_lost b) as Hcatch.
  { intros g b. unfold catch_start, start_failed. destruct (_ =? g); simpl; by rewrite app_nil_r. }
  destruct Hstep as [a Hm|a Hm|id a Hm Hid|a Hm|t queue created r shut a He Hq _|g gw a He|g gw a He|
    g gw id rest r throws a He|g gw a He|a He|g a He|front t back a Hd]; try done.
  - unfold main_start, start_request. by destruct (_ || _).
  - unfold main_send, send_request. destruct (ready _); [by destruct (gateway _)|by destruct (_ <? _)].
  - unfold main_execute. by destruct (a_main a) as [[]|].
  - destruct t; simpl; [|done|by destruct shut|by destruct (should_retry _ _ _)]. unfold start_gateway. simpl.
    destruct (_ || _); [done|]. destruct (gateway _); [done|]. by destruct created.
  - unfold exec_loaded, start_done. by destruct (negb _).
  - unfold exec_flush. destruct r as [seq| | | | |]; try done. destruct throws; [|done]. destruct Hc. by exists g, gw, id, rest, seq.
  - unfold exec_retry, start_request. by destruct (_ || _).
Qed.

Lemma calm_run a a' : rtc calm_step a a' -> rtc android_step a a' /\ a_lost a' = a_lost a.
Proof.
  induction 1 as [a|a b c Hs _ [IH1 IH2]]; [done|]. split; [by eapply rtc_l; [apply Hs|]|].
  by rewrite IH2, (calm_loses_nothing _ _ Hs).
Qed.

(** C20. Every send is answered, once.  However the threads interleave and
    whatever fails, no send is answered twice and each is answered, under way
    or lost; at most eight wait; and a core that counts as ready has its
    gateway.  A send is lost only if reading the history throws while the
    sends that waited for the core are handed over: in runs without that,
    when nothing is under way any more, exactly the sends that were submitted
    have been answered. *)
Theorem sends_answered_once a :
  (rtc android_step android_new a ->
     NoDup (a_completed a).*1 /\ a_submitted a ≡ₚ (a_completed a).*1 ++ in_flight a ++ a_lost a /\
     length (pending_sends (a_slot a)) <= MAX_PENDING_SENDS /\
     (ready (a_slot a) = true -> is_Some (gateway (a_slot a)))) /\
  (rtc calm_step android_new a -> in_flight a = [] -> (a_completed a).*1 ≡ₚ a_submitted a).
Proof.
  split.
  - intros [[H1 H2 H3 H4] [H5 _]]%android_reachable. split_and!; [|done|done|naive_solver].
    rewrite H1 in H2. by apply NoDup_app in H2 as [? _].
  - intros [Hrun Hl]%calm_run Hf. apply android_reachable in Hrun as [[H1 _ _ _] _]. rewrite Hl, Hf in H1. simpl in H1.
    by rewrite app_nil_r in H1.
Qed.

(** ** What can go wrong *)

(** The start is marked as scheduled, but no task will run. *)
Definition wedged (a : android) : Prop :=
  start_scheduled (a_slot a) = true /\ ready (a_slot a) = false /\ a_main a = None /\ a_exec a = None /\ a_queue a = [] /\ a_delayed a = [].

Lemma wedged_step a a' : wedged a -> android_step a a' -> a' = main_stop a \/ wedged a'.
Proof.
  intros (Hs & Hr & Hm & He & Hq & Hd) Hstep.
  destruct Hstep as [a _|a _|id a _ _|a [m Hm']|t queue created r shut a _ Hq' _|g gw a He'|g gw a He'|
    g gw id rest r throws a He'|g gw a He'|a He'|g a He'|front t back a Hd']; try congruence; [|by left| |].
  - right. unfold main_start, start_request. rewrite Hr, Hs. by split_and!.
  - right. unfold main_send, send_request. rewrite Hr. destruct (length _ <? _); by split_and!.
  - rewrite Hd in Hd'. by destruct front.
Qed.

Ltac run_step := eapply rtc_l; [first
  [ apply st_start; reflexivity | apply st_execute; eexists; reflexivity ]|].

(** A core that cannot be created is never tried again.  The constructor
    of the native handle is called outside the [try] of the start task; when
    it throws, the start stays marked as scheduled, no retry is scheduled and
    no error is shown; from then on every start is ignored and up to eight
    sends wait without an answer, until the service is stopped. *)
Theorem creation_failure_wedges :
  (exists a, rtc android_step android_new a /\ wedged a /\ a_live a = []) /\
  (forall a a', wedged a -> android_step a a' -> a' = main_stop a \/ wedged a').
Proof.
  split; [|apply wedged_step].
  eexists. split.
  - do 2 run_step. eapply rtc_l; [apply (st_take (TStart 0) [] None SrEmpty true); [reflexivity|reflexivity|done]|]. apply rtc_refl.
  - repeat split.
Qed.

(** Sends that waited can be lost.  Two sends wait for the core; it
    starts, the first goes through, and reading the history fails.  The
    exception leaves the loop: the second send is neither sent nor answered,
    and the running core counts as not started, so that the retry loads and
    starts it a second time. *)
Theorem waiting_send_lost :
  exists a, rtc android_step android_new a /\ a_submitted a = [1; 2] /\ (a_completed a).*1 = [1] /\ a_lost a = [2] /\
    a_live a = [7] /\ a_exec a = Some (ELoading 0 7).
Proof.
  eexists. split.
  - eapply rtc_l; [apply (st_send 1); [reflexivity|set_solver]|]. eapply rtc_l; [apply (st_send 2); [reflexivity|set_solver]|].
    do 2 run_step.
    eapply rtc_l; [apply (st_take (TStart 0) [] (Some 7) SrEmpty true); [reflexivity|reflexivity|set_solver]|].
    eapply rtc_l; [apply (st_loaded 0 7); reflexivity|].
    eapply rtc_l; [apply (st_flush 0 7 1 [2] (SrSent 5) true); reflexivity|].
    eapply rtc_l; [apply (st_delay [] (TRetry 0 1) []); reflexivity|].
    eapply rtc_l; [apply (st_take (TRetry 0 1) [] None SrEmpty true); [reflexivity|reflexivity|done]|].
    eapply rtc_l; [apply st_retry; reflexivity|]. eapply rtc_l; [apply (st_retry_execute 0); reflexivity|].
    eapply rtc_l; [apply (st_take (TStart 0) [] None SrEmpty true); [reflexivity|reflexivity|done]|]. apply rtc_refl.
  - repeat split.
Qed.

(** Stopping may not stick.  The retry decides and starts in two blocks;
    if the main thread stops the core in between, the start goes ahead in the
    new generation.  The main thread is still inside [stopCore], and the core
    is running again, beside the old one that was not shut down yet. *)
Theorem stop_overtaken_by_retry :
  exists b a, rtc android_step android_new b /\ a_main b = None /\ rtc android_step (main_stop b) a /\
    a_main a = Some (MStop 7) /\ ready (a_slot a) = true /\ a_live a = [8; 7].
Proof.
  do 2 eexists. split; [|split; [|split]].
  - do 2 run_step.
    eapply rtc_l; [apply (st_take (TStart 0) [] (Some 7) SrEmpty true); [reflexivity|reflexivity|set_solver]|].
    eapply rtc_l; [apply (st_load_throws 0 7); reflexivity|].
    eapply rtc_l; [apply (st_delay [] (TRetry 0 1) []); reflexivity|].
    eapply rtc_l; [apply (st_take (TRetry 0 1) [] None SrEmpty true); [reflexivity|reflexivity|done]|]. apply rtc_refl.
  - reflexivity.
  - eapply rtc_l; [apply st_retry; reflexivity|]. eapply rtc_l; [apply (st_retry_execute 1); reflexivity|].
    eapply rtc_l; [apply (st_take (TStart 1) [] (Some 8) SrEmpty true); [reflexivity|reflexivity|set_solver]|].
    eapply rtc_l; [apply (st_loaded 1 8); reflexivity|]. apply rtc_refl.
  - repeat split.
Qed.

(** A send that waits for the core and goes through. *)
Lemma sends_answered_once_witness :
  exists a, rtc calm_step android_new a /\ a_submitted a = [1] /\ (a_completed a).*1 ≡ₚ a_submitted a.
Proof.
  assert (exists a, rtc calm_step android_new a /\ a_submitted a = [1] /\ in_flight a = []) as (a & Hrun & Hs & Hf).
  { eexists. split; [|split].
    - eapply rtc_l; [split; [apply (st_send 1); [reflexivity|set_solver]|intros (? & ? & ? & ? & ? & ? & ?); discriminate]|].
      eapply rtc_l; [split; [apply st_start; reflexivity|intros (? & ? & ? & ? & ? & ? & ?); discriminate]|].
      eapply rtc_l; [split; [apply st_execute; eexists; reflexivity|intros (? & ? & ? & ? & ? & ? & ?); discriminate]|].
      eapply rtc_l; [split; [apply (st_take (TStart 0) [] (Some 7) SrEmpty true); [reflexivity|reflexivity|set_solver]|
        intros (? & ? & ? & ? & ? & ? & ?); discriminate]|].
      eapply rtc_l; [split; [apply (st_loaded 0 7); reflexivity|intros (? & ? & ? & ? & ? & ? & ?); discriminate]|].
      eapply rtc_l; [split; [apply (st_flush 0 7 1 [] (SrSent 5) false); reflexivity|]|].
      { intros (g & gw & id & rest & seq & E & H). vm_compute in E. injection E as <- <- <- <-. discriminate H. }
      apply rtc_refl.
    - reflexivity.
    - reflexivity. }
  exists a. split; [exact Hrun|]. split; [exact Hs|]. exact (proj2 (sends_answered_once a) Hrun Hf).
Defined.
