(* ===== verification/AndroidUi.v ===== *)
(** * The Android application ([ClipSyncApp.kt], [CoreGateway.kt])

    Every method of [ClipSyncApp] is a program [prog] over what it touches: the
    state shown to the user (a [MutableStateFlow], read and written in separate
    steps, as [value = value.copy(…)] does), the [CoreSlot] behind its lock
    (the blocks are those of [AndroidCore]), the core behind its gateway, the
    clipboard, the preferences and the executor.  [ui_do] interleaves the
    programs of the main thread, of the threads the core calls back on and of
    the executor, one such step at a time, and keeps a trace.

    What the platform and the core answer is chosen by an [oracle].  A thrown
    exception is [Err] with its message.  A send is a number, [payload_of] its
    payload.  Logging is left out; the delay of a retry is in [Backoff]. *)

From S2P Require Import Prelude Interfaces Protocol Crypto Dispatcher Android AndroidCore.
From Stdlib Require Import Strings.Byte Sorted.

Set Default Goal Selector "!".
#[local] Open Scope clip_scope.
Create HintDb android.

(** ** The state shown *)

Inductive NotificationState := NsRestricted | NsVisible.

Record ClipSyncUiState := {
  ui_core_status : string; ui_notification : NotificationState; ui_pairing : PairingUiState;
  ui_history : list CoreHistoryItem; ui_history_loading : bool; ui_last_error : option string
}.

Definition ui_default : ClipSyncUiState := {|
  ui_core_status := "未配对"; ui_notification := NsVisible; ui_pairing := PuUnpaired;
  ui_history := []; ui_history_loading := false; ui_last_error := None |}.

(** [copy(coreStatus = …)] and so on. *)
Definition copy_status (x : string) (u : ClipSyncUiState) : ClipSyncUiState := {|
  ui_core_status := x; ui_notification := ui_notification u; ui_pairing := ui_pairing u;
  ui_history := ui_history u; ui_history_loading := ui_history_loading u; ui_last_error := ui_last_error u |}.
Definition copy_notification (x : NotificationState) (u : ClipSyncUiState) : ClipSyncUiState := {|
  ui_core_status := ui_core_status u; ui_notification := x; ui_pairing := ui_pairing u;
  ui_history := ui_history u; ui_history_loading := ui_history_loading u; ui_last_error := ui_last_error u |}.
Definition copy_pairing (x : PairingUiState) (u : ClipSyncUiState) : ClipSyncUiState := {|
  ui_core_status := ui_core_status u; ui_notification := ui_notification u; ui_pairing := x;
  ui_history := ui_history u; ui_history_loading := ui_history_loading u; ui_last_error := ui_last_error u |}.
Definition copy_history (x : list CoreHistoryItem) (u : ClipSyncUiState) : ClipSyncUiState := {|
  ui_core_status := ui_core_status u; ui_notification := ui_notification u; ui_pairing := ui_pairing u;
  ui_history := x; ui_history_loading := ui_history_loading u; ui_last_error := ui_last_error u |}.
Definition copy_loading (x : bool) (u : ClipSyncUiState) : ClipSyncUiState := {|
  ui_core_status := ui_core_status u; ui_notification := ui_notification u; ui_pairing := ui_pairing u;
  ui_history := ui_history u; ui_history_loading := x; ui_last_error := ui_last_error u |}.
Definition copy_error (x : option string) (u : ClipSyncUiState) : ClipSyncUiState := {|
  ui_core_status := ui_core_status u; ui_notification := ui_notification u; ui_pairing := ui_pairing u;
  ui_history := ui_history u; ui_history_loading := ui_history_loading u; ui_last_error := x |}.

(** ** What a program does *)

(** The methods of [CoreGateway]. *)
Inductive gw_call :=
| GLoadPairingAndStart | GPairingSnapshot | GClaimPairing (qr_payload : string) | GConfirmPairing (sas : string)
| GCancelPairing | GHistory | GHistoryImageBytes (id : string) | GApplyHistory (id : string) | GClearHistory
| GSend (payload : AndroidPayload) | GShutdown.

Definition gw_value (c : gw_call) : Set :=
  match c with
  | GLoadPairingAndStart => bool
  | GPairingSnapshot => PairingUiState
  | GClaimPairing _ => string
  | GHistory => list CoreHistoryItem
  | GHistoryImageBytes _ => bytes
  | GSend _ => Z
  | _ => unit
  end.

(** The tasks of the executor. *)
Inductive ui_task :=
| UtStart (g : nat) | UtShutdown (gw : nat) | UtSend (gw id : nat) | UtRetry (g token : nat)
| UtClaim (qr_payload : string) | UtConfirm (sas : string) | UtCancel
| UtRefresh | UtLoadImage (id : string) | UtApply (id : string) | UtClear
| UtSettleHistory | UtSettlePairing.

(** The calls of the screens and the service, and of the core. *)
Inductive ui_input :=
| InStart | InStop | InSend (id : nat)
| InClaim (qr_payload : string) | InConfirm | InCancel
| InRefresh | InLoadImage (id : string) | InApply (id : string) | InClear
| InNotification (state : NotificationState) | InReportError (message : string) | InClearError
| InClip (item : FfiClipItem) | InMailboxClip (item : FfiClipItem) | InStatus (status : CoreStatus)
| InNotificationAsked.

Inductive ui_event :=
| EvInput (i : ui_input)
| EvCall (gw : nat) (c : gw_call) (answer : result (gw_value c) string)
| EvClip (id : string) (payload : AndroidPayload) (r : result unit string)
| EvComplete (id : nat) (r : SendResult)
| EvPreference (key value : string)
| EvMailboxNotification.

Inductive prog (R : Type) :=
| Ret (r : R)
| GetUi (k : ClipSyncUiState -> prog R)
| PutUi (u : ClipSyncUiState) (k : prog R)
| Locked (f : CoreSlot -> CoreSlot) (k : CoreSlot -> prog R)
| NewHandle (k : option nat -> prog R)
| CallCore (gw : nat) (c : gw_call) (k : result (gw_value c) string -> prog R)
| WriteClip (id : string) (payload : AndroidPayload) (k : result unit string -> prog R)
| Execute (t : ui_task) (k : prog R)
| Schedule (t : ui_task) (k : prog R)
| Emit (e : ui_event) (k : prog R).
Arguments Ret {R} r.
Arguments GetUi {R} k.
Arguments PutUi {R} u k.
Arguments Locked {R} f k.
Arguments NewHandle {R} k.
Arguments CallCore {R} gw c k.
Arguments WriteClip {R} id payload k.
Arguments Execute {R} t k.
Arguments Schedule {R} t k.
Arguments Emit {R} e k.

#[global] Instance prog_ret : MRet prog := fun R r => Ret r.
#[global] Instance prog_bind : MBind prog := fun A B f =>
  fix go (p : prog A) : prog B :=
    match p with
    | Ret r => f r
    | GetUi k => GetUi (fun u => go (k u))
    | PutUi u k => PutUi u (go k)
    | Locked g k => Locked g (fun s => go (k s))
    | NewHandle k => NewHandle (fun h => go (k h))
    | CallCore gw c k => CallCore gw c (fun a => go (k a))
    | WriteClip id payload k => WriteClip id payload (fun r => go (k r))
    | Execute t k => Execute t (go k)
    | Schedule t k => Schedule t (go k)
    | Emit e k => Emit e (go k)
    end.

(** The next statement, unless this one throws. *)
Definition or_throw {A B} (k : A -> prog (result B string)) (r : result A string) : prog (result B string) :=
  match r with Ok a => k a | Err e => mret (Err e) end.
#[local] Notation "x ⇐ m ; k" := (mbind (or_throw (fun x => k)) m) (at level 20, m at level 100, k at level 200, only parsing).

Definition get_ui : prog ClipSyncUiState := GetUi Ret.
Definition put_ui (u : ClipSyncUiState) : prog unit := PutUi u (Ret tt).
Definition call_core (gw : nat) (c : gw_call) : prog (result (gw_value c) string) := CallCore gw c Ret.
Definition execute (t : ui_task) : prog unit := Execute t (Ret tt).
Definition schedule (t : ui_task) : prog unit := Schedule t (Ret tt).
Definition emit (e : ui_event) : prog unit := Emit e (Ret tt).

(** A block of the slot's lock: what it returns, with its effect. *)
Definition locked {A} (f : CoreSlot -> A * CoreSlot) : prog A := Locked (fun s => (f s).2) (fun s => Ret (f s).1).

(** [mutableUiState.value = mutableUiState.value.copy(…)]. *)
Definition update_ui (f : ClipSyncUiState -> ClipSyncUiState) : prog unit := u ← get_ui; put_ui (f u).

Definition current_gateway : prog (option nat) := locked (fun s => (gateway s, s)).

(** ** Errors and statuses *)

(** The white space of [isBlank] on the JVM ([Character.isWhitespace] or
    [isSpaceChar]), in UTF-8. *)
Definition white_space : list bytes :=
  [[x09]; [x0a]; [x0b]; [x0c]; [x0d]; [x1c]; [x1d]; [x1e]; [x1f]; [x20]; [xc2; xa0]; [xe1; x9a; x80];
   [xe2; x80; x80]; [xe2; x80; x81]; [xe2; x80; x82]; [xe2; x80; x83]; [xe2; x80; x84]; [xe2; x80; x85]; [xe2; x80; x86];
   [xe2; x80; x87]; [xe2; x80; x88]; [xe2; x80; x89]; [xe2; x80; x8a]; [xe2; x80; xa8]; [xe2; x80; xa9]; [xe2; x80; xaf];
   [xe2; x81; x9f]; [xe3; x80; x80]].

Definition strip_white (b : bytes) : option bytes :=
  head (omap (fun w => if bool_decide (take (length w) b = w) then Some (drop (length w) b) else None) white_space).

(** Each round removes at least a byte. *)
Fixpoint blank_in (fuel : nat) (b : bytes) : bool :=
  match b, fuel with
  | [], _ => true
  | _, 0 => false
  | _, S fuel => match strip_white b with Some rest => blank_in fuel rest | None => false end
  end.
Definition is_blank (text : string) : bool := let b := as_bytes text in blank_in (length b) b.

Definition KEY_CORE_STATUS : string := "core_status".
Definition KEY_NOTIFICATION_ASKED : string := "notification_asked".
Definition KEY_NOTIFICATION_STATE : string := "notification_state".

Definition update_core_status (value : string) : prog unit :=
  _ ← emit (EvPreference KEY_CORE_STATUS value);
  update_ui (fun u => copy_error None (copy_status value u)).

(** [error] is the message of the exception; a missing message is empty. *)
Definition report_error (prefix error : string) : prog unit :=
  let message := (if is_blank error then prefix else prefix +:+ "：" +:+ error)%string in
  _ ← emit (EvPreference KEY_CORE_STATUS message);
  update_ui (fun u => copy_error (Some message) (copy_status "错误" u)).

Definition persisted_value (state : NotificationState) : string :=
  match state with NsRestricted => "restricted" | NsVisible => "visible" end.

Definition refresh_notification_state (state : NotificationState) : prog unit :=
  _ ← emit (EvPreference KEY_NOTIFICATION_STATE (persisted_value state));
  update_ui (copy_notification state).

Definition mark_notification_permission_asked : prog unit := emit (EvPreference KEY_NOTIFICATION_ASKED "true").

Definition report_ui_error (message : string) : prog unit := update_ui (copy_error (Some message)).
Definition clear_ui_error : prog unit := update_ui (copy_error None).

(** ** History *)

(** The receiver of [copy] is read before the core is asked. *)
Definition refresh_history_blocking (gw : nat) : prog (result unit string) :=
  u ← get_ui;
  items ⇐ call_core gw GHistory;
  _ ← put_ui (copy_error None (copy_loading false (copy_history (normalize_history items) u)));
  mret (Ok tt).

Definition schedule_history_refresh : prog unit := schedule UtSettleHistory.
Definition settle_history : prog unit :=
  g ← current_gateway;
  match g with
  | None => mret tt
  | Some gw =>
      r ← refresh_history_blocking gw;
      match r with Ok _ => mret tt | Err e => report_error "读取历史失败" e end
  end.

Definition schedule_pairing_refresh : prog unit := schedule UtSettlePairing.
Definition settle_pairing : prog unit :=
  g ← current_gateway;
  match g with
  | None => mret tt
  | Some gw =>
      u ← get_ui;
      r ← call_core gw GPairingSnapshot;
      match r with Ok pairing => put_ui (copy_pairing pairing u) | Err e => report_error "读取配对状态失败" e end
  end.

Definition is_claiming (p : PairingUiState) : bool := match p with PuClaiming => true | _ => false end.

(** The task of [executeWithGateway]. *)
Definition with_gateway (error_prefix : string) (action : nat -> prog (result unit string)) : prog unit :=
  g ← current_gateway;
  match g with
  | None => report_error error_prefix "同步服务尚未就绪"
  | Some gw =>
      r ← action gw;
      match r with
      | Ok _ => mret tt
      | Err e =>
          u ← get_ui;
          _ ← (if is_claiming (ui_pairing u) then update_ui (copy_pairing PuUnpaired) else mret tt);
          report_error error_prefix e
      end
  end.

Definition find_item (id : string) (items : list CoreHistoryItem) : option CoreHistoryItem :=
  List.find (fun i => bool_decide (chi_id i = id)) items.

Definition refresh_history : prog unit := _ ← update_ui (copy_loading true); execute UtRefresh.

Definition load_history_image (id : string) : prog unit :=
  u ← get_ui;
  match find_item id (ui_history u) with
  | Some item => match chi_content item with HcImage None => execute (UtLoadImage id) | _ => mret tt end
  | None => mret tt
  end.

Definition set_image (id : string) (data : bytes) (items : list CoreHistoryItem) : list CoreHistoryItem :=
  (fun item => if bool_decide (chi_id item = id)
               then {| chi_id := chi_id item; chi_ts_ms := chi_ts_ms item; chi_content := HcImage (Some data);
                       chi_source := chi_source item |}
               else item) <$> items.

Definition load_history_image_task (id : string) (gw : nat) : prog (result unit string) :=
  data ⇐ call_core gw (GHistoryImageBytes id);
  u ← get_ui;
  shown ← get_ui;
  _ ← put_ui (copy_error None (copy_history (set_image id data (ui_history shown)) u));
  mret (Ok tt).

Definition history_payload (gw : nat) (item : CoreHistoryItem) : prog (result AndroidPayload string) :=
  match chi_content item with
  | HcText text => mret (Ok (ApText text))
  | HcImage (Some data) => mret (Ok (ApImage data))
  | HcImage None => data ⇐ call_core gw (GHistoryImageBytes (chi_id item)); mret (Ok (ApImage data))
  end.

Definition apply_history_task (id : string) (gw : nat) : prog (result unit string) :=
  seen ← get_ui;
  match find_item id (ui_history seen) with
  | None => mret (Err "历史条目不存在")
  | Some item =>
      payload ⇐ history_payload gw item;
      _ ⇐ WriteClip (chi_id item) payload Ret;
      _ ⇐ (if is_deferred item then call_core gw (GApplyHistory (chi_id item)) else mret (Ok tt));
      u ← get_ui;
      shown ← get_ui;
      _ ← put_ui (copy_error None (copy_history (promote_applied_history (ui_history shown) (chi_id item)) u));
      mret (Ok tt)
  end.

Definition clear_history_task (gw : nat) : prog (result unit string) :=
  _ ⇐ call_core gw GClearHistory;
  _ ← update_ui (fun u => copy_error None (copy_loading false (copy_history [] u)));
  mret (Ok tt).

(** ** Pairing *)

Definition claim_pairing (qr_payload : string) : prog unit :=
  _ ← update_ui (fun u => copy_error None (copy_pairing PuClaiming u));
  execute (UtClaim qr_payload).

Definition claim_pairing_task (qr_payload : string) (gw : nat) : prog (result unit string) :=
  sas ⇐ call_core gw (GClaimPairing qr_payload);
  _ ← update_ui (fun u => copy_error None (copy_status "等待确认" (copy_pairing (PuSasReady sas) u)));
  mret (Ok tt).

Definition confirm_pairing : prog unit :=
  u ← get_ui;
  if can_confirm (ui_pairing u)
  then match ui_pairing u with PuSasReady sas => execute (UtConfirm sas) | _ => mret tt end
  else mret tt.

Definition confirm_pairing_task (sas : string) (gw : nat) : prog (result unit string) :=
  _ ⇐ call_core gw (GConfirmPairing sas);
  u ← get_ui;
  pairing ⇐ call_core gw GPairingSnapshot;
  _ ← put_ui (copy_error None (copy_status "连接中" (copy_pairing pairing u)));
  refresh_history_blocking gw.

Definition cancel_pairing_task (gw : nat) : prog (result unit string) :=
  _ ⇐ call_core gw GCancelPairing;
  _ ← update_ui (fun u => copy_error None (copy_status "未配对" (copy_pairing PuUnpaired u)));
  mret (Ok tt).

(** ** The callbacks of the core *)

Definition clip_payload (item : FfiClipItem) : AndroidPayload :=
  match f_content item with FText text => ApText text | FImage data => ApImage data end.

(** [onClip]: what it throws at the core is [InvalidInput] with the message. *)
Definition on_live_clip (item : FfiClipItem) : prog (result unit string) :=
  _ ⇐ WriteClip (f_id item) (clip_payload item) Ret;
  _ ← schedule_history_refresh;
  mret (Ok tt).

Definition on_offline_clip (item : FfiClipItem) : prog FfiMailboxDisposition :=
  _ ← emit EvMailboxNotification;
  _ ← schedule_history_refresh;
  mret FDeferred.

Definition on_status (status : CoreStatus) : prog unit :=
  match status with
  | ReadyUnpaired => _ ← update_core_status "未配对"; schedule_pairing_refresh
  | StOffering => update_core_status "等待配对"
  | StSasReady => _ ← update_core_status "等待确认"; schedule_pairing_refresh
  | Connecting => update_core_status "连接中"
  | StConnected => _ ← update_core_status "已连接"; _ ← schedule_pairing_refresh; schedule_history_refresh
  | Reconnecting => update_core_status "重新连接中"
  | Disconnected => update_core_status "已断开"
  | StError message => report_error message ""
  end.

(** ** Starting, sending and stopping *)

Section app.
Context {BF : BitmapFactory} (payload_of : nat -> AndroidPayload).

(** [sendWithGateway]; what it throws comes from reading the history. *)
Definition send_with_gateway (gw id : nat) : prog (result unit string) :=
  sent ← call_core gw (GSend (payload_of id));
  match sent with
  | Ok sequence =>
      _ ← emit (EvComplete id (SrSent sequence));
      refresh_history_blocking gw
  | Err e =>
      _ ← report_error "发送失败" e;
      _ ← emit (EvComplete id (SrFailed e));
      mret (Ok tt)
  end.

Fixpoint send_pending (gw : nat) (ids : list nat) : prog (result unit string) :=
  match ids with
  | [] => mret (Ok tt)
  | id :: ids => _ ⇐ send_with_gateway gw id; send_pending gw ids
  end.

(** The [try] of the start task. *)
Definition start_body (g gw : nat) : prog (result unit string) :=
  paired ⇐ call_core gw GLoadPairingAndStart;
  pairing ⇐ (if (paired : bool) then call_core gw GPairingSnapshot else mret (Ok PuUnpaired));
  items ⇐ call_core gw GHistory;
  _ ← update_ui (fun u => copy_error None (copy_loading false (copy_history (normalize_history items)
        (copy_pairing pairing (copy_status (if (paired : bool) then "连接中" else "未配对") u)))));
  pending ← locked (start_done g);
  match pending with None => mret (Ok tt) | Some ids => send_pending gw ids end.

Fixpoint refuse_pending (ids : list nat) : prog unit :=
  match ids with
  | [] => mret tt
  | id :: ids => _ ← emit (EvComplete id SrServiceUnavailable); refuse_pending ids
  end.

(** Its [catch]. *)
Definition start_catch (g : nat) (error : string) : prog unit :=
  plan ← locked (start_failed g);
  match plan with
  | None => mret tt
  | Some (token, pending) =>
      _ ← report_error "核心启动失败" error;
      _ ← refuse_pending pending;
      schedule (UtRetry g token)
  end.

(** The task of [startCoreAfterForeground]; [NewHandle] is what the constructor
    of [CoreHandle] would give, should the block need it. *)
Definition start_task (g : nat) : prog unit :=
  created ← NewHandle Ret;
  e ← locked (start_gateway g created);
  match e with
  | Return | Throw => mret tt
  | Continue gw =>
      r ← start_body g gw;
      match r with Ok _ => mret tt | Err e => start_catch g e end
  end.

Definition start_core_after_foreground : prog unit :=
  g ← locked start_request;
  match g with None => mret tt | Some g => execute (UtStart g) end.

Definition stop_core_app : prog unit :=
  stopped ← locked stop_core;
  let '(active, pending) := stopped in
  _ ← refuse_pending pending;
  match active with None => mret tt | Some gw => execute (UtShutdown gw) end.

Definition send_app (id : nat) : prog unit :=
  e ← locked (send_request id);
  match e with
  | Queued => mret tt
  | Refused => emit (EvComplete id SrServiceUnavailable)
  | Hand gw => execute (UtSend gw id)
  end.

Definition retry_task (g token : nat) : prog unit :=
  again ← locked (fun s => (should_retry g token s, s));
  if (again : bool) then start_core_after_foreground else mret tt.

(** An exception out of a task ends it. *)
Definition drop_result {A} (p : prog A) : prog unit := _ ← p; mret tt.

Definition run_task (t : ui_task) : prog unit :=
  match t with
  | UtStart g => start_task g
  | UtShutdown gw => drop_result (call_core gw GShutdown)
  | UtSend gw id => drop_result (send_with_gateway gw id)
  | UtRetry g token => retry_task g token
  | UtClaim qr_payload => with_gateway "无法识别 ClipSync 配对码" (claim_pairing_task qr_payload)
  | UtConfirm sas => with_gateway "配对确认失败" (confirm_pairing_task sas)
  | UtCancel => with_gateway "取消配对失败" cancel_pairing_task
  | UtRefresh => with_gateway "读取历史失败" refresh_history_blocking
  | UtLoadImage id => with_gateway "读取历史图片失败" (load_history_image_task id)
  | UtApply id => with_gateway "应用历史失败" (apply_history_task id)
  | UtClear => with_gateway "清空历史失败" clear_history_task
  | UtSettleHistory => settle_history
  | UtSettlePairing => settle_pairing
  end.

Definition input_prog (i : ui_input) : prog unit :=
  match i with
  | InStart => start_core_after_foreground
  | InStop => stop_core_app
  | InSend id => send_app id
  | InClaim qr_payload => claim_pairing qr_payload
  | InConfirm => confirm_pairing
  | InCancel => execute UtCancel
  | InRefresh => refresh_history
  | InLoadImage id => load_history_image id
  | InApply id => execute (UtApply id)
  | InClear => execute UtClear
  | InNotification state => refresh_notification_state state
  | InReportError message => report_ui_error message
  | InClearError => clear_ui_error
  | InClip item => drop_result (on_live_clip item)
  | InMailboxClip item => drop_result (on_offline_clip item)
  | InStatus status => on_status status
  | InNotificationAsked => mark_notification_permission_asked
  end.

(** ** Interleavings *)

(** [us_threads] are the programs under way on the main thread and on those
    the core calls back on; [us_exec] is the task the executor is in. *)
Record ui_sys := {
  us_ui : ClipSyncUiState; us_slot : CoreSlot; us_phone : phone; us_exec : option (prog unit);
  us_queue : list ui_task; us_delayed : list ui_task; us_threads : list (prog unit); us_trace : list ui_event
}.

Definition ui_new (p : phone) : ui_sys := {|
  us_ui := ui_default; us_slot := slot_new 0; us_phone := p; us_exec := None; us_queue := []; us_delayed := [];
  us_threads := []; us_trace := [] |}.

Record oracle := {
  or_created : option nat; or_save : save_env; or_media : media_env;
  or_answer : forall c, result (gw_value c) string
}.

Definition with_ui (u : ClipSyncUiState) (s : ui_sys) : ui_sys := {|
  us_ui := u; us_slot := us_slot s; us_phone := us_phone s; us_exec := us_exec s; us_queue := us_queue s;
  us_delayed := us_delayed s; us_threads := us_threads s; us_trace := us_trace s |}.
Definition with_app_slot (c : CoreSlot) (s : ui_sys) : ui_sys := {|
  us_ui := us_ui s; us_slot := c; us_phone := us_phone s; us_exec := us_exec s; us_queue := us_queue s;
  us_delayed := us_delayed s; us_threads := us_threads s; us_trace := us_trace s |}.
Definition with_phone (p : phone) (s : ui_sys) : ui_sys := {|
  us_ui := us_ui s; us_slot := us_slot s; us_phone := p; us_exec := us_exec s; us_queue := us_queue s;
  us_delayed := us_delayed s; us_threads := us_threads s; us_trace := us_trace s |}.
Definition with_running (e : option (prog unit)) (s : ui_sys) : ui_sys := {|
  us_ui := us_ui s; us_slot := us_slot s; us_phone := us_phone s; us_exec := e; us_queue := us_queue s;
  us_delayed := us_delayed s; us_threads := us_threads s; us_trace := us_trace s |}.
Definition with_tasks (q : list ui_task) (s : ui_sys) : ui_sys := {|
  us_ui := us_ui s; us_slot := us_slot s; us_phone := us_phone s; us_exec := us_exec s; us_queue := q;
  us_delayed := us_delayed s; us_threads := us_threads s; us_trace := us_trace s |}.
Definition with_later (d : list ui_task) (s : ui_sys) : ui_sys := {|
  us_ui := us_ui s; us_slot := us_slot s; us_phone := us_phone s; us_exec := us_exec s; us_queue := us_queue s;
  us_delayed := d; us_threads := us_threads s; us_trace := us_trace s |}.
Definition with_threads (l : list (prog unit)) (s : ui_sys) : ui_sys := {|
  us_ui := us_ui s; us_slot := us_slot s; us_phone := us_phone s; us_exec := us_exec s; us_queue := us_queue s;
  us_delayed := us_delayed s; us_threads := l; us_trace := us_trace s |}.
Definition log (e : ui_event) (s : ui_sys) : ui_sys := {|
  us_ui := us_ui s; us_slot := us_slot s; us_phone := us_phone s; us_exec := us_exec s; us_queue := us_queue s;
  us_delayed := us_delayed s; us_threads := us_threads s; us_trace := us_trace s ++ [e] |}.

(** The first operation of a program, unless it has ended. *)
Definition op_step (o : oracle) (p : prog unit) (s : ui_sys) : option (prog unit * ui_sys) :=
  match p with
  | Ret _ => None
  | GetUi k => Some (k (us_ui s), s)
  | PutUi u k => Some (k, with_ui u s)
  | Locked f k => Some (k (us_slot s), with_app_slot (f (us_slot s)) s)
  | NewHandle k => Some (k (or_created o), s)
  | CallCore gw c k => Some (k (or_answer o c), log (EvCall gw c (or_answer o c)) s)
  | WriteClip id payload k =>
      let '(r, p) := writer_apply (or_save o) (or_media o) id payload (us_phone s) in
      Some (k r, log (EvClip id payload r) (with_phone p s))
  | Execute t k => Some (k, with_tasks (us_queue s ++ [t]) s)
  | Schedule t k => Some (k, with_later (us_delayed s ++ [t]) s)
  | Emit e k => Some (k, log e s)
  end.

(** One step: a call comes in; a thread or the executor does its next
    operation; the executor takes the next task; a delay is over. *)
Inductive ui_choice := DoInput (i : ui_input) | DoThread (n : nat) (o : oracle) | DoExec (o : oracle) | DoTake | DoFire (n : nat).

Definition ui_do (c : ui_choice) (s : ui_sys) : option ui_sys :=
  match c with
  | DoInput i => Some (with_threads (us_threads s ++ [input_prog i]) (log (EvInput i) s))
  | DoThread n o =>
      p ← us_threads s !! n;
      '(p, s) ← op_step o p s;
      Some (with_threads (<[n := p]> (us_threads s)) s)
  | DoExec o =>
      p ← us_exec s;
      '(p, s) ← op_step o p s;
      Some (with_running (Some p) s)
  | DoTake =>
      match us_exec s, us_queue s with
      | (None | Some (Ret _)), t :: queue => Some (with_running (Some (run_task t)) (with_tasks queue s))
      | _, _ => None
      end
  | DoFire n =>
      t ← us_delayed s !! n;
      Some (with_tasks (us_queue s ++ [t]) (with_later (delete n (us_delayed s)) s))
  end.

Fixpoint ui_run (cs : list ui_choice) (s : ui_sys) : option ui_sys :=
  match cs with [] => Some s | c :: cs => s ← ui_do c s; ui_run cs s end.

(** ** What the user did and what the core said

    Facts about a trace; they stay true as it grows. *)

Abbreviation trace := (list ui_event).

(** The core gave out this code. *)
Definition issued (T : trace) (sas : string) : Prop :=
  exists gw, (exists qr, EvCall gw (GClaimPairing qr) (Ok sas) ∈ T) \/ EvCall gw GPairingSnapshot (Ok (PuSasReady sas)) ∈ T.

(** The core reported this item; an image may have been loaded since, and a
    deferred item applied. *)
Definition reported_item (T : trace) (i : CoreHistoryItem) : Prop :=
  exists gw items i0, EvCall gw GHistory (Ok items) ∈ T /\ i0 ∈ items /\ chi_id i = chi_id i0 /\ chi_ts_ms i = chi_ts_ms i0 /\
    (chi_content i = chi_content i0 \/
     exists gw data, chi_content i = HcImage (Some data) /\ EvCall gw (GHistoryImageBytes (chi_id i)) (Ok data) ∈ T) /\
    (chi_source i = chi_source i0 \/
     (chi_source i0 = FhRemoteDeferred /\ chi_source i = FhRemote /\ exists payload, EvClip (chi_id i) payload (Ok tt) ∈ T)).

(** What is on the screen is what the core said. *)
Record ui_ok (T : trace) (u : ClipSyncUiState) : Prop := {
  uo_sas : forall sas, ui_pairing u = PuSasReady sas -> issued T sas;
  uo_paired : forall room, ui_pairing u = PuPaired room -> exists gw, EvCall gw GPairingSnapshot (Ok (PuPaired room)) ∈ T;
  uo_connected : ui_core_status u = "已连接"%string -> EvInput (InStatus StConnected) ∈ T;
  uo_length : length (ui_history u) <= HISTORY_LIMIT;
  uo_sorted : StronglySorted (fun a b => chi_ts_ms b <= chi_ts_ms a)%Z (ui_history u);
  uo_items : Forall (reported_item T) (ui_history u)
}.

(** A confirmation is of a well-formed code the core gave out, and the user asked for it. *)
Definition confirm_ok (T : trace) (sas : string) : Prop :=
  EvInput InConfirm ∈ T /\ can_confirm (PuSasReady sas) = true /\ issued T sas.

(** What makes the application read the history or the pairing anew: actions
    of the user, and callbacks of the core. *)
Definition asks_history (i : ui_input) : bool :=
  match i with
  | InStart | InSend _ | InConfirm | InRefresh | InClip _ | InMailboxClip _ | InStatus StConnected => true
  | _ => false
  end.
Definition asks_pairing (i : ui_input) : bool :=
  match i with
  | InStart | InConfirm | InStatus ReadyUnpaired | InStatus StSasReady | InStatus StConnected => true
  | _ => false
  end.
Definition asked (f : ui_input -> bool) (T : trace) : Prop := exists i, EvInput i ∈ T /\ f i = true.

(** What is asked of the core is what the user asked for; the history and the
    state of the pairing are read for the user or after a callback. *)
Definition call_ok (T : trace) (c : gw_call) : Prop :=
  match c with
  | GLoadPairingAndStart => EvInput InStart ∈ T
  | GPairingSnapshot => asked asks_pairing T
  | GHistory => asked asks_history T
  | GClaimPairing qr => EvInput (InClaim qr) ∈ T
  | GConfirmPairing sas => confirm_ok T sas
  | GCancelPairing => EvInput InCancel ∈ T
  | GHistoryImageBytes id => EvInput (InLoadImage id) ∈ T \/ EvInput (InApply id) ∈ T
  | GApplyHistory id => EvInput (InApply id) ∈ T /\ exists payload, EvClip id payload (Ok tt) ∈ T
  | GClearHistory => EvInput InClear ∈ T
  | GSend payload => exists id, EvInput (InSend id) ∈ T /\ payload = payload_of id
  | GShutdown => EvInput InStop ∈ T
  end.

(** The content of an item, as the core gave it. *)
Definition item_payload_ok (T : trace) (item : CoreHistoryItem) (payload : AndroidPayload) : Prop :=
  match chi_content item with
  | HcText text => payload = ApText text
  | HcImage (Some data) => payload = ApImage data
  | HcImage None => exists gw data, EvCall gw (GHistoryImageBytes (chi_id item)) (Ok data) ∈ T /\ payload = ApImage data
  end.

(** The clipboard is written for a live clip, or for an item the user chose. *)
Definition clip_ok (T : trace) (id : string) (payload : AndroidPayload) : Prop :=
  (exists item, EvInput (InClip item) ∈ T /\ f_id item = id /\ clip_payload item = payload) \/
  (EvInput (InApply id) ∈ T /\ exists item, reported_item T item /\ chi_id item = id /\ item_payload_ok T item payload).

Definition task_ok (T : trace) (t : ui_task) : Prop :=
  match t with
  | UtStart _ | UtRetry _ _ => EvInput InStart ∈ T
  | UtShutdown _ => EvInput InStop ∈ T
  | UtSend _ id => EvInput (InSend id) ∈ T
  | UtClaim qr => EvInput (InClaim qr) ∈ T
  | UtConfirm sas => confirm_ok T sas
  | UtCancel => EvInput InCancel ∈ T
  | UtLoadImage id => EvInput (InLoadImage id) ∈ T
  | UtApply id => EvInput (InApply id) ∈ T
  | UtClear => EvInput InClear ∈ T
  | UtRefresh | UtSettleHistory => asked asks_history T
  | UtSettlePairing => asked asks_pairing T
  end.

Definition pending_ok (T : trace) (s : CoreSlot) : Prop := Forall (fun id => EvInput (InSend id) ∈ T) (pending_sends s).

(** What the application itself puts on record. *)
Definition own_event (e : ui_event) : Prop :=
  match e with EvComplete _ _ | EvPreference _ _ | EvMailboxNotification => True | _ => False end.

Definition event_ok (T : trace) (e : ui_event) : Prop :=
  match e with EvCall _ c _ => call_ok T c | EvClip id payload _ => clip_ok T id payload | _ => True end.

(** A program that keeps to this whatever other threads do between its
    operations, and ends with [Q]. *)
Fixpoint safe {R} (Q : trace -> R -> Prop) (T : trace) (p : prog R) {struct p} : Prop :=
  match p with
  | Ret r => Q T r
  | GetUi k => forall T' u, T ⊆ T' -> ui_ok T' u -> safe Q T' (k u)
  | PutUi u k => ui_ok T u /\ safe Q T k
  | Locked f k => forall T' s, T ⊆ T' -> pending_ok T' s -> pending_ok T' (f s) /\ safe Q T' (k s)
  | NewHandle k => forall h, safe Q T (k h)
  | CallCore gw c k => call_ok T c /\ forall T' a, T ⊆ T' -> EvCall gw c a ∈ T' -> safe Q T' (k a)
  | WriteClip id payload k => clip_ok T id payload /\ forall T' r, T ⊆ T' -> EvClip id payload r ∈ T' -> safe Q T' (k r)
  | Execute t k | Schedule t k => task_ok T t /\ safe Q T k
  | Emit e k => own_event e /\ safe Q T k
  end.

Definition whatever {R} (T : trace) (r : R) : Prop := True.

(** *** Growing traces *)

Lemma issued_mono T T' sas : T ⊆ T' -> issued T sas -> issued T' sas.
Proof. unfold issued. set_solver. Qed.

Lemma reported_mono T T' i : T ⊆ T' -> reported_item T i -> reported_item T' i.
Proof.
  intros HT (gw & items & i0 & H1 & H2 & H3 & H4 & H5 & H6). exists gw, items, i0. split_and!; auto.
  - destruct H5 as [?|(gw' & data & ? & ?)]; [by left|right; eauto].
  - destruct H6 as [?|(? & ? & payload & ?)]; [by left|right; eauto].
Qed.

Lemma ui_ok_mono T T' u : T ⊆ T' -> ui_ok T u -> ui_ok T' u.
Proof.
  intros HT [H1 H2 H3 H4 H5 H6]. split; [..|done|done|].
  - intros sas E. eapply issued_mono; eauto.
  - intros room E. destruct (H2 room E) as [gw H]. eauto.
  - auto.
  - eapply Forall_impl; [exact H6|]. intros i. by apply reported_mono.
Qed.

Lemma confirm_ok_mono T T' sas : T ⊆ T' -> confirm_ok T sas -> confirm_ok T' sas.
Proof. intros HT (H1 & H2 & H3). split_and!; [auto|done|by eapply issued_mono]. Qed.

Lemma asked_mono f T T' : T ⊆ T' -> asked f T -> asked f T'.
Proof. intros HT (i & ? & ?). exists i. auto. Qed.

Lemma call_ok_mono T T' c : T ⊆ T' -> call_ok T c -> call_ok T' c.
Proof.
  intros HT. destruct c; simpl; auto; try by apply asked_mono.
  - by apply confirm_ok_mono.
  - intros [?|?]; auto.
  - intros [? [? ?]]. eauto.
  - intros (? & ? & ?). eauto.
Qed.

Lemma task_ok_mono T T' t : T ⊆ T' -> task_ok T t -> task_ok T' t.
Proof. intros HT. destruct t; simpl; auto; (by apply confirm_ok_mono) || by apply asked_mono. Qed.

Lemma pending_ok_mono T T' s : T ⊆ T' -> pending_ok T s -> pending_ok T' s.
Proof. intros HT H. eapply Forall_impl; [exact H|]. simpl. auto. Qed.

Lemma item_payload_mono T T' item payload : T ⊆ T' -> item_payload_ok T item payload -> item_payload_ok T' item payload.
Proof. intros HT. unfold item_payload_ok. destruct (chi_content item) as [|[]]; [done|done|]. intros (gw & data & ? & ?). eauto. Qed.

Lemma clip_ok_mono T T' id payload : T ⊆ T' -> clip_ok T id payload -> clip_ok T' id payload.
Proof.
  intros HT [(item & ? & ? & ?)|(? & item & ? & ? & ?)]; [left; eauto|right].
  split; [auto|]. exists item. split_and!; [by eapply reported_mono|done|by eapply item_payload_mono].
Qed.

Definition monotone {R} (Q : trace -> R -> Prop) : Prop := forall T T' r, T ⊆ T' -> Q T r -> Q T' r.

Lemma safe_mono {R} (Q : trace -> R -> Prop) T T' p : monotone Q -> T ⊆ T' -> safe Q T p -> safe Q T' p.
Proof.
  intros HQ. revert T T'. induction p as [r|k IH|u k IH|f k IH|k IH|gw c k IH|id payload k IH|t k IH|t k IH|e k IH];
    intros T T' HT; simpl.
  - by apply HQ.
  - intros H T2 u H2. apply H. set_solver.
  - intros [H1 H2]. split; [by eapply ui_ok_mono|eauto].
  - intros H T2 s H2. apply H. set_solver.
  - eauto.
  - intros [H1 H2]. split; [by eapply call_ok_mono|]. intros T2 a H3. apply H2. set_solver.
  - intros [H1 H2]. split; [by eapply clip_ok_mono|]. intros T2 a H3. apply H2. set_solver.
  - intros [H1 H2]. split; [by eapply task_ok_mono|eauto].
  - intros [H1 H2]. split; [by eapply task_ok_mono|eauto].
  - intros [H1 H2]. eauto.
Qed.

Lemma safe_bind {A B} (Q : trace -> A -> Prop) (Q' : trace -> B -> Prop) T (p : prog A) (k : A -> prog B) :
  safe Q T p -> (forall T' a, T ⊆ T' -> Q T' a -> safe Q' T' (k a)) -> safe Q' T (p ≫= k).
Proof.
  revert T. induction p as [r|k' IH|u k' IH|f k' IH|k' IH|gw c k' IH|id payload k' IH|t k' IH|t k' IH|e k' IH];
    intros T Hp Hk; simpl in *.
  - by apply Hk.
  - intros T' u HT Hu. apply IH; [by apply Hp|]. intros T2 a H2. apply Hk. set_solver.
  - destruct Hp as [H1 H2]. split; [done|]. by apply IH.
  - intros T' s HT Hs. destruct (Hp T' s HT Hs) as [H1 H2]. split; [done|]. apply IH; [done|]. intros T2 a H3. apply Hk. set_solver.
  - intros h. by apply IH.
  - destruct Hp as [H1 H2]. split; [done|]. intros T' a HT Ha. apply IH; [by apply H2|]. intros T2 b H3. apply Hk. set_solver.
  - destruct Hp as [H1 H2]. split; [done|]. intros T' a HT Ha. apply IH; [by apply H2|]. intros T2 b H3. apply Hk. set_solver.
  - destruct Hp as [H1 H2]. split; [done|]. by apply IH.
  - destruct Hp as [H1 H2]. split; [done|]. by apply IH.
  - destruct Hp as [H1 H2]. split; [done|]. by apply IH.
Qed.

#[local] Arguments safe {R} Q T p : simpl never.

(** *** The operations *)

Lemma safe_update T f :
  (forall T' u, T ⊆ T' -> ui_ok T' u -> ui_ok T' (f u)) -> safe whatever T (update_ui f).
Proof. intros Hf T' u HT Hu. split; [by apply Hf|done]. Qed.

Lemma safe_call T gw c : call_ok T c -> safe (fun T' a => EvCall gw c a ∈ T') T (call_core gw c).
Proof. intros Hc. split; [done|]. by intros T' a _ Ha. Qed.

Lemma safe_locked {A} T (f : CoreSlot -> A * CoreSlot) :
  (forall T' s, T ⊆ T' -> pending_ok T' s -> pending_ok T' (f s).2) ->
  safe (fun T' a => exists s, pending_ok T' s /\ a = (f s).1) T (locked f).
Proof. intros Hf T' s HT Hs. split; [by apply Hf|]. exists s. by split. Qed.

Lemma safe_gateway T : safe whatever T current_gateway.
Proof. intros T' s HT Hs. by split. Qed.

Lemma safe_get T : safe ui_ok T get_ui.
Proof. by intros T' u HT Hu. Qed.

Lemma safe_put {B} (Q : trace -> B -> Prop) T u k : ui_ok T u -> safe Q T (k tt) -> safe Q T (put_ui u ≫= k).
Proof. by split. Qed.

Lemma safe_emit {B} (Q : trace -> B -> Prop) T e k : own_event e -> safe Q T (k tt) -> safe Q T (emit e ≫= k).
Proof. by split. Qed.

Lemma safe_schedule {B} (Q : trace -> B -> Prop) T t k : task_ok T t -> safe Q T (k tt) -> safe Q T (schedule t ≫= k).
Proof. by split. Qed.

Lemma safe_then {A B} (Q : trace -> result A string -> Prop) (Q' : trace -> result B string -> Prop) T p k :
  safe Q T p -> (forall T' e, Q' T' (Err e)) -> (forall T' a, T ⊆ T' -> Q T' (Ok a) -> safe Q' T' (k a)) ->
  safe Q' T (p ≫= or_throw k).
Proof. intros Hp He Hk. eapply safe_bind; [exact Hp|]. intros T' [a|e] HT Ha; [by apply Hk|apply He]. Qed.

Lemma copy_error_ok T x u : ui_ok T u -> ui_ok T (copy_error x u).
Proof. intros []. by split. Qed.
Lemma copy_loading_ok T x u : ui_ok T u -> ui_ok T (copy_loading x u).
Proof. intros []. by split. Qed.
Lemma copy_notification_ok T x u : ui_ok T u -> ui_ok T (copy_notification x u).
Proof. intros []. by split. Qed.
Lemma copy_status_ok T x u :
  (x = "已连接"%string -> EvInput (InStatus StConnected) ∈ T) -> ui_ok T u -> ui_ok T (copy_status x u).
Proof. intros Hx []. by split. Qed.
Lemma copy_pairing_ok T x u :
  (forall sas, x = PuSasReady sas -> issued T sas) ->
  (forall room, x = PuPaired room -> exists gw, EvCall gw GPairingSnapshot (Ok (PuPaired room)) ∈ T) ->
  ui_ok T u -> ui_ok T (copy_pairing x u).
Proof. intros H1 H2 []. by split. Qed.
Lemma copy_history_ok T x u :
  length x <= HISTORY_LIMIT -> StronglySorted (fun a b => chi_ts_ms b <= chi_ts_ms a)%Z x -> Forall (reported_item T) x ->
  ui_ok T u -> ui_ok T (copy_history x u).
Proof. intros H1 H2 H3 []. by split. Qed.

Lemma snapshot_ok T gw pairing u : EvCall gw GPairingSnapshot (Ok pairing) ∈ T -> ui_ok T u -> ui_ok T (copy_pairing pairing u).
Proof. intros Hp. apply copy_pairing_ok; [intros sas ->; exists gw; by right|intros room ->; eauto]. Qed.

Lemma news_ok T gw items u :
  EvCall gw GHistory (Ok items) ∈ T -> ui_ok T u -> ui_ok T (copy_history (normalize_history items) u).
Proof.
  intros Hi. destruct (history_shows_newest items) as (Hs & Hl & rest & Hp & _). apply copy_history_ok; [lia|done|].
  apply Forall_forall. intros i Hin. exists gw, items, i. split_and!; auto. rewrite <- Hp. set_solver.
Qed.

(** Changing items one by one keeps their number and their order in time. *)
Lemma map_history_ok T f u u' :
  (forall i, chi_ts_ms (f i) = chi_ts_ms i) -> (forall i, reported_item T i -> reported_item T (f i)) ->
  ui_ok T u -> ui_ok T u' -> ui_ok T (copy_history (f <$> ui_history u') u).
Proof.
  intros Hts Hr Hu [_ _ _ H4 H5 H6]. apply copy_history_ok; [by rewrite length_fmap| | |done].
  - clear H4 H6. induction H5 as [|i l Hs IH Hi]; simpl; constructor; [done|]. apply Forall_fmap.
    eapply Forall_impl; [exact Hi|]. intros j Hj. simpl. by rewrite !Hts.
  - apply Forall_fmap. eapply Forall_impl; [exact H6|]. auto.
Qed.

Lemma set_image_ok T gw id data u u' :
  EvCall gw (GHistoryImageBytes id) (Ok data) ∈ T -> ui_ok T u -> ui_ok T u' ->
  ui_ok T (copy_history (set_image id data (ui_history u')) u).
Proof.
  intros Hd. apply map_history_ok; intros i; case_bool_decide as E; try done.
  intros (gw0 & items & i0 & H1 & H2 & H3 & H4 & H5 & H6). exists gw0, items, i0. split_and!; auto. right. exists gw, data.
  simpl. by rewrite E.
Qed.

Lemma promote_ok T id payload u u' :
  EvClip id payload (Ok tt) ∈ T -> ui_ok T u -> ui_ok T u' ->
  ui_ok T (copy_history (promote_applied_history (ui_history u') id) u).
Proof.
  intros Hd. apply map_history_ok; intros i; case_bool_decide as E; simpl; try done; unfold is_deferred;
    destruct (chi_source i) eqn:Es; try done.
  intros (gw0 & items & i0 & H1 & H2 & H3 & H4 & H5 & H6). exists gw0, items, i0. split_and!; auto. right. simpl. rewrite E.
  split_and!; [|done|eauto]. destruct H6 as [<-|(_ & ? & _)]; congruence.
Qed.

(** *** The programs *)

(** Facts of an earlier trace. *)
Ltac grown :=
  repeat match goal with
  | |- ?T ⊆ ?T => reflexivity
  | H : ?A ⊆ ?B |- _ ⊆ ?B => transitivity A; [|exact H]
  end.
Ltac earlier :=
  match goal with
  | H : ?e ∈ ?T |- ?e' ∈ ?T' => solve [unify e e'; cut (T ⊆ T'); [let HT := fresh in intros HT; exact (HT _ H)|grown]]
  | H : ui_ok ?T ?u |- ui_ok ?T' ?u => solve [apply (ui_ok_mono T T'); [grown|exact H]]
  | H : asked ?f ?T |- asked ?f ?T' => solve [apply (asked_mono f T T'); [grown|exact H]]
  | H : confirm_ok ?T ?sas |- confirm_ok ?T' ?sas => solve [apply (confirm_ok_mono T T'); [grown|exact H]]
  end.
#[local] Hint Resolve copy_error_ok copy_loading_ok copy_notification_ok snapshot_ok news_ok set_image_ok promote_ok : android.
#[local] Hint Extern 1 (_ ∈ _) => earlier : android.
#[local] Hint Extern 1 (ui_ok _ _) => earlier : android.
#[local] Hint Extern 1 (confirm_ok _ _) => earlier : android.
#[local] Hint Extern 1 (asked _ _) => earlier : android.
#[local] Hint Extern 1 (call_ok _ _) => progress simpl : android.
#[local] Hint Extern 1 (task_ok _ _) => progress simpl : android.
#[local] Hint Extern 2 (ui_ok _ (copy_status _ _)) => apply copy_status_ok; [try discriminate; by eauto with android|] : android.
#[local] Hint Extern 2 (ui_ok _ (copy_pairing PuUnpaired _)) => apply copy_pairing_ok; [done|done|] : android.
#[local] Hint Extern 2 (ui_ok _ (copy_pairing PuClaiming _)) => apply copy_pairing_ok; [done|done|] : android.

(** The next operation, in the order of the program. *)
Ltac advance :=
  lazymatch goal with
  | |- safe _ _ (update_ui _) => apply safe_update; intros; eauto 10 with android
  | |- safe _ _ (update_ui _ ≫= _) => eapply safe_bind; [apply safe_update; intros; eauto 10 with android|intros ? [] ? _]
  | |- safe _ _ (call_core _ _ ≫= or_throw _) =>
      eapply safe_then; [apply safe_call; try exact I; eauto with android|done|intros ? ? ? ?; cbv beta in *]
  | |- safe _ _ (call_core _ _ ≫= _) => eapply safe_bind; [apply safe_call; try exact I; eauto with android|intros ? [?|?] ? ?; cbv beta iota in *]
  | |- safe _ _ (get_ui ≫= _) => eapply safe_bind; [apply safe_get|intros ? ? ? ?]
  | |- safe _ _ (put_ui _ ≫= _) => apply safe_put; [eauto 10 with android|]
  | |- safe _ _ (put_ui _) => split; [eauto 10 with android|done]
  | |- safe _ _ (emit _ ≫= _) => apply safe_emit; [done|]
  | |- safe _ _ (emit _) => by split
  | |- safe _ _ (execute _) => split; [try done; eauto with android|done]
  | |- safe _ _ (schedule _ ≫= _) => apply safe_schedule; [eauto with android|]
  | |- safe _ _ (schedule _) => split; [try done; eauto with android|done]
  | |- safe _ _ (current_gateway ≫= _) => eapply safe_bind; [apply safe_gateway|intros ? [?|] ? _]
  | |- safe _ _ (mret _) => done
  end.

Lemma safe_status T value :
  (value = "已连接"%string -> EvInput (InStatus StConnected) ∈ T) -> safe whatever T (update_core_status value).
Proof.
  intros Hv. unfold update_core_status. advance. apply safe_update. intros T' u HT Hu.
  apply copy_error_ok, copy_status_ok; eauto with android.
Qed.

Lemma safe_report T prefix error : safe whatever T (report_error prefix error).
Proof. unfold report_error. by repeat advance. Qed.

Lemma safe_refresh T gw : asked asks_history T -> safe whatever T (refresh_history_blocking gw).
Proof. intros Hi. unfold refresh_history_blocking. by repeat advance. Qed.

Lemma safe_settle_history T : asked asks_history T -> safe whatever T settle_history.
Proof.
  intros Hi. unfold settle_history. repeat advance. eapply safe_bind; [apply safe_refresh; earlier|]. intros T2 [[]|e] _ _; [done|apply safe_report].
Qed.

Lemma safe_settle_pairing T : asked asks_pairing T -> safe whatever T settle_pairing.
Proof. intros Hi. unfold settle_pairing. repeat advance. apply safe_report. Qed.

Lemma safe_with_gateway T prefix action :
  (forall T' gw, T ⊆ T' -> safe whatever T' (action gw)) -> safe whatever T (with_gateway prefix action).
Proof.
  intros Ha. unfold with_gateway. advance; [|apply safe_report]. eapply safe_bind; [by apply Ha|]. intros T2 [[]|e] HT2 _; [done|].
  advance. eapply (safe_bind whatever); [|intros; apply safe_report]. destruct (is_claiming _); by repeat advance.
Qed.

Lemma safe_claim_task T gw qr : EvInput (InClaim qr) ∈ T -> safe whatever T (claim_pairing_task qr gw).
Proof.
  intros Hi. unfold claim_pairing_task. advance. eapply safe_bind; [|by intros]. apply safe_update. intros T2 u HT Hu.
  apply copy_error_ok, copy_status_ok; [discriminate|]. apply copy_pairing_ok; [|done|done]. intros sas [= <-].
  exists gw. left. exists qr. eauto with android.
Qed.

Lemma safe_confirm_task T gw sas : confirm_ok T sas -> safe whatever T (confirm_pairing_task sas gw).
Proof.
  intros Hi. assert (asked asks_history T /\ asked asks_pairing T) as [Hh Hp]
    by (split; (exists InConfirm; split; [apply Hi|done])).
  unfold confirm_pairing_task. repeat advance. apply safe_refresh. earlier.
Qed.

Lemma safe_cancel_task T gw : EvInput InCancel ∈ T -> safe whatever T (cancel_pairing_task gw).
Proof. intros Hi. unfold cancel_pairing_task. by repeat advance. Qed.

Lemma safe_clear_task T gw : EvInput InClear ∈ T -> safe whatever T (clear_history_task gw).
Proof.
  intros Hi. unfold clear_history_task. advance. eapply safe_bind; [|by intros]. apply safe_update. intros T2 u HT Hu.
  apply copy_error_ok, copy_loading_ok, copy_history_ok; [simpl; lia|constructor|constructor|done].
Qed.

Lemma safe_load_image_task T gw id : EvInput (InLoadImage id) ∈ T -> safe whatever T (load_history_image_task id gw).
Proof. intros Hi. unfold load_history_image_task. by repeat advance. Qed.

Lemma safe_payload T gw item :
  EvInput (InApply (chi_id item)) ∈ T ->
  safe (fun T' r => match r with Ok payload => item_payload_ok T' item payload | Err _ => True end) T (history_payload gw item).
Proof.
  intros Hi. unfold history_payload, item_payload_ok. destruct (chi_content item) as [text|[data|]]; [done|done|].
  eapply safe_then; [apply safe_call; simpl; by right|done|]. intros T' data HT Hd. exists gw, data. by split.
Qed.

Lemma safe_apply_task T gw id : EvInput (InApply id) ∈ T -> safe whatever T (apply_history_task id gw).
Proof.
  intros Hi. unfold apply_history_task. advance. destruct (find_item id (ui_history a)) as [item|] eqn:Ef; [|done].
  apply List.find_some in Ef as [Hin Hid%bool_decide_eq_true]. subst id. rename T' into T1.
  assert (reported_item T1 item) as Hr.
  { eapply Forall_forall; [by apply uo_items|]. by apply list_elem_of_In. }
  eapply safe_then; [apply safe_payload; earlier|done|]. intros T2 payload HT2 Hp.
  eapply (safe_then (fun T' r => EvClip (chi_id item) payload r ∈ T')); [|done|].
  { split; [right|by intros T' r _]. split; [earlier|]. exists item. split_and!; [by eapply reported_mono|done|done]. }
  intros T3 [] HT3 Hc. eapply (safe_then whatever); [|done|].
  { destruct (is_deferred item); [|done]. split; [|by intros]. split; [earlier|by exists payload]. }
  intros T4 [] HT4 _. by repeat advance.
Qed.

Lemma safe_send T gw id : EvInput (InSend id) ∈ T -> safe whatever T (send_with_gateway gw id).
Proof.
  intros Hi. assert (asked asks_history T) as Hh by (by exists (InSend id)).
  unfold send_with_gateway. advance; [advance; apply safe_refresh; earlier|].
  eapply safe_bind; [apply safe_report|]. intros T2 [] _ _. by repeat advance.
Qed.

Lemma safe_send_pending T gw ids : Forall (fun id => EvInput (InSend id) ∈ T) ids -> safe whatever T (send_pending gw ids).
Proof.
  revert T. induction ids as [|id ids IH]; intros T Hi; cbn [send_pending]; [done|]. apply Forall_cons in Hi as [H1 H2].
  eapply safe_then; [by apply safe_send|done|]. intros T' [] HT _. apply IH. eapply Forall_impl; [exact H2|]. simpl. auto.
Qed.

Lemma safe_refuse T ids : safe whatever T (refuse_pending ids).
Proof. revert T. induction ids as [|id ids IH]; intros T; cbn [refuse_pending]; [done|]. advance. apply IH. Qed.

Lemma safe_start_body T g gw : EvInput InStart ∈ T -> safe whatever T (start_body g gw).
Proof.
  intros Hi. assert (asked asks_history T /\ asked asks_pairing T) as [Hh Hpr] by (split; by exists InStart).
  unfold start_body. advance. rename a into paired, T' into T1.
  eapply (safe_then (fun T' r => match r with
    | Ok pairing => forall T2 u, T' ⊆ T2 -> ui_ok T2 u -> ui_ok T2 (copy_pairing pairing u) | Err _ => True end)); [|done|].
  { destruct (paired : bool).
    - split; [simpl; earlier|]. intros T' [pairing|e] HT Ha; [|done]. intros T2 u H2 Hu. by apply (snapshot_ok _ gw); [apply H2|].
    - intros T2 u H2 Hu. eauto with android. }
  intros T2 pairing HT2 Hp. advance. rename T' into T3. eapply safe_bind.
  { apply safe_update. intros T4 u HT4 Hu. apply copy_error_ok, copy_loading_ok, (news_ok _ gw); [earlier|].
    apply Hp; [set_solver|]. apply copy_status_ok; [|done]. by destruct (paired : bool). }
  intros T4 [] HT4 _. eapply safe_bind; [apply safe_locked|].
  { intros T' s HT Hs. unfold start_done. by destruct (negb _); [|constructor]. }
  intros T5 ids HT5 (s & Hs & ->). unfold start_done. destruct (negb _); [done|]. by apply safe_send_pending.
Qed.

Lemma safe_start_catch T g error : EvInput InStart ∈ T -> safe whatever T (start_catch g error).
Proof.
  intros Hi. unfold start_catch. eapply safe_bind; [apply safe_locked|].
  { intros T' s HT Hs. unfold start_failed. by destruct (_ =? _); [constructor|]. }
  intros T1 plan HT1 (s & Hs & ->). unfold start_failed. destruct (_ =? _); [|done]. cbn [fst].
  eapply safe_bind; [apply safe_report|]. intros T2 [] HT2 _. eapply safe_bind; [apply safe_refuse|]. intros T3 [] HT3 _.
  by advance.
Qed.

Lemma safe_start_task T g : EvInput InStart ∈ T -> safe whatever T (start_task g).
Proof.
  intros Hi. unfold start_task. eapply (safe_bind whatever); [by intros h|]. intros T0 created HT0 _.
  eapply (safe_bind whatever).
  { intros T' s HT Hs. split; [|done]. unfold start_gateway. destruct (_ || _); [done|]. destruct (gateway s); [done|].
    by destruct created. }
  intros T1 [| |gw] HT1 _; [done|done|]. eapply safe_bind; [apply safe_start_body; earlier|].
  intros T2 [[]|e] HT2 _; [done|]. apply safe_start_catch. earlier.
Qed.

Lemma safe_start T : EvInput InStart ∈ T -> safe whatever T start_core_after_foreground.
Proof.
  intros Hi. unfold start_core_after_foreground. eapply safe_bind; [apply safe_locked|].
  { intros T' s HT Hs. unfold start_request. by destruct (_ || _). }
  intros T1 g HT1 (s & Hs & ->). destruct (start_request s).1; [|done]. by advance.
Qed.

Lemma safe_stop T : EvInput InStop ∈ T -> safe whatever T stop_core_app.
Proof.
  intros Hi. unfold stop_core_app. eapply safe_bind; [apply safe_locked; by constructor|].
  intros T1 stopped HT1 (s & Hs & ->). cbn [fst stop_core]. eapply safe_bind; [apply safe_refuse|]. intros T2 [] HT2 _.
  destruct (gateway s); by advance.
Qed.

Lemma safe_send_app T id : EvInput (InSend id) ∈ T -> safe whatever T (send_app id).
Proof.
  intros Hi. unfold send_app. eapply safe_bind; [apply safe_locked|].
  { intros T' s HT Hs. unfold send_request. destruct (ready s); [done|]. destruct (_ <? _); [|done]. unfold pending_ok. simpl.
    apply Forall_app. split; [done|]. apply Forall_singleton. by apply HT. }
  intros T1 e HT1 (s & Hs & ->). destruct (send_request id s).1; by advance.
Qed.

Lemma safe_drop {A} T (p : prog A) : safe whatever T p -> safe whatever T (drop_result p).
Proof. intros Hp. eapply safe_bind; [exact Hp|]. by intros. Qed.

Lemma safe_task T t : task_ok T t -> safe whatever T (run_task t).
Proof.
  destruct t; cbn [run_task task_ok]; intros Ht.
  - by apply safe_start_task.
  - apply safe_drop. by split.
  - by apply safe_drop, safe_send.
  - unfold retry_task. eapply safe_bind; [by apply safe_locked|]. intros T1 again HT1 _.
    destruct (again : bool); [|done]. apply safe_start. earlier.
  - apply safe_with_gateway. intros T' gw HT. apply safe_claim_task. earlier.
  - apply safe_with_gateway. intros T' gw HT. apply safe_confirm_task. earlier.
  - apply safe_with_gateway. intros T' gw HT. apply safe_cancel_task. earlier.
  - apply safe_with_gateway. intros T' gw HT. apply safe_refresh. earlier.
  - apply safe_with_gateway. intros T' gw HT. apply safe_load_image_task. earlier.
  - apply safe_with_gateway. intros T' gw HT. apply safe_apply_task. earlier.
  - apply safe_with_gateway. intros T' gw HT. apply safe_clear_task. earlier.
  - by apply safe_settle_history.
  - by apply safe_settle_pairing.
Qed.

Lemma safe_on_status T status : EvInput (InStatus status) ∈ T -> safe whatever T (on_status status).
Proof.
  intros Hi. destruct status; cbn [on_status]; try (apply safe_status; by discriminate).
  1-3: eapply safe_bind; [apply safe_status; by try discriminate|intros T1 [] HT1 _; simpl in Hi].
  1-2: assert (asked asks_pairing T) as Hp by (by eexists); unfold schedule_pairing_refresh; by repeat advance.
  1: assert (asked asks_pairing T /\ asked asks_history T) as [Hp Hh] by (split; by eexists);
    unfold schedule_pairing_refresh, schedule_history_refresh; by repeat advance.
  apply safe_report.
Qed.

Lemma safe_input T i : EvInput i ∈ T -> safe whatever T (input_prog i).
Proof.
  intros Hi. destruct i; cbn [input_prog].
  - by apply safe_start.
  - by apply safe_stop.
  - by apply safe_send_app.
  - unfold claim_pairing. by repeat advance.
  - unfold confirm_pairing. advance. destruct (can_confirm (ui_pairing a)) eqn:Ec; [|done].
    destruct (ui_pairing a) eqn:Ep; try done. split; [|done]. split_and!; [earlier|done|by eapply uo_sas].
  - by advance.
  - assert (asked asks_history T) as Hh by (by exists InRefresh). unfold refresh_history. by repeat advance.
  - unfold load_history_image. advance. destruct (find_item id (ui_history a)) as [item|]; [|done].
    destruct (chi_content item) as [|[]]; by advance.
  - by advance.
  - by advance.
  - unfold refresh_notification_state. by repeat advance.
  - unfold report_ui_error. by repeat advance.
  - unfold clear_ui_error. by repeat advance.
  - assert (asked asks_history T) as Hh by (by eexists).
    apply safe_drop. eapply (safe_then whatever); [|done|intros T1 [] HT1 _; unfold schedule_history_refresh; by repeat advance].
    split; [|by intros]. left. eauto.
  - assert (asked asks_history T) as Hh by (by eexists). apply safe_drop.
    unfold on_offline_clip, schedule_history_refresh. by repeat advance.
  - by apply safe_on_status.
  - unfold mark_notification_permission_asked. by advance.
Qed.

(** *** The system *)

Record sys_ok (p : phone) (s : ui_sys) : Prop := {
  so_ui : ui_ok (us_trace s) (us_ui s);
  so_slot : pending_ok (us_trace s) (us_slot s);
  so_tasks : Forall (task_ok (us_trace s)) (us_queue s ++ us_delayed s);
  so_threads : Forall (safe whatever (us_trace s)) (us_threads s);
  so_running : forall q, us_exec s = Some q -> safe whatever (us_trace s) q;
  so_trace : forall T1 e T2, us_trace s = T1 ++ e :: T2 -> event_ok T1 e;
  so_phone : us_phone s = p \/ exists id payload r, EvClip id payload r ∈ us_trace s
}.

Lemma whatever_mono {R} : monotone (R := R) whatever.
Proof. done. Qed.

Lemma trace_grows (T : trace) e : T ⊆ T ++ [e].
Proof. intros x Hx. apply elem_of_app. by left. Qed.

(** A new event, with the facts it needs. *)
Lemma log_ok p s e : event_ok (us_trace s) e -> sys_ok p s -> sys_ok p (log e s).
Proof.
  intros He [H1 H2 H3 H4 H5 H6 H7]. pose proof (trace_grows (us_trace s) e) as HT. split; simpl.
  - by eapply ui_ok_mono.
  - by eapply pending_ok_mono.
  - eapply Forall_impl; [exact H3|]. intros t. by apply task_ok_mono.
  - eapply Forall_impl; [exact H4|]. intros q. apply safe_mono; [apply whatever_mono|done].
  - intros q Hq. eapply safe_mono; [apply whatever_mono|exact HT|by apply H5].
  - intros T1 e' T2 Heq. destruct T2 as [|e2 T2 _] using rev_ind.
    + by apply app_inj_tail in Heq as [<- <-].
    + rewrite app_comm_cons, (assoc_L (++)) in Heq. apply app_inj_tail in Heq as [Heq _]. by eapply H6.
  - destruct H7 as [?|(id & payload & r & ?)]; [by left|right]. eauto.
Qed.

(** One operation of a safe program keeps the system in order, and the rest
    of the program stays safe. *)
Lemma op_step_ok p o q s q' s' :
  safe whatever (us_trace s) q -> sys_ok p s -> op_step o q s = Some (q', s') ->
  safe whatever (us_trace s') q' /\ sys_ok p s' /\ us_threads s' = us_threads s.
Proof.
  intros Hq Hs. destruct q as [r|k|u k|f k|k|gw c k|id payload k|t k|t k|e k]; simpl; intros Ho; try discriminate;
    try injection Ho as <- <-.
  - split_and!; [|done|done]. by apply Hq; [|apply so_ui with p].
  - destruct Hq as [Hu Hk]. split_and!; [done| |done]. destruct Hs. by split.
  - destruct (Hq (us_trace s) (us_slot s)) as [Hf Hk]; [done|by eapply so_slot|]. split_and!; [done| |done]. destruct Hs. by split.
  - by split_and!.
  - destruct Hq as [Hc Hk]. split_and!; [|by apply log_ok|done]. apply Hk; [apply trace_grows|]. simpl. set_solver.
  - destruct Hq as [Hc Hk]. destruct (writer_apply _ _ _ _ _) as [r ph]. injection Ho as <- <-. split_and!; [| |done].
    + apply Hk; [apply trace_grows|]. simpl. set_solver.
    + destruct (log_ok p s (EvClip id payload r)) as [H1 H2 H3 H4 H5 H6 _]; [done|done|]. split; try done. right.
      exists id, payload, r. simpl. set_solver.
  - destruct Hq as [Ht Hk]. split_and!; [done| |done]. destruct Hs as [H1 H2 H3 H4 H5 H6 H7]. split; simpl; try done.
    rewrite <- (assoc_L (++)). apply Forall_app in H3 as [??]. apply Forall_app. split; [done|]. by apply Forall_cons.
  - destruct Hq as [Ht Hk]. split_and!; [done| |done]. destruct Hs as [H1 H2 H3 H4 H5 H6 H7]. split; simpl; try done.
    rewrite (assoc_L (++)). apply Forall_app. split; [done|]. by apply Forall_singleton.
  - destruct Hq as [He Hk]. split_and!; [|apply log_ok; [by destruct e|done]|done].
    eapply safe_mono; [apply whatever_mono|apply trace_grows|exact Hk].
Qed.

Lemma ui_do_ok p c s s' : ui_do c s = Some s' -> sys_ok p s -> sys_ok p s'.
Proof.
  intros Hd Hs. destruct c as [i|n o|o| |n]; simpl in Hd.
  - injection Hd as <-. pose proof (log_ok p s (EvInput i) I Hs) as [H1 H2 H3 H4 H5 H6 H7]. split; try done.
    apply Forall_app. split; [done|]. apply Forall_singleton, safe_input. simpl. set_solver.
  - apply bind_Some in Hd as (q & Hn & Hd). apply bind_Some in Hd as ([q' s1] & Ho & [= <-]).
    assert (safe whatever (us_trace s) q) as Hq by (eapply Forall_lookup_1; [by eapply so_threads|exact Hn]).
    destruct (op_step_ok p o q s q' s1 Hq Hs Ho) as (Hq' & [H1 H2 H3 H4 H5 H6 H7] & Et). split; try done. by apply Forall_insert.
  - apply bind_Some in Hd as (q & Hn & Hd). apply bind_Some in Hd as ([q' s1] & Ho & [= <-]).
    destruct (op_step_ok p o q s q' s1 (so_running p s Hs q Hn) Hs Ho) as (Hq' & [H1 H2 H3 H4 H5 H6 H7] & Et). split; try done.
    by intros ? [= <-].
  - assert (exists t queue, us_queue s = t :: queue /\ s' = with_running (Some (run_task t)) (with_tasks queue s)) as (t & queue & Eq & ->).
    { destruct (us_exec s) as [[]|], (us_queue s) as [|t0 queue0]; try done; injection Hd as <-; eauto. }
    destruct Hs as [H1 H2 H3 H4 H5 H6 H7]. rewrite Eq in H3. apply Forall_cons in H3 as [Ht H3]. split; try done.
    intros q [= <-]. by apply safe_task.
  - apply bind_Some in Hd as (t & Hn & [= <-]). destruct Hs as [H1 H2 H3 H4 H5 H6 H7]. split; try done. simpl.
    apply Forall_app in H3 as [Hq Hl]. rewrite (delete_Permutation _ _ _ Hn), Forall_cons in Hl. destruct Hl as [Ht Hl].
    rewrite <- (assoc_L (++)). apply Forall_app. split; [done|]. by apply Forall_cons.
Qed.

Lemma ui_run_ok p cs s : ui_run cs (ui_new p) = Some s -> sys_ok p s.
Proof.
  assert (sys_ok p (ui_new p)) as H0.
  { split; simpl; [|constructor|constructor|constructor|done|by intros []|by left].
    split; simpl; [done|done|discriminate|lia|constructor|constructor]. }
  revert H0. generalize (ui_new p). induction cs as [|c cs IH]; intros s0 H0; simpl; [by intros [= <-]|].
  intros (s1 & H1 & H2)%bind_Some. eapply IH; [|exact H2]. by eapply ui_do_ok.
Qed.

(** ** Properties *)

(** C15. Whatever the threads of the application do between each other's
    operations, what the screen shows is what the core said: a code to compare
    is one the core gave out, a paired room is one the core reported, connected
    is shown only after the core reported it, and the history is at most fifty
    items, newest first, each of them reported by the core, with images the
    core returned for that item, and shown as applied only if the core had it so
    or the clipboard took it. *)
Theorem screen_is_true p cs s : ui_run cs (ui_new p) = Some s -> ui_ok (us_trace s) (us_ui s).
Proof. intros Hrun. eapply so_ui, ui_run_ok, Hrun. Qed.

(** C14. The application acts for its user only.  In every interleaving, each
    call that has the core do something follows from what the user asked for
    before (a confirmation passes six digits the core gave out, after the user
    pressed confirm; a deferred item is applied after its content is on the
    clipboard; a payload is sent as it was handed in); the history and the
    state of the pairing are read only after an action of the user that shows
    them or a callback of the core that announces a change; and the clipboard
    is written only with a live clip as it arrived or with the content of the
    item the user chose; without either it is never touched, however many
    clips arrive in the mailbox. *)
Theorem android_follows_user p cs s :
  ui_run cs (ui_new p) = Some s ->
  (forall T1 e T2, us_trace s = T1 ++ e :: T2 -> event_ok T1 e) /\
  ((forall item, EvInput (InClip item) ∉ us_trace s) -> (forall id, EvInput (InApply id) ∉ us_trace s) -> us_phone s = p).
Proof.
  intros Hrun%(ui_run_ok p). split; [by eapply so_trace|]. intros Hc Ha.
  destruct (so_phone p s Hrun) as [?|(id & payload & r & Hin)]; [done|]. exfalso.
  apply list_elem_of_split in Hin as (T1 & T2 & Et). pose proof (so_trace p s Hrun _ _ _ Et) as Hok. simpl in Hok.
  assert (T1 ⊆ us_trace s) as HT by (rewrite Et; set_solver).
  destruct Hok as [(item & H1 & _)|(H1 & _)]; [by eapply Hc, HT|by eapply Ha, HT].
Qed.

(** Every task of the executor ends, whatever the core and the platform answer. *)
Theorem tasks_end q s (f : nat -> oracle) :
  us_exec s = Some q -> exists n s', ui_run ((fun i => DoExec (f i)) <$> seq 0 n) s = Some s' /\ us_exec s' = Some (Ret tt).
Proof.
  assert (forall c q' s1 s2 (g : nat -> oracle), c = DoExec (g 0) -> ui_do c s1 = Some s2 -> us_exec s2 = Some q' ->
    (forall s (f : nat -> oracle), us_exec s = Some q' ->
       exists n s', ui_run ((fun i => DoExec (f i)) <$> seq 0 n) s = Some s' /\ us_exec s' = Some (Ret tt)) ->
    exists n s', ui_run ((fun i => DoExec (g i)) <$> seq 0 n) s1 = Some s' /\ us_exec s' = Some (Ret tt)) as Hnext.
  { intros c q' s1 s2 g -> Hd He IH. destruct (IH s2 (fun i => g (S i)) He) as (n & s' & Hr & Hend). exists (S n), s'.
    split; [|done]. cbn [seq]. rewrite fmap_cons, <- fmap_S_seq, <- list_fmap_compose. cbn [ui_run]. by rewrite Hd. }
  revert s f. induction q as [[]|k IH|u k IH|h k IH|k IH|gw c k IH|id payload k IH|t k IH|t k IH|e k IH]; intros s f He;
    [by exists 0, s|..];
    try (eapply Hnext; [done|simpl; rewrite He; simpl; reflexivity|reflexivity|by apply IH]).
  destruct (writer_apply (or_save (f 0)) (or_media (f 0)) id payload (us_phone s)) as [r ph] eqn:Ew.
  eapply Hnext; [done|simpl; rewrite He; simpl; rewrite Ew; reflexivity|reflexivity|by apply IH].
Qed.

(** A program that no other thread interrupts. *)
Fixpoint alone (o : oracle) (q : prog unit) (s : ui_sys) : ui_sys :=
  match q with
  | Ret _ => s
  | GetUi k => alone o (k (us_ui s)) s
  | PutUi u k => alone o k (with_ui u s)
  | Locked f k => alone o (k (us_slot s)) (with_app_slot (f (us_slot s)) s)
  | NewHandle k => alone o (k (or_created o)) s
  | CallCore gw c k => alone o (k (or_answer o c)) (log (EvCall gw c (or_answer o c)) s)
  | WriteClip id payload k =>
      let '(r, p) := writer_apply (or_save o) (or_media o) id payload (us_phone s) in
      alone o (k r) (log (EvClip id payload r) (with_phone p s))
  | Execute t k => alone o k (with_tasks (us_queue s ++ [t]) s)
  | Schedule t k => alone o k (with_later (us_delayed s ++ [t]) s)
  | Emit e k => alone o k (log e s)
  end.

(** It is the executor doing its next operation until the task has ended. *)
Lemma alone_runs o q s :
  exists n, ui_run (replicate n (DoExec o)) (with_running (Some q) s) = Some (with_running (Some (Ret tt)) (alone o q s)).
Proof.
  revert s. induction q as [[]|k IH|u k IH|h k IH|k IH|gw c k IH|id payload k IH|t k IH|t k IH|e k IH]; intros s; cbn [alone].
  1: by exists 0.
  - destruct (IH (us_ui s) s) as [n Hn]. by exists (S n).
  - destruct (IH (with_ui u s)) as [n Hn]. by exists (S n).
  - destruct (IH (us_slot s) (with_app_slot (h (us_slot s)) s)) as [n Hn]. by exists (S n).
  - destruct (IH (or_created o) s) as [n Hn]. by exists (S n).
  - destruct (IH (or_answer o c) (log (EvCall gw c (or_answer o c)) s)) as [n Hn]. by exists (S n).
  - destruct (writer_apply _ _ _ _ _) as [r p] eqn:Ew.
    destruct (IH r (log (EvClip id payload r) (with_phone p s))) as [n Hn]. exists (S n). simpl. rewrite Ew. exact Hn.
  - destruct (IH (with_tasks (us_queue s ++ [t]) s)) as [n Hn]. by exists (S n).
  - destruct (IH (with_later (us_delayed s ++ [t]) s)) as [n Hn]. by exists (S n).
  - destruct (IH (log e s)) as [n Hn]. by exists (S n).
Qed.

Lemma alone_with_gateway o prefix action gw s :
  gateway (us_slot s) = Some gw ->
  alone o (with_gateway prefix action) s =
  alone o (r ← action gw;
           match r with
           | Ok _ => mret tt
           | Err e =>
               u ← get_ui;
               _ ← (if is_claiming (ui_pairing u) then update_ui (copy_pairing PuUnpaired) else mret tt);
               report_error prefix e
           end) (with_app_slot (us_slot s) s).
Proof. intros Hg. unfold with_gateway, current_gateway. cbn. by rewrite Hg. Qed.

(** A claim always comes to an end on the screen, as long as a core is there:
    its task shows the code the core gave out, or that the device is not
    paired, with the error. *)
Theorem claim_ends_on_screen s qr gw o :
  gateway (us_slot s) = Some gw -> ui_pairing (us_ui s) = PuClaiming ->
  let u := us_ui (alone o (run_task (UtClaim qr)) s) in
  match or_answer o (GClaimPairing qr) with
  | Ok sas => ui_pairing u = PuSasReady sas /\ ui_last_error u = None
  | Err _ => ui_pairing u = PuUnpaired /\ is_Some (ui_last_error u)
  end.
Proof.
  intros Hg Hp. cbn [run_task]. rewrite (alone_with_gateway _ _ _ gw) by done. unfold claim_pairing_task. cbn.
  destruct (or_answer o (GClaimPairing qr)) as [sas|e]; cbn; [done|]. rewrite Hp. cbn. eauto.
Qed.

(** Without a core it does not: the task reports the error and leaves the
    screen claiming. *)
Theorem claim_without_core_sticks s qr o :
  gateway (us_slot s) = None ->
  let u := us_ui (alone o (run_task (UtClaim qr)) s) in
  ui_pairing u = ui_pairing (us_ui s) /\ is_Some (ui_last_error u).
Proof. intros Hg. cbn [run_task]. unfold with_gateway, current_gateway. cbn. rewrite Hg. cbn. eauto. Qed.

(** A refresh that fails leaves the history loading on the screen. *)
Theorem failed_refresh_keeps_loading s gw o e :
  gateway (us_slot s) = Some gw -> or_answer o GHistory = Err e ->
  ui_history_loading (us_ui (alone o (run_task UtRefresh) s)) = ui_history_loading (us_ui s).
Proof.
  intros Hg Ha. cbn [run_task]. rewrite (alone_with_gateway _ _ _ gw) by done. unfold refresh_history_blocking. cbn.
  rewrite Ha. cbn. destruct (is_claiming _); done.
Qed.
End app.

(** ** Runs *)

Module AndroidUiToy.

#[local] Instance toy_bitmap : BitmapFactory.
Proof. refine {| decode_bounds := fun _ => (0%Z, 0%Z, None) |}. intros b. by split. Defined.

Definition toy_phone : phone := {| ph_clip := None; ph_dir := []; ph_rows := []; ph_save_to_gallery := false |}.
Definition toy_payload (id : nat) : AndroidPayload := ApText "sent".
Definition offline_item : CoreHistoryItem :=
  {| chi_id := "a"; chi_ts_ms := 5; chi_content := HcText "hello"; chi_source := FhRemoteDeferred |}.

(** A core that is paired, with one deferred item. *)
Definition toy_answer (c : gw_call) : result (gw_value c) string :=
  match c with
  | GLoadPairingAndStart => Ok true
  | GPairingSnapshot => Ok (PuPaired "room")
  | GClaimPairing _ => Ok "123456"%string
  | GHistory => Ok [offline_item]
  | GHistoryImageBytes _ => Ok []
  | GSend _ => Ok 1%Z
  | GConfirmPairing _ | GCancelPairing | GApplyHistory _ | GClearHistory | GShutdown => Ok tt
  end.
Definition toy_oracle : oracle := {| or_created := Some 0; or_save := AndroidToy.good_env 0; or_media := AndroidToy.no_trouble; or_answer := toy_answer |}.

Definition exec (n : nat) : list ui_choice := replicate n (DoExec toy_oracle).
Definition thread (i n : nat) : list ui_choice := replicate n (DoThread i toy_oracle).

(** The service starts the core; the first status arrives during the start. *)
Definition starting (during : list ui_choice) : list ui_choice :=
  [DoInput InStart] ++ thread 0 2 ++ [DoTake] ++ exec 3 ++ during ++ exec 5.

Definition reached (cs : list ui_choice) : option ui_sys := ui_run toy_payload cs (ui_new toy_phone).

(** What is on the screen, with nothing left to run. *)
Definition settled (s : ui_sys) : Prop :=
  us_queue s = [] /\ us_delayed s = [] /\ Forall (fun q => q = Ret tt) (us_threads s) /\ us_exec s = Some (Ret tt).

(** The core reports connected while the start task reads the history; the
    task then shows connecting, and when everything has run it still does. *)
Theorem start_hides_connected :
  exists s, reached (starting (DoInput (InStatus StConnected) :: thread 1 5) ++
                     [DoFire 0; DoFire 0; DoTake] ++ exec 4 ++ [DoTake] ++ exec 4) = Some s /\
    settled s /\ ui_core_status (us_ui s) = "连接中"%string.
Proof. eexists. split; [vm_compute; reflexivity|]. by repeat split; repeat constructor. Qed.

(** The refresh of the pairing reads the screen before it asks the core and
    writes it afterwards: a disconnection reported in between is lost, and
    the screen shows connected. *)
Theorem refresh_hides_disconnection :
  exists s, reached (starting [] ++ [DoInput (InStatus StConnected)] ++ thread 1 5 ++ [DoFire 1; DoTake] ++ exec 4 ++
                     [DoFire 0; DoTake] ++ exec 2 ++
                     [DoInput (InStatus Disconnected)] ++ thread 2 3 ++ exec 2) = Some s /\
    settled s /\ ui_core_status (us_ui s) = "已连接"%string.
Proof. eexists. split; [vm_compute; reflexivity|]. by repeat split; repeat constructor. Qed.

(** The user pairs, and later applies the deferred item. *)
Definition pair_and_apply : list ui_choice :=
  starting [] ++ [DoInput (InClaim "qr")] ++ thread 1 3 ++ [DoTake] ++ exec 4 ++
  [DoInput InConfirm] ++ thread 2 2 ++ [DoTake] ++ exec 8 ++
  [DoInput (InApply "a")] ++ thread 3 1 ++ [DoTake] ++ exec 7.

Definition seen (s : ui_sys) : PairingUiState * list FfiHistorySource * option primary_clip :=
  (ui_pairing (us_ui s), chi_source <$> ui_history (us_ui s), ph_clip (us_phone s)).

Lemma pair_and_apply_seen : seen <$> ui_run toy_payload pair_and_apply (ui_new toy_phone) = Some (PuPaired "room", [FhRemote], Some (ClipPlainText "hello")).
Proof. vm_compute. reflexivity. Qed.

Lemma pair_and_apply_confirms :
  (fun s => us_trace s !! 7) <$> ui_run toy_payload pair_and_apply (ui_new toy_phone) = Some (Some (EvCall 0 (GConfirmPairing "123456") (Ok tt))).
Proof. vm_compute. reflexivity. Qed.

Lemma screen_is_true_witness :
  exists s, ui_run toy_payload pair_and_apply (ui_new toy_phone) = Some s /\ ui_ok (us_trace s) (us_ui s) /\
    seen s = (PuPaired "room", [FhRemote], Some (ClipPlainText "hello")).
Proof.
  pose proof pair_and_apply_seen as Hs.
  destruct (ui_run toy_payload pair_and_apply (ui_new toy_phone)) as [s|] eqn:E; [|discriminate].
  exists s. split; [reflexivity|]. split; [exact (screen_is_true toy_payload toy_phone pair_and_apply s E)|]. exact (Some_inj _ _ Hs).
Defined.

Lemma android_follows_user_witness :
  exists s T1 T2, ui_run toy_payload pair_and_apply (ui_new toy_phone) = Some s /\
    us_trace s = T1 ++ EvCall 0 (GConfirmPairing "123456") (Ok tt) :: T2 /\ confirm_ok T1 "123456".
Proof.
  pose proof pair_and_apply_confirms as Hc.
  destruct (ui_run toy_payload pair_and_apply (ui_new toy_phone)) as [s|] eqn:E; [|discriminate].
  injection Hc as Hc. exists s, (take 7 (us_trace s)), (drop 8 (us_trace s)). split; [reflexivity|].
  apply take_drop_middle in Hc. split; [by rewrite Hc|].
  exact (proj1 (android_follows_user toy_payload toy_phone pair_and_apply s E) _ _ _ (eq_sym Hc)).
Defined.
End AndroidUiToy.
