(* ===== verification/AndroidGateway.v ===== *)
(** * The gateway of the Android application to the core ([CoreGateway.kt])

    [NativeCoreGateway] forwards the calls of [AndroidUi] to the handle of
    [Ffi] and converts what comes back.  What a call meets outside the handle
    and what the dispatcher answers are arguments as in [Ffi]; the message of
    an exception the bindings throw is a parameter. *)

From S2P Require Import Prelude Fs Interfaces Protocol Crypto History Pairing Session PairingClient Dispatcher Ffi.
From S2P Require Import Android AndroidCore AndroidUi.
From Stdlib Require Import Strings.Byte.

Set Default Goal Selector "!".
#[local] Open Scope clip_scope.

(** What the dispatcher answers to one call, by kind. *)
Record native_answers := {
  na_send : option (result Z CoreError); na_history : option (result (list FfiHistoryItem) CoreError);
  na_image : option (result bytes CoreError); na_unit : option (result unit CoreError); na_now : Z
}.

Definition native_pairing (s : PairingSnapshot) : PairingUiState :=
  match s with
  | SnUnpaired | SnOffering _ => PuUnpaired
  | SnSasReady sas => PuSasReady sas
  | SnPaired room_id => PuPaired room_id
  end.

Definition native_item (i : FfiHistoryItem) : CoreHistoryItem := {|
  chi_id := fh_id i; chi_ts_ms := fh_ts_ms i;
  chi_content := match fh_kind i with FhText content => HcText content | FhImage => HcImage None end;
  chi_source := fh_source i |}.

Section gateway.
Context {JD : Json SessionDocument} {JH : Json HistoryItem} {JE : Json Envelope} {JF : Json Frame}.
Context {JI : Json IdentityDocument} {JR : Json PairingRecord} {JQ : Json QrPayload}.
Context {B64 : Base64} {S256 : Sha256} {Ed : Ed25519} {X : X25519} {A : Aead} {U : UuidText}.
Context {DI : Display} {HC : CoreCallbacks}.
Context (debug : bool) (frame_debug : Frame -> string) (show_uuid : string -> string) (message : CoreError -> string).

Definition load_pairing_and_start (o : outside) : hm bool :=
  paired ←# pair_load debug o;
  _ ←# (if (paired : bool) then handle_start debug frame_debug o else h_ret tt);
  h_ret paired.

Definition pairing_snapshot : hm PairingUiState := fun h => mret (Ok (native_pairing (pair_poll h)), h).

Definition native_history (answer : option (result (list FfiHistoryItem) CoreError)) : hm (list CoreHistoryItem) :=
  items ←# handle_history answer; h_ret (native_item <$> items).

(** A method of [NativeCoreGateway] over the handle. *)
Definition native_method (c : gw_call) (an : native_answers) (o : outside) : hm (gw_value c) :=
  match c with
  | GLoadPairingAndStart => load_pairing_and_start o
  | GPairingSnapshot => pairing_snapshot
  | GClaimPairing qr_payload => handle_pair_claim debug frame_debug qr_payload o
  | GConfirmPairing sas => pair_confirm debug frame_debug sas o
  | GCancelPairing => h_sec pair_cancel
  | GHistory => native_history (na_history an)
  | GHistoryImageBytes id => history_image_bytes show_uuid id (na_image an)
  | GApplyHistory id => history_apply show_uuid id (na_unit an)
  | GClearHistory => handle_history_clear (na_unit an)
  | GSend payload =>
      enqueue_send match payload with ApText text => CText text | ApImage data => CImage data end (na_now an) (na_send an)
  | GShutdown => shutdown o
  end.

(** As the application sees it. *)
Definition native_call (c : gw_call) (an : native_answers) (o : outside) (h : CoreHandle) :
    io event (result (gw_value c) string * CoreHandle) :=
  out ← native_method c an o h; mret (map_err message out.1, out.2).

(** ** Properties *)

Lemma returns_h_bind {R Q} (P : R -> CoreHandle -> Prop) (W : result Q CoreError * CoreHandle -> Prop) (m : hm R) (k : R -> hm Q) h :
  returns (fun out => match out.1 with Ok a => P a out.2 | Err e => W (Err e, out.2) end) (m h) ->
  (forall a h', P a h' -> returns W (k a h')) -> returns W (h_bind m k h).
Proof.
  intros Hm Hk. eapply returns_bind_post; [exact Hm|]. intros [[a|e] h'] Hout; simpl in *; [by apply Hk|by apply returns_ret].
Qed.

Lemma returns_any {T B} (R : B -> Prop) (m : io T B) : (forall b, R b) -> returns R m.
Proof. intros HR w. unfold wpc. destruct (m w) as [[b|] w1]; [apply HR|done]. Qed.

(** The code that confirms is the one the channel has. *)
Lemma confirm_checks drawn (c : held) sas store :
  returns (fun r => is_ok r = true -> sas = pending_sas (ch_pending c.1))
    (confirm_pair (T := event) debug frame_debug drawn c.1 sas store c.2).
Proof.
  unfold confirm_pair, confirm. case_bool_decide as E; simpl; [by apply returns_any|by apply returns_ret].
Qed.

(** What [pair_confirm] confirms: the handle shows a code whose channel it
    holds, and [sas] is the code of that channel. *)
Definition confirms (sas : string) (h : CoreHandle) : Prop :=
  exists a shown slot c, ch_state h = HActive a /\ ac_phase a = PhSasReady shown slot /\
    ch_slots h !! slot = Some (Some c) /\ sas = pending_sas (ch_pending c.1).

(** C19. A confirmation that the application sees succeed was of the code the
    device's own channel computed: any other text is refused, whatever the
    relay and the disk do. *)
Theorem native_confirms_own_code sas an o h :
  returns (fun out => is_ok out.1 = true -> confirms sas h) (native_call (GConfirmPairing sas) an o h).
Proof.
  unfold native_call. apply (returns_bind_post (fun out => is_ok out.1 = true -> confirms sas h));
    [|intros [[[]|e] h'] Hout; by apply returns_ret].
  cbn [native_method]. unfold pair_confirm.
  apply (returns_h_bind (fun slot h' => exists a shown, ch_state h = HActive a /\ ac_phase a = PhSasReady shown slot /\
    ch_slots h' = ch_slots h)).
  { apply returns_ret. unfold confirm_take, with_active. destruct (ch_state h) as [a| |] eqn:Es; [|done..].
    destruct (ac_phase a) eqn:Ep; try done. simpl. eauto. }
  intros slot h1 (a & shown & Hs & Hp & Hslots).
  apply (returns_h_bind (fun c _ => ch_slots h !! slot = Some (Some c))).
  { apply returns_ret. unfold slot_take. rewrite Hslots. by destruct (ch_slots h !! slot) as [[c|]|]. }
  intros c h2 Hc. apply (returns_h_bind (fun _ _ => True)); [apply returns_any; by intros [[store|e] h3]|].
  intros store h3 _. apply (returns_h_bind (fun r _ => is_ok r = true -> sas = pending_sas (ch_pending c.1))).
  - apply (returns_bind_post (fun r => is_ok r = true -> sas = pending_sas (ch_pending c.1))); [|intros r Hr; by apply returns_ret].
    eapply returns_bind_post; [apply confirm_checks|]. intros r Hr. apply returns_ret. destruct (o_timed_out o), r; done.
  - intros [link|e] h4 Hr; [|by intros w]. apply returns_any. intros out _. exists a, shown, slot, c. auto.
Qed.

(** Only a channel that was claimed is shown. *)
Lemma show_claimed_polls c h :
  returns (fun out => forall sas, out.1 = Ok sas -> confirms sas out.2 /\ pair_poll out.2 = SnSasReady sas) (show_claimed c h).
Proof.
  intros w. unfold wpc, show_claimed, h_bind, h_sec, h_do, h_ret, new_slot, fresh, put_phase, with_active. cbn.
  destruct (ch_state h) as [a| |] eqn:Es; cbn; [|done..]. intros sas [= <-]. split; [|done].
  exists (with_phase (PhSasReady (pending_sas (ch_pending c.1)) (ch_next h)) a), (pending_sas (ch_pending c.1)), (ch_next h), c.
  cbn. by rewrite lookup_insert_eq.
Qed.

(** A claim that the application sees succeed gives it the code that
    [pairing_snapshot] then returns, and that code is one the handle confirms. *)
Theorem native_claim_can_be_confirmed qr an o h :
  returns (fun out => forall sas, out.1 = Ok sas -> confirms sas out.2 /\ native_pairing (pair_poll out.2) = PuSasReady sas)
    (native_call (GClaimPairing qr) an o h).
Proof.
  unfold native_call.
  apply (returns_bind_post (fun out => forall sas, out.1 = Ok sas -> confirms sas out.2 /\ pair_poll out.2 = SnSasReady sas)).
  - cbn [native_method]. unfold handle_pair_claim. destruct (qr_parse _ _) as [q|e]; [|by apply returns_ret].
    apply (returns_h_bind (fun _ _ => True)); [apply returns_any; by intros [[]]|]. intros store h1 _.
    apply (returns_h_bind (fun _ _ => True)); [apply returns_any; by intros [[]]|]. intros [] h2 _.
    apply (returns_h_bind (fun _ _ => True)); [apply returns_any; by intros [[]]|]. intros [c|e] h3 _; [|by intros w].
    apply show_claimed_polls.
  - intros [[sas|e] h'] Hout; apply returns_ret; simpl in *; [|done]. intros sas' [= <-].
    destruct (Hout sas eq_refl) as [Hc ->]. done.
Qed.
End gateway.
