(* ===== verification/AndroidScreens.v ===== *)
(** * The logic in the Android screens

    [HistoryThumbnail.kt], [QrScannerView.kt] and [FocusClipboardActivity.kt]:
    how far an image is scaled down before it is decoded, which frame of the
    camera gives the pairing code, and what the activity that reads the
    clipboard does with it.  The views around them are left out. *)

From S2P Require Import Prelude Interfaces Protocol Crypto Dispatcher Android.
From Stdlib Require Import Strings.Byte.

Set Default Goal Selector "!".
#[local] Open Scope clip_scope.

(** ** [decodeHistoryThumbnail] *)

(** Kotlin's [Int]: 32 bits, wrapping; [/] truncates. *)
Definition int_wrap (z : Z) : Z := ((z + 2 ^ 31) mod 2 ^ 32 - 2 ^ 31)%Z.
Definition int_mul (a b : Z) : Z := int_wrap (a * b).

Definition too_large (side sample_size max_dimension : Z) : bool :=
  (int_mul max_dimension 2 <? Z.quot side sample_size)%Z.

(** The loop doubles the sample size at most 31 times before it would
    overflow; [None] stands for a loop that has not ended by then. *)
Fixpoint sample_loop (fuel : nat) (width height max_dimension sample_size : Z) : option Z :=
  match fuel with
  | 0 => None
  | S fuel =>
      if too_large width sample_size max_dimension || too_large height sample_size max_dimension
      then sample_loop fuel width height max_dimension (int_mul sample_size 2)
      else Some sample_size
  end.

Definition sample_size (width height max_dimension : Z) : option Z := sample_loop 32 width height max_dimension 1.

Section thumbnail.
Context {BF : BitmapFactory} {Bitmap : Type} (decode_sampled : bytes -> Z -> option Bitmap).

(** [None] is [null], for an image without bounds or one that does not decode. *)
Definition decode_history_thumbnail (data : bytes) (max_dimension : Z) : option Bitmap :=
  let '(width, height, _) := decode_bounds data in
  if (width <=? 0)%Z || (height <=? 0)%Z then None
  else s ← sample_size width height max_dimension; decode_sampled data s.
End thumbnail.

Lemma int_wrap_id z : (- 2 ^ 31 <= z < 2 ^ 31)%Z -> int_wrap z = z.
Proof. intros Hz. unfold int_wrap. rewrite Z.mod_small by lia. lia. Qed.

Lemma too_large_spec side s m :
  (0 < side < 2 ^ 31)%Z -> (0 < s)%Z -> (0 < m < 2 ^ 30)%Z -> too_large side s m = (2 * m <? side / s)%Z.
Proof. intros H1 H2 H3. unfold too_large, int_mul. rewrite int_wrap_id by lia. rewrite Z.quot_div_nonneg by lia. f_equal. lia. Qed.

(** Half of a sample size that was too small. *)
Definition needed (width height m s : Z) : Prop := (s = 1 \/ 2 * m < width / (s / 2) \/ 2 * m < height / (s / 2))%Z.

Lemma sample_loop_ends fuel k width height m :
  (0 < width < 2 ^ 31)%Z -> (0 < height < 2 ^ 31)%Z -> (0 < m < 2 ^ 30)%Z -> k + fuel = 32 -> k <= 30 ->
  needed width height m (2 ^ Z.of_nat k) ->
  exists j, sample_loop fuel width height m (2 ^ Z.of_nat k) = Some (2 ^ Z.of_nat j)%Z /\ j <= 30 /\
    needed width height m (2 ^ Z.of_nat j) /\ (width / 2 ^ Z.of_nat j <= 2 * m)%Z /\ (height / 2 ^ Z.of_nat j <= 2 * m)%Z.
Proof.
  intros Hw Hh Hm. revert k. induction fuel as [|fuel IH]; intros k Hk Hk30 Hn; [lia|]. cbn [sample_loop].
  rewrite !too_large_spec by lia. destruct (_ || _) eqn:El.
  - assert (k < 30) as Hlt.
    { destruct (decide (k = 30)) as [->|]; [|lia]. apply orb_true_iff in El. rewrite !Z.ltb_lt in El.
      assert (forall side, (0 < side < 2 ^ 31)%Z -> (side / 2 ^ Z.of_nat 30 < 2)%Z) as Hs
        by (intros side Hs; apply Z.div_lt_upper_bound; lia).
      specialize (Hs width Hw) as H1. specialize (Hs height Hh) as H2. lia. }
    assert (int_mul (2 ^ Z.of_nat k) 2 = 2 ^ Z.of_nat (S k))%Z as ->.
    { unfold int_mul. rewrite Nat2Z.inj_succ, Z.pow_succ_r by lia. rewrite Z.mul_comm. apply int_wrap_id.
      rewrite <- Z.pow_succ_r by lia. assert (2 ^ Z.succ (Z.of_nat k) <= 2 ^ 30)%Z by (apply Z.pow_le_mono_r; lia). lia. }
    apply IH; [lia|lia|]. right.
    assert (2 ^ Z.of_nat (S k) / 2 = 2 ^ Z.of_nat k)%Z as ->.
    { rewrite Nat2Z.inj_succ, Z.pow_succ_r, Z.mul_comm by lia. by apply Z.div_mul. }
    apply orb_true_iff in El. rewrite !Z.ltb_lt in El. done.
  - apply orb_false_iff in El. rewrite !Z.ltb_ge in El. exists k. split_and!; [done|done|done|lia|lia].
Qed.

(** The loop ends for every image and every limit, without overflow, with
    the smallest power of two that brings both sides down to twice the
    limit: what is decoded has at most [4 * m * m] pixels, whatever the
    image claims to be. *)
Theorem sample_size_exact width height m :
  (0 < width < 2 ^ 31)%Z -> (0 < height < 2 ^ 31)%Z -> (0 < m < 2 ^ 30)%Z ->
  exists j, sample_size width height m = Some (2 ^ Z.of_nat j)%Z /\ j <= 30 /\ needed width height m (2 ^ Z.of_nat j) /\
    (width / 2 ^ Z.of_nat j * (height / 2 ^ Z.of_nat j) <= 4 * m * m)%Z.
Proof.
  intros Hw Hh Hm. destruct (sample_loop_ends 32 0 width height m) as (j & H1 & H2 & H3 & H4 & H5); [done|done|done|done|lia|by left|].
  exists j. split_and!; [done|done|done|].
  pose proof (Z.div_pos width (2 ^ Z.of_nat j)). pose proof (Z.div_pos height (2 ^ Z.of_nat j)). nia.
Qed.

(** ** [QrScannerView] *)

(** What the scanner found: the raw values of the codes, or the message of the failure. *)
Abbreviation scan_outcome := (result (list (option string)) (option string)).

(** Where the task of a frame is: in the scanner, before its success or
    failure listener, before its completion listener. *)
Inductive scan_pc := Reading | Listening (outcome : scan_outcome) | Completing.

(** [sc_stuck] are frames whose [process] threw; [sc_codes] and [sc_errors]
    are the calls of [onQrCode] and [onError]. *)
Record scanner := {
  sc_active : bool; sc_processing : bool; sc_delivered : bool; sc_shut : bool; sc_tasks : list (nat * scan_pc);
  sc_seen : list nat; sc_closed : list nat; sc_stuck : list nat; sc_codes : list string; sc_errors : list string
}.

Definition scanner_new : scanner := {|
  sc_active := true; sc_processing := false; sc_delivered := false; sc_shut := false; sc_tasks := []; sc_seen := []; sc_closed := [];
  sc_stuck := []; sc_codes := []; sc_errors := [] |}.

(** The analyzer, on one frame. *)
Definition analyze (frame : nat) (has_image throws : bool) (s : scanner) : scanner :=
  let skip := negb has_image || sc_processing s in {|
  sc_active := sc_active s; sc_processing := negb skip || sc_processing s; sc_delivered := sc_delivered s; sc_shut := sc_shut s;
  sc_tasks := if skip || throws then sc_tasks s else (frame, Reading) :: sc_tasks s;
  sc_seen := frame :: sc_seen s; sc_closed := if skip then frame :: sc_closed s else sc_closed s;
  sc_stuck := if negb skip && throws then frame :: sc_stuck s else sc_stuck s;
  sc_codes := sc_codes s; sc_errors := sc_errors s |}.

Definition set_tasks (tasks : list (nat * scan_pc)) (s : scanner) : scanner := {|
  sc_active := sc_active s; sc_processing := sc_processing s; sc_delivered := sc_delivered s; sc_shut := sc_shut s; sc_tasks := tasks;
  sc_seen := sc_seen s; sc_closed := sc_closed s; sc_stuck := sc_stuck s; sc_codes := sc_codes s; sc_errors := sc_errors s |}.

(** The success and the failure listener. *)
Definition scan_listener (outcome : scan_outcome) (s : scanner) : scanner :=
  match outcome with
  | Ok barcodes =>
      match head (omap id barcodes) with
      | Some value =>
          if sc_delivered s then s
          else {| sc_active := sc_active s; sc_processing := sc_processing s; sc_delivered := true; sc_shut := sc_shut s;
                  sc_tasks := sc_tasks s; sc_seen := sc_seen s; sc_closed := sc_closed s; sc_stuck := sc_stuck s;
                  sc_codes := sc_codes s ++ [value]; sc_errors := sc_errors s |}
      | None => s
      end
  | Err message =>
      if sc_active s
      then {| sc_active := sc_active s; sc_processing := sc_processing s; sc_delivered := sc_delivered s; sc_shut := sc_shut s;
              sc_tasks := sc_tasks s; sc_seen := sc_seen s; sc_closed := sc_closed s; sc_stuck := sc_stuck s;
              sc_codes := sc_codes s; sc_errors := sc_errors s ++ [default "无法读取二维码"%string message] |}
      else s
  end.

(** The completion listener. *)
Definition scan_complete (frame : nat) (s : scanner) : scanner := {|
  sc_active := sc_active s; sc_processing := false; sc_delivered := sc_delivered s; sc_shut := sc_shut s; sc_tasks := sc_tasks s;
  sc_seen := sc_seen s; sc_closed := frame :: sc_closed s; sc_stuck := sc_stuck s; sc_codes := sc_codes s; sc_errors := sc_errors s |}.

(** [onDispose], before and with [analyzerExecutor.shutdownNow]. *)
Definition scan_dispose (shut : bool) (s : scanner) : scanner := {|
  sc_active := false; sc_processing := sc_processing s; sc_delivered := sc_delivered s; sc_shut := shut; sc_tasks := sc_tasks s;
  sc_seen := sc_seen s; sc_closed := sc_closed s; sc_stuck := sc_stuck s; sc_codes := sc_codes s; sc_errors := sc_errors s |}.

Inductive scan_step : scanner -> scanner -> Prop :=
| ss_frame frame has_image throws s : sc_shut s = false -> frame ∉ sc_seen s -> scan_step s (analyze frame has_image throws s)
| ss_read l frame outcome r s :
    sc_tasks s = l ++ (frame, Reading) :: r -> scan_step s (set_tasks (l ++ (frame, Listening outcome) :: r) s)
| ss_listen l frame outcome r s :
    sc_tasks s = l ++ (frame, Listening outcome) :: r ->
    scan_step s (scan_listener outcome (set_tasks (l ++ (frame, Completing) :: r) s))
| ss_complete l frame r s : sc_tasks s = l ++ (frame, Completing) :: r -> scan_step s (scan_complete frame (set_tasks (l ++ r) s))
| ss_dispose s : scan_step s (scan_dispose (sc_shut s) s)
| ss_shut s : sc_active s = false -> scan_step s (scan_dispose true s).

(** Every frame the analyzer saw is closed, under way or stuck, once; at most
    one is under way or stuck, exactly while [processing] is set; and a code
    was handed over exactly if [delivered] is set, once. *)
Record scan_ok (s : scanner) : Prop := {
  sk_frames : sc_seen s ≡ₚ sc_closed s ++ (sc_tasks s).*1 ++ sc_stuck s;
  sk_nodup : NoDup (sc_seen s);
  sk_one : length (sc_tasks s) + length (sc_stuck s) = if sc_processing s then 1 else 0;
  sk_codes : length (sc_codes s) = if sc_delivered s then 1 else 0
}.

Lemma analyze_ok frame has_image throws s : frame ∉ sc_seen s -> scan_ok s -> scan_ok (analyze frame has_image throws s).
Proof.
  intros Hf [H1 H2 H3 H4]. unfold analyze. destruct has_image, (sc_processing s) eqn:Ep, throws; split; simpl; try done;
    try (by constructor); try (by rewrite H1; solve_Permutation); lia.
Qed.

Lemma set_tasks_ok tasks s :
  tasks.*1 = (sc_tasks s).*1 -> scan_ok s -> scan_ok (set_tasks tasks s).
Proof.
  intros Ht [H1 H2 H3 H4]. split; simpl; [by rewrite Ht|done| |done].
  rewrite <- (length_fmap fst tasks), Ht, length_fmap. done.
Qed.

Lemma scan_step_ok s s' : scan_step s s' -> scan_ok s -> scan_ok s'.
Proof.
  intros Hstep Hok. destruct Hstep as [frame has_image throws s Hs Hf|l frame outcome r s Ht|l frame outcome r s Ht|l frame r s Ht|s|s Ha].
  - by apply analyze_ok.
  - apply set_tasks_ok; [|done]. rewrite Ht, !fmap_app. done.
  - assert (scan_ok (set_tasks (l ++ (frame, Completing) :: r) s)) as Hs.
    { apply set_tasks_ok; [|done]. rewrite Ht, !fmap_app. done. }
    destruct outcome as [barcodes|message]; simpl.
    + destruct (head _) as [value|]; [|done]. destruct (sc_delivered s) eqn:Ed; [done|]. destruct Hs as [H1 H2 H3 H4].
      split; simpl in *; try done. rewrite length_app, H4, Ed. done.
    + destruct (sc_active s); [|done]. by destruct Hs.
  - destruct Hok as [H1 H2 H3 H4]. rewrite Ht, length_app in H3. simpl in H3. destruct (sc_processing s); [|lia].
    split; simpl; [|done|rewrite length_app; lia|done]. rewrite H1, Ht, !fmap_app. simpl. solve_Permutation.
  - by destruct Hok.
  - by destruct Hok.
Qed.

(** The scanner, in every interleaving of the camera's thread, the listeners
    and the disposal: one frame at a time is read, each frame is closed once,
    and the pairing is claimed with at most one code. *)
Theorem scanner_exact s : rtc scan_step scanner_new s -> scan_ok s.
Proof.
  intros Hrun. eapply (rtc_ind_r scan_ok); [|intros a b _ Hs; by apply scan_step_ok|exact Hrun]. split; simpl; try done. constructor.
Qed.

(** The listener that hands a code over does not ask whether the view is
    still there: a code read before the view was disposed is claimed after. *)
Theorem code_after_dispose code :
  exists s s', rtc scan_step scanner_new s /\ sc_active s = false /\ sc_shut s = true /\ sc_codes s = [] /\
    scan_step s s' /\ sc_codes s' = [code].
Proof.
  set (s1 := analyze 0 true false scanner_new). set (s2 := set_tasks ([] ++ [(0, Listening (Ok [Some code]))]) s1).
  set (s3 := scan_dispose true (scan_dispose false s2)).
  exists s3, (scan_listener (Ok [Some code]) (set_tasks ([] ++ [(0, Completing)]) s3)). split_and!; try done.
  - apply (rtc_l _ _ s1); [apply ss_frame; [done|by intros ?%not_elem_of_nil]|].
    apply (rtc_l _ _ s2); [by apply (ss_read [] 0 _ [])|]. apply (rtc_l _ _ (scan_dispose false s2)); [by apply ss_dispose|].
    apply rtc_once. by apply ss_shut.
  - by apply (ss_listen [] 0 _ []).
Qed.

(** ** [FocusClipboardActivity] *)

(** What the activity asks for: to send what it read, or to end with a result. *)
Inductive focus_action := FocusSend (payload : AndroidPayload) | FocusFinish (r : SendResult).

Section focus.
Context {BF : BitmapFactory}.

(** [onWindowFocusChanged]; the state is [clipboardRead], [clip] the clipboard at that time. *)
Definition on_window_focus_changed (has_focus : bool) (clip : option (list clip_item)) (clipboard_read : bool) :
    list focus_action * bool :=
  if has_focus && negb clipboard_read then
    ([match capture_read clip with
      | CapReady payload => FocusSend payload
      | CapEmpty => FocusFinish SrEmpty
      | CapOversize => FocusFinish SrOversize
      | CapUnsupported => FocusFinish SrUnsupported
      end], true)
  else ([], clipboard_read).

Fixpoint focus_run (changes : list (bool * option (list clip_item))) (clipboard_read : bool) : list focus_action :=
  match changes with
  | [] => []
  | (has_focus, clip) :: changes =>
      let '(actions, clipboard_read) := on_window_focus_changed has_focus clip clipboard_read in
      actions ++ focus_run changes clipboard_read
  end.

Lemma focus_run_read changes : focus_run changes true = [].
Proof. induction changes as [|[[] clip] changes IH]; [done|exact IH..]. Qed.

(** The activity acts once, on the clipboard of its first focus: later
    changes of the focus or of the clipboard send nothing more. *)
Theorem focus_acts_once changes :
  focus_run changes false =
  match List.find fst changes with
  | Some (_, clip) => (on_window_focus_changed true clip false).1
  | None => []
  end.
Proof.
  induction changes as [|[[] clip] changes IH]; simpl; [done| |exact IH]. by rewrite focus_run_read.
Qed.
End focus.
