(* ===== verification/PhonePaste.v ===== *)
(** * From any device to the phone

    The composition of [CopyPaste] with the Android application as the
    receiving host: a clip, text or image, that some device of the pairing
    sent is on the phone's clipboard once the phone's dispatcher has handled
    it. *)

From S2P Require Import Prelude Fs Interfaces Protocol Crypto Android AndroidCore AndroidUi.
From S2P Require Import History Pairing Session Registry Config RateLimit.
From S2P Require Import Mailbox Outbox Room PairingRelay Connection Server PairingClient EndToEnd Dispatcher Ffi.
From S2P Require Import Filter Pasteboard MacApp MacCore CopyPaste.
From Stdlib Require Import Strings.Byte.

Set Default Goal Selector "!".
#[local] Open Scope clip_scope.

Section phone.
Context {JD : Json SessionDocument} {JH : Json HistoryItem} {JE : Json Envelope} {JF : Json Frame}.
Context {JI : Json IdentityDocument} {JR : Json PairingRecord} {JQ : Json QrPayload}.
Context {B64 : Base64} {S256 : Sha256} {Ed : Ed25519} {X : X25519} {AE : Aead} {U : UuidText}.
Context {DI : Display} {BF : BitmapFactory}.
Context {T R M P : Type} {RT : Registry T R} {MS : MailboxSink M} {PH : PairingHandler T R P}.

(** The host of the core is the application, as [AndroidUi.on_live_clip] and
    [on_offline_clip] answer it. *)
Definition phone_host (o : oracle) (p : phone) : CoreCallbacks := {|
  host_on_clip := fun _ item =>
    HostReturned (map_err InvalidInput (writer_apply (or_save o) (or_media o) (f_id item) (clip_payload item) p).1);
  host_on_mailbox_clip := fun _ _ => HostReturned (Ok FDeferred) |}.

(** What a clip on the clipboard of the phone [p'] is, that was put there when
    the phone was [p].  The clip of an image names a file; no other image
    stands under its name, and it is there with all its bytes unless the
    cleanup took it: the files of [p] that are visible were older, and less
    than a day passed meanwhile. *)
Definition on_clipboard (e : save_env) (content : ClipContent) (p p' : phone) : Prop :=
  match content with
  | CText text => ph_clip p' = Some (ClipPlainText text)
  | CImage data => exists mime file, image_mime_type data = Some mime /\ ph_clip p' = Some (ClipImage mime file) /\
      (forall f, f ∈ ph_dir p' -> df_name f = file -> df_data f = data) /\
      (String.prefix "." file = false -> (sv_after e - sv_modified e <= MAX_AGE_MS)%Z ->
       Forall (fun f => hidden f = false -> df_modified f < sv_modified e)%Z (ph_dir p) ->
       {| df_name := file; df_modified := sv_modified e; df_data := data |} ∈ ph_dir p')
  end.

Lemma written_is_on_clipboard e m item p p' :
  writer_apply e m (f_id (ffi_clip_item item)) (clip_payload (ffi_clip_item item)) p = (Ok tt, p') ->
  on_clipboard e (ci_content item) p p'.
Proof.
  unfold clip_payload, on_clipboard. destruct item as [id ts seq [text|data]]; simpl; [by intros [= <-]|].
  unfold image_clip. destruct (image_mime_type data) as [mime|]; [|done].
  destruct (save _ _ _ _ _) as [[file|err] dir] eqn:Es; [|done]. intros [= <-]. exists mime, file.
  split_and!; [done|done| |].
  - intros f. by eapply saved_data.
  - intros Hh Hage Hold. by apply (received_image_kept _ _ _ _ _ _ _ Es Hh).
Qed.

(** The application's own run of the callback leaves the phone so. *)
Lemma callback_writes o item (s : ui_sys) :
  us_phone (alone o (input_prog (InClip item)) s) =
    (writer_apply (or_save o) (or_media o) (f_id item) (clip_payload item) (us_phone s)).2.
Proof.
  cbn. destruct (writer_apply _ _ _ _ _) as [[[]|err] p']; done.
Qed.

(** C25. A clip sent by one device of a pairing reaches the phone.  The sender's
    dispatcher answered the send and left the sealed frame on the wire; the
    relay, with both members of the room joined and online, an empty inbox and
    space for the frame in the phone's outbox ([relay_between]), hands it on;
    and when the phone's dispatcher handles it without an error, and the phone
    had not seen it and finds it new and fresh ([new_clip]: a replayed or
    stale clip is not handed over), the application was called once, with the
    content that was sent, and its callback has put that content on the
    phone's clipboard: a text as it is, an image only if the policy accepts
    it, as a file with exactly its bytes, which is there unless the cleanup
    took it (no visible file was newer, and less than a day passed). *)
Theorem clip_reaches_phone {HA : CoreCallbacks} debug frame_debug hdirA hdirB content now cA cA' eA seq stA wA wA' log ct
    sv cx raw_len drawn clk id ho out enc wire turn (wR : world T) o (app : ui_sys) cB cB' eB rest wB wB' :
  Session.content_ok content -> paired debug (fc_session cA) (fc_session cB) ->
  supplies_uuids wA -> length (d_nonce eA) = NONCE_LENGTH ->
  dispatch (HC := HA) debug frame_debug hdirA (Command (CmdSend content now)) (Some cA) eA wA =
    (Done (Some (RepSend (Ok seq)), Some cA', stA), wA') ->
  s_log (fc_socket cA') = log ++ [Sent (Clip (s_room_id (fc_session cA)) ct "" false)] ->
  relay_between sv cx (s_room_id (fc_session cA)) (s_self_fp (fc_session cA)) (s_self_fp (fc_session cB)) ct raw_len id ho out enc wire ->
  s_in (fc_socket cB) = DText wire :: rest ->
  (forall item, authenticate (fc_session cB) (s_room_id (fc_session cA)) ct = Some item -> new_clip (fc_session cB) item (d_now eB)) ->
  dispatch (HC := phone_host o (us_phone app)) debug frame_debug hdirB Link (Some cB) eB wB = (Done (None, Some cB', []), wB') ->
  (exists sv' rooms out', Connection.step sv cx (Clip (s_room_id (fc_session cA)) ct "" false) raw_len drawn clk wR = (Done (StepContinue, sv', cx), wR) /\
     actor_turn (sv_rooms sv') id turn wR = (Done rooms, wR) /\ rs_out rooms !! ho = Some out' /\
     ob_queue out' = ob_queue out ++ [OFrame enc] /\ write_turn (Some (OFrame enc)) true = ([WText wire], true)) /\
  exists item, w_trace wB' = w_trace wB ++ [Fired false item] /\ ci_content item = content /\
    on_clipboard (or_save o) content (us_phone app) (us_phone (alone o (input_prog (InClip (ffi_clip_item item))) app)).
Proof.
  intros Hcontent Hpair Hu Hn HsA Hlog Hrelay Hin Hnew HsB. split.
  - eapply relay_passes; [exact Hrelay|by eapply paired_fps].
  - destruct Hrelay as [_ _ _ [Henc Hwire] _].
    destruct (sent_reaches_host (HB := phone_host o (us_phone app)) debug frame_debug hdirA hdirB content now cA cA' eA seq
      stA wA wA' log ct enc wire _ cB cB' eB rest wB wB' Hcontent Hpair Hu Hn HsA Hlog Henc Hwire Hin Hnew HsB) as (item & Hci & Htr & Hh).
    exists item. split_and!; [done|done|]. rewrite callback_writes. cbn [host_on_clip phone_host] in Hh.
    destruct (writer_apply _ _ _ _ _) as [[[]|err] p'] eqn:Ew; [|done]. rewrite <- Hci. by eapply written_is_on_clipboard.
Qed.
End phone.

Module PhonePasteToy.
Import Toy ProtocolToy CryptoToy PairingToy SessionToy EndToEndToy CopyPasteToy.
#[local] Existing Instances toy_base64 toy_sha256 toy_ed25519 toy_x25519 toy_aead toy_uuid.
#[local] Existing Instances document_json HistoryToy.history_json identity_json record_json.
#[local] Existing Instances FfiToy.texts FfiToy.host FfiToy.qr_json_codec CopyPasteToy.envelopes CopyPasteToy.frames.
#[local] Existing Instance AndroidUiToy.toy_bitmap.

Definition app : ui_sys := ui_new AndroidUiToy.toy_phone.
Definition arriving : outcome (option reply * option FfiConnection * list CoreStatus) * world event :=
  dispatch (HC := phone_host AndroidUiToy.toy_oracle (us_phone app)) false (fun _ => "") "h" Link (Some (over receiver [DText wire]))
    FfiToy.at_work device.
Definition arrived_on : FfiConnection := match arriving.1 with Done (_, Some c, _) => c | _ => over receiver [] end.

Lemma clip_reaches_phone_witness :
  exists item, ci_content item = CText "hi" /\
    ph_clip (us_phone (alone AndroidUiToy.toy_oracle (input_prog (InClip (ffi_clip_item item))) app)) = Some (ClipPlainText "hi").
Proof.
  destruct (clip_reaches_phone (T := unit) false (fun _ => "") "h" "h" (CText "hi") 1000
    (over sender []) sent_on FfiToy.at_work 1 [] device sending.2 [] ct relay alice_cx 100 nonce clk 0 2
    (outbox 4 100000) enc wire 30 RoomToy.blank AndroidUiToy.toy_oracle app (over receiver [DText wire]) arrived_on FfiToy.at_work []
    device arriving.2) as (_ & item & _ & H1 & H2).
  - vm_compute. reflexivity.
  - exact sessions_paired.
  - intros n. reflexivity.
  - reflexivity.
  - vm_compute. reflexivity.
  - vm_compute. reflexivity.
  - exact relay_ready.
  - reflexivity.
  - exact clip_is_new.
  - vm_compute. reflexivity.
  - exists item. split; [exact H1|exact H2].
Defined.
End PhonePasteToy.
