(* ===== verification/SimClient.v ===== *)
(** * The smoke client ([crates/server/examples/sim_client.rs])

    A program that drives a deployed relay end to end: it pairs two endpoints,
    sends live and offline clips and checks what arrives, then probes the
    join rate limit with joins of unknown rooms.  It is the one program that
    uses the client, the session and the relay together, so its model is a
    composition of theirs: the two endpoints are two devices ([smoke] threads
    their worlds), a websocket is as in [PairingClient].  Dialling, random
    draws, clock readings and the waits are arguments; a timeout is an error
    of the socket. *)

From stdpp Require Import pretty.
From S2P Require Import Prelude Fs Interfaces Protocol Crypto History Pairing Session Registry Config RateLimit.
From S2P Require Import Mailbox Outbox Room PairingRelay Connection Server PairingClient Dispatcher.
From Stdlib Require Import Strings.Byte.

Set Default Goal Selector "!".
#[local] Open Scope clip_scope.

Definition LOCAL_WSS_URL : string := "wss://localhost:8443/ws".

(** [Box<dyn Error>]: the error it holds. *)
Inductive SmokeError :=
| SmOther (text : string) | SmTransport (e : TransportError) | SmSession (e : SessionError) | SmHistory (e : HistoryError)
| SmPairing (e : PairingError) | SmProtocol (e : ProtocolError) | SmCrypto (e : CryptoError) | SmUtf8 | SmBase64 (text : string)
| SmWebSocket (text : string).

Definition require (condition : bool) (message : string) : result unit SmokeError :=
  if condition then Ok tt else Err (SmOther message).

(** [parse_args], after the program name. *)
Fixpoint parse_flags (args : list string) (url ca : option string) : result (option string * option string) SmokeError :=
  match args with
  | [] => Ok (url, ca)
  | flag :: [] => Err (SmOther ("missing value for " +:+ flag))
  | flag :: value :: args =>
      if bool_decide (flag = "--url"%string) then parse_flags args (Some value) ca
      else if bool_decide (flag = "--ca"%string) then parse_flags args url (Some value)
      else Err (SmOther ("unknown argument: " +:+ flag))
  end.

Definition parse_args (args : list string) : result (string * string) SmokeError :=
  flags ←? parse_flags args None None;
  url ←? ok_or flags.1 (SmOther "--url is required");
  ca ←? ok_or flags.2 (SmOther "--ca is required");
  Ok (url, ca).

(** The first lines of [main]: nothing but the local relay is contacted. *)
Definition checked_args (args : list string) : result (string * string) SmokeError :=
  parsed ←? parse_args args;
  _ ←? require (bool_decide (parsed.1 = LOCAL_WSS_URL)) ("refusing non-local relay URL: " +:+ parsed.1);
  Ok parsed.

Definition deterministic_image (size : nat) : bytes := (fun index => byte_of_Z (Z.of_nat (index mod 251))) <$> seq 0 size.

(** [RecordingCallback]: what it recorded is in the trace of its device. *)
#[export] Instance recording_callback : SessionCallback := {|
  Session.on_clip := fun _ _ => Returned (Ok tt); Session.on_mailbox_clip := fun _ _ => Returned (Ok Deferred) |}.

Definition live_items (trace : list event) : list ClipItem :=
  concat ((fun e => match e with Fired false item => [item] | _ => [] end) <$> trace).
Definition mailbox_items (trace : list event) : list ClipItem :=
  concat ((fun e => match e with Fired true item => [item] | _ => [] end) <$> trace).

(** ** The forged join probe *)

Section probe.
Context {B64 : Base64} {S256 : Sha256} {Ed : Ed25519} {X : X25519} {JF : Json Frame}.
Context (frame_debug : Frame -> string).

Definition sha256_hex (data : bytes) : string := hex_lower (sha256 data).

Definition smoke_sk (A : Type) : Type := Socket -> result A SmokeError * Socket.
Definition ss_bind {A B} (m : smoke_sk A) (k : A -> smoke_sk B) : smoke_sk B := fun s =>
  match m s with (Ok a, s) => k a s | (Err e, s) => (Err e, s) end.
Definition ss_lift {A} (r : result A SmokeError) : smoke_sk A := fun s => (r, s).
#[local] Notation "x ←= m ; k" := (ss_bind m (fun x => k)) (at level 20, m at level 100, k at level 200, only parsing).

Definition sim_send_frame (frame : Frame) : smoke_sk unit := fun s =>
  match encode_frame frame with
  | Err e => (Err (SmProtocol e), s)
  | Ok encoded =>
      match from_utf8 encoded with
      | None => (Err SmUtf8, s)
      | Some _ =>
          match s_out s with
          | Err e :: out => (Err (SmWebSocket e), {| s_in := s_in s; s_out := out; s_log := s_log s |})
          | Ok _ :: out => (Ok tt, {| s_in := s_in s; s_out := out; s_log := s_log s ++ [Sent frame] |})
          | [] => (Ok tt, {| s_in := s_in s; s_out := []; s_log := s_log s ++ [Sent frame] |})
          end
      end
  end.

(** The debug text of a message that is no text is left out. *)
Definition sim_recv_frame : smoke_sk Frame := fun s =>
  match s_in s with
  | [] => (Err (SmOther "websocket closed"), s)
  | d :: rest =>
      let s' := {| s_in := rest; s_out := s_out s; s_log := s_log s |} in
      match d with
      | DText text =>
          match decode_frame (as_bytes text) with
          | Ok f => (Ok f, {| s_in := rest; s_out := s_out s; s_log := s_log s ++ [Got f] |})
          | Err e => (Err (SmProtocol e), s')
          end
      | DClose => (Err (SmOther "websocket closed"), s')
      | DOther => (Err (SmOther "unexpected websocket message"), s')
      | DError e => (Err (SmWebSocket e), s')
      end
  end.

(** The nonce of the relay's answer to the hello. *)
Definition hello_nonce (f : Frame) : result bytes SmokeError :=
  match f with
  | HelloOk _ nonce_b64 =>
      decoded ←? map_err SmBase64 (b64_decode nonce_b64);
      if bool_decide (length decoded = 32) then Ok decoded else Err (SmOther "hello nonce was not 32 bytes")
  | f => Err (SmOther ("expected hello_ok during forged-XFF probe, got " +:+ frame_debug f))
  end.

(** A well-signed join of the room of two identities nobody paired. *)
Definition forged_join (identity peer : Identity) (nonce : bytes) : result Frame SmokeError :=
  let room := room_id (public_bundle identity) (public_bundle peer) in
  message ←? map_err SmCrypto
    (join_sig_msg nonce room (identity_device_id identity) (bundle_bytes (public_bundle identity)));
  Ok (Join room (identity_device_id identity) (public_bundle identity) (b64_encode (identity_sign identity message))).

(** [forged_join_attempt] on the dialled socket. *)
Definition forged_join_attempt (identity peer : Identity) : smoke_sk string :=
  _ ←= sim_send_frame (Hello (identity_device_id identity) (public_bundle identity) PROTOCOL_VERSION);
  f ←= sim_recv_frame;
  nonce ←= ss_lift (hello_nonce f);
  join ←= ss_lift (forged_join identity peer nonce);
  _ ←= sim_send_frame join;
  g ←= sim_recv_frame;
  ss_lift match g with
          | ErrorFrame code _ => Ok code
          | g => Err (SmOther ("expected join error during forged-XFF probe, got " +:+ frame_debug g))
          end.

(** The loop over the results of the attempts, and the two checks. *)
Fixpoint probe_loop (results : list (result string SmokeError)) (bad_auth rate_limit : bool) : result (bool * bool) SmokeError :=
  match results with
  | [] => Ok (bad_auth, rate_limit)
  | r :: results =>
      code ←? r;
      if bool_decide (code = "bad_auth"%string) then probe_loop results true rate_limit
      else if bool_decide (code = "rate_limited"%string) then probe_loop results bad_auth true
      else Err (SmOther ("unexpected forged-XFF join result: " +:+ code))
  end.

Definition trigger_forged_xff_rate_limit (results : list (result string SmokeError)) : result unit SmokeError :=
  saw ←? probe_loop (take 5 results) false false;
  _ ←? require saw.1 "forged-XFF probe never reached join authentication";
  _ ←? require saw.2 "forged-XFF probe did not trigger a join rate limit";
  Ok tt.
End probe.

(** ** The probe against the relay *)

Section against_relay.
Context {T R M P : Type} {RT : Registry T R} {MS : MailboxSink M} {PH : PairingHandler T R P}.
Context {B64 : Base64} {S256 : Sha256} {Ed : Ed25519} {X : X25519} {JF : Json Frame}.
Implicit Types (sv : ServerState R M P) (cx : Connection).

(** One attempt: the two identities, the challenge the relay drew, its clock. *)
Record attempt := { at_identity : Identity; at_peer : Identity; at_drawn : bytes; at_clock : clock }.

(** The code the relay answers the join with. *)
Definition relay_code sv cx (drawn : bytes) (f : Frame) (clk : clock) : option string * ServerState R M P :=
  match f with
  | Join room device bundle sig_b64 =>
      match handle_join sv cx (Some drawn) room device bundle sig_b64 clk with
      | (Err (ErrorFrame code _), sv) => (Some code, sv)
      | (_, sv) => (None, sv)
      end
  | _ => (None, sv)
  end.

(** The attempts one after the other, each on a connection of the same address. *)
Fixpoint relay_codes sv cx (attempts : list attempt) : list (result string SmokeError) :=
  match attempts with
  | [] => []
  | a :: attempts =>
      match forged_join (at_identity a) (at_peer a) (at_drawn a) with
      | Err e => [Err e]
      | Ok f =>
          match relay_code sv cx (at_drawn a) f (at_clock a) with
          | (Some code, sv) => Ok code :: relay_codes sv cx attempts
          | (None, _) => [Err (SmOther "expected join error during forged-XFF probe")]
          end
      end
  end.

Definition at_room (a : attempt) : string := room_id (public_bundle (at_identity a)) (public_bundle (at_peer a)).

#[local] Opaque check_join rooms_join.

(** A forged join gets past everything but the registry: the signature, the
    device id and the shape are honest. *)
Lemma forged_join_code sv cx a f :
  forged_join (at_identity a) (at_peer a) (at_drawn a) = Ok f ->
  lookup_members (rs_registry (sv_rooms sv)) (at_room a) = [] ->
  relay_code sv cx (at_drawn a) f (at_clock a) =
    let '(allowed, counted) := check_join (sv_rate_limits sv) (cx_client_ip cx) (mono (at_clock a)) in
    (Some (if allowed then "bad_auth"%string else "rate_limited"%string), put_limits counted sv).
Proof.
  unfold forged_join. destruct (join_sig_msg _ _ _ _) as [message|] eqn:Em; [|done]. simpl. intros [= <-] Hr. unfold relay_code, handle_join.
  destruct (check_join _ _ _) as [[] counted]; simpl; [|done].
  rewrite b64_roundtrip, bool_decide_eq_true_2 by apply length_ed_sign. simpl. rewrite Em. unfold verify; simpl.
  rewrite ed_honest_key. unfold identity_sign. simpl. rewrite ed_honest_sig. simpl. rewrite bool_decide_eq_true_2 by done. simpl.
  unfold at_room in Hr. rewrite Hr. by rewrite bool_decide_eq_true_2.
Qed.

#[local] Transparent check_join rooms_join.

Lemma forged_join_built a :
  length (at_drawn a) = 32 -> exists f, forged_join (at_identity a) (at_peer a) (at_drawn a) = Ok f.
Proof.
  intros Hn. unfold forged_join.
  assert (exists m, join_sig_msg (at_drawn a) (at_room a) (identity_device_id (at_identity a))
                      (bundle_bytes (public_bundle (at_identity a))) = Ok m) as [m Hm].
  { eexists. apply push_fields_Ok. split; [|done]. unfold at_room.
    pose proof (proj1 (lower_hex_spec _ _) (room_id_ok (public_bundle (at_identity a)) (public_bundle (at_peer a)))) as [Hr _].
    pose proof (proj1 (lower_hex_spec _ _) (device_id_ok (ed_public (sign_secret (at_identity a))))) as [Hd _].
    repeat (apply Forall_cons; split); try done;
      unfold identity_device_id, bundle_bytes, u32_max; simpl;
      rewrite ?length_as_bytes, ?length_app, ?length_ed_public, ?length_x_public; lia. }
  unfold at_room in Hm. rewrite Hm. simpl. eauto.
Qed.

(** An entry read inside its window is read again after a join is counted. *)
Lemma current_window_put self ip w now :
  (0 < window self)%Z -> current_window self ip now = w ->
  current_window (put_window self ip (count_join w)) ip now = count_join w.
Proof.
  intros Hw H. unfold current_window in *. simpl. rewrite lookup_insert_eq. simpl.
  destruct (_ <=? _)%Z eqn:Hle in H; subst w; simpl in *; bool_to_prop; case_bool; try done; lia.
Qed.

Definition counted_code (m joined : Z) : string :=
  if (joined + 1 <=? m)%Z then "bad_auth" else "rate_limited".

(** The attempt is well formed, joins no room there is, and falls in the window [w]. *)
Definition probes sv cx (w : Window) (a : attempt) : Prop :=
  length (at_drawn a) = 32 /\ lookup_members (rs_registry (sv_rooms sv)) (at_room a) = [] /\
  current_window (sv_rate_limits sv) (cx_client_ip cx) (mono (at_clock a)) = w.

Lemma probes_counted sv cx w a :
  (0 < window (sv_rate_limits sv))%Z -> probes sv cx w a ->
  probes (put_limits (put_window (sv_rate_limits sv) (cx_client_ip cx) (count_join w)) sv) cx (count_join w) a.
Proof. intros Hw (Hn & Hr & Hc). split_and!; [done..|]. by apply current_window_put. Qed.

Lemma relay_codes_counted attempts sv cx w m :
  (0 < window (sv_rate_limits sv))%Z -> max_joins (sv_rate_limits sv) = m ->
  (0 <= joins w)%Z -> (joins w + Z.of_nat (length attempts) <= u32_max)%Z ->
  Forall (probes sv cx w) attempts ->
  relay_codes sv cx attempts = (fun i => Ok (counted_code m (joins w + Z.of_nat i))) <$> seq 0 (length attempts).
Proof.
  revert sv w; induction attempts as [|a attempts IH]; intros sv w Hw Hm H0 Hmax; [done|].
  intros [Ha Hrest]%Forall_cons. cbn [relay_codes length seq fmap list_fmap].
  destruct Ha as (Hn & Hr & Hc). destruct (forged_join_built a Hn) as [f Hf]. rewrite Hf, (forged_join_code sv cx a f Hf Hr).
  cbn [length] in Hmax. unfold u32_max in Hmax.
  assert (joins (count_join w) = joins w + 1)%Z as Hj by (simpl; apply Z.mod_small; lia).
  unfold check_join. rewrite Hc, Hj, Hm. f_equal.
  - unfold counted_code. by rewrite Z.add_0_r.
  - rewrite (IH _ (count_join w)); rewrite ?Hj; unfold u32_max; simpl sv_rate_limits; try done; try lia.
    + rewrite <-fmap_S_seq, <-list_fmap_compose. apply list_fmap_ext. intros i j _. unfold compose. do 2 f_equal. lia.
    + eapply Forall_impl; [exact Hrest|]. intros b. by apply probes_counted.
Qed.

(** The probe of the join limit answers for the relay: with five attempts
    from one address inside one rate window, on rooms nobody registered, the
    probe succeeds exactly when the joins already counted leave room for one
    more and for fewer than five.  So against a relay with the default of five
    joins it passes only after one to four joins of that address, and the two
    ways to fail are the two messages it prints. *)
Theorem forged_probe_exact sv cx w attempts :
  length attempts = 5 -> (0 < window (sv_rate_limits sv))%Z ->
  (0 <= joins w)%Z -> (joins w + 5 <= u32_max)%Z -> Forall (probes sv cx w) attempts ->
  trigger_forged_xff_rate_limit (relay_codes sv cx attempts) =
    if (max_joins (sv_rate_limits sv) <=? joins w)%Z
    then Err (SmOther "forged-XFF probe never reached join authentication")
    else if (joins w + 5 <=? max_joins (sv_rate_limits sv))%Z
    then Err (SmOther "forged-XFF probe did not trigger a join rate limit")
    else Ok tt.
Proof.
  intros Hlen Hw H0 Hmax Hall.
  rewrite (relay_codes_counted attempts sv cx w _ Hw eq_refl H0 ltac:(rewrite Hlen; exact Hmax) Hall), Hlen.
  generalize (max_joins (sv_rate_limits sv)) as m. intros m.
  unfold trigger_forged_xff_rate_limit, counted_code. cbn [seq fmap list_fmap take Z.of_nat].
  repeat case_bool; bool_to_prop; first [lia|reflexivity].
Qed.
End against_relay.

(** ** The live protocol *)

#[local] Instance InboundOutcome_eq_decision : EqDecision InboundOutcome.
Proof. solve_decision. Defined.

Record Endpoint := { ep_pairing : string; session_dir : string; history_dir : string }.

(** What happens around the run: the temporary directories, the secrets an
    identity is drawn from, the sockets the dials give, the draws of the offer,
    the nonce and the clock of each send and receive, which of two failing
    halves of a [try_join!] fails first, how the close ends, and whether half
    a second passes without a delivery at the end. *)
Record smoke_env := {
  e_temp_sender : result string string; e_temp_receiver : result string string;
  e_secrets_sender : bytes * bytes; e_secrets_receiver : bytes * bytes;
  e_dial_sender : result Socket string; e_dial_receiver : result Socket string; e_dial_rejoin : result Socket string;
  e_code : list nat; e_nonce_a : bytes; e_sealing : nat -> bytes; e_sent_at : nat -> Z; e_received_at : nat -> Z;
  e_sender_first : bool; e_close : result unit string; e_quiet : bool
}.

(** The sender's device and the receiver's. *)
Definition smoke (R : Type) : Type :=
  world event * world event -> outcome (result R SmokeError) * (world event * world event).

Definition sm_ret {R} (r : result R SmokeError) : smoke R := fun w => (Done r, w).
Definition sm_bind {Q R} (m : smoke Q) (k : Q -> smoke R) : smoke R := fun w =>
  match m w with
  | (Done (Ok a), w) => k a w
  | (Done (Err e), w) => (Done (Err e), w)
  | (Crashed, w) => (Crashed, w)
  end.
#[local] Notation "x ←= m ; k" := (sm_bind m (fun x => k)) (at level 20, m at level 100, k at level 200, only parsing).

Definition on_sender {R E} (conv : E -> SmokeError) (m : io event (result R E)) : smoke R := fun w =>
  let '(o, w1) := lift_err conv m w.1 in (o, (w1, w.2)).
Definition on_receiver {R E} (conv : E -> SmokeError) (m : io event (result R E)) : smoke R := fun w =>
  let '(o, w2) := lift_err conv m w.2 in (o, (w.1, w2)).

(** [try_join!] of a half on each device.  A failure ends the program and
    removes both devices' directories, so how far the other half came is not seen. *)
Definition try_join {Q R} (first : bool) (ma : smoke Q) (mb : smoke R) : smoke (Q * R) := fun w =>
  match ma w with
  | (Crashed, w) => (Crashed, w)
  | (Done ra, w) =>
      match mb w with
      | (Crashed, w) => (Crashed, w)
      | (Done rb, w) =>
          (Done match ra, rb with
                | Ok a, Ok b => Ok (a, b)
                | Ok _, Err e => Err e
                | Err e, Ok _ => Err e
                | Err e, Err f => Err (if first then e else f)
                end, w)
      end
  end.

Section live_protocol.
Context {JD : Json SessionDocument} {JH : Json HistoryItem} {JE : Json Envelope} {JF : Json Frame}.
Context {JI : Json IdentityDocument} {JQ : Json QrPayload} {JR : Json PairingRecord}.
Context {B64 : Base64} {S256 : Sha256} {Ed : Ed25519} {X : X25519} {A : Aead} {U : UuidText}.
Context (debug : bool) (frame_debug : Frame -> string) (outcome_debug : InboundOutcome -> string).

Definition endpoint_new (temp : result string string) (drawn : bytes * bytes) : io event (result Endpoint SmokeError) :=
  match temp with
  | Err e => mret (Err (SmOther e))
  | Ok root =>
      pairing ←! pairing_store_new (root +:+ "/pairing") @ SmPairing;
      _ ←! load_identity drawn pairing @ SmPairing;
      mret (Ok {| ep_pairing := pairing; session_dir := root +:+ "/session"; history_dir := root +:+ "/history" |})
  end.

Definition endpoint_session (self : Endpoint) (link : LiveLink) : io event (result Session SmokeError) :=
  store ←! session_store_new (session_dir self) @ SmSession;
  history ←! history_new (history_dir self) @ SmHistory;
  lift_err SmSession (session_new (l_identity link) (l_record link) store history).

(** A session with the socket of its link; a failure of either ends the run. *)
Definition send_content (nonce : bytes) (self : Session * Socket) (content : ClipContent) (now_ms : Z) :
    io event (result (Session * Socket) SmokeError) :=
  out ← send_clip nonce self.1 content now_ms;
  mret match out with
       | (Err e, _) => Err (SmSession e)
       | (Ok frame, session) =>
           match link_send frame self.2 with
           | (Ok _, s) => Ok (session, s)
           | (Err e, _) => Err (SmTransport e)
           end
       end.

Definition receive_live (self : Session * Socket) (now_ms : Z) : io event (result (Session * Socket) SmokeError) :=
  match link_recv frame_debug self.2 with
  | (Err e, _) => mret (Err (SmTransport e))
  | (Ok frame, s) =>
      match frame with
      | Clip room_id ciphertext_b64 _ mailbox =>
          match require (negb mailbox) "live frame was marked as mailbox" with
          | Err e => mret (Err e)
          | Ok _ =>
              out ← handle_clip self.1 room_id ciphertext_b64 mailbox now_ms;
              mret match out with
                   | (Err e, _) => Err (SmSession e)
                   | (Ok outcome, session) =>
                       _ ←? require (bool_decide (outcome = LiveApplied)) ("live outcome was " +:+ outcome_debug outcome);
                       Ok (session, s)
                   end
          end
      | _ => mret (Err (SmOther "expected live clip frame"))
      end
  end.

(** What the receiver's callback recorded. *)
Definition received : smoke (list event) := fun w => (Done (Ok (w_trace w.2)), w).

(** Both sessions with their sockets. *)
Definition peers : Type := (Session * Socket) * (Session * Socket).

(** One clip from the sender to the receiver, the [n]-th of the run. *)
Definition live_round (e : smoke_env) (n : nat) (content : ClipContent) (p : peers) : smoke peers :=
  sender ←= on_sender id (send_content (e_sealing e n) p.1 content (e_sent_at e n));
  receiver ←= on_receiver id (receive_live p.2 (e_received_at e n));
  sm_ret (Ok (sender, receiver)).

(** The offer, the claim and the confirmation of both sides. *)
Definition smoke_pairing (url : string) (e : smoke_env) (sender receiver : Endpoint) :
    smoke ((LiveLink * Socket) * (LiveLink * Socket)) :=
  client ←= on_sender SmTransport (client_connect frame_debug (e_secrets_sender e) (ep_pairing sender) url (e_dial_sender e));
  offer ←= sm_ret (map_err SmTransport
             (on_socket (pair_begin debug frame_debug client.1 (e_code e) (e_nonce_a e)) client.2));
  let qr := off_qr offer.1 in
  _ ←= sm_ret (require (bool_decide (qr_server qr = url)) "pairing QR changed the pinned relay URL");
  channels ←= try_join (e_sender_first e)
                (sm_ret (map_err SmTransport (on_socket (wait_peer frame_debug offer.1) offer.2)))
                (on_receiver SmTransport
                   (client_claim debug frame_debug (e_secrets_receiver e) (ep_pairing receiver) qr (e_dial_receiver e)));
  let sas := pending_sas (ch_pending channels.1.1) in
  _ ←= sm_ret (require (bool_decide (sas = pending_sas (ch_pending channels.2.1))) "pairing SAS did not match");
  _ ←= sm_ret (require (bool_decide (String.length sas = 6) && forallb is_ascii_digit (as_bytes sas))
                 "pairing SAS was not six digits");
  try_join (e_sender_first e)
    (on_sender SmTransport
       (confirm_pair debug frame_debug (e_secrets_sender e) channels.1.1 sas (ep_pairing sender) channels.1.2))
    (on_receiver SmTransport
       (confirm_pair debug frame_debug (e_secrets_receiver e) channels.2.1 sas (ep_pairing receiver) channels.2.2)).

Definition last_is_text (items : list ClipItem) (text : string) : bool :=
  match ci_content <$> last items with Some (CText content) => bool_decide (content = text) | _ => false end.

Definition live_text (e : smoke_env) (p : peers) : smoke peers :=
  p ←= live_round e 0 (CText "live container smoke") p;
  trace ←= received;
  _ ←= sm_ret (require (last_is_text (live_items trace) "live container smoke") "live text did not arrive byte-exact");
  sm_ret (Ok p).

Fixpoint live_images (e : smoke_env) (n : nat) (sizes : list nat) (p : peers) : smoke peers :=
  match sizes with
  | [] => sm_ret (Ok p)
  | size :: sizes =>
      let image := deterministic_image size in
      p ←= live_round e n (CImage image) p;
      trace ←= received;
      actual ←= sm_ret match ci_content <$> last (live_items trace) with
                       | Some (CImage data) => Ok data
                       | _ => Err (SmOther "expected received image callback")
                       end;
      _ ←= sm_ret (require (bool_decide (actual = image)) (pretty size +:+ "-byte image changed in transit"));
      _ ←= sm_ret (require (bool_decide (sha256_hex actual = sha256_hex image)) (pretty size +:+ "-byte image SHA-256 mismatch"));
      live_images e (S n) sizes p
  end.

Definition is_text (text : string) (item : HistoryItem) : bool :=
  match h_kind item with HkText content => bool_decide (content = text) | _ => false end.

(** Two clips while the receiver is away, and its return. *)
Definition offline (e : smoke_env) (n : nat) (receiver : Endpoint) (p : peers) : smoke unit :=
  _ ←= sm_ret (map_err (fun text => SmTransport (TWebSocket text)) (e_close e));
  sender ←= on_sender id (send_content (e_sealing e n) p.1 (CText "offline older") (e_sent_at e n));
  _ ←= on_sender id (send_content (e_sealing e (S n)) sender (CText "offline latest") (e_sent_at e (S n)));
  rejoined ←= on_receiver SmTransport
                (client_join debug frame_debug (e_secrets_receiver e) (ep_pairing receiver) (e_dial_rejoin e));
  clip ←= sm_ret (ok_or (bootstrap_clip rejoined.1) (SmOther "rejoin did not receive mailbox bootstrap"));
  out ←= on_receiver id (out ← handle_clip p.2.1 clip.1 clip.2 true (e_received_at e n);
                         mret match out with (Ok outcome, s) => Ok (outcome, s) | (Err e, _) => Err (SmSession e) end);
  _ ←= sm_ret (require (bool_decide (out.1 = MailboxDeferred))
                 ("mailbox outcome was " +:+ outcome_debug out.1 +:+ ", expected MailboxDeferred"));
  trace ←= received;
  let mailbox := mailbox_items trace in
  _ ←= sm_ret (require (bool_decide (length mailbox = 1)) "mailbox callback was not delivered exactly once");
  _ ←= sm_ret (require match ci_content <$> head mailbox with
                       | Some (CText text) => bool_decide (text = "offline latest"%string)
                       | _ => false
                       end "mailbox bootstrap was not the latest offline clip");
  let history := history_list (s_history out.2) in
  _ ←= sm_ret (require (existsb (fun item => bool_decide (h_source item = RemoteDeferred) && is_text "offline latest" item) history)
                 "latest mailbox clip was not stored as RemoteDeferred");
  _ ←= sm_ret (require (negb (existsb (is_text "offline older") history)) "older offline clip was unexpectedly bootstrapped");
  sm_ret (require (e_quiet e) "rejoin delivered more than one bootstrap frame").

(** [run_live_protocol] with the sizes of its images. *)
Definition run_live_protocol_with (sizes : list nat) (url : string) (e : smoke_env) : smoke unit :=
  sender ←= on_sender id (endpoint_new (e_temp_sender e) (e_secrets_sender e));
  receiver ←= on_receiver id (endpoint_new (e_temp_receiver e) (e_secrets_receiver e));
  links ←= smoke_pairing url e sender receiver;
  sender_session ←= on_sender id (endpoint_session sender links.1.1);
  receiver_session ←= on_receiver id (endpoint_session receiver links.2.1);
  p ←= live_text e ((sender_session, links.1.2), (receiver_session, links.2.2));
  p ←= live_images e 1 sizes p;
  offline e (1 + length sizes) receiver p.

Definition run_live_protocol : string -> smoke_env -> smoke unit :=
  run_live_protocol_with [2 * 1024 * 1024; 10 * 1024 * 1024].
End live_protocol.

(** ** What a pass means *)

(** When [m] passes with the receiver's trace at [tr], then [Q] of the result and of its trace. *)
Definition sees {R} (tr : list event) (m : smoke R) (Q : R -> list event -> Prop) : Prop :=
  forall w a w', w_trace w.2 = tr -> m w = (Done (Ok a), w') -> Q a (w_trace w'.2).

Section sees.
Implicit Types (tr : list event).

Lemma sees_ret {R} tr (r : result R SmokeError) Q : (forall a, r = Ok a -> Q a tr) -> sees tr (sm_ret r) Q.
Proof. intros H w a w' <- [= -> <-]. by apply H. Qed.

Lemma sees_bind {R S} tr (m : smoke R) (k : R -> smoke S) Q1 Q :
  sees tr m Q1 -> (forall a tr', Q1 a tr' -> sees tr' (k a) Q) -> sees tr (sm_bind m k) Q.
Proof.
  intros Hm Hk w b w' Hw. unfold sm_bind. destruct (m w) as [[[a|e]|] w1] eqn:E; [|done..].
  intros H. by apply (Hk a _ (Hm w a w1 Hw E) w1 b w').
Qed.

Lemma sees_mono {R} tr (m : smoke R) (Q1 Q : R -> list event -> Prop) :
  sees tr m Q1 -> (forall a tr', Q1 a tr' -> Q a tr') -> sees tr m Q.
Proof. intros Hm HQ w a w' Hw H. by apply HQ, (Hm w). Qed.

Lemma sees_sender {R E} tr (conv : E -> SmokeError) (m : io event (result R E)) :
  sees tr (on_sender conv m) (fun _ tr' => tr' = tr).
Proof. intros w a w' <-. unfold on_sender. destruct (lift_err conv m w.1) as [o w1]. by intros [= _ <-]. Qed.

Lemma sees_receiver {R E} tr (conv : E -> SmokeError) (m : io event (result R E)) Q :
  (forall w, w_trace w = tr -> wpc m (fun r w' => forall a, r = Ok a -> Q a (w_trace w')) (fun _ => True) w) ->
  sees tr (on_receiver conv m) Q.
Proof.
  intros Hm w a w' Hw. specialize (Hm w.2 Hw). unfold on_receiver, lift_err, wpc in *. unfold mbind, io_bind in *.
  destruct (m w.2) as [[[b|e]|] w2]; simpl; [|done..]. intros [= <- <-]. by apply Hm.
Qed.

Lemma sees_silent {R E} tr (conv : E -> SmokeError) (m : io event (result R E)) :
  silent m -> sees tr (on_receiver conv m) (fun _ tr' => tr' = tr).
Proof. intros Hm. apply sees_receiver. intros w Hw. apply silent_trace; [done| |done]. intros r w' -> a _. done. Qed.

Lemma sees_join {R S} tr first (ma : smoke R) (mb : smoke S) :
  sees tr ma (fun _ tr' => tr' = tr) -> sees tr mb (fun _ tr' => tr' = tr) ->
  sees tr (try_join first ma mb) (fun _ tr' => tr' = tr).
Proof.
  intros Ha Hb w [a b] w' Hw. unfold try_join. destruct (ma w) as [[[a1|e1]|] w1] eqn:E1; [| |done].
  - destruct (mb w1) as [[[b1|e2]|] w2] eqn:E2; [|done..]. intros [= -> -> <-].
    apply (Hb w1 b w2); [by apply (Ha w a w1)|done].
  - by destruct (mb w1) as [[[]|] w2].
Qed.

(** A check that passes. *)
Lemma sees_require tr b message : sees tr (sm_ret (require b message)) (fun _ tr' => tr' = tr /\ b = true).
Proof. apply sees_ret. intros a. unfold require. by destruct b. Qed.
End sees.

Section pass.
Context {JD : Json SessionDocument} {JH : Json HistoryItem} {JE : Json Envelope} {JF : Json Frame}.
Context {JI : Json IdentityDocument} {JQ : Json QrPayload} {JR : Json PairingRecord}.
Context {B64 : Base64} {S256 : Sha256} {Ed : Ed25519} {X : X25519} {A : Aead} {U : UuidText}.
Context (debug : bool) (frame_debug : Frame -> string) (outcome_debug : InboundOutcome -> string).
Implicit Types (tr : list event).

Lemma silent_endpoint_new temp drawn : silent (endpoint_new temp drawn).
Proof.
  unfold endpoint_new. destruct temp; [|apply inside_ret].
  apply inside_try; [apply inside_try; [auto with inside|intros _; apply inside_ret]|]. intros root.
  apply inside_try; [apply silent_load_identity|]. intros i. apply inside_ret.
Qed.

Lemma silent_confirm drawn pending sas root : silent (confirm (T := event) debug drawn pending sas root).
Proof.
  unfold confirm. destruct (negb _); [apply inside_ret|]. apply inside_try; [|intros _; apply inside_ret].
  apply inside_try; [apply silent_load_identity|]. intros i. destruct (_ || _); [apply inside_ret|].
  destruct (validate_record _ _ _); [|apply inside_ret]. destruct (to_vec _); [|apply inside_ret].
  apply inside_bind; [auto with inside|]. intros suffix.
  apply inside_try; [|intros _; apply inside_lift_err; auto with inside].
  apply silent_with_pending, inside_lift_err, silent_write_sync_rename.
Qed.

Lemma silent_claim drawn root qr d : silent (client_claim (T := event) debug frame_debug drawn root qr d).
Proof.
  apply inside_try; [apply silent_load_identity|]. intros i. destruct (claimer_start _ _ _); [|apply inside_ret].
  apply inside_try; [apply silent_client_connect|]. intros c. apply inside_ret.
Qed.

Lemma silent_session_new identity record root h : silent (session_new identity record root h).
Proof.
  unfold session_new. destruct (_ || _); [apply inside_ret|]. destruct (session_keys _ _); [|apply inside_ret].
  assert (forall key gen, silent (load_direction root key gen)) as Hl.
  { intros key gen. apply inside_try; [apply inside_bind; [auto with inside|]; intros r; apply inside_ret|].
    intros doc. apply inside_ret. }
  apply inside_try; [apply Hl|]. intros send. apply inside_try; [apply Hl|]. intros recv.
  case_bool_decide; [apply inside_ret|]. apply inside_bind; [by eapply inside_silent, inside_replay|].
  intros [[]]; [|apply inside_ret]. apply inside_try; [apply silent_commit|]. intros _. apply inside_ret.
Qed.

Lemma silent_endpoint_session self link : silent (endpoint_session self link).
Proof.
  apply inside_try; [apply inside_try; [auto with inside|intros _; apply inside_ret]|]. intros root.
  apply inside_try; [eapply inside_silent, inside_history_new|]. intros h.
  apply inside_lift_err, silent_session_new.
Qed.

(** With the recording callback a clip is either left alone or recorded once. *)
Lemma handle_clip_recorded s room ct mailbox now w :
  wpc (handle_clip s room ct mailbox now) (fun out w' =>
    (out.1 = Ok LiveApplied -> exists item, w_trace w' = w_trace w ++ [Fired false item]) /\
    (out.1 = Ok MailboxDeferred -> exists item, w_trace w' = w_trace w ++ [Fired true item])) (fun _ => True) w.
Proof.
  unfold handle_clip, handle_clip_with_fault. destruct (authenticate s room ct) as [item|]; [|by apply wpc_ret].
  destruct (existsb _ _); [by apply wpc_ret|]. destruct (_ <=? _)%Z; [by apply wpc_ret|]. apply wpc_st_try.
  eapply wpc_mono; [apply commit_recv_quiet| |done]. intros [[[]|e] s1] w1 [E1 _]; [|done]. simpl in *.
  apply wpc_st_try, wpc_bind. apply silent_trace; [eapply inside_silent, inside_history_add| |done].
  intros [[[]|e] h] w2 E2; apply wpc_ret; simpl; [|done]. apply wpc_st_try.
  eapply wpc_mono; [apply commit_recv_quiet| |done]. intros [[[]|e] s3] w3 [E3 _]; [|done]. simpl in *.
  rewrite <- E1, <- E2, <- E3. unfold apply_clip, invoke_callback.
  destruct (is_fresh _ _ _); apply wpc_bind, wpc_bind; unfold get_trace; apply wpc_bind, wpc_emit, wpc_ret, wpc_ret;
    (split; [intros [=]|intros [=]]); by exists item.
Qed.

Lemma receive_live_recorded tr p now :
  sees tr (on_receiver id (receive_live frame_debug outcome_debug p now))
    (fun _ tr' => exists item, tr' = tr ++ [Fired false item]).
Proof.
  apply sees_receiver. intros w <-. unfold receive_live. destruct (link_recv _ _) as [[f|] s]; [|by apply wpc_ret].
  destruct f; try by apply wpc_ret. destruct (require _ _); [|by apply wpc_ret]. apply wpc_bind.
  eapply wpc_mono; [apply handle_clip_recorded| |done]. intros [[out|] s'] w' [Hl _]; apply wpc_ret; [|done].
  intros b. unfold require. case_bool_decide as Ho; [|done]. intros _. apply Hl. simpl. by rewrite Ho.
Qed.

Lemma live_round_recorded tr e n c p :
  sees tr (live_round frame_debug outcome_debug e n c p) (fun _ tr' => exists item, tr' = tr ++ [Fired false item]).
Proof.
  eapply sees_bind; [apply sees_sender|]. intros a tr1 ->. eapply sees_bind; [apply receive_live_recorded|].
  intros b tr2 Ht. by apply sees_ret.
Qed.

(** The receiver's callback was called for live clips with these contents. *)
Definition lived (contents : list ClipContent) tr : Prop :=
  exists live, tr = Fired false <$> live /\ ci_content <$> live = contents.

Lemma live_items_lived live : live_items (Fired false <$> live) = live.
Proof. unfold live_items. induction live as [|i live IH]; [done|]. simpl. by rewrite <- IH at 2. Qed.

Lemma mailbox_items_lived live item : mailbox_items ((Fired false <$> live) ++ [Fired true item]) = [item].
Proof. unfold mailbox_items. by induction live. Qed.

Lemma lived_snoc contents tr item : lived contents tr -> lived (contents ++ [ci_content item]) (tr ++ [Fired false item]).
Proof. intros (live & -> & <-). exists (live ++ [item]). by rewrite !fmap_app. Qed.

(** A round, with the check that reads back the last live clip. *)
Lemma last_lived contents tr : lived contents tr -> ci_content <$> last (live_items tr) = last contents.
Proof. intros (live & -> & <-). by rewrite live_items_lived, fmap_last. Qed.

Lemma sees_received tr : sees tr received (fun a tr' => a = tr /\ tr' = tr).
Proof. by intros w a w' <- [= <- <-]. Qed.

Lemma live_text_lived tr e p :
  lived [] tr -> sees tr (live_text frame_debug outcome_debug e p) (fun _ => lived [CText "live container smoke"]).
Proof.
  intros Hl. eapply sees_bind; [apply live_round_recorded|]. intros p' tr1 [item ->].
  eapply sees_bind; [apply sees_received|]. intros trace tr2 [-> ->].
  eapply sees_bind; [apply sees_require|]. intros _ tr3 [-> Hc]. apply sees_ret. intros _ _.
  apply (lived_snoc _ _ item) in Hl. unfold last_is_text in Hc. rewrite (last_lived _ _ Hl) in Hc. simpl in Hc, Hl.
  destruct (ci_content item); [|done]. bool_to_prop. by subst.
Qed.

Lemma live_images_lived e sizes contents tr n p :
  lived contents tr ->
  sees tr (live_images frame_debug outcome_debug e n sizes p)
    (fun _ => lived (contents ++ ((fun size => CImage (deterministic_image size)) <$> sizes))).
Proof.
  revert contents tr n p; induction sizes as [|size sizes IH]; intros contents tr n p Hl; cbn [live_images].
  { apply sees_ret. intros _ _. simpl. by rewrite app_nil_r. }
  eapply sees_bind; [apply live_round_recorded|]. intros p' tr1 [item ->].
  eapply sees_bind; [apply sees_received|]. intros trace tr2 [-> ->].
  apply (lived_snoc _ _ item) in Hl. rewrite (last_lived _ _ Hl), last_snoc.
  eapply sees_bind.
  { apply (sees_ret _ _ (fun a tr' => ci_content item = CImage a /\ tr' = tr ++ [Fired false item])).
    intros a. destruct (ci_content item); [done|]. by intros [= ->]. }
  intros actual tr2 [Hi ->]. eapply sees_bind; [apply sees_require|]. intros _ tr3 [-> Ha]. bool_to_prop. subst actual.
  eapply sees_bind; [apply sees_require|]. intros _ tr4 [-> _]. rewrite Hi in Hl.
  eapply sees_mono; [by apply IH|]. intros a tr'. cbn [fmap list_fmap]. by rewrite <- (assoc_L (++)).
Qed.

Lemma smoke_pairing_quiet tr url e sender receiver :
  sees tr (smoke_pairing debug frame_debug url e sender receiver) (fun _ tr' => tr' = tr).
Proof.
  assert (forall R (r : result R SmokeError), sees tr (sm_ret r) (fun _ tr' => tr' = tr)) as Hr by (intros; by apply sees_ret).
  eapply sees_bind; [apply sees_sender|]. intros client ? ->. eapply sees_bind; [apply Hr|]. intros offer ? ->.
  eapply sees_bind; [apply Hr|]. intros _ ? ->.
  eapply sees_bind; [apply sees_join; [apply Hr|apply sees_silent, silent_claim]|]. intros channels ? ->.
  eapply sees_bind; [apply Hr|]. intros _ ? ->. eapply sees_bind; [apply Hr|]. intros _ ? ->.
  apply sees_join; [apply sees_sender|apply sees_silent]. apply inside_try; [apply silent_confirm|].
  intros record. apply inside_ret.
Qed.

(** The return: one mailbox clip, the latest, after the live ones. *)
Definition returned (contents : list ClipContent) tr : Prop :=
  exists live item, tr = (Fired false <$> live) ++ [Fired true item] /\
    ci_content <$> live = contents /\ ci_content item = CText "offline latest".

Lemma offline_returned contents tr e n receiver p :
  lived contents tr -> sees tr (offline debug frame_debug outcome_debug e n receiver p) (fun _ => returned contents).
Proof.
  intros (live & -> & Hc). set (tr := Fired false <$> live).
  eapply sees_bind; [by apply (sees_ret _ _ (fun _ tr' => tr' = tr))|]. intros _ ? ->.
  eapply sees_bind; [apply sees_sender|]. intros sender ? ->. eapply sees_bind; [apply sees_sender|]. intros _ ? ->.
  eapply sees_bind; [apply sees_silent, silent_client_join|]. intros rejoined ? ->.
  eapply sees_bind; [by apply (sees_ret _ _ (fun _ tr' => tr' = tr))|]. intros clip ? ->.
  eapply sees_bind.
  { apply (sees_receiver _ _ _ (fun out tr' => out.1 = MailboxDeferred -> exists item, tr' = tr ++ [Fired true item])).
    intros w Hw. apply wpc_bind. eapply wpc_mono; [apply handle_clip_recorded| |done].
    intros [[o|] s'] w' [_ Hm]; apply wpc_ret; [|done]. intros [o' s''] [= <- <-]. simpl in *. intros ->. rewrite <- Hw. by apply Hm. }
  intros out tr1 Hout. eapply sees_bind; [apply sees_require|]. intros _ ? [-> Ho]. bool_to_prop.
  destruct (Hout Ho) as [item ->]. eapply sees_bind; [apply sees_received|]. intros trace ? [-> ->].
  unfold tr. rewrite mailbox_items_lived. eapply sees_bind; [apply sees_require|]. intros _ ? [-> _].
  eapply sees_bind; [apply sees_require|]. intros _ ? [-> Hi]. simpl in Hi.
  eapply sees_bind; [apply sees_require|]. intros _ ? [-> _]. eapply sees_bind; [apply sees_require|]. intros _ ? [-> _].
  eapply sees_mono; [apply sees_require|]. intros _ ? [-> _]. exists live, item. split_and!; [done..|].
  destruct (ci_content item); [|done]. bool_to_prop. by subst.
Qed.

(** C28. A pass of the smoke test means that every clip arrived: the receiver's
    callback was called for the live text and for each image, in the order
    they were sent, each once and with the bytes that were sent, then once for
    the clip of the mailbox, the latest of the two sent while it was away, and
    for nothing else.  The checks of the program look at the last call only;
    that nothing came between is proved of the session. *)
Theorem smoke_pass_means sizes url e w w' :
  w_trace w.2 = [] ->
  run_live_protocol_with debug frame_debug outcome_debug sizes url e w = (Done (Ok tt), w') ->
  exists live item,
    w_trace w'.2 = (Fired false <$> live) ++ [Fired true item] /\
    ci_content <$> live = CText "live container smoke" :: ((fun size => CImage (deterministic_image size)) <$> sizes) /\
    ci_content item = CText "offline latest".
Proof.
  intros Hw. generalize tt as u. intros u. revert w u w' Hw. change (sees [] (run_live_protocol_with debug frame_debug outcome_debug sizes url e)
    (fun _ => returned (CText "live container smoke" :: ((fun size => CImage (deterministic_image size)) <$> sizes)))).
  eapply sees_bind; [apply sees_sender|]. intros sender ? ->.
  eapply sees_bind; [apply sees_silent, silent_endpoint_new|]. intros receiver ? ->.
  eapply sees_bind; [apply smoke_pairing_quiet|]. intros links ? ->. eapply sees_bind; [apply sees_sender|]. intros sa ? ->.
  eapply sees_bind; [apply sees_silent, silent_endpoint_session|]. intros sb ? ->.
  eapply sees_bind; [apply live_text_lived; by exists []|]. intros p ? Hl.
  eapply sees_bind; [exact (live_images_lived _ _ _ _ _ _ Hl)|]. intros p' ? Hl'. by apply offline_returned.
Qed.
End pass.

(** [main]: [tls] is how reading the authority and configuring TLS ended, an
    attempt the socket its dial gave and the two identities it draws. *)
Definition sim_main {JD : Json SessionDocument} {JH : Json HistoryItem} {JE : Json Envelope} {JF : Json Frame}
    {JI : Json IdentityDocument} {JQ : Json QrPayload} {JR : Json PairingRecord}
    {B64 : Base64} {S256 : Sha256} {Ed : Ed25519} {X : X25519} {A : Aead} {U : UuidText}
    (debug : bool) (frame_debug : Frame -> string) (outcome_debug : InboundOutcome -> string)
    (args : list string) (tls : result unit SmokeError) (e : smoke_env)
    (attempts : list (result Socket SmokeError * Identity * Identity)) : smoke unit :=
  parsed ←= sm_ret (checked_args args);
  _ ←= sm_ret tls;
  _ ←= run_live_protocol debug frame_debug outcome_debug parsed.1 e;
  sm_ret (trigger_forged_xff_rate_limit
    ((fun '(dialled, identity, peer) => s ←? dialled; (forged_join_attempt frame_debug identity peer s).1) <$> attempts)).

Module SimToy.
Import Toy ProtocolToy CryptoToy PairingToy SessionToy.
#[local] Existing Instances toy_base64 toy_sha256 toy_ed25519 toy_x25519 toy_aead toy_uuid.
#[local] Existing Instances ProtocolToy.frame_json document_json HistoryToy.history_json identity_json record_json.
#[local] Program Instance sim_qr_countable : Countable QrPayload :=
  inj_countable (fun q => (qr_server q, qr_code q, sign_pk (qr_bundle q), dh_pk (qr_bundle q), qr_nonce_a q))
    (fun '(s, c, k, d, n) => Some {| qr_server := s; qr_code := c; qr_bundle := {| sign_pk := k; dh_pk := d |}; qr_nonce_a := n |}) _.
Next Obligation. by intros [? ? [] ?]. Qed.
#[local] Instance qr_json_codec : Json QrPayload := toy_json QrPayload.

Definition device (n : nat) : world event :=
  World (Disk ∅ ∅) [] (fun k => "01234567-89ab-4cde-8f01-23456789" +:+ pretty (1000 * n + 100 + k)) 0 [].

(** The envelopes of the run, and a codec that knows them by their sequence numbers. *)
Definition sent (seq draw : Z) (content : ClipContent) : Envelope :=
  {| v := PROTOCOL_VERSION; kind := (raw_content content).1; item_id := "01234567-89ab-4cde-8f01-23456789" +:+ pretty draw;
     env_seq := seq; env_ts_ms := 1000; content_b64 := b64_encode (raw_content content).2 |}.
Definition first_text : Envelope := sent 1 1103 (CText "live container smoke").
Definition image : Envelope := sent 2 1106 (CImage (deterministic_image 3)).
Definition older : Envelope := sent 3 1110 (CText "offline older").
Definition latest : Envelope := sent 4 1113 (CText "offline latest").

Definition letter (a : Envelope) : result bytes string :=
  if decide (a = first_text) then Ok ["1"%byte] else if decide (a = image) then Ok ["2"%byte]
  else if decide (a = older) then Ok ["3"%byte] else if decide (a = latest) then Ok ["4"%byte] else Err "unknown".
Definition of_letter (b : bytes) : result Envelope string :=
  match b with
  | "1"%byte :: _ => Ok first_text | "2"%byte :: _ => Ok image | "3"%byte :: _ => Ok older | "4"%byte :: _ => Ok latest
  | _ => Err "unknown"
  end.
Lemma of_letter_letter a b rest : letter a = Ok b -> of_letter (b ++ rest) = Ok a /\ ("010"%byte ∉ b) /\ b <> [].
Proof.
  unfold letter. repeat case_decide; subst; intros [= <-]; (split_and!; [done| |done]);
    intros Hin; apply list_elem_of_singleton in Hin; discriminate.
Qed.
#[local] Program Instance letter_json : Json Envelope := {|
  to_vec := letter; to_vec_pretty := letter; from_slice := of_letter |}.
Next Obligation. intros a b H. rewrite <- (app_nil_r b). by apply of_letter_letter. Qed.
Next Obligation. intros a b H. rewrite <- (app_nil_r b). by apply of_letter_letter. Qed.
Next Obligation. intros a b H. by apply of_letter_letter. Qed.
Next Obligation. intros a b H. by apply (of_letter_letter a b []). Qed.

Definition clip (a : Envelope) (mailbox : bool) : Frame :=
  Clip (rec_room_id (pair_record alice bob))
    match rbind (encode_envelope a) (fun b => map_err (fun _ => BadFrame "") (seal sample_nonce (key_send (keys_of alice bob))
            (aad (rec_room_id (pair_record alice bob)) (identity_fp alice) (identity_fp bob)) b)) with
    | Ok sealed => b64_encode sealed
    | Err _ => ""
    end "" mailbox.

Definition says (frames : list Frame) : result Socket string :=
  Ok {| s_in := PairingClientToy.text_of <$> frames; s_out := []; s_log := [] |}.
Definition hello_ok : Frame := HelloOk PROTOCOL_VERSION (b64_encode (replicate 32 "n"%byte)).

Definition env : smoke_env := {|
  e_temp_sender := Ok "a"; e_temp_receiver := Ok "b";
  e_secrets_sender := (replicate 32 "a"%byte, replicate 32 "b"%byte);
  e_secrets_receiver := (replicate 32 "c"%byte, replicate 32 "d"%byte);
  e_dial_sender := says [hello_ok; PairOfferOk; PairPeer (public_bundle bob); JoinOk; MailboxEmpty];
  e_dial_receiver := says [hello_ok; PairPeer (public_bundle alice); JoinOk; MailboxEmpty;
    clip first_text false; clip image false];
  e_dial_rejoin := says [hello_ok; JoinOk; clip latest true];
  e_code := [1; 2; 3; 4; 5; 6]; e_nonce_a := replicate 16 "q"%byte; e_sealing := fun _ => sample_nonce;
  e_sent_at := fun _ => 1000%Z; e_received_at := fun _ => 1000%Z; e_sender_first := true; e_close := Ok tt; e_quiet := true |}.

Definition run : outcome (result unit SmokeError) * (world event * world event) :=
  run_live_protocol_with false (fun _ => "") (fun _ => "") [3] "wss://relay" env (device 1, device 2).

Lemma smoke_pass_means_witness :
  exists live item,
    w_trace run.2.2 = (Fired false <$> live) ++ [Fired true item] /\
    ci_content <$> live = [CText "live container smoke"; CImage (deterministic_image 3)] /\
    ci_content item = CText "offline latest".
Proof.
  assert (run.1 = Done (Ok tt)) as Hrun by (vm_compute; reflexivity).
  apply (smoke_pass_means false (fun _ => "") (fun _ => "") [3] "wss://relay" env (device 1, device 2) run.2).
  - reflexivity.
  - change (run = (Done (Ok tt), run.2)). rewrite <- Hrun. apply surjective_pairing.
Defined.

(** A relay that has counted three joins of the address, as the live protocol leaves it. *)
Definition ip : IpAddr := IpV4 (replicate 4 x01).
Definition three : Window := {| started := 5; joins := 3; w_bytes := 0 |}.
Definition relay : ServerState InMemoryRegistry NoopMailboxSink PairingUnavailable :=
  let sv := server_new {| trusted_proxy := None; limits := limits_default |} {| mem_rooms := ∅ |} Unavailable Noop in
  put_limits (put_window (sv_rate_limits sv) ip three) sv.
Definition prober : Connection :=
  {| cx_outbox := 1; cx_client_ip := ip; cx_id := 7; phase := PhaseReady None (public_bundle alice); joined := None |}.
Definition at_time (now : Z) : attempt :=
  {| at_identity := alice; at_peer := bob; at_drawn := replicate 32 "n"%byte; at_clock := {| mono := now; unix := now |} |}.

Lemma forged_probe_exact_witness :
  trigger_forged_xff_rate_limit (relay_codes (T := unit) relay prober [at_time 10; at_time 11; at_time 12; at_time 13; at_time 14]) = Ok tt.
Proof.
  refine (forged_probe_exact (T := unit) relay prober three [at_time 10; at_time 11; at_time 12; at_time 13; at_time 14] _ _ _ _ _).
  - reflexivity.
  - vm_compute. reflexivity.
  - vm_compute. discriminate.
  - vm_compute. discriminate.
  - repeat (apply Forall_cons; split); try apply Forall_nil_2; (split; [reflexivity|]); (split; vm_compute; reflexivity).
Defined.
End SimToy.
